(* ===== verification/_CoqProject ===== *)
-Q . S2P
Prelude.v
Base64.v
Exceptions.v
Domain.v
Store.v
Effects.v
Tables.v
JobRepo.v
Repos.v
PostCommit.v
Protocols.v
Invariants.v
Steps.v
Text.v
Config.v
JobService.v
CreationSteps.v
Rabbit.v
Handlers.v
Publisher.v
Worker.v
ClaimSteps.v
Recovery.v
WorkerSpec.v
RecoverySpec.v
PublisherSpec.v
TextSpec.v
ServiceSpec.v
JsonText.v
Iso.v
ListJobs.v
ListSpec.v
Redis.v
RateLimiter.v
ListCache.v
ListCacheSpec.v
EventStream.v
StreamSpec.v
Auth.v
Http.v
Logging.v
Process.v
ProcessSpec.v
App.v
Url.v
LocalDatabases.v
Schema.v
Migration.v
MigrationEnv.v
Freshness.v
Staleness.v
AuthSpec.v
System.v
Requests.v
Liveness.v
Samples.v
UowContracts.v
JobWrites.v
ClaimRaces.v
ClaimProgress.v
SystemSafety.v
ServiceContracts.v
WorkerContracts.v
DeliveryContracts.v
CoreContracts.v
ListingContracts.v
RedisContracts.v
CreationRate.v
InterleavedRate.v
StreamContracts.v
AuthContracts.v
HttpContracts.v
LogContracts.v
ProcessContracts.v
AppContracts.v
FreshnessContracts.v
SchemaContracts.v
RequestContracts.v
