(* ===== verification/Prelude.v ===== *)
(** * A verification of the asynchronous job service

    The program under [src/] is a FastAPI service that accepts jobs, stores them
    in PostgreSQL, dispatches them over RabbitMQ to workers and recovers those
    whose worker died.  This library models it as executable Rocq functions and
    proves what makes it correct.

    ** The parts of the program and how they interact

    - [app/application/services/jobs.py] (API side) inserts a job, a log line and
      an outbox event in one transaction, or cancels a job.
    - [app/workers/outbox_publisher.py] takes due outbox events, marks the job as
      queued, publishes a message to the [jobs.execute] queue and marks the event
      as published.
    - [app/workers/job_worker.py] consumes messages, claims the job under a fresh
      execution token and a lease, runs its handler and settles the result:
      completed, cancelled, failed, or queued again with a delayed event.
    - [app/workers/stale_running_recovery.py] queues again, or fails, the jobs
      whose lease expired.
    They share the tables through the repositories ([app/repositories/]) inside
    Units of Work ([app/db/uow.py]), and tell Redis about committed changes
    through the post-commit notifiers ([app/workers/post_commit.py]).  Around them:
    - [app/infrastructure/redis/]: the limit of creations per user and window, the
      cached pages of the listing, and the publication of status events;
    - [app/application/services/auth.py] and [app/core/security.py]: users, passwords
      and access tokens;
    - [app/api/]: request schemas, routes, error responses and the stream of events
      of a job; [app/core/logging.py]: the log lines;
    - [app/main.py], [app/db/session.py] and [app/cli/]: the processes that put these
      together, serve and close them; [app/models/], [app/db/naming.py] and
      [alembic/versions/]: the tables.

    ** How it is modelled

    A coroutine is a function [M A] from a [World] to an outcome (a value or an
    exception) and a [World] (file [Effects]).  The world (file [Store]) holds
    the committed database, the open Units of Work, the readings of the clock,
    the supply of identifiers, the queue, Redis, and the behaviour of the outside: how the
    next COMMITs and publications end ([w_commit_plan], [w_publish_plan]: done,
    refused, or done without acknowledgement), what other processes commit at
    each await ([w_env]), and which rows they hold locked ([w_locked]).  A Unit
    of Work sees its own rows over the committed ones; leaving it without a
    COMMIT or with an exception drops them.

    A process of [app/cli/] is a function [P A] over the calls it makes on libraries
    and the operating system, any of which may raise (file [Process]); the coroutines
    it runs are those above, on the world it carries.

    Identifiers are integers, times are microseconds since the epoch, strings are
    those of code points below 256.  Numbers are unbounded, as in Python.
    Durations of sleep jobs are counted in quarters of a second, which are exact.

    ** The files

    - [Prelude]: values, strings, tactics, hint databases.
    - [Exceptions], [Domain]: [app/core/exceptions.py], [app/domain/],
      [app/models/], [app/application/dto.py]: errors, enumerations,
      [JobStatePolicy], rows, DTOs.
    - [Store], [Effects], [Tables]: the world, the Unit of Work, the meaning of the
      SQL statements (selection, order, limit, guarded update, insertion with
      constraints) and a weakest-precondition calculus ([wp], [wp_run]).
    - [JobRepo], [Repos]: [SqlAlchemyJobRepository], [SqlAlchemyUserRepository],
      [SqlAlchemyJobLogRepository], [SqlAlchemyOutboxRepository], a definition for
      each method.
    - [Protocols]: the [Protocol] classes of the repositories and of the Unit of Work
      as interfaces, with the SQLAlchemy classes as instances; [UowContracts] and
      [JobWrites]: what the Unit of Work and the guarded UPDATEs promise to the services.
    - [PostCommit]: the protocols of the rate limiter, the list cache and the
      notifiers as classes with laws, and the notifiers as instances.
    - [Text], [TextSpec]: [json.dumps] with sorted keys and SHA-256, and their
      properties; [Base64], [JsonText], [Iso]: base 64, [json.loads], and the texts of
      datetimes and UUIDs, each read back to what was written.
    - [Config]: [Settings].
    - [JobService], [Handlers], [Rabbit], [Publisher], [Worker], [Recovery]: the
      components above, method by method, under the source's names.
    - [ListJobs]: [JobService.list_jobs] with its cursors; [ListSpec]: the listing it
      pages through, and a client that fetches all pages ([fetch_all]).
    - [Redis]: the commands sent to Redis on its keys, and calls that may fail;
      [RateLimiter] and [ListCache]: [RedisCreateJobRateLimiter] and
      [RedisJobListCache], as instances of the interfaces of [PostCommit];
      [ListCacheSpec]: pages survive the cache, versions keep pages apart.
    - [Auth]: [AuthService], [JwtTokenManager].
    - [EventStream]: the subscriber of [job_status_pubsub.py] and [stream_job_events],
      generator, timer and texts; [StreamSpec]: what a stream carries, and a client
      that reads it.
    - [Http]: schemas, dependencies, routes, error handlers, middleware; [Logging]:
      [JsonLogFormatter].
    - [Process]: the programs of [app/cli/] but one, and [ProcessSpec]: which sequences
      of calls a program can make; [App]: [get_settings], [app/db/session.py],
      [lifespan] and the dependencies that read the state it sets; [Url] and
      [LocalDatabases]: [prepare_local_databases.py] with [urlsplit].
    - [Schema], [Migration] and [MigrationEnv]: the declared tables with their
      conventional names, the migration as operations on a catalogue, and
      [alembic/env.py], which runs it.
    - [Freshness] and [Staleness]: which keys of Redis an operation writes, when no
      page of a scope can be found, and runs of list requests on one Redis.
    - [Invariants]: the well-formed database [db_ok], what a job may go through
      [evolves], the coverage of waiting jobs [covered], the origin of execution
      tokens [tokens_from], and how each statement preserves them.
    - [Steps]: what a whole operation leaves behind ([quiet], [atomic], [ends]).
    - [WorkerSpec], [RecoverySpec], [PublisherSpec], [ServiceSpec], [AuthSpec]: each
      component's transactions as relations between databases ([claim_tx], [settle_tx],
      [recover_batch], [publish_tx], [create_tx], [cancel_tx], [user_tx]), the proofs
      that the code refines them, and that they preserve the invariants.
    - [System]: the step relation of the whole service - job requests, registrations and
      the administrator command, publisher, any number of workers, recovery, crashes of
      workers, redeliveries - its invariant and reachability; [Liveness]: runs that bring
      a job to its end; [Requests]: the endpoints of the HTTP API as steps and reads of it.
    - [CreationRate]: the rate limiter and job creation together; [CreationSteps]:
      [create_job] cut at its awaits, alone the same function, and [InterleavedRate]: the
      steps of any number of creations in any order.
    - [ClaimSteps]: [_claim_execution] cut at its statements, alone the same function,
      with the row locks it takes; [ClaimRaces]: the claims of any number of workers,
      statement by statement; [ClaimProgress]: that none waits for ever.
    - [Samples]: instances of the interfaces and a sample run.
    - [SystemSafety], [ServiceContracts], [WorkerContracts], [DeliveryContracts],
      [CoreContracts], [ListingContracts], [RedisContracts], [StreamContracts],
      [AuthContracts], [HttpContracts], [LogContracts], [ProcessContracts],
      [AppContracts], [FreshnessContracts], [SchemaContracts], [RequestContracts],
      [UowContracts], [JobWrites], [ClaimRaces], [ClaimProgress] and [InterleavedRate]: the
      properties, each with its claim id and, where it has hypotheses, a witness at a
      concrete input; contracts without a claim id complete them.

    ** What the properties say

    - [SystemSafety]: in every reachable state no accepted job is lost, every job
      can still finish, the limit of running jobs holds, rows are well formed,
      histories follow [JobStatePolicy], keys are unique, and a worker that lost
      its token never writes.
    - [ServiceContracts]: creation is idempotent and atomic under interference,
      repeated requests, cancellation branch by branch, access to jobs and logs, the
      request hash, and the effect of [JOB_MAX_RETRIES] other than 3.
    - [WorkerContracts]: claiming, settling and a delivery from end to end,
      redeliveries, cancellation checks, handlers, retry delays, error texts.
    - [DeliveryContracts]: publication and recovery, one event and one round at a
      time, back-off, topology, connection retries, notifications.
    - [CoreContracts]: the state policy and the validation of settings.
    - [ListingContracts]: cursors read back; one page is what its cursor and limit
      say; all pages together are the whole listing, and under interference no job is
      shown twice and none that was there is missed.
    - [RedisContracts]: the limit of reservations is exact in a window; a cached page
      comes back as it was, and is never found again once its owner is invalidated -
      with the two ways in which a stale page is served all the same.
    - [AuthContracts]: registration under interference, login, and what a token is
      worth later on.
    - [StreamContracts]: the events a client gets, in order, and reads back; that a
      keep-alive is the last of them, and that an end published before the subscription
      is missed.
    - [HttpContracts]: every request is answered, errors by class and without their
      details; only proper requests create jobs; repeating one is harmless; accepted
      payloads can be run.
    - [RequestContracts]: HTTP traffic never leaves the reachable states of [System]; a
      job answered with 201 can be completed and then read by who sent it; a user sees
      and changes only jobs of his own.
    - [UowContracts]: whatever is done in a Unit of Work is stored by its COMMIT as a
      whole, or dropped.
    - [JobWrites]: a guarded UPDATE is a compare-and-set on one row along the policy, so
      of two that compete only one succeeds.
    - [ClaimRaces]: claims that race for the capacity of a user or for one job behave as
      if each ran at once at its COMMIT; without the lock on the user's row they do not.
    - [ClaimProgress]: they lock the owner before the job, so they never wait for each
      other in a circle, and each is answered within nine steps.
    - [InterleavedRate]: within a window a user is told of no more created jobs than the
      limit, however the requests interleave; [CreationRate]: the same for requests one
      after the other, and that a job whose COMMIT was not acknowledged is not counted.
    - [LogContracts]: secrets in log extras do not influence a line.
    - [FreshnessContracts]: the lists a client asks for after its own write show it,
      and no list is older than the time to live of a page.
    - [SchemaContracts]: the migration makes the declared tables and can be undone;
      Alembic runs it whole or not at all on the database of the settings, unless its
      URL has a percent sign; rows of accepted requests fit their columns, but for one
      character.
    - [AppContracts], [ProcessContracts], [LocalDatabases]: what the application and the
      processes set up before they serve, whatever fails, and close at the end; that a
      heartbeat is fresh; that the databases are there - and that the recovery task of a
      worker can end unnoticed.

    ** Parameters

    pydantic's codecs and conversions ([DispatchCodec], [JobStatusEventCodec],
    [DatetimeText], [LaxInt]), email-validator ([EmailValidator]), pwdlib
    ([PasswordHash]), PyJWT ([PyJWT]), the database driver's errors ([PgDriver]),
    RabbitMQ's routing ([BrokerRouting]), Redis' PUBLISH ([RedisPublish]) and its server
    as a client meets it ([RedisServer]: its clock, and which calls it answers), the
    readers of JSON and of ISO 8601 texts ([JsonReader], [IsoReader]: any that read back
    what was written), the calendar time of a float ([FloatTime]), and the rate limiter,
    list cache and notifiers as the services see them, [ipaddress] ([IpLiteral]) and how
    PostgreSQL reads CREATE DATABASE ([ReadsStatements]), are classes; their laws state
    documented behaviour, and [Samples], the file of the class or the contracts that use
    it have an instance of each.

    ** Fuel

    [sleep_loop] takes the number of quarters it may wait, and is started with exactly
    that many ([sleep_job_contract]); [connect_loop] takes the attempts left;
    [Sha256.blocks] the number of words, more than the blocks there are.
    [run_forever] takes the readings of its stop event.  [JsonParser.value] is started
    with twice the length of its text, more than the calls it makes ([parse_dumps]);
    [fetch_all] with more than the jobs listed ([pages_equal_listing]), or with enough
    for the interference there is ([pages_under_interference]); [stream_loop] with two
    more than the polls, each round but the last two taking one ([loop_carries]);
    [remove_keys] with the length of its text; [interpolate] with the depth of
    [configparser]; [touch_heartbeat_forever] with more rounds than intervals fit before its stop
    ([beats_enough]).

    ** Not modelled

    Interference inside a single transaction is ruled out by the row locks the
    code takes, except where it takes none and the constraint decides ([register_user]);
    for claims, the transactions that decide by more than one row, this is proved
    ([claims_serialise]), for the others it is part of the model;
    between the transactions of one operation it is modelled for
    [create_job] ([env_ok]), and in [System] whole operations interleave, an
    execution being two of them (claim and settlement) with any steps between.
    In [Staleness] list requests interleave with everything else, each being two steps,
    and in [InterleavedRate] creations do, each being up to five.
    INSERTs check keys and constraints; that values fit the types of their columns is
    proved of the rows of requests ([stored_rows_fit]) and not enforced.  What pydantic
    makes of the environment is an argument of [get_settings], and which scripts a command
    of Alembic runs one of [env_py].  FastAPI's routing and OpenAPI output, argument
    parsing, the calls of the logger in the modelled operations, which do not affect
    the state, and the [add] methods of the repositories, which no code calls, have no
    definitions. *)
From stdpp Require Export base tactics option list gmap strings sorting pretty.
From Stdlib Require Export ZArith Lia Ascii.
#[global] Open Scope string_scope.
#[global] Open Scope list_scope.
#[global] Open Scope Z_scope.

(** ** Python values used by the program *)

(** [uuid.UUID]: 128-bit identifiers, ordered as PostgreSQL orders them. *)
Abbreviation uuid := Z (only parsing).
(** [datetime] in UTC, in microseconds since the Unix epoch. *)
Abbreviation datetime := Z (only parsing).

(** [timedelta(seconds=s)] in microseconds. *)
Definition seconds (s : Z) : Z := s * 1000000.

(** [int(moment.timestamp())] for a moment after the epoch. *)
Definition epoch_seconds (t : datetime) : Z := t / 1000000.

(** A JSON value, as [json]/JSONB/[dict[str, Any]] payloads hold it: an [int]
    by its value, a [float] by the text [repr] gives it. *)
Inductive json : Type :=
| JNull
| JBool (b : bool)
| JNum (n : Z)
| JFloat (repr : string)
| JStr (s : string)
| JArr (l : list json)
| JObj (fields : list (string * json)).

(** [mapping.get(key)] on the members of an object (the last binding wins, as
    in a dict built from them). *)
Fixpoint json_get (key : string) (fields : list (string * json)) : option json :=
  match fields with
  | [] => None
  | (k, v) :: rest =>
      match json_get key rest with
      | Some v' => Some v'
      | None => if String.eqb k key then Some v else None
      end
  end.

(** ** Python strings: a [str] whose code points are below 256. *)

Definition code_point (c : ascii) : Z := Z.of_N (N_of_ascii c).

Definition map_chars (f : ascii -> ascii) : string -> string :=
  fix go s := match s with EmptyString => EmptyString | String c s' => String (f c) (go s') end.

Fixpoint all_chars (p : ascii -> bool) (s : string) : bool :=
  match s with EmptyString => true | String c s' => p c && all_chars p s' end.

(** [str.lower] on one code point below 256. *)
Definition lower_char (c : ascii) : ascii :=
  let n := code_point c in
  if ((65 <=? n) && (n <=? 90)) || ((192 <=? n) && (n <=? 222) && negb (n =? 215))
  then ascii_of_N (Z.to_N (n + 32)) else c.

Definition lower : string -> string := map_chars lower_char.

(** [str.upper] restricted to the ASCII letters. *)
Definition upper_char (c : ascii) : ascii :=
  let n := code_point c in
  if (97 <=? n) && (n <=? 122) then ascii_of_N (Z.to_N (n - 32)) else c.

Definition upper : string -> string := map_chars upper_char.

(** [str.isspace] on one code point below 256. *)
Definition is_space (c : ascii) : bool :=
  let n := code_point c in
  ((9 <=? n) && (n <=? 13)) || ((28 <=? n) && (n <=? 32)) || (n =? 133) || (n =? 160).

Fixpoint lstrip (s : string) : string :=
  match s with
  | EmptyString => EmptyString
  | String c s' => if is_space c then lstrip s' else s
  end.

Fixpoint rstrip (s : string) : string :=
  match s with
  | EmptyString => EmptyString
  | String c s' =>
      match rstrip s' with
      | EmptyString => if is_space c then EmptyString else String c EmptyString
      | t => String c t
      end
  end.

(** [str.strip()]. *)
Definition strip (s : string) : string := rstrip (lstrip s).

(** [needle in haystack]. *)
Fixpoint contains (needle haystack : string) : bool :=
  String.prefix needle haystack ||
  match haystack with EmptyString => false | String _ rest => contains needle rest end.

(** [len(s)] and [s[:n]] for [0 <= n]. *)
Definition slen (s : string) : Z := Z.of_nat (String.length s).
Definition slice_to (s : string) (n : Z) : string := String.substring 0 (Z.to_nat n) s.

(** [f"{n}"] for an [int]. *)
Definition str_of_int (n : Z) : string := pretty n.

(** [str(uuid)]: 32 lower-case hexadecimal digits grouped 8-4-4-4-12. *)
Definition hex_digit (n : Z) : ascii :=
  ascii_of_N (Z.to_N (if n <? 10 then 48 + n else 87 + n)).

Fixpoint hex_of (digits : nat) (n : Z) : string :=
  match digits with
  | O => EmptyString
  | S k => hex_of k (n / 16) +:+ String (hex_digit (n mod 16)) EmptyString
  end.

Definition str_of_uuid (u : uuid) : string :=
  hex_of 8 (u / 2 ^ 96) +:+ "-" +:+ hex_of 4 (u / 2 ^ 80) +:+ "-" +:+ hex_of 4 (u / 2 ^ 64)
    +:+ "-" +:+ hex_of 4 (u / 2 ^ 48) +:+ "-" +:+ hex_of 12 u.

Example str_of_uuid_12 :
  str_of_uuid 0x0123456789abcdef0123456789abcdef = "01234567-89ab-cdef-0123-456789abcdef".
Proof. vm_compute. reflexivity. Qed.

(** ** Automation *)

Create HintDb app.
Create HintDb inv.
Create HintDb repo.
Create Rewrite HintDb wp.
Create Rewrite HintDb col.

(** Case analysis on the scrutinee of the next match or conditional. *)
Ltac split_match :=
  match goal with
  | |- context [match ?x with _ => _ end] =>
      lazymatch x with context [match _ with _ => _ end] => fail | _ => destruct x eqn:? end
  end.

(** Turn boolean comparisons in the context into propositions. *)
Ltac bool_simp :=
  repeat match goal with
  | H : (_ && _)%bool = true |- _ => apply andb_true_iff in H; destruct H
  | H : (_ || _)%bool = false |- _ => apply orb_false_iff in H; destruct H
  | H : negb _ = true |- _ => apply negb_true_iff in H
  | H : negb _ = false |- _ => apply negb_false_iff in H
  | H : (_ =? _) = true |- _ => apply Z.eqb_eq in H
  | H : (_ =? _) = false |- _ => apply Z.eqb_neq in H
  | H : (_ <=? _) = true |- _ => apply Z.leb_le in H
  | H : (_ <=? _) = false |- _ => apply Z.leb_gt in H
  | H : (_ <? _) = true |- _ => apply Z.ltb_lt in H
  | H : (_ <? _) = false |- _ => apply Z.ltb_ge in H
  | H : bool_decide _ = true |- _ => apply bool_decide_eq_true in H
  | H : bool_decide _ = false |- _ => apply bool_decide_eq_false in H
  end.

(** ** Generic lemmas *)

Lemma slen_nonneg s : 0 <= slen s.
Proof. unfold slen; lia. Qed.

Lemma slen_app s1 s2 : slen (s1 +:+ s2) = slen s1 + slen s2.
Proof.
  unfold slen. rewrite <- Nat2Z.inj_add. f_equal.
  induction s1 as [|c s1 IH]; [reflexivity | exact (f_equal S IH)].
Qed.

Lemma length_substring0 n s : String.length (String.substring 0 n s) = Nat.min n (String.length s).
Proof.
  revert n; induction s as [|c s IH]; intros [|n]; cbn; try reflexivity.
  by rewrite IH.
Qed.

Lemma slen_slice_to s n : 0 <= n -> slen (slice_to s n) = Z.min n (slen s).
Proof. intros. unfold slen, slice_to. rewrite length_substring0. lia. Qed.

Lemma prefix_substring0 n s : String.prefix (String.substring 0 n s) s = true.
Proof.
  revert n; induction s as [|c s IH]; intros [|n]; cbn; try reflexivity.
  destruct (ascii_dec c c); [apply IH | congruence].
Qed.

(** Enough for each of finitely many is, for some bound, enough for all. *)
Lemma uniform_bound {A} (P : A -> nat -> Prop) (l : list A) :
  (forall x, x ∈ l -> exists n0, forall n, (n0 <= n)%nat -> P x n) ->
  exists n0, forall n, (n0 <= n)%nat -> forall x, x ∈ l -> P x n.
Proof.
  induction l as [|x l IH]; intros H.
  - exists 0%nat. by intros n _ x ?%not_elem_of_nil.
  - destruct (H x ltac:(left)) as [n1 H1]. destruct IH as [n2 H2]; [intros y Hy; apply H; by right|].
    exists (Nat.max n1 n2). intros n Hn y [->|Hy]%elem_of_cons; [apply H1 | apply H2]; (done || lia).
Qed.

(** Induction on JSON values, through the lists they hold. *)
Section json_ind.
Context (P : json -> Prop).
Hypothesis HNull : P JNull.
Hypothesis HBool : forall b, P (JBool b).
Hypothesis HNum : forall n, P (JNum n).
Hypothesis HFloat : forall r, P (JFloat r).
Hypothesis HStr : forall s, P (JStr s).
Hypothesis HArr : forall l, Forall P l -> P (JArr l).
Hypothesis HObj : forall f, Forall (fun kv => P (snd kv)) f -> P (JObj f).

Fixpoint json_nested_ind (j : json) : P j :=
  match j with
  | JNull => HNull
  | JBool b => HBool b
  | JNum n => HNum n
  | JFloat r => HFloat r
  | JStr s => HStr s
  | JArr l => HArr l ((fix go l : Forall P l :=
      match l with [] => Forall_nil_2 _ | x :: l' => Forall_cons_2 _ _ _ (json_nested_ind x) (go l') end) l)
  | JObj f => HObj f ((fix go f : Forall (fun kv => P (snd kv)) f :=
      match f with
      | [] => Forall_nil_2 _
      | kv :: f' => Forall_cons_2 _ _ _ (json_nested_ind (snd kv)) (go f')
      end) f)
  end.
End json_ind.

#[export] Instance json_inhabited : Inhabited json := populate JNull.
