(* ===== verification/Base64.v ===== *)
(** * Base64: [base64.urlsafe_b64encode] and [base64.urlsafe_b64decode], as the
    list cursors use them, and their round trip.  A byte is an integer from 0
    to 255. *)
From S2P Require Import Prelude.

Module Base64.

(** ** Encoding *)

(** The character of a group of six bits, in the URL- and filename-safe
    alphabet. *)
Definition alphabet (n : Z) : ascii :=
  ascii_of_N (Z.to_N
    (if n <? 26 then 65 + n else if n <? 52 then 71 + n else if n <? 62 then n - 4
     else if n =? 62 then 45 else 95)).

Definition pad : ascii := "="%char.

(** Four characters for three bytes; padding completes the last group. *)
Fixpoint urlsafe_b64encode (bytes : list Z) : string :=
  match bytes with
  | a :: b :: c :: rest =>
      String (alphabet (a / 4)) (String (alphabet (a mod 4 * 16 + b / 16))
        (String (alphabet (b mod 16 * 4 + c / 64)) (String (alphabet (c mod 64))
          (urlsafe_b64encode rest))))
  | [a; b] =>
      String (alphabet (a / 4)) (String (alphabet (a mod 4 * 16 + b / 16))
        (String (alphabet (b mod 16 * 4)) (String pad EmptyString)))
  | [a] =>
      String (alphabet (a / 4)) (String (alphabet (a mod 4 * 16))
        (String pad (String pad EmptyString)))
  | [] => EmptyString
  end.

(** ** Decoding *)

(** The six bits of a character: [urlsafe_b64decode] turns [-] and [_] into
    [+] and [/], which are accepted as well. *)
Definition six_bits (c : ascii) : option Z :=
  let n := code_point c in
  if (65 <=? n) && (n <=? 90) then Some (n - 65)
  else if (97 <=? n) && (n <=? 122) then Some (n - 71)
  else if (48 <=? n) && (n <=? 57) then Some (n + 4)
  else if (n =? 43) || (n =? 45) then Some 62
  else if (n =? 47) || (n =? 95) then Some 63
  else None.

(** [binascii.a2b_base64] outside its strict mode: [quad] counts the characters
    of the current group, [left] holds the bits not yet written, [pads] the
    padding seen since the last character.  Characters outside the alphabet
    are skipped; enough padding ends the data. *)
Fixpoint a2b (quad pads left : Z) (s : string) : option (list Z) :=
  match s with
  | EmptyString => if quad =? 0 then Some [] else None
  | String c s' =>
      if Ascii.eqb c pad then
        if 2 <=? quad then
          if 4 <=? quad + (pads + 1) then Some [] else a2b quad (pads + 1) left s'
        else a2b quad pads left s'
      else
        match six_bits c with
        | None => a2b quad pads left s'
        | Some v =>
            if quad =? 0 then a2b 1 0 v s'
            else if quad =? 1 then cons (left * 4 + v / 16) <$> a2b 2 0 (v mod 16) s'
            else if quad =? 2 then cons (left * 16 + v / 4) <$> a2b 3 0 (v mod 4) s'
            else cons (left * 64 + v) <$> a2b 0 0 0 s'
        end
  end.

Definition urlsafe_b64decode (s : string) : option (list Z) := a2b 0 0 0 s.

(** ** Facts *)

Definition is_byte (n : Z) : Prop := 0 <= n < 256.

(** The characters that need no escaping in a URL's query, and the padding. *)
Definition url_char (c : ascii) : bool :=
  match six_bits c with
  | Some _ => negb (Ascii.eqb c "+"%char) && negb (Ascii.eqb c "/"%char)
  | None => Ascii.eqb c pad
  end.

Lemma alphabet_spec n :
  0 <= n < 64 ->
  six_bits (alphabet n) = Some n /\ Ascii.eqb (alphabet n) pad = false
  /\ url_char (alphabet n) = true.
Proof.
  intros H.
  assert (Hall : forallb (fun k => let n := Z.of_nat k in
    bool_decide (six_bits (alphabet n) = Some n) && negb (Ascii.eqb (alphabet n) pad)
    && url_char (alphabet n)) (List.seq 0 64) = true) by (vm_compute; reflexivity).
  rewrite forallb_forall in Hall. specialize (Hall (Z.to_nat n)).
  cbv zeta in Hall. rewrite Z2Nat.id in Hall by lia.
  assert (Hin : List.In (Z.to_nat n) (List.seq 0 64)) by (apply in_seq; lia).
  specialize (Hall Hin). bool_simp. done.
Qed.

(** One character of a group. *)
Lemma a2b_char quad pads left n s :
  0 <= n < 64 ->
  a2b quad pads left (String (alphabet n) s) =
  if quad =? 0 then a2b 1 0 n s
  else if quad =? 1 then cons (left * 4 + n / 16) <$> a2b 2 0 (n mod 16) s
  else if quad =? 2 then cons (left * 16 + n / 4) <$> a2b 3 0 (n mod 4) s
  else cons (left * 64 + n) <$> a2b 0 0 0 s.
Proof. intros (H1 & H2 & _)%alphabet_spec. cbn [a2b]. by rewrite H2, H1. Qed.

(** Induction by groups of three bytes. *)
Lemma groups_ind (P : list Z -> Prop) :
  P [] -> (forall a, P [a]) -> (forall a b, P [a; b]) ->
  (forall a b c l, P l -> P (a :: b :: c :: l)) -> forall l, P l.
Proof.
  intros H0 H1 H2 H3. fix IH 1. intros [|a [|b [|c l] ] ];
    [exact H0 | apply H1 | apply H2 | apply H3, IH].
Qed.

Ltac six := Z.to_euclidean_division_equations; lia.

(** Padding ends the data. *)
Lemma a2b_pad1 left : a2b 3 0 left (String pad EmptyString) = Some [].
Proof. reflexivity. Qed.

Lemma a2b_pad2 left : a2b 2 0 left (String pad (String pad EmptyString)) = Some [].
Proof. reflexivity. Qed.

Ltac a2b_chars :=
  repeat (rewrite a2b_char by six; cbn [Z.eqb Pos.eqb]);
  rewrite ?a2b_pad1, ?a2b_pad2; cbn [fmap option_fmap option_map].

Lemma decode_encode l : Forall is_byte l -> urlsafe_b64decode (urlsafe_b64encode l) = Some l.
Proof.
  unfold urlsafe_b64decode, is_byte.
  induction l as [|a|a b|a b c l IH] using groups_ind; intros Hl;
    rewrite ?Forall_cons in Hl; cbn beta in Hl; destruct_and?; cbn [urlsafe_b64encode].
  - reflexivity.
  - a2b_chars. do 2 f_equal. six.
  - a2b_chars. do 2 f_equal; [six|]. f_equal. six.
  - a2b_chars. rewrite IH by done. cbn [fmap option_fmap option_map].
    do 2 f_equal; [six|]. f_equal; [six|]. f_equal. six.
Qed.

Lemma encode_url_chars l : Forall is_byte l -> all_chars url_char (urlsafe_b64encode l) = true.
Proof.
  unfold is_byte.
  induction l as [|a|a b|a b c l IH] using groups_ind; intros Hl;
    rewrite ?Forall_cons in Hl; cbn beta in Hl; destruct_and?; cbn [urlsafe_b64encode all_chars];
    repeat match goal with
    | |- context [url_char (alphabet ?n)] =>
        rewrite (proj2 (proj2 (alphabet_spec n ltac:(six))))
    end; cbn [andb]; auto.
Qed.

End Base64.

Example b64_groups :
  Base64.urlsafe_b64encode [255; 239; 190; 1] = "_---AQ==" /\
  Base64.urlsafe_b64decode "_---AQ==" = Some [255; 239; 190; 1] /\
  Base64.urlsafe_b64decode "/+ +-AQ==" = Some [255; 239; 190; 1] /\
  Base64.urlsafe_b64decode "_---A" = None.
Proof. vm_compute. done. Qed.
