(* ===== verification/Exceptions.v ===== *)
(** * Exceptions: the exception values the program raises and catches
    ([app/core/exceptions.py] and the [except] clauses of the services). *)
From S2P Require Import Prelude.

(** The subclasses of [ApplicationError], [RateLimitExceededError] of
    [app/infrastructure/redis/rate_limiter.py] included. *)
Inductive app_error_class :=
| ApplicationError
| ConflictError
| DuplicateEmailError
| DuplicateJobIdempotencyKeyError
| IdempotencyConflictError
| JobNotCancellableError
| ResourceNotFoundError
| AuthenticationError
| InactiveUserError
| AuthorizationError
| InvalidRequestError
| InvalidCursorError
| RateLimitExceededError.

#[export] Instance app_error_class_eq_dec : EqDecision app_error_class.
Proof. solve_decision. Defined.

(** Class attribute [status_code]; the conflict errors inherit 409. *)
Definition status_code (c : app_error_class) : Z :=
  match c with
  | ApplicationError => 400
  | ConflictError | DuplicateEmailError | DuplicateJobIdempotencyKeyError
  | IdempotencyConflictError | JobNotCancellableError => 409
  | ResourceNotFoundError => 404
  | AuthenticationError => 401
  | InactiveUserError | AuthorizationError => 403
  | InvalidRequestError | InvalidCursorError => 400
  | RateLimitExceededError => 429
  end.

(** Class attribute [code]. *)
Definition error_code (c : app_error_class) : string :=
  match c with
  | ApplicationError => "APPLICATION_ERROR"
  | ConflictError => "CONFLICT"
  | DuplicateEmailError => "EMAIL_ALREADY_REGISTERED"
  | DuplicateJobIdempotencyKeyError => "IDEMPOTENCY_KEY_REUSED"
  | IdempotencyConflictError => "IDEMPOTENCY_KEY_REUSED"
  | JobNotCancellableError => "JOB_NOT_CANCELLABLE"
  | ResourceNotFoundError => "RESOURCE_NOT_FOUND"
  | AuthenticationError => "AUTHENTICATION_FAILED"
  | InactiveUserError => "INACTIVE_USER"
  | AuthorizationError => "ACCESS_DENIED"
  | InvalidRequestError => "INVALID_REQUEST"
  | InvalidCursorError => "INVALID_CURSOR"
  | RateLimitExceededError => "RATE_LIMIT_EXCEEDED"
  end.

(** Class attribute [message]. *)
Definition default_message (c : app_error_class) : string :=
  match c with
  | ApplicationError => "Application error"
  | ConflictError => "Conflict"
  | DuplicateEmailError => "Email is already registered"
  | DuplicateJobIdempotencyKeyError => "Idempotency key is already in use"
  | IdempotencyConflictError => "Idempotency key conflicts with a different request"
  | JobNotCancellableError => "Job cannot be cancelled in its current state"
  | ResourceNotFoundError => "Resource not found"
  | AuthenticationError => "Authentication failed"
  | InactiveUserError => "User account is inactive"
  | AuthorizationError => "Access denied"
  | InvalidRequestError => "Request is invalid"
  | InvalidCursorError => "Cursor is invalid"
  | RateLimitExceededError => "Create job rate limit exceeded"
  end.

(** An [ApplicationError] instance. *)
Record AppError := mkAppError {
  ae_class : app_error_class;
  ae_message : string;
  ae_details : option json;
  ae_headers : option (list (string * string))
}.

(** [ApplicationError.__init__]: [message or self.message]. *)
Definition application_error (c : app_error_class) (message : option string)
    (details : option json) (headers : option (list (string * string))) : AppError :=
  let resolved_message :=
    match message with
    | Some m => if String.eqb m "" then default_message c else m
    | None => default_message c
    end in
  mkAppError c resolved_message details headers.

(** What the database driver attaches to an [IntegrityError] ([exc.orig]):
    the attributes the repositories look at, and its text. *)
Record DriverError := mkDriverError {
  de_constraint_name : option string;
  de_sqlstate : option string;
  de_pgcode : option string;
  de_text : string
}.

(** Exceptions. *)
Inductive exn :=
| AppErr (e : AppError)
| IntegrityErr (orig : DriverError)
| RuntimeErr (msg : string)
| ValueErr (msg : string)
| TypeErr (msg : string)
| KeyErr (key : string)
| AssertionErr
| StateTransitionErr (msg : string)        (* JobStateTransitionError *)
| ValidationErr (msg : string)             (* pydantic.ValidationError *)
| JobExecutionErr (msg : string)           (* JobExecutionError *)
| JobCancellationRequestedErr (msg : string)
| MissingJobHandlerErr (msg : string)
| ProductionSettingsErr (msg : string)
| ExpiredSignatureErr                      (* jwt.ExpiredSignatureError *)
| InvalidTokenErr                          (* jwt.InvalidTokenError *)
| HTTPExc (status : Z) (detail : string)   (* fastapi.HTTPException *)
| RequestValidationErr (errors : Z)        (* fastapi.exceptions.RequestValidationError *)
| OtherErr (class msg : string)            (* an exception of a class no handler names *)
| InfraErr (msg : string).                 (* a client of PostgreSQL, Redis or RabbitMQ failed *)

(** [str(exc)], as the outbox publisher and the worker store it. *)
Definition exn_str (e : exn) : string :=
  match e with
  | AppErr a => ae_message a
  | IntegrityErr o => de_text o
  | RuntimeErr m | ValueErr m | TypeErr m | StateTransitionErr m | ValidationErr m
  | JobExecutionErr m | JobCancellationRequestedErr m | MissingJobHandlerErr m
  | ProductionSettingsErr m | OtherErr _ m | InfraErr m => m
  | KeyErr k => "'" +:+ k +:+ "'"
  | HTTPExc status detail => pretty status +:+ ": " +:+ detail
  | ExpiredSignatureErr => "Signature has expired"
  | AssertionErr | InvalidTokenErr | RequestValidationErr _ => ""
  end.

(** [raise Cls()] and [raise Cls(message)]. *)
Definition app_err (c : app_error_class) : exn := AppErr (application_error c None None None).
Definition app_err_msg (c : app_error_class) (m : string) : exn :=
  AppErr (application_error c (Some m) None None).

(** How a call ends: with a value or with an exception. *)
Inductive outcome (A : Type) :=
| Ok (a : A)
| Exc (e : exn).
Arguments Ok {A} a.
Arguments Exc {A} e.

(** [getattr(orig, "sqlstate", None) or getattr(orig, "pgcode", None)]: an
    empty string counts as absent. *)
Definition reported_sqlstate (o : DriverError) : option string :=
  match de_sqlstate o with
  | Some s => if String.eqb s "" then de_pgcode o else Some s
  | None => de_pgcode o
  end.

(** [_is_duplicate_job_idempotency_key_error] of [app/repositories/jobs.py]. *)
Definition is_duplicate_job_idempotency_key_error (original_error : DriverError) : bool :=
  if negb (bool_decide (reported_sqlstate original_error = Some "23505")) then false
  else match de_constraint_name original_error with
  | Some constraint_name => String.eqb constraint_name "uq_jobs_owner_id_idempotency_key"
  | None =>
      let error_text := lower (de_text original_error) in
      contains "jobs" error_text && contains "idempotency_key" error_text
  end.

(** [_is_duplicate_email_integrity_error] of [app/repositories/users.py]. *)
Definition is_duplicate_email_integrity_error (original_error : DriverError) : bool :=
  if negb (bool_decide (reported_sqlstate original_error = Some "23505")) then false
  else match de_constraint_name original_error with
  | Some constraint_name => String.eqb constraint_name "uq_users_email"
  | None =>
      let error_text := lower (de_text original_error) in
      contains "users" error_text && contains "email" error_text
  end.

(** The double quote character. *)
Definition dquote : string := String (ascii_of_nat 34) EmptyString.

(** A database driver: which error it attaches to a violated constraint.  The
    constraints are those of [alembic/versions/0001_initial_schema.py], by
    name.  The laws state what the repositories rely on: a unique violation
    is reported with SQLSTATE 23505 (as [sqlstate] or as [pgcode]) and names
    its constraint, in an attribute or in PostgreSQL's message only; any other violation
    has another SQLSTATE. *)
Inductive violation :=
| UniqueViolation (constraint : string)
| CheckViolation (constraint : string)
| ForeignKeyViolation (constraint : string).

Class PgDriver := {
  driver_error : violation -> DriverError;
  driver_unique_sqlstate c : reported_sqlstate (driver_error (UniqueViolation c)) = Some "23505";
  driver_unique_name c :
    de_constraint_name (driver_error (UniqueViolation c)) = Some c \/
    (de_constraint_name (driver_error (UniqueViolation c)) = None /\
     exists detail, de_text (driver_error (UniqueViolation c))
       = "duplicate key value violates unique constraint " +:+ dquote +:+ c +:+ dquote +:+ detail);
  driver_check_sqlstate c : reported_sqlstate (driver_error (CheckViolation c)) <> Some "23505";
  driver_fk_sqlstate c : reported_sqlstate (driver_error (ForeignKeyViolation c)) <> Some "23505"
}.

(** A driver in the manner of asyncpg: the SQLSTATE and the constraint name
    are attributes of the error. *)
#[export] Instance asyncpg_driver : PgDriver.
Proof.
  refine {| driver_error v :=
    match v with
    | UniqueViolation c =>
        mkDriverError (Some c) (Some "23505") None
          ("duplicate key value violates unique constraint " +:+ dquote +:+ c +:+ dquote)
    | CheckViolation c => mkDriverError (Some c) (Some "23514") None ("check " +:+ c)
    | ForeignKeyViolation c => mkDriverError (Some c) (Some "23503") None ("foreign key " +:+ c)
    end |}; try (intros c; reflexivity); try (intros c; left; reflexivity);
    intros c; discriminate.
Defined.

Section driver.
Context `{PG : PgDriver}.

Lemma unique_job_key_is_duplicate :
  is_duplicate_job_idempotency_key_error
    (driver_error (UniqueViolation "uq_jobs_owner_id_idempotency_key")) = true.
Proof.
  unfold is_duplicate_job_idempotency_key_error. rewrite driver_unique_sqlstate.
  rewrite bool_decide_eq_true_2 by done. cbn [negb].
  destruct (driver_unique_name "uq_jobs_owner_id_idempotency_key") as [-> | [-> [detail ->]]]; reflexivity.
Qed.

Lemma unique_email_is_duplicate :
  is_duplicate_email_integrity_error (driver_error (UniqueViolation "uq_users_email")) = true.
Proof.
  unfold is_duplicate_email_integrity_error. rewrite driver_unique_sqlstate.
  rewrite bool_decide_eq_true_2 by done. cbn [negb].
  destruct (driver_unique_name "uq_users_email") as [-> | [-> [detail ->]]]; reflexivity.
Qed.

Lemma check_is_not_duplicate c :
  is_duplicate_job_idempotency_key_error (driver_error (CheckViolation c)) = false.
Proof.
  unfold is_duplicate_job_idempotency_key_error.
  rewrite bool_decide_eq_false_2 by apply driver_check_sqlstate. reflexivity.
Qed.

Lemma fk_is_not_duplicate c :
  is_duplicate_job_idempotency_key_error (driver_error (ForeignKeyViolation c)) = false.
Proof.
  unfold is_duplicate_job_idempotency_key_error.
  rewrite bool_decide_eq_false_2 by apply driver_fk_sqlstate. reflexivity.
Qed.
End driver.
