(* ===== verification/Domain.v ===== *)
(** * Domain: enumerations, the job state policy, table rows and DTOs
    ([app/domain/], [app/models/], [app/application/dto.py]). *)
From S2P Require Import Prelude Exceptions.

(** ** Enumerations ([app/domain/enums.py]) *)

Inductive UserRole := USER | ADMIN.
Inductive JobStatus := PENDING | QUEUED | RUNNING | COMPLETED | FAILED | CANCELLED.
Inductive JobType := SLEEP | SUCCESS | FAILURE.
Inductive JobEventType := DISPATCH.

#[export] Instance UserRole_eq_dec : EqDecision UserRole. Proof. solve_decision. Defined.
#[export] Instance JobStatus_eq_dec : EqDecision JobStatus. Proof. solve_decision. Defined.
#[export] Instance JobType_eq_dec : EqDecision JobType. Proof. solve_decision. Defined.
#[export] Instance JobEventType_eq_dec : EqDecision JobEventType. Proof. solve_decision. Defined.

Definition user_role_value (r : UserRole) : string :=
  match r with USER => "user" | ADMIN => "admin" end.

Definition job_status_value (s : JobStatus) : string :=
  match s with
  | PENDING => "pending" | QUEUED => "queued" | RUNNING => "running"
  | COMPLETED => "completed" | FAILED => "failed" | CANCELLED => "cancelled"
  end.

Definition job_type_value (t : JobType) : string :=
  match t with SLEEP => "sleep" | SUCCESS => "success" | FAILURE => "failure" end.

Definition job_event_type_value (t : JobEventType) : string :=
  match t with DISPATCH => "job.dispatch" end.

(** The calls [UserRole(v)], [JobStatus(v)], [JobType(v)]: the member with
    that value, [ValueError] otherwise. *)
Definition enum_lookup {A} (name : string) (value : A -> string) (members : list A) (v : string)
    : outcome A :=
  match filter (fun m => value m = v) members with
  | m :: _ => Ok m
  | [] => Exc (ValueErr ("'" +:+ v +:+ "' is not a valid " +:+ name))
  end.

Definition parse_user_role := enum_lookup "UserRole" user_role_value [USER; ADMIN].
Definition parse_job_status := enum_lookup "JobStatus" job_status_value
  [PENDING; QUEUED; RUNNING; COMPLETED; FAILED; CANCELLED].
Definition parse_job_type := enum_lookup "JobType" job_type_value [SLEEP; SUCCESS; FAILURE].

(** [app/core/constants.py]. *)
Definition USER_ROLE_VALUES : list string := ["user"; "admin"].
Definition JOB_STATUS_VALUES : list string :=
  ["pending"; "queued"; "running"; "completed"; "failed"; "cancelled"].

(** ** [JobStatePolicy] ([app/domain/job_state.py]) *)
Module JobStatePolicy.

Definition _allowed_transitions (s : JobStatus) : list JobStatus :=
  match s with
  | PENDING => [QUEUED; CANCELLED]
  | QUEUED => [RUNNING; CANCELLED]
  | RUNNING => [COMPLETED; QUEUED; FAILED; CANCELLED]
  | COMPLETED => []
  | FAILED => []
  | CANCELLED => []
  end.

Definition can_transition (current target : JobStatus) : bool :=
  bool_decide (target ∈ _allowed_transitions current).

Definition ensure_transition (current target : JobStatus) : outcome unit :=
  if can_transition current target then Ok tt
  else Exc (StateTransitionErr
    ("Cannot transition job from '" +:+ job_status_value current +:+ "' to '"
     +:+ job_status_value target +:+ "'")).

Definition next_states (current : JobStatus) : list JobStatus := _allowed_transitions current.

End JobStatePolicy.

(** ** Table rows ([app/models/]): the [type], [status] and [role] columns hold
    the [value] of the enumeration member written here. *)

Record User := mkUser {
  u_id : uuid;
  u_email : string;
  u_password_hash : string;
  u_role : UserRole;
  u_is_active : bool;
  u_created_at : datetime;
  u_updated_at : datetime
}.

Record Job := mkJob {
  j_id : uuid;
  j_owner_id : uuid;
  j_type : JobType;
  j_payload : json;
  j_status : JobStatus;
  j_idempotency_key : string;
  j_request_hash : string;
  j_attempt_count : Z;
  j_max_retries : Z;
  j_cancel_requested_at : option datetime;
  j_worker_id : option string;
  j_execution_token : option uuid;
  j_lease_expires_at : option datetime;
  j_started_at : option datetime;
  j_finished_at : option datetime;
  j_last_error : option string;
  j_created_at : datetime;
  j_updated_at : datetime
}.

Record JobLog := mkJobLog {
  l_id : Z;
  l_job_id : uuid;
  l_attempt_number : option Z;
  l_level : string;
  l_message : string;
  l_created_at : datetime
}.

Record OutboxEvent := mkOutboxEvent {
  e_id : uuid;
  e_aggregate_id : uuid;
  e_event_type : string;
  e_payload : json;
  e_available_at : datetime;
  e_publish_attempts : Z;
  e_published_at : option datetime;
  e_last_error : option string;
  e_created_at : datetime;
  e_updated_at : datetime
}.

(** The assignments of an UPDATE statement's [.values(...)]; the right-hand
    sides are evaluated on the row before the update. *)
Inductive job_assignment :=
| status_is (v : JobStatus)
| attempt_count_is (v : Z)
| cancel_requested_at_is (v : option datetime)
| worker_id_is (v : option string)
| execution_token_is (v : option uuid)
| lease_expires_at_is (v : option datetime)
| started_at_is (v : option datetime)
| finished_at_is (v : option datetime)
| last_error_is (v : option string)
| updated_at_is (v : datetime).

Definition assign_job (j : Job) (a : job_assignment) : Job :=
  let id := j_id j in let own := j_owner_id j in let ty := j_type j in
  let pl := j_payload j in let st := j_status j in let key := j_idempotency_key j in
  let hash := j_request_hash j in let att := j_attempt_count j in let mr := j_max_retries j in
  let cr := j_cancel_requested_at j in let wid := j_worker_id j in
  let tok := j_execution_token j in let lea := j_lease_expires_at j in
  let sta := j_started_at j in let fin := j_finished_at j in let err := j_last_error j in
  let ca := j_created_at j in let ua := j_updated_at j in
  match a with
  | status_is v => mkJob id own ty pl v key hash att mr cr wid tok lea sta fin err ca ua
  | attempt_count_is v => mkJob id own ty pl st key hash v mr cr wid tok lea sta fin err ca ua
  | cancel_requested_at_is v => mkJob id own ty pl st key hash att mr v wid tok lea sta fin err ca ua
  | worker_id_is v => mkJob id own ty pl st key hash att mr cr v tok lea sta fin err ca ua
  | execution_token_is v => mkJob id own ty pl st key hash att mr cr wid v lea sta fin err ca ua
  | lease_expires_at_is v => mkJob id own ty pl st key hash att mr cr wid tok v sta fin err ca ua
  | started_at_is v => mkJob id own ty pl st key hash att mr cr wid tok lea v fin err ca ua
  | finished_at_is v => mkJob id own ty pl st key hash att mr cr wid tok lea sta v err ca ua
  | last_error_is v => mkJob id own ty pl st key hash att mr cr wid tok lea sta fin v ca ua
  | updated_at_is v => mkJob id own ty pl st key hash att mr cr wid tok lea sta fin err ca v
  end.

Definition job_values (l : list job_assignment) (j : Job) : Job := foldl assign_job j l.

Inductive event_assignment :=
| e_available_at_is (v : datetime)
| e_publish_attempts_is (v : Z)
| e_published_at_is (v : option datetime)
| e_last_error_is (v : option string)
| e_updated_at_is (v : datetime).

Definition assign_event (e : OutboxEvent) (a : event_assignment) : OutboxEvent :=
  let id := e_id e in let agg := e_aggregate_id e in let ty := e_event_type e in
  let pl := e_payload e in let av := e_available_at e in let att := e_publish_attempts e in
  let pub := e_published_at e in let err := e_last_error e in let ca := e_created_at e in
  let ua := e_updated_at e in
  match a with
  | e_available_at_is v => mkOutboxEvent id agg ty pl v att pub err ca ua
  | e_publish_attempts_is v => mkOutboxEvent id agg ty pl av v pub err ca ua
  | e_published_at_is v => mkOutboxEvent id agg ty pl av att v err ca ua
  | e_last_error_is v => mkOutboxEvent id agg ty pl av att pub v ca ua
  | e_updated_at_is v => mkOutboxEvent id agg ty pl av att pub err ca v
  end.

Definition event_values (l : list event_assignment) (e : OutboxEvent) : OutboxEvent :=
  foldl assign_event e l.

(** ** Data transfer objects ([app/application/dto.py]) and messages *)

Record UserPublicDTO := mkUserPublicDTO {
  up_id : uuid; up_email : string; up_role : UserRole; up_is_active : bool;
  up_created_at : datetime; up_updated_at : datetime
}.

Record LoginResultDTO := mkLoginResultDTO {
  lr_access_token : string; lr_token_type : string; lr_expires_at : datetime
}.

Record CurrentUserDTO := mkCurrentUserDTO {
  cu_id : uuid; cu_email : string; cu_role : UserRole; cu_is_active : bool
}.

Record JobPublicDTO := mkJobPublicDTO {
  jp_id : uuid; jp_owner_id : uuid; jp_type : JobType; jp_payload : json; jp_status : JobStatus;
  jp_idempotency_key : string; jp_created_at : datetime; jp_updated_at : datetime;
  jp_cancel_requested_at : option datetime; jp_attempt_count : Z
}.

Record JobCreateResultDTO := mkJobCreateResultDTO { jc_job : JobPublicDTO; jc_created : bool }.

Record CreateJobRateLimitReservationDTO := mkCreateJobRateLimitReservationDTO {
  rl_key : string; rl_limit : Z; rl_used : Z; rl_remaining : Z;
  rl_retry_after_seconds : Z; rl_reset_epoch : Z
}.

Record StoredJobDTO := mkStoredJobDTO {
  sj_id : uuid; sj_owner_id : uuid; sj_type : JobType; sj_payload : json; sj_status : JobStatus;
  sj_idempotency_key : string; sj_request_hash : string; sj_created_at : datetime;
  sj_updated_at : datetime; sj_cancel_requested_at : option datetime; sj_attempt_count : Z
}.

Record JobExecutionDTO := mkJobExecutionDTO {
  je_id : uuid; je_owner_id : uuid; je_type : JobType; je_payload : json; je_status : JobStatus;
  je_attempt_count : Z; je_max_retries : Z; je_worker_id : option string;
  je_execution_token : option uuid; je_lease_expires_at : option datetime;
  je_started_at : option datetime; je_finished_at : option datetime;
  je_cancel_requested_at : option datetime; je_last_error : option string
}.

Record JobLogEntryDTO := mkJobLogEntryDTO {
  le_id : Z; le_job_id : uuid; le_attempt_number : option Z; le_level : string;
  le_message : string; le_created_at : datetime
}.

Record JobListPageDTO := mkJobListPageDTO {
  pg_items : list JobPublicDTO; pg_next_cursor : option string
}.

(** [JobListCursor] of [app/repositories/jobs.py]. *)
Record JobListCursor := mkJobListCursor { cur_created_at : datetime; cur_job_id : uuid }.

(** [DispatchOutboxMessage] of [app/schemas/outbox.py]; [kind] is the literal
    ["dispatch"]. *)
Record DispatchOutboxMessage := mkDispatchOutboxMessage {
  dm_event_id : uuid; dm_job_id : uuid; dm_created_at : datetime
}.

Definition dm_kind (_ : DispatchOutboxMessage) : string := "dispatch".

(** [JobPostCommitNotification] of [app/workers/post_commit.py]. *)
Record JobPostCommitNotification := mkJobPostCommitNotification {
  pn_job_id : uuid; pn_owner_id : uuid; pn_status : JobStatus; pn_attempt_count : Z;
  pn_committed_at : datetime; pn_cancel_requested_at : option datetime
}.

(** [JobStatusEvent] of [app/schemas/job_events.py]. *)
Record JobStatusEvent := mkJobStatusEvent {
  se_event_id : uuid; se_job_id : uuid; se_status : JobStatus; se_attempt_count : Z;
  se_occurred_at : datetime; se_cancel_requested_at : option datetime
}.

(** [_is_terminal_status] of [app/api/routes/jobs.py]. *)
Definition is_terminal_status (s : JobStatus) : bool :=
  bool_decide (s ∈ [COMPLETED; FAILED; CANCELLED]).

(** ** Facts about the enumerations and the policy *)

Lemma job_status_value_inj s t : job_status_value s = job_status_value t -> s = t.
Proof. destruct s, t; discriminate || reflexivity. Qed.

Lemma parse_job_status_value s : parse_job_status (job_status_value s) = Ok s.
Proof. by destruct s. Qed.

Lemma parse_job_type_value t : parse_job_type (job_type_value t) = Ok t.
Proof. by destruct t. Qed.

Lemma parse_user_role_value r : parse_user_role (user_role_value r) = Ok r.
Proof. by destruct r. Qed.

(** A status is final for the API exactly when the policy gives it no
    successor. *)
Lemma terminal_iff_no_next s : is_terminal_status s = true <-> JobStatePolicy.next_states s = [].
Proof. destruct s; vm_compute; split; congruence. Qed.

Lemma terminal_no_transition s t :
  is_terminal_status s = true -> JobStatePolicy.can_transition s t = false.
Proof. destruct s; [discriminate.. | | |]; by destruct t. Qed.

(** A sequence of transitions the policy allows. *)
Inductive policy_path : JobStatus -> list JobStatus -> Prop :=
| path_nil s : policy_path s []
| path_cons s t l :
    JobStatePolicy.can_transition s t = true -> policy_path t l -> policy_path s (t :: l).

Lemma policy_path_app s l1 t l2 :
  policy_path s (l1 ++ [t]) -> policy_path t l2 -> policy_path s (l1 ++ t :: l2).
Proof.
  revert s; induction l1 as [|x l1 IH]; intros s H1 H2.
  - inversion H1; subst. by constructor.
  - inversion H1; subst. constructor; auto.
Qed.

(** No path leaves a final status. *)
Lemma policy_path_terminal s l : is_terminal_status s = true -> policy_path s l -> l = [].
Proof.
  intros Hs Hp. destruct Hp as [|s t l Ht]; [reflexivity|].
  by rewrite (terminal_no_transition s t Hs) in Ht.
Qed.

Lemma allowed_not_pending s : PENDING ∉ JobStatePolicy._allowed_transitions s.
Proof. apply (bool_decide_eq_false_1 _). by destruct s. Qed.

Lemma policy_no_return_to_pending s l : policy_path s l -> PENDING ∉ l.
Proof.
  induction 1 as [|s t l Ht _ IH]; [apply not_elem_of_nil|].
  apply not_elem_of_cons; split; [|exact IH]. intros <-.
  apply bool_decide_eq_true in Ht. by eapply allowed_not_pending.
Qed.

Lemma job_values_cons a l j : job_values (a :: l) j = job_values l (assign_job j a).
Proof. reflexivity. Qed.

Lemma event_values_cons a l e : event_values (a :: l) e = event_values l (assign_event e a).
Proof. reflexivity. Qed.

(** Values of an assignment list on the columns no statement assigns. *)
Lemma job_values_id l j : j_id (job_values l j) = j_id j.
Proof. revert j; induction l as [|a l IH]; intros j; [done|]. rewrite job_values_cons, IH. by destruct j, a. Qed.

Lemma job_values_owner l j : j_owner_id (job_values l j) = j_owner_id j.
Proof. revert j; induction l as [|a l IH]; intros j; [done|]. rewrite job_values_cons, IH. by destruct j, a. Qed.

Lemma job_values_key l j : j_idempotency_key (job_values l j) = j_idempotency_key j.
Proof. revert j; induction l as [|a l IH]; intros j; [done|]. rewrite job_values_cons, IH. by destruct j, a. Qed.

Lemma job_values_max_retries l j : j_max_retries (job_values l j) = j_max_retries j.
Proof. revert j; induction l as [|a l IH]; intros j; [done|]. rewrite job_values_cons, IH. by destruct j, a. Qed.

Lemma event_values_id l e : e_id (event_values l e) = e_id e.
Proof. revert e; induction l as [|a l IH]; intros e; [done|]. rewrite event_values_cons, IH. by destruct e, a. Qed.

Lemma event_values_aggregate l e : e_aggregate_id (event_values l e) = e_aggregate_id e.
Proof. revert e; induction l as [|a l IH]; intros e; [done|]. rewrite event_values_cons, IH. by destruct e, a. Qed.

Lemma event_values_type l e : e_event_type (event_values l e) = e_event_type e.
Proof. revert e; induction l as [|a l IH]; intros e; [done|]. rewrite event_values_cons, IH. by destruct e, a. Qed.

Lemma event_values_payload l e : e_payload (event_values l e) = e_payload e.
Proof. revert e; induction l as [|a l IH]; intros e; [done|]. rewrite event_values_cons, IH. by destruct e, a. Qed.

#[export] Hint Rewrite job_values_id job_values_owner job_values_key job_values_max_retries
  event_values_id event_values_aggregate event_values_type event_values_payload : col.
