(* ===== verification/Store.v ===== *)
(** * Store: the world a coroutine runs in, the Unit of Work, and the meaning
    of the SQL statements the repositories build. *)
From S2P Require Import Prelude Exceptions Domain.

(** ** Tables *)

(** The database: [alembic/versions/0001_initial_schema.py].  Rows are kept by
    primary key; [db_log_seq] is the identity sequence of [job_logs]. *)
Record DB := mkDB {
  db_users : gmap Z User;
  db_jobs : gmap Z Job;
  db_logs : gmap Z JobLog;
  db_outbox : gmap Z OutboxEvent;
  db_log_seq : Z
}.

Definition empty_db : DB := mkDB ∅ ∅ ∅ ∅ 1.

Definition set_users (t : gmap Z User) (d : DB) : DB :=
  mkDB t (db_jobs d) (db_logs d) (db_outbox d) (db_log_seq d).
Definition set_jobs (t : gmap Z Job) (d : DB) : DB :=
  mkDB (db_users d) t (db_logs d) (db_outbox d) (db_log_seq d).
Definition set_outbox (t : gmap Z OutboxEvent) (d : DB) : DB :=
  mkDB (db_users d) (db_jobs d) (db_logs d) t (db_log_seq d).

(** INSERT INTO job_logs: the identity column numbers the rows. *)
Definition insert_log (job_id : uuid) (attempt : option Z) (level message : string) (at_ : datetime)
    (d : DB) : DB :=
  mkDB (db_users d) (db_jobs d)
    (<[db_log_seq d := mkJobLog (db_log_seq d) job_id attempt level message at_]> (db_logs d))
    (db_outbox d) (db_log_seq d + 1).

(** ** SQL on one table *)
Section sql.
Context {R : Type}.
Implicit Types (t : gmap Z R) (p : R -> bool).

(** The rows of a table. *)
Definition rows t : list R := (map_to_list t).*2.

(** [select(T).where(p)]. *)
Definition select_where p t : list R := filter (fun r => p r = true) (rows t).

(** [.order_by(...)], for the (reflexive, total) order [le] of the keys. *)
Definition sorted_by (le : R -> R -> bool) (a b : R) : Prop := le a b = true.
#[global] Instance sorted_by_dec le : RelDecision (sorted_by le).
Proof. intros a b. unfold sorted_by. apply _. Defined.
Definition order_by (le : R -> R -> bool) (l : list R) : list R := merge_sort (sorted_by le) l.

(** [.limit(n)]. *)
Definition limit (n : Z) (l : list R) : list R := take (Z.to_nat n) l.

(** [session.scalar(statement)]: the first row, if any. *)
Definition scalar (l : list R) : option R := head l.

(** [update(T).where(p).values(f)]: the new table and the row count. *)
Definition update_where p (f : R -> R) t : gmap Z R * Z :=
  ((fun r => if p r then f r else r) <$> t, Z.of_nat (List.length (select_where p t))).

(** Rows are stored under their primary key. *)
Definition keyed (key : R -> Z) t : Prop := forall k r, t !! k = Some r -> key r = k.

End sql.

(** ** The world *)

(** An open Unit of Work: [_session] with the rows written and not yet
    committed ([None] when the transaction wrote nothing), and [_committed]. *)
Record Session := mkSession { s_work : option DB; s_committed : bool }.

(** How a COMMIT ends: acknowledged; refused (the transaction is rolled back);
    or the connection is lost after the server committed. *)
Inductive CommitOutcome := CommitOk | CommitLost (msg : string) | CommitUnacknowledged (msg : string).

(** How a publish with confirms ends: confirmed; refused or not delivered; or
    the connection is lost after the broker took the message. *)
Inductive PublishOutcome :=
| PublishOk | PublishRefused (msg : string) | PublishUnconfirmed (msg : string).

(** A message of the [jobs.direct] exchange routed to the [jobs.execute] queue
    ([RabbitMQDispatchPublisher.publish_dispatch]). *)
Record BrokerMessage := mkBrokerMessage {
  bm_body : string; bm_content_type : string; bm_persistent : bool; bm_message_id : string;
  bm_correlation_id : string; bm_timestamp : datetime; bm_type : string;
  bm_headers : list (string * string); bm_routing_key : string
}.

(** A Redis string value with its expiry time, if it has one. *)
Record RedisEntry := mkRedisEntry { re_value : string; re_expires_at : option datetime }.

(** What a coroutine reads and writes.  [w_clock] gives the successive
    readings of the clock and [w_ticks] counts them; [w_next_uuid] is the
    supply of fresh identifiers of [uuid.uuid4].  [w_commit_plan] and
    [w_publish_plan] are the answers PostgreSQL and RabbitMQ give to the next
    COMMITs and publishes (success once exhausted).  [w_env] is what other
    processes commit: its head acts on the committed database when the
    coroutine next opens a transaction or awaits another service.  [w_locked]
    are the rows other transactions have locked.  [w_broker] holds the messages
    published and not yet acknowledged, [w_redis] the keys of Redis, and
    [w_pubsub] what was PUBLISHed, as (channel, payload). *)
Record World := mkWorld {
  w_db : DB;
  w_sessions : list Session;
  w_clock : nat -> datetime;
  w_ticks : nat;
  w_next_uuid : uuid;
  w_commit_plan : list CommitOutcome;
  w_publish_plan : list PublishOutcome;
  w_env : list (DB -> DB);
  w_locked : gset Z;
  w_broker : list BrokerMessage;
  w_redis : gmap string RedisEntry;
  w_pubsub : list (string * string)
}.

Definition set_db (d : DB) (w : World) : World :=
  mkWorld d (w_sessions w) (w_clock w) (w_ticks w) (w_next_uuid w) (w_commit_plan w)
    (w_publish_plan w) (w_env w) (w_locked w) (w_broker w) (w_redis w) (w_pubsub w).
Definition set_sessions (s : list Session) (w : World) : World :=
  mkWorld (w_db w) s (w_clock w) (w_ticks w) (w_next_uuid w) (w_commit_plan w)
    (w_publish_plan w) (w_env w) (w_locked w) (w_broker w) (w_redis w) (w_pubsub w).
Definition tick (w : World) : World :=
  mkWorld (w_db w) (w_sessions w) (w_clock w) (S (w_ticks w)) (w_next_uuid w) (w_commit_plan w)
    (w_publish_plan w) (w_env w) (w_locked w) (w_broker w) (w_redis w) (w_pubsub w).
Definition bump_uuid (w : World) : World :=
  mkWorld (w_db w) (w_sessions w) (w_clock w) (w_ticks w) (w_next_uuid w + 1) (w_commit_plan w)
    (w_publish_plan w) (w_env w) (w_locked w) (w_broker w) (w_redis w) (w_pubsub w).
Definition pop_commit (w : World) : World :=
  mkWorld (w_db w) (w_sessions w) (w_clock w) (w_ticks w) (w_next_uuid w) (tail (w_commit_plan w))
    (w_publish_plan w) (w_env w) (w_locked w) (w_broker w) (w_redis w) (w_pubsub w).
Definition pop_publish (w : World) : World :=
  mkWorld (w_db w) (w_sessions w) (w_clock w) (w_ticks w) (w_next_uuid w) (w_commit_plan w)
    (tail (w_publish_plan w)) (w_env w) (w_locked w) (w_broker w) (w_redis w) (w_pubsub w).
Definition env_step (w : World) : World :=
  mkWorld (default id (head (w_env w)) (w_db w)) (w_sessions w) (w_clock w) (w_ticks w)
    (w_next_uuid w) (w_commit_plan w) (w_publish_plan w) (tail (w_env w)) (w_locked w)
    (w_broker w) (w_redis w) (w_pubsub w).
Definition set_broker (b : list BrokerMessage) (w : World) : World :=
  mkWorld (w_db w) (w_sessions w) (w_clock w) (w_ticks w) (w_next_uuid w) (w_commit_plan w)
    (w_publish_plan w) (w_env w) (w_locked w) b (w_redis w) (w_pubsub w).
Definition set_redis (r : gmap string RedisEntry) (w : World) : World :=
  mkWorld (w_db w) (w_sessions w) (w_clock w) (w_ticks w) (w_next_uuid w) (w_commit_plan w)
    (w_publish_plan w) (w_env w) (w_locked w) (w_broker w) r (w_pubsub w).
Definition set_pubsub (p : list (string * string)) (w : World) : World :=
  mkWorld (w_db w) (w_sessions w) (w_clock w) (w_ticks w) (w_next_uuid w) (w_commit_plan w)
    (w_publish_plan w) (w_env w) (w_locked w) (w_broker w) (w_redis w) p.
