(* ===== verification/Effects.v ===== *)
(** * Effects: coroutines as state transformers with exceptions, the Unit of
    Work ([app/db/uow.py]), and a weakest-precondition calculus for them. *)
From S2P Require Import Prelude Exceptions Domain Store.

(** A coroutine: runs in a world, ends with a value or an exception; what it
    did before an exception stays done. *)
Definition M (A : Type) : Type := World -> outcome A * World.

#[export] Instance M_ret : MRet M := fun A a w => (Ok a, w).
#[export] Instance M_bind : MBind M := fun A B k m w =>
  match m w with
  | (Ok a, w') => k a w'
  | (Exc e, w') => (Exc e, w')
  end.

Definition raise {A} (e : exn) : M A := fun w => (Exc e, w).

(** The value or the exception of a pure computation. *)
Definition lift {A} (o : outcome A) : M A := fun w => (o, w).

(** [try: m  except ...]: the handlers look at the outcome. *)
Definition attempt {A} (m : M A) : M (outcome A) := fun w => let '(o, w') := m w in (Ok o, w').

Definition when (b : bool) (m : M unit) : M unit := if b then m else mret tt.

Fixpoint for_each {A} (l : list A) (f : A -> M unit) : M unit :=
  match l with [] => mret tt | a :: l' => f a ;; for_each l' f end.

(** [clock.now()] and [utc_now()] of [app/core/clock.py]: the next reading. *)
Definition now : M datetime := fun w => (Ok (w_clock w (w_ticks w)), tick w).
Definition utc_now : M datetime := now.

(** [uuid.uuid4()]. *)
Definition uuid4 : M uuid := fun w => (Ok (w_next_uuid w), bump_uuid w).

(** An await on another service: other processes may commit meanwhile. *)
Definition await_io {A} (m : M A) : M A := fun w => m (env_step w).

(** ** The Unit of Work *)

Definition not_active : exn := RuntimeErr "UnitOfWork is not active".

(** What the transaction of the innermost Unit of Work sees: the rows it
    wrote over the committed ones (READ COMMITTED). *)
Definition view (s : Session) (w : World) : DB := default (w_db w) (s_work s).

(** [__aenter__]: a fresh session. *)
Definition uow_aenter (w : World) : World :=
  set_sessions (mkSession None false :: w_sessions (env_step w)) (env_step w).

(** [__aexit__]: roll back unless committed, close the session. *)
Definition uow_aexit (raised : bool) (w : World) : World :=
  match w_sessions w with
  | [] => w
  | s :: rest =>
      let s := if raised || negb (s_committed s) then mkSession None (s_committed s) else s in
      set_sessions rest (set_sessions (s :: rest) w)
  end.

(** [async with self._uow_factory() as uow: body]. *)
Definition with_uow {A} (body : M A) : M A := fun w =>
  let '(o, w') := body (uow_aenter w) in
  (o, uow_aexit (match o with Ok _ => false | Exc _ => true end) w').

(** [uow.commit()]. *)
Definition uow_commit : M unit := fun w =>
  match w_sessions w with
  | [] => (Exc not_active, w)
  | s :: rest =>
      let w1 := pop_commit w in
      match default CommitOk (head (w_commit_plan w)) with
      | CommitOk => (Ok tt, set_sessions (mkSession None true :: rest) (set_db (view s w) w1))
      | CommitLost m => (Exc (InfraErr m), set_sessions (mkSession None (s_committed s) :: rest) w1)
      | CommitUnacknowledged m =>
          (Exc (InfraErr m),
           set_sessions (mkSession None (s_committed s) :: rest) (set_db (view s w) w1))
      end
  end.

(** [uow.rollback()]. *)
Definition uow_rollback : M unit := fun w =>
  match w_sessions w with
  | [] => (Exc not_active, w)
  | _ :: rest => (Ok tt, set_sessions (mkSession None false :: rest) w)
  end.

(** A SELECT in the current transaction. *)
Definition db_query {A} (q : DB -> A) : M A := fun w =>
  match w_sessions w with
  | [] => (Exc not_active, w)
  | s :: _ => (Ok (q (view s w)), w)
  end.

(** A SELECT ... FOR UPDATE SKIP LOCKED: the rows other transactions hold
    locked are passed over. *)
Definition db_query_unlocked {A} (q : gset uuid -> DB -> A) : M A := fun w =>
  db_query (q (w_locked w)) w.

(** A statement that writes: the new rows and the statement's result. *)
Definition db_exec {A} (f : DB -> DB * A) : M A := fun w =>
  match w_sessions w with
  | [] => (Exc not_active, w)
  | s :: rest =>
      let '(d, a) := f (view s w) in
      (Ok a, set_sessions (mkSession (Some d) (s_committed s) :: rest) w)
  end.

(** [session.flush()] of an INSERT: the rows, or the violated constraint. *)
Definition db_insert `{PgDriver} (f : DB -> DB + violation) : M unit := fun w =>
  match w_sessions w with
  | [] => (Exc not_active, w)
  | s :: rest =>
      match f (view s w) with
      | inl d => (Ok tt, set_sessions (mkSession (Some d) (s_committed s) :: rest) w)
      | inr v => (Exc (IntegrityErr (driver_error v)), w)
      end
  end.

(** ** Weakest preconditions *)

Definition wp {A} (m : M A) (Q : outcome A -> World -> Prop) (w : World) : Prop :=
  Q (fst (m w)) (snd (m w)).

(** What a transaction that wrote [work] sees. *)
Definition seen (w : World) (work : option DB) : DB :=
  match work with Some d => d | None => w_db w end.

(** The world inside a Unit of Work entered in [w], having written [work]. *)
Definition in_tx (w : World) (work : option DB) (committed : bool) : World :=
  set_sessions (mkSession work committed :: w_sessions w) w.

Section wp.
Context {A B : Type}.
Implicit Types (w : World) (Q : outcome A -> World -> Prop).

Lemma wp_ret (a : A) Q w : wp (mret a) Q w = Q (Ok a) w.
Proof. reflexivity. Qed.

Lemma wp_raise e Q w : wp (raise e) Q w = Q (Exc e) w.
Proof. reflexivity. Qed.

Lemma wp_lift o Q w : wp (lift o) Q w = Q o w.
Proof. reflexivity. Qed.

Lemma wp_bind (m : M B) (k : B -> M A) Q w :
  wp (m ≫= k) Q w =
  wp m (fun o w' => match o with Ok a => wp (k a) Q w' | Exc e => Q (Exc e) w' end) w.
Proof. unfold wp, mbind, M_bind. by destruct (m w) as [[a|e] w']. Qed.

Lemma wp_attempt (m : M A) (Q : outcome (outcome A) -> World -> Prop) w :
  wp (attempt m) Q w = wp m (fun o w' => Q (Ok o) w') w.
Proof. unfold wp, attempt. by destruct (m w). Qed.

Lemma wp_if (b : bool) (m1 m2 : M A) Q w :
  wp (if b then m1 else m2) Q w = if b then wp m1 Q w else wp m2 Q w.
Proof. by destruct b. Qed.

Lemma wp_await (m : M A) Q w : wp (await_io m) Q w = wp m Q (env_step w).
Proof. reflexivity. Qed.

Lemma wp_mono (m : M A) Q1 Q2 w :
  (forall o w', Q1 o w' -> Q2 o w') -> wp m Q1 w -> wp m Q2 w.
Proof. unfold wp; auto. Qed.

Lemma wp_exactly (m : M A) o w w' : wp m (fun o1 w1 => o1 = o /\ w1 = w') w -> m w = (o, w').
Proof. unfold wp. destruct (m w) as [o1 w1]. cbn. by intros [ -> ->]. Qed.

Lemma wp_uow (body : M A) Q w :
  wp (with_uow body) Q w =
  wp body (fun o w' =>
    Q o (uow_aexit (match o with Ok _ => false | Exc _ => true end) w'))
    (in_tx (env_step w) None false).
Proof. unfold wp, with_uow. unfold uow_aenter, in_tx. by destruct (body _). Qed.

Lemma aexit_in_tx raised w work c : uow_aexit raised (in_tx w work c) = w.
Proof. by destruct w. Qed.

Lemma wp_query (q : DB -> A) Q w work c :
  wp (db_query q) Q (in_tx w work c) = Q (Ok (q (seen w work))) (in_tx w work c).
Proof. reflexivity. Qed.

Lemma wp_query_unlocked (q : gset uuid -> DB -> A) Q w work c :
  wp (db_query_unlocked q) Q (in_tx w work c) =
  Q (Ok (q (w_locked w) (seen w work))) (in_tx w work c).
Proof. reflexivity. Qed.

Lemma wp_exec (f : DB -> DB * A) Q w work c :
  wp (db_exec f) Q (in_tx w work c) =
  Q (Ok (snd (f (seen w work)))) (in_tx w (Some (fst (f (seen w work)))) c).
Proof.
  unfold wp, db_exec, in_tx. cbn [w_sessions s_work set_sessions s_committed].
  change (view _ _) with (seen w work). by destruct (f (seen w work)).
Qed.

End wp.

(** The result of a run. *)
Lemma wp_run_elim {A} (m : M A) Q w o w' : wp m Q w -> m w = (o, w') -> Q o w'.
Proof. unfold wp. by destruct (m w) as [o1 w1]; intros H [= <- <-]. Qed.

Section wp_primitives.
Implicit Types (w : World).

Lemma wp_now Q w : wp now Q w = Q (Ok (w_clock w (w_ticks w))) (tick w).
Proof. reflexivity. Qed.

Lemma wp_uuid4 Q w : wp uuid4 Q w = Q (Ok (w_next_uuid w)) (bump_uuid w).
Proof. reflexivity. Qed.

Lemma wp_commit Q w work c :
  wp uow_commit Q (in_tx w work c) =
  match default CommitOk (head (w_commit_plan w)) with
  | CommitOk => Q (Ok tt) (in_tx (set_db (seen w work) (pop_commit w)) None true)
  | CommitLost m => Q (Exc (InfraErr m)) (in_tx (pop_commit w) None c)
  | CommitUnacknowledged m =>
      Q (Exc (InfraErr m)) (in_tx (set_db (seen w work) (pop_commit w)) None c)
  end.
Proof.
  unfold wp, uow_commit, in_tx. cbn. by destruct (from_option _ CommitOk _).
Qed.

Lemma wp_rollback Q w work c :
  wp uow_rollback Q (in_tx w work c) = Q (Ok tt) (in_tx w None false).
Proof. reflexivity. Qed.

Lemma wp_insert `{PgDriver} f Q w work c :
  wp (db_insert f) Q (in_tx w work c) =
  match f (seen w work) with
  | inl d => Q (Ok tt) (in_tx w (Some d) c)
  | inr v => Q (Exc (IntegrityErr (driver_error v))) (in_tx w work c)
  end.
Proof.
  unfold wp, db_insert, in_tx. cbn [w_sessions s_work set_sessions s_committed].
  change (view _ _) with (seen w work). by destruct (f (seen w work)).
Qed.

(** The world transformers commute with entering a Unit of Work. *)
Lemma tick_in_tx w work c : tick (in_tx w work c) = in_tx (tick w) work c.
Proof. reflexivity. Qed.

Lemma bump_in_tx w work c : bump_uuid (in_tx w work c) = in_tx (bump_uuid w) work c.
Proof. reflexivity. Qed.

Lemma env_in_tx w work c : env_step (in_tx w work c) = in_tx (env_step w) work c.
Proof. reflexivity. Qed.

Lemma set_db_in_tx d w work c : set_db d (in_tx w work c) = in_tx (set_db d w) work c.
Proof. reflexivity. Qed.

Lemma pop_commit_in_tx w work c : pop_commit (in_tx w work c) = in_tx (pop_commit w) work c.
Proof. reflexivity. Qed.

Lemma set_pubsub_in_tx p w work c :
  set_pubsub p (in_tx w work c) = in_tx (set_pubsub p w) work c.
Proof. reflexivity. Qed.

Lemma set_broker_in_tx b w work c :
  set_broker b (in_tx w work c) = in_tx (set_broker b w) work c.
Proof. reflexivity. Qed.

Lemma set_redis_in_tx r w work c : set_redis r (in_tx w work c) = in_tx (set_redis r w) work c.
Proof. reflexivity. Qed.

(** Outside any Unit of Work a statement fails. *)
Lemma commit_outside w : w_sessions w = [] -> uow_commit w = (Exc not_active, w).
Proof. intros H. unfold uow_commit. by rewrite H. Qed.

End wp_primitives.

#[export] Hint Rewrite @wp_ret @wp_raise @wp_lift @wp_bind @wp_attempt @wp_if @wp_await @wp_uow
  @wp_query @wp_query_unlocked @wp_exec @wp_now @wp_uuid4 @wp_commit @wp_rollback @wp_insert
  @tick_in_tx @bump_in_tx @env_in_tx @set_db_in_tx @pop_commit_in_tx @set_pubsub_in_tx @set_broker_in_tx @set_redis_in_tx
  @aexit_in_tx : wp.

(** Compute the components of a world built by the transformers. *)
Ltac world_proj p :=
  match goal with
  | |- context [p (in_tx ?w ?k ?c)] =>
      change (p (in_tx w k c)) with (p (set_sessions (mkSession k c :: w_sessions w) w))
  | |- context [p ?W] =>
      lazymatch W with
      | set_db _ _ => idtac | set_sessions _ _ => idtac | tick _ => idtac | bump_uuid _ => idtac
      | pop_commit _ => idtac | pop_publish _ => idtac | set_broker _ _ => idtac
      | set_redis _ _ => idtac | set_pubsub _ _ => idtac
      end;
      let t := eval cbn
        [set_db set_sessions tick bump_uuid pop_commit pop_publish set_broker set_redis set_pubsub
         w_db w_sessions w_clock w_ticks w_next_uuid w_commit_plan w_publish_plan w_env
         w_locked w_broker w_redis w_pubsub] in (p W) in
      change (p W) with t
  end.

Ltac world_simp :=
  repeat first
    [ world_proj w_db | world_proj w_env | world_proj w_clock | world_proj w_next_uuid
    | world_proj w_broker | world_proj w_locked | world_proj w_sessions
    | world_proj w_publish_plan | world_proj w_commit_plan | world_proj w_ticks ].

Lemma env_step_nil w : w_env w = [] -> env_step w = w.
Proof. destruct w; cbn. intros ->. reflexivity. Qed.

(** With no interference, opening a transaction changes nothing. *)
Ltac no_env :=
  repeat match goal with
  | |- context [env_step ?W] => rewrite (env_step_nil W) by (world_simp; first [assumption | congruence])
  end.

(** Symbolic execution: [wp_run] goes up to the next case distinction. *)
Ltac wp_run :=
  repeat (progress (autorewrite with wp; cbn beta iota zeta delta [seen fst snd])); world_simp.


#[global] Arguments wp : simpl never.
#[global] Arguments in_tx : simpl never.
