(* ===== verification/Tables.v ===== *)
(** * Tables: facts about the SQL operators of [Store] on tables stored by
    primary key. *)
From S2P Require Import Prelude Exceptions Domain Store.

Section select.
Context {R : Type}.
Implicit Types (t : gmap Z R) (p : R -> bool).

Lemma elem_of_rows t r : r ∈ rows t <-> exists k, t !! k = Some r.
Proof.
  unfold rows. rewrite list_elem_of_fmap. split.
  - intros ([k r'] & -> & H). exists k. by apply elem_of_map_to_list.
  - intros [k H]. exists (k, r). split; [done|]. by apply elem_of_map_to_list.
Qed.

Lemma elem_of_select p t r : r ∈ select_where p t <-> p r = true /\ exists k, t !! k = Some r.
Proof. unfold select_where. rewrite list_elem_of_filter, elem_of_rows. done. Qed.

(** A new row adds itself to a selection if it satisfies the condition. *)
Lemma select_insert p t k r :
  t !! k = None ->
  select_where p (<[k := r]> t) ≡ₚ (if p r then [r] else []) ++ select_where p t.
Proof.
  intros Hk. unfold select_where, rows. rewrite (map_to_list_insert t k r Hk), fmap_cons. cbn [snd].
  destruct (p r) eqn:E; [by rewrite filter_cons_True | rewrite filter_cons_False by congruence; done].
Qed.

Lemma select_nil p t : (forall k r, t !! k = Some r -> p r = false) -> select_where p t = [].
Proof.
  intros H. destruct (select_where p t) as [|r l] eqn:E; [done|].
  assert (Hr : r ∈ select_where p t) by (rewrite E; left).
  apply elem_of_select in Hr as (Hp & k & Hk). rewrite (H _ _ Hk) in Hp. discriminate.
Qed.

Lemma select_split p t k r :
  t !! k = Some r ->
  select_where p t ≡ₚ (if p r then [r] else []) ++ select_where p (delete k t).
Proof.
  intros Hk. rewrite <- (insert_delete_id t k r Hk) at 1.
  apply select_insert. apply lookup_delete_eq.
Qed.

(** Counting under the replacement of one row. *)
Lemma select_update_length p t k r r' :
  t !! k = Some r ->
  (List.length (select_where p (<[k := r']> t)) + (if p r then 1 else 0) =
   List.length (select_where p t) + (if p r' then 1 else 0))%nat.
Proof.
  intros Hk. rewrite (select_split p t k r Hk).
  rewrite <- insert_delete_eq, (select_insert p _ k r') by apply lookup_delete_eq.
  rewrite !length_app. destruct (p r), (p r'); cbn; lia.
Qed.

Section by_key.
Context (key : R -> Z).

Lemma keyed_insert t k r : keyed key t -> key r = k -> keyed key (<[k := r]> t).
Proof. intros Ht Hr k' r'. rewrite lookup_insert. case_decide; naive_solver. Qed.

(** At most one row has a given primary key. *)
Lemma select_by_key t k p :
  keyed key t ->
  select_where (fun r => (key r =? k) && p r) t =
  match t !! k with Some r => if p r then [r] else [] | None => [] end.
Proof.
  intros Ht.
  assert (Hd : forall t', (forall k' r, t' !! k' = Some r -> key r <> k) ->
    select_where (fun r => (key r =? k) && p r) t' = []).
  { intros t' H'. apply select_nil. intros k' r Hr.
    rewrite (proj2 (Z.eqb_neq _ _) (H' k' r Hr)). done. }
  destruct (t !! k) as [r|] eqn:Hk.
  - pose proof (select_split (fun r => (key r =? k) && p r) t k r Hk) as HP.
    rewrite (Hd (delete k t)) in HP.
    + rewrite (Ht _ _ Hk), Z.eqb_refl, app_nil_r in HP. cbn [andb] in HP.
      destruct (p r).
      * by apply Permutation_singleton_r in HP.
      * by apply Permutation_nil_r in HP.
    + intros k' r' Hr' ->%eq_sym. apply lookup_delete_Some in Hr' as [Hne Hr'].
      apply Hne. symmetry. by apply Ht in Hr'.
  - apply Hd. intros k' r Hr ->%eq_sym. rewrite (Ht _ _ Hr) in Hk. congruence.
Qed.

Lemma select_by_key_only t k :
  keyed key t ->
  select_where (fun r => key r =? k) t = match t !! k with Some r => [r] | None => [] end.
Proof.
  intros Ht. pose proof (select_by_key t k (fun _ => true) Ht) as H.
  rewrite <- H. unfold select_where. apply list_filter_iff. intros r. by rewrite andb_true_r.
Qed.

(** UPDATE by primary key touches that row only. *)
Lemma update_by_key t k p f :
  keyed key t ->
  update_where (fun r => (key r =? k) && p r) f t =
  match t !! k with
  | Some r => if p r then (<[k := f r]> t, 1) else (t, 0)
  | None => (t, 0)
  end.
Proof.
  intros Ht. unfold update_where. rewrite select_by_key by done.
  assert (Hid : (forall r, t !! k = Some r -> p r = false) ->
    (fun r => if (key r =? k) && p r then f r else r) <$> t = t).
  { intros Hp. apply map_eq. intros k'. rewrite lookup_fmap.
    destruct (t !! k') as [r|] eqn:Hr; cbn; [|done].
    rewrite (Ht _ _ Hr). destruct (Z.eqb_spec k' k) as [->|]; cbn; [|done].
    by rewrite (Hp _ Hr). }
  destruct (t !! k) as [r|] eqn:Hk.
  - destruct (p r) eqn:Hp; cbn.
    + f_equal. apply map_eq. intros k'. rewrite lookup_fmap, lookup_insert.
      case_decide as Hkk; [subst k'; rewrite Hk; cbn; by rewrite (Ht _ _ Hk), Z.eqb_refl, Hp|].
      destruct (t !! k') as [r'|] eqn:Hr'; cbn; [|done].
      rewrite (Ht _ _ Hr'). by rewrite (proj2 (Z.eqb_neq _ _)) by congruence.
    + f_equal. apply Hid. intros r' [= <-]. done.
  - f_equal. apply Hid. done.
Qed.

Lemma keyed_update t p f :
  keyed key t -> (forall r, key (f r) = key r) -> keyed key (fst (update_where p f t)).
Proof.
  intros Ht Hf k r. cbn. rewrite lookup_fmap. destruct (t !! k) as [r'|] eqn:Hr; cbn; [|done].
  intros [= <-]. destruct (p r'); rewrite ?Hf; by apply Ht.
Qed.

End by_key.

(** ** ORDER BY and LIMIT *)
Section order.
Context (le : R -> R -> bool).
Hypothesis le_total : forall a b, le a b = true \/ le b a = true.
Hypothesis le_trans : forall a b c, le a b = true -> le b c = true -> le a c = true.

#[local] Instance sorted_by_total : Total (sorted_by le).
Proof. intros a b. apply le_total. Qed.

#[local] Instance sorted_by_trans : Transitive (sorted_by le).
Proof. intros a b c. apply le_trans. Qed.

Lemma order_by_sorted l : StronglySorted (sorted_by le) (order_by le l).
Proof. apply Sorted_StronglySorted; [apply _|]. apply Sorted_merge_sort. apply _. Qed.

Lemma order_by_perm l : order_by le l ≡ₚ l.
Proof. apply merge_sort_Permutation. Qed.

Lemma limit_sorted n l : StronglySorted (sorted_by le) l -> StronglySorted (sorted_by le) (limit n l).
Proof.
  unfold limit. rewrite <- (take_drop (Z.to_nat n) l) at 1. apply StronglySorted_app_1_l.
Qed.

End order.

Lemma sublist_map {A B} (f : A -> B) l1 l2 : sublist l1 l2 -> sublist (f <$> l1) (f <$> l2).
Proof. induction 1; cbn; by constructor. Qed.

(** Two elements of a list with distinct keys. *)
Lemma nodup_key_unique {A B} (f : A -> B) l x y :
  NoDup (f <$> l) -> x ∈ l -> y ∈ l -> f x = f y -> x = y.
Proof.
  induction l as [|z l IH]; [by intros _ ?%not_elem_of_nil|].
  rewrite fmap_cons. intros [Hz Hl]%NoDup_cons [->|Hx]%elem_of_cons [->|Hy]%elem_of_cons Hf; auto.
  - destruct Hz. rewrite Hf. by apply list_elem_of_fmap_2.
  - destruct Hz. rewrite <- Hf. by apply list_elem_of_fmap_2.
Qed.

(** The rows a query returns are distinct. *)
Lemma keyed_nodup (key : R -> Z) t p :
  keyed key t -> NoDup (key <$> select_where p t).
Proof.
  intros Ht. apply (sublist_NoDup _ (key <$> rows t)); [|apply sublist_map, sublist_filter].
  unfold rows. rewrite <- list_fmap_compose.
  rewrite (list_fmap_ext _ fst); [apply NoDup_fst_map_to_list|].
  intros i [k r] Hi. apply list_elem_of_lookup_2, elem_of_map_to_list in Hi. by apply Ht.
Qed.

Lemma limit_nodup (key : R -> Z) le n l : NoDup (key <$> l) -> NoDup (key <$> limit n (order_by le l)).
Proof.
  intros H. unfold limit. apply (sublist_NoDup _ (key <$> order_by le l)); [|apply sublist_map, sublist_take].
  by rewrite (order_by_perm le l).
Qed.

Lemma elem_of_limit n (l : list R) r : r ∈ limit n l -> r ∈ l.
Proof. unfold limit. intros H. apply elem_of_take in H as (i & H & _). by eapply list_elem_of_lookup_2. Qed.

Lemma length_limit n (l : list R) : 0 <= n -> Z.of_nat (List.length (limit n l)) <= n.
Proof. intros. unfold limit. rewrite length_take. lia. Qed.

End select.
