(* ===== verification/JobRepo.v ===== *)
(** * JobRepo: [SqlAlchemyJobRepository] of [app/repositories/jobs.py]. *)
From S2P Require Import Prelude Exceptions Domain Store Effects.

(** ** Row mapping *)

Definition _to_stored_job_dto (job : Job) : StoredJobDTO := {|
  sj_id := j_id job;
  sj_owner_id := j_owner_id job;
  sj_type := j_type job;
  sj_payload := j_payload job;
  sj_status := j_status job;
  sj_idempotency_key := j_idempotency_key job;
  sj_request_hash := j_request_hash job;
  sj_created_at := j_created_at job;
  sj_updated_at := j_updated_at job;
  sj_cancel_requested_at := j_cancel_requested_at job;
  sj_attempt_count := j_attempt_count job
|}.

Definition _to_job_execution_dto (job : Job) : JobExecutionDTO := {|
  je_id := j_id job;
  je_owner_id := j_owner_id job;
  je_type := j_type job;
  je_payload := j_payload job;
  je_status := j_status job;
  je_attempt_count := j_attempt_count job;
  je_max_retries := j_max_retries job;
  je_worker_id := j_worker_id job;
  je_execution_token := j_execution_token job;
  je_lease_expires_at := j_lease_expires_at job;
  je_started_at := j_started_at job;
  je_finished_at := j_finished_at job;
  je_cancel_requested_at := j_cancel_requested_at job;
  je_last_error := j_last_error job
|}.

(** ** Statements *)

(** Column tests of the WHERE clauses. *)
Definition has_status (s : JobStatus) (j : Job) : bool := bool_decide (j_status j = s).
Definition has_token (token : uuid) (j : Job) : bool :=
  bool_decide (j_execution_token j = Some token).

(** [update(Job).where(Job.id == job_id, guard).values(...)], then
    [(result.rowcount or 0) == 1]. *)
Definition update_job (job_id : uuid) (guard : Job -> bool) (values : Job -> list job_assignment)
    (d : DB) : DB * bool :=
  let '(t, rowcount) :=
    update_where (fun j => (j_id j =? job_id) && guard j) (fun j => job_values (values j) j)
      (db_jobs d) in
  (set_jobs t d, rowcount =? 1).

(** INSERT INTO jobs, with the constraints of the table. *)
Definition key_taken (owner_id : uuid) (key : string) (d : DB) : bool :=
  negb (bool_decide (select_where
    (fun j => (j_owner_id j =? owner_id) && String.eqb (j_idempotency_key j) key)
    (db_jobs d) = [])).

Definition insert_job (job : Job) (d : DB) : DB + violation :=
  if negb (0 <=? j_attempt_count job) then inr (CheckViolation "ck_jobs_jobs_attempt_count_non_negative")
  else if negb (j_max_retries job =? 3) then inr (CheckViolation "ck_jobs_jobs_max_retries_fixed")
  else if bool_decide (is_Some (db_jobs d !! j_id job)) then inr (UniqueViolation "pk_jobs")
  else if key_taken (j_owner_id job) (j_idempotency_key job) d
    then inr (UniqueViolation "uq_jobs_owner_id_idempotency_key")
  else if bool_decide (db_users d !! j_owner_id job = None)
    then inr (ForeignKeyViolation "fk_jobs_owner_id_users")
  else inl (set_jobs (<[j_id job := job]> (db_jobs d)) d).

(** The keyset order [created_at DESC, id DESC]. *)
Definition newest_first (a b : Job) : bool :=
  (j_created_at b <? j_created_at a) ||
  ((j_created_at a =? j_created_at b) && (j_id b <=? j_id a)).

(** [ORDER BY lease_expires_at ASC, created_at ASC, id ASC] among rows whose
    lease is not NULL. *)
Definition oldest_lease_first (a b : Job) : bool :=
  let la := default 0 (j_lease_expires_at a) in
  let lb := default 0 (j_lease_expires_at b) in
  (la <? lb) ||
  ((la =? lb) &&
   ((j_created_at a <? j_created_at b) ||
    ((j_created_at a =? j_created_at b) && (j_id a <=? j_id b)))).

(** [status = 'running' AND lease_expires_at IS NOT NULL AND lease_expires_at < now]. *)
Definition lease_expired (now : datetime) (j : Job) : bool :=
  has_status RUNNING j &&
  match j_lease_expires_at j with Some lease => lease <? now | None => false end.

Module SqlAlchemyJobRepository.

Section repository.
Context `{PG : PgDriver}.

(** The row a [Job(...)] with defaults is inserted as. *)
Definition create_pending_job (owner_id : uuid) (job_type : JobType) (payload : json)
    (idempotency_key request_hash : string) (max_retries : Z) : M StoredJobDTO :=
  id ← uuid4;
  created_at ← utc_now;
  updated_at ← utc_now;
  let job := {|
    j_id := id; j_owner_id := owner_id; j_type := job_type; j_payload := payload;
    j_status := PENDING; j_idempotency_key := idempotency_key; j_request_hash := request_hash;
    j_attempt_count := 0; j_max_retries := max_retries; j_cancel_requested_at := None;
    j_worker_id := None; j_execution_token := None; j_lease_expires_at := None;
    j_started_at := None; j_finished_at := None; j_last_error := None;
    j_created_at := created_at; j_updated_at := updated_at |} in
  o ← attempt (db_insert (insert_job job));
  match o with
  | Ok _ => mret (_to_stored_job_dto job)
  | Exc (IntegrityErr orig) =>
      if is_duplicate_job_idempotency_key_error orig
      then raise (app_err DuplicateJobIdempotencyKeyError)
      else raise (IntegrityErr orig)
  | Exc e => raise e
  end.

Definition get_by_id (job_id : uuid) : M (option StoredJobDTO) :=
  job ← db_query (fun d => db_jobs d !! job_id);
  mret (_to_stored_job_dto <$> job).

Definition get_by_id_for_owner (job_id owner_id : uuid) : M (option StoredJobDTO) :=
  job ← db_query (fun d => scalar (select_where
    (fun j => (j_id j =? job_id) && (j_owner_id j =? owner_id)) (db_jobs d)));
  mret (_to_stored_job_dto <$> job).

Definition get_by_id_for_update (job_id : uuid) : M (option StoredJobDTO) :=
  job ← db_query (fun d => scalar (select_where (fun j => j_id j =? job_id) (db_jobs d)));
  mret (_to_stored_job_dto <$> job).

Definition get_by_id_for_owner_for_update (job_id owner_id : uuid) : M (option StoredJobDTO) :=
  job ← db_query (fun d => scalar (select_where
    (fun j => (j_id j =? job_id) && (j_owner_id j =? owner_id)) (db_jobs d)));
  mret (_to_stored_job_dto <$> job).

Definition get_execution_candidate_for_update (job_id : uuid) : M (option JobExecutionDTO) :=
  job ← db_query (fun d => scalar (select_where (fun j => j_id j =? job_id) (db_jobs d)));
  mret (_to_job_execution_dto <$> job).

Definition mark_queued (job_id : uuid) (now : datetime) : M bool :=
  db_exec (update_job job_id (has_status PENDING) (fun _ => [
    status_is QUEUED;
    updated_at_is now])).

Definition mark_running (job_id : uuid) (worker_id : string) (execution_token : uuid)
    (now lease_expires_at : datetime) : M bool :=
  db_exec (update_job job_id (has_status QUEUED) (fun j => [
    status_is RUNNING;
    worker_id_is (Some worker_id);
    execution_token_is (Some execution_token);
    lease_expires_at_is (Some lease_expires_at);
    started_at_is (Some (default now (j_started_at j)));
    finished_at_is None;
    last_error_is None;
    attempt_count_is (j_attempt_count j + 1);
    updated_at_is now])).

Definition mark_completed (job_id execution_token : uuid) (now : datetime) : M bool :=
  db_exec (update_job job_id (fun j => has_status RUNNING j && has_token execution_token j)
    (fun _ => [
      status_is COMPLETED;
      worker_id_is None;
      execution_token_is None;
      lease_expires_at_is None;
      finished_at_is (Some now);
      last_error_is None;
      updated_at_is now])).

Definition mark_failed (job_id execution_token : uuid) (now : datetime) (error : string) : M bool :=
  db_exec (update_job job_id (fun j => has_status RUNNING j && has_token execution_token j)
    (fun _ => [
      status_is FAILED;
      worker_id_is None;
      execution_token_is None;
      lease_expires_at_is None;
      finished_at_is (Some now);
      last_error_is (Some error);
      updated_at_is now])).

Definition requeue_running (job_id execution_token : uuid) (now : datetime) (error : string)
    : M bool :=
  db_exec (update_job job_id (fun j => has_status RUNNING j && has_token execution_token j)
    (fun _ => [
      status_is QUEUED;
      worker_id_is None;
      execution_token_is None;
      lease_expires_at_is None;
      finished_at_is None;
      last_error_is (Some error);
      updated_at_is now])).

Definition mark_failed_without_execution (job_id : uuid) (current_status : JobStatus)
    (now : datetime) (error : string) : M bool :=
  db_exec (update_job job_id (has_status current_status) (fun _ => [
    status_is FAILED;
    worker_id_is None;
    execution_token_is None;
    lease_expires_at_is None;
    finished_at_is (Some now);
    last_error_is (Some error);
    updated_at_is now])).

Definition cancel_pending_or_queued (job_id : uuid) (now : datetime) : M bool :=
  db_exec (update_job job_id (fun j => has_status PENDING j || has_status QUEUED j) (fun _ => [
    status_is CANCELLED;
    worker_id_is None;
    execution_token_is None;
    lease_expires_at_is None;
    finished_at_is (Some now);
    updated_at_is now])).

Definition request_running_cancellation (job_id : uuid) (now : datetime) : M bool :=
  db_exec (update_job job_id
    (fun j => has_status RUNNING j && bool_decide (j_cancel_requested_at j = None))
    (fun _ => [
      cancel_requested_at_is (Some now);
      updated_at_is now])).

Definition mark_cancelled (job_id execution_token : uuid) (now : datetime) : M bool :=
  db_exec (update_job job_id (fun j => has_status RUNNING j && has_token execution_token j)
    (fun _ => [
      status_is CANCELLED;
      worker_id_is None;
      execution_token_is None;
      lease_expires_at_is None;
      finished_at_is (Some now);
      updated_at_is now])).

Definition get_owner_id (job_id : uuid) : M (option uuid) :=
  db_query (fun d =>
    j_owner_id <$> scalar (select_where (fun j => j_id j =? job_id) (db_jobs d))).

Definition get_by_idempotency_key (owner_id : uuid) (key : string) : M (option StoredJobDTO) :=
  job ← db_query (fun d => scalar (select_where
    (fun j => (j_owner_id j =? owner_id) && String.eqb (j_idempotency_key j) key) (db_jobs d)));
  mret (_to_stored_job_dto <$> job).

Definition running_of (owner_id : uuid) (j : Job) : bool :=
  (j_owner_id j =? owner_id) && has_status RUNNING j.

Definition count_running_for_owner (owner_id : uuid) : M Z :=
  db_query (fun d => Z.of_nat (List.length (select_where (running_of owner_id) (db_jobs d)))).

Definition _keyset_clause (cursor : JobListCursor) (j : Job) : bool :=
  (j_created_at j <? cur_created_at cursor) ||
  ((j_created_at j =? cur_created_at cursor) && (j_id j <? cur_job_id cursor)).

Definition after_cursor (cursor : option JobListCursor) (j : Job) : bool :=
  match cursor with Some c => _keyset_clause c j | None => true end.

Definition list_for_owner_keyset (owner_id : uuid) (cursor : option JobListCursor) (n : Z)
    : M (list StoredJobDTO) :=
  db_query (fun d => _to_stored_job_dto <$>
    limit n (order_by newest_first (select_where
      (fun j => (j_owner_id j =? owner_id) && after_cursor cursor j) (db_jobs d)))).

Definition list_all_keyset (cursor : option JobListCursor) (n : Z) : M (list StoredJobDTO) :=
  db_query (fun d => _to_stored_job_dto <$>
    limit n (order_by newest_first (select_where (after_cursor cursor) (db_jobs d)))).

Definition find_expired_running_jobs (now : datetime) (n : Z) : M (list StoredJobDTO) :=
  db_query (fun d => _to_stored_job_dto <$>
    limit n (order_by oldest_lease_first (select_where (lease_expired now) (db_jobs d)))).

(** [FOR UPDATE SKIP LOCKED]: the rows other transactions locked are passed over. *)
Definition claim_expired_running_jobs_for_update (now : datetime) (n : Z)
    : M (list JobExecutionDTO) :=
  db_query_unlocked (fun locked d => _to_job_execution_dto <$>
    limit n (order_by oldest_lease_first (select_where
      (fun j => lease_expired now j && bool_decide (j_id j ∉ locked)) (db_jobs d)))).

End repository.
End SqlAlchemyJobRepository.

#[export] Hint Unfold SqlAlchemyJobRepository.create_pending_job
  SqlAlchemyJobRepository.get_by_id
  SqlAlchemyJobRepository.get_by_id_for_owner
  SqlAlchemyJobRepository.get_by_id_for_update
  SqlAlchemyJobRepository.get_by_id_for_owner_for_update
  SqlAlchemyJobRepository.get_execution_candidate_for_update
  SqlAlchemyJobRepository.mark_queued
  SqlAlchemyJobRepository.mark_running
  SqlAlchemyJobRepository.mark_completed
  SqlAlchemyJobRepository.mark_failed
  SqlAlchemyJobRepository.requeue_running
  SqlAlchemyJobRepository.mark_failed_without_execution
  SqlAlchemyJobRepository.cancel_pending_or_queued
  SqlAlchemyJobRepository.request_running_cancellation
  SqlAlchemyJobRepository.mark_cancelled
  SqlAlchemyJobRepository.get_owner_id
  SqlAlchemyJobRepository.get_by_idempotency_key
  SqlAlchemyJobRepository.count_running_for_owner
  SqlAlchemyJobRepository.list_for_owner_keyset
  SqlAlchemyJobRepository.list_all_keyset
  SqlAlchemyJobRepository.find_expired_running_jobs
  SqlAlchemyJobRepository.claim_expired_running_jobs_for_update : repo.

(** The fields of the DTO are the columns. *)
Lemma je_id_dto j : je_id (_to_job_execution_dto j) = j_id j.
Proof. reflexivity. Qed.

Lemma je_owner_dto j : je_owner_id (_to_job_execution_dto j) = j_owner_id j.
Proof. reflexivity. Qed.

Lemma je_status_dto j : je_status (_to_job_execution_dto j) = j_status j.
Proof. reflexivity. Qed.

Lemma je_attempts_dto j : je_attempt_count (_to_job_execution_dto j) = j_attempt_count j.
Proof. reflexivity. Qed.

Lemma je_token_dto j : je_execution_token (_to_job_execution_dto j) = j_execution_token j.
Proof. reflexivity. Qed.

Lemma je_cancel_dto j : je_cancel_requested_at (_to_job_execution_dto j) = j_cancel_requested_at j.
Proof. reflexivity. Qed.

Lemma sj_id_dto j : sj_id (_to_stored_job_dto j) = j_id j.
Proof. reflexivity. Qed.

Lemma sj_owner_dto j : sj_owner_id (_to_stored_job_dto j) = j_owner_id j.
Proof. reflexivity. Qed.

Lemma sj_status_dto j : sj_status (_to_stored_job_dto j) = j_status j.
Proof. reflexivity. Qed.

Lemma sj_hash_dto j : sj_request_hash (_to_stored_job_dto j) = j_request_hash j.
Proof. reflexivity. Qed.

#[export] Hint Rewrite sj_id_dto sj_owner_dto sj_status_dto sj_hash_dto : wp.
#[export] Hint Rewrite je_id_dto je_owner_dto je_status_dto je_attempts_dto je_token_dto
  je_cancel_dto : wp.
