(* ===== verification/Repos.v ===== *)
(** * Repos: the user, job-log and outbox repositories
    ([app/repositories/users.py], [job_logs.py], [outbox.py]). *)
From S2P Require Import Prelude Exceptions Domain Store Effects.

(** What the program relies on from pydantic for [DispatchOutboxMessage]
    ([app/schemas/outbox.py]): the message dumped as JSON, or as JSON text,
    validates back to itself. *)
Class DispatchCodec := {
  model_dump : DispatchOutboxMessage -> json;
  model_validate : json -> option DispatchOutboxMessage;
  model_dump_json : DispatchOutboxMessage -> string;
  model_validate_json : string -> option DispatchOutboxMessage;
  model_validate_dump m : model_validate (model_dump m) = Some m;
  model_validate_dump_json m : model_validate_json (model_dump_json m) = Some m
}.

(** ** [SqlAlchemyUserRepository] *)

Definition email_taken (email : string) (d : DB) : bool :=
  negb (bool_decide (select_where (fun u => String.eqb (u_email u) email) (db_users d) = [])).

(** INSERT INTO users, with the constraints of the table. *)
Definition insert_user (user : User) (d : DB) : DB + violation :=
  if bool_decide (is_Some (db_users d !! u_id user)) then inr (UniqueViolation "pk_users")
  else if email_taken (u_email user) d then inr (UniqueViolation "uq_users_email")
  else inl (set_users (<[u_id user := user]> (db_users d)) d).

Module SqlAlchemyUserRepository.
Section repository.
Context `{PG : PgDriver}.

Definition create_user (email password_hash : string) (role : UserRole) (is_active : bool) : M User :=
  id ← uuid4;
  created_at ← utc_now;
  updated_at ← utc_now;
  let user := mkUser id email password_hash role is_active created_at updated_at in
  o ← attempt (db_insert (insert_user user));
  match o with
  | Ok _ => mret user
  | Exc (IntegrityErr orig) =>
      if is_duplicate_email_integrity_error orig
      then raise (app_err DuplicateEmailError)
      else raise (IntegrityErr orig)
  | Exc e => raise e
  end.

Definition get_by_id (user_id : uuid) : M (option User) :=
  db_query (fun d => db_users d !! user_id).

Definition get_by_email (email : string) : M (option User) :=
  db_query (fun d => scalar (select_where (fun u => String.eqb (u_email u) email) (db_users d))).

Definition lock_by_id (user_id : uuid) : M (option User) :=
  db_query (fun d => scalar (select_where (fun u => u_id u =? user_id) (db_users d))).

(** The flush of a modified row: the UPDATE and its [onupdate] timestamp are
    issued only when a column really changed. *)
Definition flush_admin (user : User) (password_hash : string) : M User :=
  if String.eqb (u_password_hash user) password_hash
     && bool_decide (u_role user = ADMIN) && u_is_active user
  then mret user
  else
    updated_at ← utc_now;
    let user' := mkUser (u_id user) (u_email user) password_hash ADMIN true
                   (u_created_at user) updated_at in
    db_exec (fun d => (set_users (<[u_id user := user']> (db_users d)) d, user')).

Definition create_or_update_admin (email password_hash : string) : M User :=
  user ← get_by_email email;
  match user with
  | None =>
      id ← uuid4;
      created_at ← utc_now;
      updated_at ← utc_now;
      let user := mkUser id email password_hash ADMIN true created_at updated_at in
      db_insert (insert_user user);;
      mret user
  | Some user => flush_admin user password_hash
  end.

End repository.
End SqlAlchemyUserRepository.

(** ** [SqlAlchemyJobLogRepository] *)

Definition JOB_LOG_LIST_LIMIT : Z := 500.

Definition _to_job_log_entry_dto (log : JobLog) : JobLogEntryDTO :=
  mkJobLogEntryDTO (l_id log) (l_job_id log) (l_attempt_number log) (l_level log) (l_message log)
    (l_created_at log).

(** [ORDER BY created_at ASC, id ASC]. *)
Definition log_order (a b : JobLog) : bool :=
  (l_created_at a <? l_created_at b) ||
  ((l_created_at a =? l_created_at b) && (l_id a <=? l_id b)).

Module SqlAlchemyJobLogRepository.

Definition create_job_created_log (job_id : uuid) : M unit :=
  created_at ← utc_now;
  db_exec (fun d => (insert_log job_id None "info" "Job created" created_at d, tt)).

Definition create_system_log (job_id : uuid) (level message : string) : M unit :=
  created_at ← utc_now;
  db_exec (fun d => (insert_log job_id None level message created_at d, tt)).

Definition list_for_job (job_id : uuid) : M (list JobLog) :=
  db_query (fun d => limit JOB_LOG_LIST_LIMIT
    (order_by log_order (select_where (fun l => l_job_id l =? job_id) (db_logs d)))).

Definition list_entries_for_job (job_id : uuid) : M (list JobLogEntryDTO) :=
  db_query (fun d => _to_job_log_entry_dto <$> limit JOB_LOG_LIST_LIMIT
    (order_by log_order (select_where (fun l => l_job_id l =? job_id) (db_logs d)))).

End SqlAlchemyJobLogRepository.

(** ** [SqlAlchemyOutboxRepository] *)

Definition unpublished (e : OutboxEvent) : bool := bool_decide (e_published_at e = None).

(** The pending dispatch events of a job. *)
Definition pending_dispatch (job_id : uuid) (e : OutboxEvent) : bool :=
  (e_aggregate_id e =? job_id) &&
  String.eqb (e_event_type e) (job_event_type_value DISPATCH) && unpublished e.

(** [ORDER BY available_at ASC, created_at ASC]. *)
Definition due_order (a b : OutboxEvent) : bool :=
  (e_available_at a <? e_available_at b) ||
  ((e_available_at a =? e_available_at b) && (e_created_at a <=? e_created_at b)).

(** [update(OutboxEvent).where(OutboxEvent.id == event_id, guard).values(...)]. *)
Definition update_event (event_id : uuid) (guard : OutboxEvent -> bool)
    (values : OutboxEvent -> list event_assignment) (d : DB) : DB * unit :=
  (set_outbox (fst (update_where (fun e => (e_id e =? event_id) && guard e)
                      (fun e => event_values (values e) e) (db_outbox d))) d, tt).

Module SqlAlchemyOutboxRepository.
Section repository.
Context `{DC : DispatchCodec}.

Definition create_dispatch_event (job_id : uuid) (available_at : datetime) : M OutboxEvent :=
  created_at ← utc_now;
  event_id ← uuid4;
  let event := {|
    e_id := event_id;
    e_aggregate_id := job_id;
    e_event_type := job_event_type_value DISPATCH;
    e_payload := model_dump (mkDispatchOutboxMessage event_id job_id created_at);
    e_available_at := available_at;
    e_publish_attempts := 0;
    e_published_at := None;
    e_last_error := None;
    e_created_at := created_at;
    e_updated_at := created_at |} in
  db_exec (fun d => (set_outbox (<[event_id := event]> (db_outbox d)) d, event)).

Definition create_dispatch_event_if_absent (job_id : uuid) (available_at : datetime)
    : M (option OutboxEvent) :=
  existing_event ← db_query (fun d => scalar (select_where (pending_dispatch job_id) (db_outbox d)));
  match existing_event with
  | Some _ => mret None
  | None => e ← create_dispatch_event job_id available_at; mret (Some e)
  end.

(** [FOR UPDATE SKIP LOCKED]. *)
Definition claim_due_batch (now : datetime) (n : Z) : M (list OutboxEvent) :=
  db_query_unlocked (fun locked d => limit n (order_by due_order (select_where
    (fun e => unpublished e && (e_available_at e <=? now) && bool_decide (e_id e ∉ locked))
    (db_outbox d)))).

Definition get_by_id_for_update_unpublished (event_id : uuid) : M (option OutboxEvent) :=
  db_query_unlocked (fun locked d => scalar (select_where
    (fun e => (e_id e =? event_id) && (unpublished e && bool_decide (e_id e ∉ locked)))
    (db_outbox d))).

Definition mark_published (event_id : uuid) (now : datetime) : M unit :=
  db_exec (update_event event_id (fun _ => true) (fun _ => [
    e_published_at_is (Some now);
    e_last_error_is None;
    e_updated_at_is now])).

Definition record_publish_failure (event_id : uuid) (error : string) (next_available_at : datetime)
    : M unit :=
  updated_at ← utc_now;
  db_exec (update_event event_id unpublished (fun e => [
    e_publish_attempts_is (e_publish_attempts e + 1);
    e_last_error_is (Some error);
    e_available_at_is next_available_at;
    e_updated_at_is updated_at])).

End repository.
End SqlAlchemyOutboxRepository.

#[export] Hint Unfold SqlAlchemyUserRepository.create_user
  SqlAlchemyUserRepository.get_by_id
  SqlAlchemyUserRepository.get_by_email
  SqlAlchemyUserRepository.lock_by_id
  SqlAlchemyUserRepository.create_or_update_admin
  SqlAlchemyJobLogRepository.create_job_created_log
  SqlAlchemyJobLogRepository.create_system_log
  SqlAlchemyJobLogRepository.list_for_job
  SqlAlchemyJobLogRepository.list_entries_for_job
  SqlAlchemyOutboxRepository.create_dispatch_event
 
  SqlAlchemyOutboxRepository.claim_due_batch
  SqlAlchemyOutboxRepository.get_by_id_for_update_unpublished
  SqlAlchemyOutboxRepository.mark_published
  SqlAlchemyOutboxRepository.record_publish_failure : repo.
