(* ===== verification/PostCommit.v ===== *)
(** * PostCommit: the interfaces the services call (rate limiter, list cache,
    notifier) and the post-commit notifiers of [app/workers/post_commit.py]. *)
From S2P Require Import Prelude Exceptions Domain Store Effects.

(** ** Interfaces *)

(** [CreateJobRateLimiter] of [app/application/rate_limits.py]. *)
Class CreateJobRateLimiter := {
  reserve : uuid -> M (option CreateJobRateLimitReservationDTO);
  release : CreateJobRateLimitReservationDTO -> M unit
}.

(** [JobListCache] of [app/application/caching/job_list_cache.py]. *)
Class JobListCache := {
  get_page : option uuid -> option string -> Z -> M (option JobListPageDTO);
  set_page : option uuid -> option string -> Z -> JobListPageDTO -> M unit;
  invalidate_owner : uuid -> M unit
}.

(** [WorkerPostCommitNotifier]. *)
Class WorkerPostCommitNotifier := {
  notify_job_state_changed : JobPostCommitNotification -> M unit
}.

(** A call to a best-effort service may move the clock and the supply of
    identifiers and change Redis, and nothing else. *)
Record frame (w w' : World) : Prop := mkFrame {
  frame_db : w_db w' = w_db w;
  frame_sessions : w_sessions w' = w_sessions w;
  frame_clock : w_clock w' = w_clock w;
  frame_ticks : (w_ticks w <= w_ticks w')%nat;
  frame_uuid : w_next_uuid w <= w_next_uuid w';
  frame_commit : w_commit_plan w' = w_commit_plan w;
  frame_publish : w_publish_plan w' = w_publish_plan w;
  frame_env : w_env w' = w_env w;
  frame_locked : w_locked w' = w_locked w;
  frame_broker : w_broker w' = w_broker w
}.

Definition framed {A} (m : M A) : Prop := forall w, frame w (snd (m w)).

(** What the services are promised by their collaborators: calls are framed,
    and the cache and [release] report failure of Redis by doing nothing. *)
Class RateLimiterLaws (RL : CreateJobRateLimiter) : Prop := {
  reserve_framed u : framed (reserve u);
  release_framed r : framed (release r);
  release_total r w : fst (release r w) = Ok tt
}.

Class JobListCacheLaws (JC : JobListCache) : Prop := {
  get_page_framed o c l : framed (get_page o c l);
  set_page_framed o c l p : framed (set_page o c l p);
  invalidate_framed o : framed (invalidate_owner o);
  set_page_total o c l p w : fst (set_page o c l p w) = Ok tt;
  invalidate_total o w : fst (invalidate_owner o w) = Ok tt
}.

Class NotifierLaws (N : WorkerPostCommitNotifier) : Prop := {
  notify_framed n : framed (notify_job_state_changed n)
}.

(** ** The no-op implementations *)

Definition NoOpJobListCache : JobListCache := {|
  get_page _ _ _ := mret None;
  set_page _ _ _ _ := mret tt;
  invalidate_owner _ := mret tt
|}.

Definition NoOpWorkerPostCommitNotifier : WorkerPostCommitNotifier := {|
  notify_job_state_changed _ := mret tt
|}.

(** ** [CompositeWorkerPostCommitNotifier]: every notifier is called, whatever
    the others raise. *)
Fixpoint notify_all (notifiers : list WorkerPostCommitNotifier)
    (notification : JobPostCommitNotification) : M unit :=
  match notifiers with
  | [] => mret tt
  | notifier :: rest =>
      _ ← attempt (@notify_job_state_changed notifier notification);
      notify_all rest notification
  end.

Definition CompositeWorkerPostCommitNotifier (notifiers : list WorkerPostCommitNotifier)
    : WorkerPostCommitNotifier := {|
  notify_job_state_changed notification := notify_all notifiers notification
|}.

(** ** [CacheInvalidatingWorkerPostCommitNotifier] *)
Definition CacheInvalidatingWorkerPostCommitNotifier (job_list_cache : JobListCache)
    : WorkerPostCommitNotifier := {|
  notify_job_state_changed notification := invalidate_owner (pn_owner_id notification)
|}.

(** ** Publishing on Redis ([app/infrastructure/redis/job_status_pubsub.py]) *)

(** The Redis client's PUBLISH: framed, and may fail. *)
Class RedisPublish := {
  redis_publish : string -> string -> M unit;
  redis_publish_framed c p : framed (redis_publish c p)
}.

(** pydantic's JSON text of a [JobStatusEvent], validated back to the event. *)
Class JobStatusEventCodec := {
  event_dump_json : JobStatusEvent -> string;
  event_validate_json : string -> option JobStatusEvent;
  event_validate_dump e : event_validate_json (event_dump_json e) = Some e
}.

Definition JOB_STATUS_CHANNEL_PREFIX : string := "jobs:events".

Definition channel_name (job_id : uuid) : string :=
  JOB_STATUS_CHANNEL_PREFIX +:+ ":" +:+ str_of_uuid job_id.

Section pubsub.
Context `{RP : RedisPublish} `{EC : JobStatusEventCodec}.

(** [RedisJobStatusPubSub.publish]. *)
Definition publish_event (event : JobStatusEvent) : M unit :=
  redis_publish (channel_name (se_job_id event)) (event_dump_json event).

Definition RedisPublishingWorkerPostCommitNotifier : WorkerPostCommitNotifier := {|
  notify_job_state_changed notification :=
    event_id ← uuid4;
    publish_event {|
      se_event_id := event_id;
      se_job_id := pn_job_id notification;
      se_status := pn_status notification;
      se_attempt_count := pn_attempt_count notification;
      se_occurred_at := pn_committed_at notification;
      se_cancel_requested_at := pn_cancel_requested_at notification
    |}
|}.

End pubsub.

(** The notifier the processes are assembled with ([app/main.py],
    [app/cli/run_job_worker.py], [app/cli/run_stale_running_recovery.py]). *)
Definition standard_notifier `{RedisPublish} `{JobStatusEventCodec} (cache : JobListCache)
    : WorkerPostCommitNotifier :=
  CompositeWorkerPostCommitNotifier
    [CacheInvalidatingWorkerPostCommitNotifier cache; RedisPublishingWorkerPostCommitNotifier].

(** [try: notify  except Exception: log and go on], the [_notify_post_commit]
    of the services and the workers. *)
Definition _notify_post_commit `{N : WorkerPostCommitNotifier}
    (notification : JobPostCommitNotification) : M unit :=
  _ ← attempt (notify_job_state_changed notification);
  mret tt.

(** ** Frames *)

#[export] Instance frame_refl : Reflexive frame.
Proof. intros w. by constructor. Qed.

#[export] Instance frame_trans : Transitive frame.
Proof.
  intros w1 w2 w3 [] []; constructor;
    [congruence | congruence | congruence | lia | lia | congruence ..].
Qed.

Lemma frame_bump w : frame w (bump_uuid w).
Proof. constructor; cbn; (reflexivity || lia). Qed.

Lemma frame_tick w : frame w (tick w).
Proof. constructor; cbn; (reflexivity || lia). Qed.

Lemma frame_set_pubsub p w : frame w (set_pubsub p w).
Proof. constructor; cbn; (reflexivity || lia). Qed.

Lemma frame_set_redis r w : frame w (set_redis r w).
Proof. constructor; cbn; (reflexivity || lia). Qed.

#[export] Hint Resolve frame_refl frame_bump frame_tick frame_set_pubsub frame_set_redis : app.

Lemma framed_ret {A} (a : A) : framed (mret a).
Proof. intros w. reflexivity. Qed.

Lemma framed_raise {A} e : framed (raise (A := A) e).
Proof. intros w. reflexivity. Qed.

Lemma framed_bind {A B} (m : M A) (k : A -> M B) :
  framed m -> (forall a, framed (k a)) -> framed (m ≫= k).
Proof.
  intros Hm Hk w. unfold mbind, M_bind. specialize (Hm w). destruct (m w) as [[a|e] w']; cbn in *.
  - etrans; [exact Hm | apply Hk].
  - exact Hm.
Qed.

Lemma framed_attempt {A} (m : M A) : framed m -> framed (attempt m).
Proof. intros Hm w. unfold attempt. specialize (Hm w). by destruct (m w). Qed.

Lemma framed_now : framed now.
Proof. intros w. apply frame_tick. Qed.

Lemma framed_uuid4 : framed uuid4.
Proof. intros w. apply frame_bump. Qed.

#[export] Hint Resolve framed_ret framed_raise framed_bind framed_attempt framed_now framed_uuid4 : app.

(** A framed call inside a Unit of Work leaves the Unit of Work as it is. *)
Lemma frame_in_tx w work c w' :
  frame (in_tx w work c) w' -> exists w2, w' = in_tx w2 work c /\ frame w w2.
Proof.
  intros F. exists (set_sessions (w_sessions w) w'). split.
  - pose proof (frame_sessions _ _ F) as Hs. cbn in Hs.
    destruct w'; unfold in_tx, set_sessions; cbn in *. by rewrite Hs.
  - destruct F; by constructor.
Qed.

Lemma wp_framed {A} (m : M A) Q w :
  framed m -> (forall o w', frame w w' -> Q o w') -> wp m Q w.
Proof. intros Hm HQ. unfold wp. apply HQ. apply Hm. Qed.

(** A framed call that cannot raise. *)
Lemma wp_framed_total (m : M unit) Q w :
  framed m -> (forall w, fst (m w) = Ok tt) -> (forall w', frame w w' -> Q (Ok tt) w') -> wp m Q w.
Proof.
  intros Hm Ht HQ. unfold wp. rewrite Ht. apply HQ, Hm.
Qed.

(** ** The notifiers keep the promises *)

#[export] Instance noop_cache_laws : JobListCacheLaws NoOpJobListCache.
Proof. split; intros; apply framed_ret || reflexivity. Qed.

#[export] Instance noop_notifier_laws : NotifierLaws NoOpWorkerPostCommitNotifier.
Proof. split; intros; apply framed_ret. Qed.

Lemma notify_all_framed l n : Forall NotifierLaws l -> framed (notify_all l n).
Proof. induction 1; cbn; eauto using notify_framed with app. Qed.

Lemma notify_all_total l n w : fst (notify_all l n w) = Ok tt.
Proof.
  revert w; induction l as [|x l IH]; intros w; [done|].
  cbn. unfold mbind, M_bind, attempt. destruct (notify_job_state_changed n w) as [o w']. apply IH.
Qed.

#[export] Instance composite_laws l :
  TCForall NotifierLaws l -> NotifierLaws (CompositeWorkerPostCommitNotifier l).
Proof. intros Hl%TCForall_Forall. split. intros n. by apply notify_all_framed. Qed.

#[export] Instance cache_notifier_laws (C : JobListCache) :
  JobListCacheLaws C -> NotifierLaws (CacheInvalidatingWorkerPostCommitNotifier C).
Proof. intros HC. split. intros n. apply invalidate_framed. Qed.

#[export] Instance redis_notifier_laws `{RedisPublish} `{JobStatusEventCodec} :
  NotifierLaws RedisPublishingWorkerPostCommitNotifier.
Proof.
  split. intros n. cbn. apply framed_bind; [apply framed_uuid4|].
  intros a. apply redis_publish_framed.
Qed.

#[export] Instance standard_notifier_laws `{RedisPublish} `{JobStatusEventCodec} C :
  JobListCacheLaws C -> NotifierLaws (standard_notifier C).
Proof. intros HC. unfold standard_notifier. apply _. Qed.

(** A notification never fails and is framed. *)
Lemma notify_post_commit_framed `{N : WorkerPostCommitNotifier} `{NL : !NotifierLaws N} n :
  framed (_notify_post_commit n).
Proof. unfold _notify_post_commit. eauto using notify_framed with app. Qed.

Lemma notify_post_commit_total `{N : WorkerPostCommitNotifier} n w :
  fst (_notify_post_commit n w) = Ok tt.
Proof.
  unfold _notify_post_commit, mbind, M_bind, attempt. by destruct (notify_job_state_changed n w).
Qed.

Lemma wp_notify `{N : WorkerPostCommitNotifier} `{NL : !NotifierLaws N} n Q w :
  (forall w', frame w w' -> Q (Ok tt) w') -> wp (_notify_post_commit n) Q w.
Proof. apply wp_framed_total; [apply notify_post_commit_framed | apply notify_post_commit_total]. Qed.

Lemma wp_notify_in_tx `{N : WorkerPostCommitNotifier} `{NL : !NotifierLaws N} n Q w work c :
  (forall w', frame w w' -> Q (Ok tt) (in_tx w' work c)) ->
  wp (_notify_post_commit n) Q (in_tx w work c).
Proof. intros HQ. apply wp_notify. intros w' (w2 & -> & F)%frame_in_tx. by apply HQ. Qed.

Lemma wp_invalidate_in_tx `{C : JobListCache} `{CL : !JobListCacheLaws C} o Q w work c :
  (forall w', frame w w' -> Q (Ok tt) (in_tx w' work c)) ->
  wp (invalidate_owner o) Q (in_tx w work c).
Proof.
  intros HQ. apply wp_framed_total; [apply invalidate_framed | apply invalidate_total |].
  intros w' (w2 & -> & F)%frame_in_tx. by apply HQ.
Qed.

(** The rate limiter inside a transaction. *)
Lemma wp_reserve_in_tx `{RL : CreateJobRateLimiter} `{RLL : !RateLimiterLaws RL} u Q w work c :
  (forall o w', frame w w' -> Q o (in_tx w' work c)) -> wp (reserve u) Q (in_tx w work c).
Proof.
  intros HQ. apply wp_framed; [apply reserve_framed|].
  intros o w' (w2 & -> & F)%frame_in_tx. by apply HQ.
Qed.

Lemma wp_release_in_tx `{RL : CreateJobRateLimiter} `{RLL : !RateLimiterLaws RL} r Q w work c :
  (forall w', frame w w' -> Q (Ok tt) (in_tx w' work c)) -> wp (release r) Q (in_tx w work c).
Proof.
  intros HQ. apply wp_framed_total; [apply release_framed | apply release_total |].
  intros w' (w2 & -> & F)%frame_in_tx. by apply HQ.
Qed.
