(* ===== verification/Protocols.v ===== *)
(** * Protocols: the [Protocol] classes of the persistence layer
    ([app/db/uow.py], [app/repositories/*.py]) as interfaces, with the SQLAlchemy
    implementations as their instances, and transactional bodies. *)
From S2P Require Import Prelude Exceptions Domain Store Effects JobRepo Repos PostCommit.

(** ** The repositories *)

Module Users.

(** [UserRepository], less [add]. *)
Class UserRepository := {
  create_user (email password_hash : string) (role : UserRole) (is_active : bool) : M User;
  create_or_update_admin (email password_hash : string) : M User;
  get_by_id (user_id : uuid) : M (option User);
  get_by_email (email : string) : M (option User);
  lock_by_id (user_id : uuid) : M (option User)
}.

Definition sqlalchemy `{PgDriver} : UserRepository := {|
  create_user := SqlAlchemyUserRepository.create_user;
  create_or_update_admin := SqlAlchemyUserRepository.create_or_update_admin;
  get_by_id := SqlAlchemyUserRepository.get_by_id;
  get_by_email := SqlAlchemyUserRepository.get_by_email;
  lock_by_id := SqlAlchemyUserRepository.lock_by_id
|}.

End Users.

Module Jobs.

(** [JobRepository], less [add]. *)
Class JobRepository := {
  create_pending_job (owner_id : uuid) (job_type : JobType) (payload : json)
    (idempotency_key request_hash : string) (max_retries : Z) : M StoredJobDTO;
  get_by_id (job_id : uuid) : M (option StoredJobDTO);
  get_by_id_for_owner (job_id owner_id : uuid) : M (option StoredJobDTO);
  get_by_id_for_update (job_id : uuid) : M (option StoredJobDTO);
  get_by_id_for_owner_for_update (job_id owner_id : uuid) : M (option StoredJobDTO);
  get_execution_candidate_for_update (job_id : uuid) : M (option JobExecutionDTO);
  mark_queued (job_id : uuid) (now : datetime) : M bool;
  mark_running (job_id : uuid) (worker_id : string) (execution_token : uuid)
    (now lease_expires_at : datetime) : M bool;
  mark_completed (job_id execution_token : uuid) (now : datetime) : M bool;
  mark_failed (job_id execution_token : uuid) (now : datetime) (error : string) : M bool;
  requeue_running (job_id execution_token : uuid) (now : datetime) (error : string) : M bool;
  mark_failed_without_execution (job_id : uuid) (current_status : JobStatus) (now : datetime)
    (error : string) : M bool;
  get_owner_id (job_id : uuid) : M (option uuid);
  get_by_idempotency_key (owner_id : uuid) (key : string) : M (option StoredJobDTO);
  count_running_for_owner (owner_id : uuid) : M Z;
  list_for_owner_keyset (owner_id : uuid) (cursor : option JobListCursor) (limit : Z)
    : M (list StoredJobDTO);
  list_all_keyset (cursor : option JobListCursor) (limit : Z) : M (list StoredJobDTO);
  find_expired_running_jobs (now : datetime) (limit : Z) : M (list StoredJobDTO);
  claim_expired_running_jobs_for_update (now : datetime) (limit : Z) : M (list JobExecutionDTO);
  cancel_pending_or_queued (job_id : uuid) (now : datetime) : M bool;
  request_running_cancellation (job_id : uuid) (now : datetime) : M bool;
  mark_cancelled (job_id execution_token : uuid) (now : datetime) : M bool
}.

Definition sqlalchemy `{PgDriver} : JobRepository := {|
  create_pending_job := SqlAlchemyJobRepository.create_pending_job;
  get_by_id := SqlAlchemyJobRepository.get_by_id;
  get_by_id_for_owner := SqlAlchemyJobRepository.get_by_id_for_owner;
  get_by_id_for_update := SqlAlchemyJobRepository.get_by_id_for_update;
  get_by_id_for_owner_for_update := SqlAlchemyJobRepository.get_by_id_for_owner_for_update;
  get_execution_candidate_for_update := SqlAlchemyJobRepository.get_execution_candidate_for_update;
  mark_queued := SqlAlchemyJobRepository.mark_queued;
  mark_running := SqlAlchemyJobRepository.mark_running;
  mark_completed := SqlAlchemyJobRepository.mark_completed;
  mark_failed := SqlAlchemyJobRepository.mark_failed;
  requeue_running := SqlAlchemyJobRepository.requeue_running;
  mark_failed_without_execution := SqlAlchemyJobRepository.mark_failed_without_execution;
  get_owner_id := SqlAlchemyJobRepository.get_owner_id;
  get_by_idempotency_key := SqlAlchemyJobRepository.get_by_idempotency_key;
  count_running_for_owner := SqlAlchemyJobRepository.count_running_for_owner;
  list_for_owner_keyset := SqlAlchemyJobRepository.list_for_owner_keyset;
  list_all_keyset := SqlAlchemyJobRepository.list_all_keyset;
  find_expired_running_jobs := SqlAlchemyJobRepository.find_expired_running_jobs;
  claim_expired_running_jobs_for_update :=
    SqlAlchemyJobRepository.claim_expired_running_jobs_for_update;
  cancel_pending_or_queued := SqlAlchemyJobRepository.cancel_pending_or_queued;
  request_running_cancellation := SqlAlchemyJobRepository.request_running_cancellation;
  mark_cancelled := SqlAlchemyJobRepository.mark_cancelled
|}.

End Jobs.

Module JobLogs.

(** [JobLogRepository], less [add]; no caller uses the row that the inserting
    methods return. *)
Class JobLogRepository := {
  create_job_created_log (job_id : uuid) : M unit;
  create_system_log (job_id : uuid) (level message : string) : M unit;
  list_entries_for_job (job_id : uuid) : M (list JobLogEntryDTO);
  list_for_job (job_id : uuid) : M (list JobLog)
}.

Definition sqlalchemy : JobLogRepository := {|
  create_job_created_log := SqlAlchemyJobLogRepository.create_job_created_log;
  create_system_log := SqlAlchemyJobLogRepository.create_system_log;
  list_entries_for_job := SqlAlchemyJobLogRepository.list_entries_for_job;
  list_for_job := SqlAlchemyJobLogRepository.list_for_job
|}.

End JobLogs.

Module Outbox.

(** [OutboxRepository], less [add]. *)
Class OutboxRepository := {
  create_dispatch_event (job_id : uuid) (available_at : datetime) : M OutboxEvent;
  create_dispatch_event_if_absent (job_id : uuid) (available_at : datetime) : M (option OutboxEvent);
  claim_due_batch (now : datetime) (limit : Z) : M (list OutboxEvent);
  get_by_id_for_update_unpublished (event_id : uuid) : M (option OutboxEvent);
  mark_published (event_id : uuid) (now : datetime) : M unit;
  record_publish_failure (event_id : uuid) (error : string) (next_available_at : datetime) : M unit
}.

Definition sqlalchemy `{DispatchCodec} : OutboxRepository := {|
  create_dispatch_event := SqlAlchemyOutboxRepository.create_dispatch_event;
  create_dispatch_event_if_absent := SqlAlchemyOutboxRepository.create_dispatch_event_if_absent;
  claim_due_batch := SqlAlchemyOutboxRepository.claim_due_batch;
  get_by_id_for_update_unpublished := SqlAlchemyOutboxRepository.get_by_id_for_update_unpublished;
  mark_published := SqlAlchemyOutboxRepository.mark_published;
  record_publish_failure := SqlAlchemyOutboxRepository.record_publish_failure
|}.

End Outbox.

(** ** The Unit of Work *)

(** [UnitOfWork]: the repositories of one session, and its life cycle. *)
Class UnitOfWork := {
  users : Users.UserRepository;
  jobs : Jobs.JobRepository;
  job_logs : JobLogs.JobLogRepository;
  outbox : Outbox.OutboxRepository;
  aenter : World -> World;
  aexit : bool -> World -> World;
  commit : M unit;
  rollback : M unit
}.

(** [SqlAlchemyUnitOfWork]: the four repositories on the session it opens. *)
Definition SqlAlchemyUnitOfWork `{PgDriver} `{DispatchCodec} : UnitOfWork := {|
  users := Users.sqlalchemy;
  jobs := Jobs.sqlalchemy;
  job_logs := JobLogs.sqlalchemy;
  outbox := Outbox.sqlalchemy;
  aenter := uow_aenter;
  aexit := uow_aexit;
  commit := uow_commit;
  rollback := uow_rollback
|}.

(** [async with uow_factory() as uow: body uow]. *)
Definition async_with {A} (uow : UnitOfWork) (body : UnitOfWork -> M A) : M A := fun w =>
  let '(o, w') := body uow (aenter w) in
  (o, aexit (match o with Ok _ => false | Exc _ => true end) w').

Definition create_uow_factory `{PgDriver} `{DispatchCodec} (_ : unit) : UnitOfWork :=
  SqlAlchemyUnitOfWork.

Lemma async_with_sqlalchemy `{PgDriver} `{DispatchCodec} {A} (body : UnitOfWork -> M A) :
  async_with (create_uow_factory tt) body = with_uow (body SqlAlchemyUnitOfWork).
Proof. reflexivity. Qed.
