(* ===== verification/Invariants.v ===== *)
(** * Invariants: the well-formedness of the database and what every statement
    of the repositories preserves. *)
From S2P Require Import Prelude Exceptions Domain Store Effects Tables JobRepo Repos.

(** ** A well-formed job row *)

Definition lease_held (j : Job) : Prop :=
  is_Some (j_worker_id j) /\ is_Some (j_execution_token j) /\ is_Some (j_lease_expires_at j).
Definition lease_free (j : Job) : Prop :=
  j_worker_id j = None /\ j_execution_token j = None /\ j_lease_expires_at j = None.

Record job_ok (k : uuid) (j : Job) : Prop := mkJobOk {
  ok_id : j_id j = k;
  ok_max_retries : j_max_retries j = 3;
  ok_attempts : 0 <= j_attempt_count j <= 4;
  ok_pending : j_status j = PENDING -> j_attempt_count j = 0;
  ok_queued : j_status j = QUEUED -> j_attempt_count j <= 3;
  ok_running : j_status j = RUNNING -> 1 <= j_attempt_count j;
  ok_lease : if bool_decide (j_status j = RUNNING) then lease_held j else lease_free j;
  ok_finished : is_Some (j_finished_at j) <-> is_terminal_status (j_status j) = true
}.

(** ** A well-formed outbox event: a dispatch message for its aggregate *)
Record event_ok `{DispatchCodec} (k : uuid) (e : OutboxEvent) : Prop := mkEventOk {
  ok_event_id : e_id e = k;
  ok_event_type : e_event_type e = job_event_type_value DISPATCH;
  ok_event_attempts : 0 <= e_publish_attempts e;
  ok_event_payload : exists m, model_validate (e_payload e) = Some m /\
    dm_job_id m = e_aggregate_id e /\ dm_event_id m = k
}.

(** The running jobs of a user. *)
Definition running_count (owner : uuid) (d : DB) : Z :=
  Z.of_nat (List.length (select_where (SqlAlchemyJobRepository.running_of owner) (db_jobs d))).

(** ** A well-formed database, with [limit] running jobs per user at most and
    every identifier drawn below [n]. *)
Record db_ok `{DispatchCodec} (limit n : Z) (d : DB) : Prop := mkDbOk {
  ok_jobs : forall k j, db_jobs d !! k = Some j -> job_ok k j;
  ok_unique : forall k1 k2 j1 j2,
    db_jobs d !! k1 = Some j1 -> db_jobs d !! k2 = Some j2 ->
    j_owner_id j1 = j_owner_id j2 -> j_idempotency_key j1 = j_idempotency_key j2 -> k1 = k2;
  ok_owner : forall k j, db_jobs d !! k = Some j -> is_Some (db_users d !! j_owner_id j);
  ok_users : keyed u_id (db_users d);
  ok_emails : forall k1 k2 u1 u2,
    db_users d !! k1 = Some u1 -> db_users d !! k2 = Some u2 -> u_email u1 = u_email u2 -> k1 = k2;
  ok_events : forall k e, db_outbox d !! k = Some e -> event_ok k e;
  ok_running_limit : forall owner, running_count owner d <= limit;
  ok_log_jobs : forall k l, db_logs d !! k = Some l -> is_Some (db_jobs d !! l_job_id l);
  ok_log_ids : forall k l, db_logs d !! k = Some l -> l_id l = k /\ k < db_log_seq d;
  ok_job_ids : forall k, is_Some (db_jobs d !! k) -> k < n;
  ok_event_ids : forall k, is_Some (db_outbox d !! k) -> k < n;
  ok_user_ids : forall k, is_Some (db_users d !! k) -> k < n
}.

(** ** Per-job evolution: what may happen to a row in any sequence of
    transactions *)

(** The row keeps its identity; its attempts never decrease; its status moves
    along transitions of [JobStatePolicy]. *)
Record job_evolves (j j' : Job) : Prop := mkEvolves {
  ev_id : j_id j' = j_id j;
  ev_owner : j_owner_id j' = j_owner_id j;
  ev_key : j_idempotency_key j' = j_idempotency_key j;
  ev_hash : j_request_hash j' = j_request_hash j;
  ev_type : j_type j' = j_type j;
  ev_payload : j_payload j' = j_payload j;
  ev_created : j_created_at j' = j_created_at j;
  ev_attempts : j_attempt_count j <= j_attempt_count j';
  ev_path : exists l, policy_path (j_status j) l /\ last (j_status j :: l) = Some (j_status j')
}.

Definition evolves (d d' : DB) : Prop :=
  forall k j, db_jobs d !! k = Some j -> exists j', db_jobs d' !! k = Some j' /\ job_evolves j j'.

(** ** Dispatch coverage: no accepted job is forgotten *)

Definition has_pending_event (k : uuid) (d : DB) : Prop :=
  exists e, (exists i, db_outbox d !! i = Some e) /\ pending_dispatch k e = true.

Definition targets `{DispatchCodec} (k : uuid) (m : BrokerMessage) : Prop :=
  exists dm, model_validate_json (bm_body m) = Some dm /\ dm_job_id dm = k.

(** A pending job has an unpublished dispatch event; a queued job has one, or
    a message for it waits in the queue. *)
Definition covered `{DispatchCodec} (d : DB) (queue : list BrokerMessage) : Prop :=
  forall k j, db_jobs d !! k = Some j ->
    match j_status j with
    | PENDING => has_pending_event k d
    | QUEUED => has_pending_event k d \/ exists m, m ∈ queue /\ targets k m
    | _ => True
    end.

(** ** Changes of one row *)

(** A row update with its log line. *)
Definition logged_update (k : uuid) (j : Job) (l : list job_assignment) (level message : string)
    (at_ : datetime) (d : DB) : DB :=
  insert_log k None level message at_ (set_jobs (<[k := job_values l j]> (db_jobs d)) d).

(** The job [k] while it runs under [token]. *)
Definition holder (k token : uuid) (d : DB) : option Job :=
  match db_jobs d !! k with
  | Some j => if has_status RUNNING j && has_token token j then Some j else None
  | None => None
  end.

(** ** Evolution is a preorder *)

Lemma evolves_one j j' :
  j_id j' = j_id j -> j_owner_id j' = j_owner_id j -> j_idempotency_key j' = j_idempotency_key j ->
  j_request_hash j' = j_request_hash j -> j_type j' = j_type j -> j_payload j' = j_payload j ->
  j_created_at j' = j_created_at j -> j_attempt_count j <= j_attempt_count j' ->
  (j_status j' = j_status j \/ JobStatePolicy.can_transition (j_status j) (j_status j') = true) ->
  job_evolves j j'.
Proof.
  intros. constructor; try done. destruct H7 as [-> | Ht].
  - exists []. split; [constructor | done].
  - exists [j_status j']. split; [constructor; [done | constructor] | done].
Qed.

#[export] Instance job_evolves_refl : Reflexive job_evolves.
Proof. intros j. apply evolves_one; (done || lia || by left). Qed.

Lemma policy_path_trans s l1 t l2 :
  policy_path s l1 -> last (s :: l1) = Some t -> policy_path t l2 -> policy_path s (l1 ++ l2).
Proof.
  revert s; induction l1 as [|x l1 IH]; intros s H1 Hl H2; cbn [app].
  - by injection Hl as ->.
  - inversion H1; subst. constructor; [done|]. apply IH; [done | exact Hl | done].
Qed.

Lemma last_path_app (s t u : JobStatus) l1 l2 :
  last (s :: l1) = Some t -> last (t :: l2) = Some u -> last (s :: l1 ++ l2) = Some u.
Proof.
  intros H1 H2. destruct l2 as [|x l2].
  - injection H2 as ->. by rewrite app_nil_r.
  - change (s :: l1 ++ x :: l2) with ((s :: l1) ++ x :: l2). rewrite last_app.
    cbn in H2 |- *. by rewrite H2.
Qed.

#[export] Instance job_evolves_trans : Transitive job_evolves.
Proof.
  intros j1 j2 j3 [] []. constructor; try congruence; [lia|].
  destruct ev_path0 as (l1 & P1 & E1), ev_path1 as (l2 & P2 & E2). exists (l1 ++ l2). split.
  - by eapply policy_path_trans.
  - by eapply last_path_app.
Qed.

#[export] Instance evolves_refl : Reflexive evolves.
Proof. intros d k j Hj. by exists j. Qed.

#[export] Instance evolves_trans : Transitive evolves.
Proof.
  intros d1 d2 d3 H1 H2 k j Hj. destruct (H1 k j Hj) as (j2 & Hj2 & E1).
  destruct (H2 k j2 Hj2) as (j3 & Hj3 & E2). exists j3. split; [done|]. by etrans.
Qed.

(** A finished job does not change its status. *)
Lemma evolves_terminal j j' :
  job_evolves j j' -> is_terminal_status (j_status j) = true -> j_status j' = j_status j.
Proof.
  intros E Ht. destruct (ev_path _ _ E) as (l & Hp & Hl).
  rewrite (policy_path_terminal _ _ Ht Hp) in Hl. by injection Hl.
Qed.

#[export] Hint Resolve evolves_refl : inv.

(** ** The primitive changes *)
Section preserve.
Context `{DC : DispatchCodec} (limit : Z).
Implicit Types (d : DB) (n : Z).

Lemma db_ok_keyed n d : db_ok limit n d -> keyed j_id (db_jobs d).
Proof. intros H k j Hj. by apply (ok_jobs _ _ _ H), ok_id in Hj. Qed.

Lemma db_ok_id n d k j : db_ok limit n d -> db_jobs d !! k = Some j -> j_id j = k.
Proof. intros H Hj. by eapply db_ok_keyed. Qed.

Lemma db_ok_keyed_events n d : db_ok limit n d -> keyed e_id (db_outbox d).
Proof. intros H k e He. by apply (ok_events _ _ _ H), ok_event_id in He. Qed.

Lemma db_ok_mono n n' d : n <= n' -> db_ok limit n d -> db_ok limit n' d.
Proof.
  intros Hn []. constructor; try done; intros k Hk; (eapply Z.lt_le_trans; [eauto | exact Hn]).
Qed.

(** Reading by primary key. *)
Lemma scalar_job n d k :
  db_ok limit n d -> scalar (select_where (fun j => j_id j =? k) (db_jobs d)) = db_jobs d !! k.
Proof.
  intros H. rewrite (select_by_key_only j_id) by by eapply db_ok_keyed. by destruct (_ !! k).
Qed.

Lemma scalar_job_where n d k p :
  db_ok limit n d ->
  scalar (select_where (fun j => (j_id j =? k) && p j) (db_jobs d)) =
  match db_jobs d !! k with Some j => if p j then Some j else None | None => None end.
Proof.
  intros H. rewrite (select_by_key j_id) by by eapply db_ok_keyed.
  destruct (_ !! k) as [j|]; [|done]. by destruct (p j).
Qed.

Lemma scalar_user n d k :
  db_ok limit n d -> scalar (select_where (fun u => u_id u =? k) (db_users d)) = db_users d !! k.
Proof.
  intros H. rewrite (select_by_key_only u_id) by apply (ok_users _ _ _ H). by destruct (_ !! k).
Qed.

Lemma scalar_event_where n d k p :
  db_ok limit n d ->
  scalar (select_where (fun e => (e_id e =? k) && p e) (db_outbox d)) =
  match db_outbox d !! k with Some e => if p e then Some e else None | None => None end.
Proof.
  intros H. rewrite (select_by_key e_id) by by eapply db_ok_keyed_events.
  destruct (_ !! k) as [e|]; [|done]. by destruct (p e).
Qed.

(** The owner of a stored job can be locked. *)
Lemma scalar_owner n d k j :
  db_ok limit n d -> db_jobs d !! k = Some j ->
  exists u, scalar (select_where (fun u => u_id u =? j_owner_id j) (db_users d)) = Some u.
Proof.
  intros H Hj. destruct (ok_owner _ _ _ H _ _ Hj) as [u Hu]. exists u.
  by rewrite (scalar_user n) by done.
Qed.

(** UPDATE of a job by primary key. *)
Lemma update_job_spec n d k guard values :
  db_ok limit n d ->
  update_job k guard values d =
  match db_jobs d !! k with
  | Some j =>
      if guard j then (set_jobs (<[k := job_values (values j) j]> (db_jobs d)) d, true) else (d, false)
  | None => (d, false)
  end.
Proof.
  intros H. unfold update_job. rewrite (update_by_key j_id) by by eapply db_ok_keyed.
  destruct (_ !! k) as [j|]; [destruct (guard j)|]; cbn; by destruct d.
Qed.

Lemma update_event_spec n d k guard values :
  db_ok limit n d ->
  update_event k guard values d =
  (match db_outbox d !! k with
   | Some e =>
       if guard e then set_outbox (<[k := event_values (values e) e]> (db_outbox d)) d else d
   | None => d
   end, tt).
Proof.
  intros H. unfold update_event. rewrite (update_by_key e_id) by by eapply db_ok_keyed_events.
  destruct (_ !! k) as [e|]; [destruct (guard e)|]; cbn; by destruct d.
Qed.

Lemma running_count_update d k j j' owner :
  db_jobs d !! k = Some j ->
  running_count owner (set_jobs (<[k := j']> (db_jobs d)) d) =
  running_count owner d
  + (if SqlAlchemyJobRepository.running_of owner j' then 1 else 0)
  - (if SqlAlchemyJobRepository.running_of owner j then 1 else 0).
Proof.
  intros Hj. unfold running_count. cbn [db_jobs set_jobs].
  pose proof (select_update_length (SqlAlchemyJobRepository.running_of owner) _ k j j' Hj).
  destruct (SqlAlchemyJobRepository.running_of owner j), (SqlAlchemyJobRepository.running_of owner j');
    lia.
Qed.

(** Replacing a row: the new row is well formed, keeps owner and key, and
    starts running only below the limit. *)
Lemma db_ok_update_job n d k j l :
  db_ok limit n d -> db_jobs d !! k = Some j -> job_ok k (job_values l j) ->
  (j_status (job_values l j) = RUNNING -> j_status j <> RUNNING ->
    running_count (j_owner_id j) d < limit) ->
  db_ok limit n (set_jobs (<[k := job_values l j]> (db_jobs d)) d).
Proof.
  intros H Hj Hok Hrun. constructor; cbn [db_users db_jobs db_logs db_outbox db_log_seq set_jobs];
    try apply H.
  - intros k' j'. rewrite lookup_insert. case_decide; [intros [= <-]; by subst | apply H].
  - intros k1 k2 j1 j2. rewrite !lookup_insert.
    pose proof (ok_unique _ _ _ H) as U.
    case_decide; case_decide; subst; try done.
    + intros [= <-] H2. rewrite job_values_owner, job_values_key. by apply U.
    + intros H1 [= <-]. rewrite job_values_owner, job_values_key. by apply U.
    + apply U.
  - intros k' j'. rewrite lookup_insert. case_decide.
    + intros [= <-]. rewrite job_values_owner. by eapply (ok_owner _ _ _ H).
    + apply H.
  - intros owner. rewrite (running_count_update d k j _ owner Hj).
    pose proof (ok_running_limit _ _ _ H owner) as Hl.
    unfold SqlAlchemyJobRepository.running_of, has_status.
    rewrite job_values_owner. destruct (Z.eqb_spec (j_owner_id j) owner) as [<-|]; cbn [andb]; [|lia].
    repeat case_bool_decide; try lia. specialize (Hrun ltac:(done) ltac:(done)). lia.
  - intros k' lg Hlg. rewrite lookup_insert. case_decide; [done|].
    by eapply (ok_log_jobs _ _ _ H).
  - intros k'. rewrite lookup_insert. case_decide; [subst; intros _|]; apply H; by exists j.
Qed.

Lemma db_ok_insert_log n d job att lvl msg at_ :
  db_ok limit n d -> is_Some (db_jobs d !! job) ->
  db_ok limit n (insert_log job att lvl msg at_ d).
Proof.
  intros H Hj. constructor; cbn [db_users db_jobs db_logs db_outbox db_log_seq insert_log];
    try apply H.
  - intros k l. rewrite lookup_insert. case_decide; [by intros [= <-] | apply H].
  - intros k l. rewrite lookup_insert. case_decide; [intros [= <-]; cbn; lia |].
    intros Hl. apply (ok_log_ids _ _ _ H) in Hl. lia.
Qed.

Lemma db_ok_insert_event n n' d i e :
  db_ok limit n d -> event_ok i e -> n <= n' -> i < n' ->
  db_ok limit n' (set_outbox (<[i := e]> (db_outbox d)) d).
Proof.
  intros H He Hi Hn. apply (db_ok_mono n n') in H; [|done].
  constructor; cbn [db_users db_jobs db_logs db_outbox db_log_seq set_outbox]; try apply H.
  - intros k e'. rewrite lookup_insert. case_decide; [intros [= <-]; by subst | apply H].
  - intros k. rewrite lookup_insert. case_decide; [by subst | apply H].
Qed.

Lemma event_ok_values k e l :
  event_ok k e -> 0 <= e_publish_attempts (event_values l e) -> event_ok k (event_values l e).
Proof. intros [] Ha. constructor; autorewrite with col; done. Qed.

Lemma db_ok_update_event n d i e l :
  db_ok limit n d -> db_outbox d !! i = Some e ->
  0 <= e_publish_attempts (event_values l e) ->
  db_ok limit n (set_outbox (<[i := event_values l e]> (db_outbox d)) d).
Proof.
  intros H He Ha. constructor; cbn [db_users db_jobs db_logs db_outbox db_log_seq set_outbox];
    try apply H.
  - intros k e'. rewrite lookup_insert. case_decide; [|apply H].
    intros [= <-]; subst. apply event_ok_values; [by apply H | done].
  - intros k. rewrite lookup_insert. case_decide; [subst; intros _|];
      apply (ok_event_ids _ _ _ H). by exists e.
Qed.

Lemma running_of_pending owner j : j_status j = PENDING -> SqlAlchemyJobRepository.running_of owner j = false.
Proof.
  intros Hs. unfold SqlAlchemyJobRepository.running_of, has_status. rewrite Hs.
  by rewrite bool_decide_eq_false_2, andb_false_r.
Qed.

(** INSERT of a pending job whose constraints hold. *)
Lemma key_taken_false n d owner key :
  db_ok limit n d -> key_taken owner key d = false ->
  forall k j, db_jobs d !! k = Some j -> j_owner_id j = owner -> j_idempotency_key j <> key.
Proof.
  unfold key_taken. intros _ Ht k j Hj Ho Hk. apply negb_false_iff, bool_decide_eq_true in Ht.
  assert (Hin : j ∈ select_where
    (fun j => (j_owner_id j =? owner) && String.eqb (j_idempotency_key j) key) (db_jobs d)).
  { apply elem_of_select. rewrite Ho, Hk, Z.eqb_refl, String.eqb_refl. eauto. }
  rewrite Ht in Hin. by apply not_elem_of_nil in Hin.
Qed.

Lemma db_ok_insert_job n d j :
  db_ok limit n d -> job_ok (j_id j) j -> j_status j = PENDING -> j_id j < n ->
  db_jobs d !! j_id j = None -> key_taken (j_owner_id j) (j_idempotency_key j) d = false ->
  is_Some (db_users d !! j_owner_id j) ->
  db_ok limit n (set_jobs (<[j_id j := j]> (db_jobs d)) d).
Proof.
  intros H Hok Hs Hn Hnone Hkey Hown.
  pose proof (key_taken_false n d _ _ H Hkey) as Hfree.
  constructor; cbn [db_users db_jobs db_logs db_outbox db_log_seq set_jobs]; try apply H.
  - intros k j'. rewrite lookup_insert. case_decide; [intros [= <-]; by subst | apply H].
  - intros k1 k2 j1 j2. rewrite !lookup_insert.
    case_decide; case_decide; subst; try done.
    + intros [= <-] H2 Ho Hk. by destruct (Hfree _ _ H2).
    + intros H1 [= <-] Ho Hk. by destruct (Hfree _ _ H1).
    + apply (ok_unique _ _ _ H).
  - intros k j'. rewrite lookup_insert. case_decide; [by intros [= <-] | apply H].
  - intros owner. unfold running_count. cbn [db_jobs set_jobs].
    rewrite (select_insert _ _ _ _ Hnone), running_of_pending by done.
    apply (ok_running_limit _ _ _ H).
  - intros k l Hl. rewrite lookup_insert. case_decide; [done|]. by eapply (ok_log_jobs _ _ _ H).
  - intros k. rewrite lookup_insert. case_decide; [by subst | apply H].
Qed.

(** ** The page of a job's log *)

Lemma log_order_total a b : log_order a b = true \/ log_order b a = true.
Proof using.
  unfold log_order. rewrite !orb_true_iff, !andb_true_iff, !Z.ltb_lt, !Z.eqb_eq, !Z.leb_le. lia.
Qed.

Lemma log_order_trans a b c : log_order a b = true -> log_order b c = true -> log_order a c = true.
Proof using.
  unfold log_order. rewrite !orb_true_iff, !andb_true_iff, !Z.ltb_lt, !Z.eqb_eq, !Z.leb_le. lia.
Qed.

Lemma limit_all {R} m (l : list R) : Z.of_nat (List.length l) <= m -> Store.limit m l = l.
Proof using. intros. unfold Store.limit. apply firstn_all2. lia. Qed.

Lemma log_page_spec n d k :
  db_ok limit n d ->
  let all := select_where (fun x => l_job_id x =? k) (db_logs d) in
  let l := Store.limit 500 (order_by log_order all) in
  StronglySorted (fun a b => log_order a b = true) l /\
  Z.of_nat (List.length l) <= 500 /\
  (forall x, x ∈ l -> l_job_id x = k /\ db_logs d !! l_id x = Some x) /\
  (Z.of_nat (List.length all) <= 500 ->
   forall x, x ∈ l <-> l_job_id x = k /\ db_logs d !! l_id x = Some x).
Proof using.
  intros H all l.
  assert (Hall : forall x, x ∈ all <-> l_job_id x = k /\ db_logs d !! l_id x = Some x).
  { intros x. unfold all. rewrite elem_of_select, Z.eqb_eq. split.
    - intros [? [i Hi] ]. destruct (ok_log_ids _ _ _ H i x Hi) as [-> _]. done.
    - intros []. eauto. }
  split; [apply limit_sorted, order_by_sorted; [apply log_order_total | apply log_order_trans]|].
  split; [by apply length_limit|]. split.
  - intros x Hx%elem_of_limit. rewrite (order_by_perm _) in Hx. by apply Hall.
  - intros Hlen x. unfold l. rewrite limit_all; rewrite (order_by_perm log_order all); done.
Qed.

(** ** Evolution of the primitive changes *)

Lemma evolves_update_job d k j j' :
  db_jobs d !! k = Some j -> job_evolves j j' ->
  evolves d (set_jobs (<[k := j']> (db_jobs d)) d).
Proof.
  intros Hj He k' j0 Hj0. cbn. rewrite lookup_insert. case_decide as Hk; [subst|by exists j0].
  rewrite Hj in Hj0. injection Hj0 as <-. by exists j'.
Qed.

Lemma evolves_same_jobs d d' : db_jobs d' = db_jobs d -> evolves d d'.
Proof. intros Hd k j Hj. exists j. by rewrite Hd. Qed.

Lemma evolves_insert_job d j :
  db_jobs d !! j_id j = None -> evolves d (set_jobs (<[j_id j := j]> (db_jobs d)) d).
Proof.
  intros Hn k j0 Hj0. cbn. rewrite lookup_insert_ne by congruence. by exists j0.
Qed.

End preserve.

(** ** Coverage under the primitive changes *)
Section coverage.
Context `{DC : DispatchCodec}.

Lemma has_pending_event_mono k d d' :
  (forall i e, db_outbox d !! i = Some e -> pending_dispatch k e = true ->
     exists i' e', db_outbox d' !! i' = Some e' /\ pending_dispatch k e' = true) ->
  has_pending_event k d -> has_pending_event k d'.
Proof. intros H (e & (i & Hi) & Hp). destruct (H i e Hi Hp) as (i' & e' & ? & ?). by exists e'; eauto. Qed.

Lemma pending_event_same_outbox k d d' :
  db_outbox d' = db_outbox d -> has_pending_event k d -> has_pending_event k d'.
Proof. intros Ho. apply has_pending_event_mono. intros i e. rewrite Ho. eauto. Qed.

Lemma pending_event_insert k d i e :
  db_outbox d !! i = None ->
  has_pending_event k d -> has_pending_event k (set_outbox (<[i := e]> (db_outbox d)) d).
Proof.
  intros Hn. apply has_pending_event_mono. intros i' e' Hi' Hp. exists i', e'. cbn.
  rewrite lookup_insert_ne by congruence. done.
Qed.

Lemma pending_event_inserted k d i e :
  pending_dispatch k e = true -> has_pending_event k (set_outbox (<[i := e]> (db_outbox d)) d).
Proof. intros Hp. exists e. split; [exists i; cbn; apply lookup_insert_eq | done]. Qed.

(** The SELECT of [create_dispatch_event_if_absent]. *)
Lemma select_pending_event k d :
  match scalar (select_where (pending_dispatch k) (db_outbox d)) with
  | Some _ => has_pending_event k d
  | None => True
  end.
Proof.
  destruct (select_where (pending_dispatch k) (db_outbox d)) as [|e l] eqn:E; cbn; [done|].
  assert (He : e ∈ select_where (pending_dispatch k) (db_outbox d)) by (rewrite E; left).
  apply elem_of_select in He as (Hp & i & Hi). exists e; eauto.
Qed.

(** Coverage is monotone in the queue and in the outbox, and concerns only the
    jobs that wait. *)
Lemma covered_mono d d' q q' :
  covered d q ->
  (forall k j', db_jobs d' !! k = Some j' -> (j_status j' = PENDING \/ j_status j' = QUEUED) ->
     has_pending_event k d' \/
     (j_status j' = QUEUED /\ exists m, m ∈ q' /\ targets k m) \/
     (exists j, db_jobs d !! k = Some j /\ j_status j = j_status j' /\
       (has_pending_event k d -> has_pending_event k d') /\
       (forall m, m ∈ q -> targets k m -> m ∈ q'))) ->
  covered d' q'.
Proof.
  intros Hc H k j' Hj'. specialize (H k j' Hj').
  destruct (j_status j') eqn:Hs; try done.
  - destruct H as [H|[[H _]|(j & Hj & Hs' & He & Hq)]]; [by left | done | done |].
    specialize (Hc k j Hj). rewrite Hs' in Hc. auto.
  - destruct H as [H|[[_ H]|(j & Hj & Hs' & He & Hq)]]; [by right | by left | by right |].
    specialize (Hc k j Hj). rewrite Hs' in Hc. destruct Hc as [Hc|(m & Hm & Ht)]; [left; auto|].
    right. exists m. auto.
Qed.

End coverage.

(** ** A row update with its log line *)
Section logged.
Context `{DC : DispatchCodec} (limit n : Z).

Lemma db_ok_logged_update d k j l level message at_ :
  db_ok limit n d -> db_jobs d !! k = Some j -> job_ok k (job_values l j) ->
  (j_status (job_values l j) = RUNNING -> j_status j <> RUNNING ->
    running_count (j_owner_id j) d < limit) ->
  db_ok limit n (logged_update k j l level message at_ d).
Proof.
  intros. apply db_ok_insert_log; [by apply db_ok_update_job|]. cbn.
  by rewrite lookup_insert_eq; eexists.
Qed.

Lemma evolves_logged_update d k j l level message at_ :
  db_jobs d !! k = Some j -> job_evolves j (job_values l j) ->
  evolves d (logged_update k j l level message at_ d).
Proof. intros Hj He. by apply (evolves_update_job d k j). Qed.

(** The coverage obligation of a change confined to the row of [k]. *)
Lemma covered_row k d d' q q' :
  covered d q ->
  (forall k', k' <> k -> db_jobs d' !! k' = db_jobs d !! k') ->
  (forall k', k' <> k -> has_pending_event k' d -> has_pending_event k' d') ->
  (forall k' m, k' <> k -> m ∈ q -> targets k' m -> m ∈ q') ->
  (forall j', db_jobs d' !! k = Some j' -> j_status j' = PENDING \/ j_status j' = QUEUED ->
     has_pending_event k d' \/
     (j_status j' = QUEUED /\ exists m, m ∈ q' /\ targets k m)) ->
  covered d' q'.
Proof.
  intros Hc Hj He Hq Hk. apply (covered_mono d _ q); [done|]. intros k' j' Hj' Hs.
  destruct (decide (k' = k)) as [->|Hne].
  - destruct (Hk j' Hj' Hs) as [?|?]; auto.
  - right; right. exists j'. rewrite <- Hj by done. eauto 10.
Qed.

(** A row update that ends or starts the job needs no event; other jobs keep
    theirs. *)
Lemma covered_logged_update d k j l level message at_ q q' :
  covered d q -> db_jobs d !! k = Some j ->
  j_status (job_values l j) <> PENDING -> j_status (job_values l j) <> QUEUED ->
  (forall k' m, k' <> k -> m ∈ q -> targets k' m -> m ∈ q') ->
  covered (logged_update k j l level message at_ d) q'.
Proof.
  intros Hc Hj Hp Hq Ht. apply (covered_row k d _ q); try done.
  - intros k' Hk. cbn. by rewrite lookup_insert_ne.
  - intros j'. cbn. rewrite lookup_insert_eq. intros [= <-] [?|?]; done.
Qed.

Lemma holder_running d k token j :
  holder k token d = Some j ->
  db_jobs d !! k = Some j /\ j_status j = RUNNING /\ j_execution_token j = Some token.
Proof.
  unfold holder, has_status, has_token. destruct (_ !! k) as [j'|] eqn:Hj; [|done].
  destruct (_ && _) eqn:Hg; [|done]. intros [= <-].
  apply andb_true_iff in Hg as [H1%bool_decide_eq_true H2%bool_decide_eq_true]. done.
Qed.

(** The statements that end an execution name its token. *)
Lemma holder_update d k token values :
  db_ok limit n d ->
  update_job k (fun j => has_status RUNNING j && has_token token j) values d =
  match holder k token d with
  | Some j => (set_jobs (<[k := job_values (values j) j]> (db_jobs d)) d, true)
  | None => (d, false)
  end.
Proof.
  intros H. rewrite (update_job_spec limit n) by done. unfold holder.
  destruct (_ !! k) as [j|]; [|done]. by destruct (_ && _).
Qed.

Lemma holder_intro d k j token :
  db_jobs d !! k = Some j -> j_status j = RUNNING -> j_execution_token j = Some token ->
  holder k token d = Some j.
Proof.
  intros Hj Hs Ht. unfold holder, has_status, has_token. rewrite Hj, Hs, Ht.
  by rewrite !bool_decide_eq_true_2.
Qed.

(** A stale token: the row is gone on to something else. *)
Lemma holder_stale d k token j :
  db_jobs d !! k = Some j -> j_execution_token j <> Some token -> holder k token d = None.
Proof.
  intros Hj Ht. unfold holder, has_token. rewrite Hj.
  by rewrite (bool_decide_eq_false_2 (_ = Some token)), andb_false_r.
Qed.

(** Tokens are only handed out fresh, with the attempt they stand for. *)
Definition tokens_from (lo : Z) (d d' : DB) : Prop :=
  forall k j' token, db_jobs d' !! k = Some j' -> j_execution_token j' = Some token ->
    lo <= token \/
    exists j, db_jobs d !! k = Some j /\ j_execution_token j = Some token /\
      j_attempt_count j' = j_attempt_count j.

Lemma tokens_from_same lo d d' : db_jobs d' = db_jobs d -> tokens_from lo d d'.
Proof. intros Hd k j' token Hj' Ht. right. rewrite Hd in Hj'. by exists j'. Qed.

Lemma tokens_from_trans lo lo' d1 d2 d3 :
  lo <= lo' -> tokens_from lo d1 d2 -> tokens_from lo' d2 d3 -> tokens_from lo d1 d3.
Proof.
  intros Hlo H12 H23 k j3 token Hj3 Ht. destruct (H23 k j3 token Hj3 Ht) as [|(j2 & Hj2 & Ht2 & Ha)];
    [left; lia|].
  destruct (H12 k j2 token Hj2 Ht2) as [|(j1 & Hj1 & Ht1 & Ha')]; [by left|].
  right. exists j1. split; [done|]. split; [done | congruence].
Qed.

Lemma tokens_from_update lo d k j j' :
  db_jobs d !! k = Some j ->
  (forall token, j_execution_token j' = Some token ->
     lo <= token \/ (j_execution_token j = Some token /\ j_attempt_count j' = j_attempt_count j)) ->
  tokens_from lo d (set_jobs (<[k := j']> (db_jobs d)) d).
Proof.
  intros Hj Hj' k' j0 token. cbn. rewrite lookup_insert. case_decide as Hk.
  - subst. intros [= <-] Ht. destruct (Hj' token Ht) as [|[]]; [by left | right; by exists j].
  - intros H0 Ht. right. by exists j0.
Qed.

(** The execution a token stands for does not come back once it is over. *)
Lemma holder_gone lo d d' k token :
  tokens_from lo d d' -> (forall j, db_jobs d !! k = Some j -> job_ok k j) -> token < lo ->
  holder k token d = None -> holder k token d' = None.
Proof.
  intros Ht Hok Hlo Hh. destruct (holder k token d') as [j'|] eqn:E; [|done].
  apply holder_running in E as (Hj' & Hs' & Ht').
  destruct (Ht k j' token Hj' Ht') as [|(j & Hj & Htok & _)]; [lia|].
  pose proof (ok_lease _ _ (Hok j Hj)) as Hl. unfold holder, has_status, has_token in Hh.
  rewrite Hj, Htok, (bool_decide_eq_true_2 (Some token = _)), andb_true_r in Hh by done.
  case_bool_decide; [done|]. destruct Hl as (_ & Hn & _). congruence.
Qed.

End logged.

(** The constraints of a row after the assignments of a statement. *)
Ltac job_ok_tac :=
  lazymatch goal with
  | H : job_ok _ ?j |- _ =>
      destruct H, j; cbn in *; subst; unfold lease_held, lease_free in *; cbn in *;
      constructor; cbn; unfold lease_held, lease_free; cbn;
      try solve [done | lia | eauto | intuition (eauto || discriminate || lia)]
  end.

(** [db_ok] of a [logged_update] to a status other than RUNNING. *)
Ltac row_ok_tac :=
  match goal with
  | H : db_ok _ _ ?d, Hj : db_jobs ?d !! ?k = Some ?j |- _ =>
      pose proof (ok_jobs _ _ _ H k j Hj); apply db_ok_logged_update;
      [done | done | job_ok_tac | try (intro; discriminate)]
  end.

Ltac row_evolves_tac :=
  apply evolves_logged_update; [done|]; apply evolves_one; autorewrite with col;
  [done | done | done | reflexivity | reflexivity | reflexivity | reflexivity | cbn; lia | cbn].
