(* ===== verification/Steps.v ===== *)
(** * Steps: how a whole operation changes the world. *)
From S2P Require Import Prelude Exceptions Domain Store Effects Tables JobRepo Repos PostCommit Invariants.

(** An operation that is over left no transaction open; the clock and the
    supply of identifiers only moved forward. *)
Record steady (w w' : World) : Prop := mkSteady {
  st_sessions : w_sessions w' = w_sessions w;
  st_clock : w_clock w' = w_clock w;
  st_ticks : (w_ticks w <= w_ticks w')%nat;
  st_uuid : w_next_uuid w <= w_next_uuid w';
  st_locked : w_locked w' = w_locked w;
  st_env : w_env w = [] -> w_env w' = [];
  st_commits : w_commit_plan w = [] -> w_commit_plan w' = []
}.

(** An operation that does not talk to the broker. *)
Record quiet (w w' : World) : Prop := mkQuiet {
  q_steady : steady w w';
  q_broker : w_broker w' = w_broker w;
  q_publish : w_publish_plan w' = w_publish_plan w
}.

(** The database after an operation made of one transaction from [d]: on
    normal exit a result of the transaction [T]; after an exception, [d] or,
    when only the acknowledgement of the COMMIT was lost, such a result. *)
Definition atomic {A} (d : DB) (T : DB -> A -> Prop) (o : outcome A) (d' : DB) : Prop :=
  match o with
  | Ok a => T d' a
  | Exc _ => d' = d \/ exists a, T d' a
  end.

(** ** Composition *)

#[export] Instance steady_refl : Reflexive steady.
Proof. intros w. by constructor. Qed.

#[export] Instance steady_trans : Transitive steady.
Proof. intros w1 w2 w3 [] []. constructor; (congruence || lia || auto). Qed.

#[export] Instance quiet_refl : Reflexive quiet.
Proof. intros w. by constructor. Qed.

#[export] Instance quiet_trans : Transitive quiet.
Proof. intros w1 w2 w3 [] []. constructor; [by etrans | congruence..]. Qed.

Lemma quiet_tick w : quiet w (tick w).
Proof. repeat constructor; cbn; (lia || auto). Qed.

Lemma quiet_bump w : quiet w (bump_uuid w).
Proof. repeat constructor; cbn; (lia || auto). Qed.

Lemma quiet_pop_commit w : quiet w (pop_commit w).
Proof. repeat constructor; cbn; try lia; auto. by intros ->. Qed.

Lemma quiet_set_db d w : quiet w (set_db d w).
Proof. repeat constructor; cbn; (lia || auto). Qed.

Lemma quiet_env w : quiet w (env_step w).
Proof. repeat constructor; cbn; try lia; auto. by intros ->. Qed.

Lemma quiet_frame w w' : frame w w' -> quiet w w'.
Proof. intros []. repeat constructor; (congruence || lia || auto). Qed.

Lemma steady_pop_publish w : steady w (pop_publish w).
Proof. repeat constructor; cbn; (lia || auto). Qed.

Lemma steady_set_broker b w : steady w (set_broker b w).
Proof. repeat constructor; cbn; (lia || auto). Qed.

(** Peel the transformers off the final world. *)
Ltac quiet_tac :=
  lazymatch goal with
  | |- quiet ?w ?w => reflexivity
  | |- quiet _ (tick _) => etrans; [|apply quiet_tick]; quiet_tac
  | |- quiet _ (bump_uuid _) => etrans; [|apply quiet_bump]; quiet_tac
  | |- quiet _ (pop_commit _) => etrans; [|apply quiet_pop_commit]; quiet_tac
  | |- quiet _ (set_db _ _) => etrans; [|apply quiet_set_db]; quiet_tac
  | |- quiet _ (env_step _) => etrans; [|apply quiet_env]; quiet_tac
  | F : frame ?a ?b |- quiet _ ?b => etrans; [|apply (quiet_frame _ _ F)]; quiet_tac
  | F : quiet ?a ?b |- quiet _ ?b => etrans; [|apply F]; quiet_tac
  end.

Ltac steady_tac :=
  lazymatch goal with
  | |- steady ?w ?w => reflexivity
  | |- steady _ (pop_publish _) => etrans; [|apply steady_pop_publish]; steady_tac
  | |- steady _ (set_broker _ _) => etrans; [|apply steady_set_broker]; steady_tac
  | |- steady _ (tick _) => etrans; [|apply (q_steady _ _ (quiet_tick _))]; steady_tac
  | |- steady _ (bump_uuid _) => etrans; [|apply (q_steady _ _ (quiet_bump _))]; steady_tac
  | |- steady _ (pop_commit _) => etrans; [|apply (q_steady _ _ (quiet_pop_commit _))]; steady_tac
  | |- steady _ (set_db _ _) => etrans; [|apply (q_steady _ _ (quiet_set_db _ _))]; steady_tac
  | |- steady _ (env_step _) => etrans; [|apply (q_steady _ _ (quiet_env _))]; steady_tac
  | F : frame ?a ?b |- steady _ ?b =>
      etrans; [|apply (q_steady _ _ (quiet_frame _ _ F))]; steady_tac
  | F : quiet ?a ?b |- steady _ ?b => etrans; [|apply (q_steady _ _ F)]; steady_tac
  | F : steady ?a ?b |- steady _ ?b => etrans; [|apply F]; steady_tac
  end.

(** Identifiers issued later are larger. *)
Ltac uuid_from w0 :=
  lazymatch goal with
  | |- context [w_next_uuid ?w'] =>
      assert (w_next_uuid w0 <= w_next_uuid w') by (apply st_uuid, q_steady; quiet_tac)
  end.

(** Replace the database of a world reached by framed calls. *)
Ltac frame_simp :=
  repeat match goal with
  | F : frame ?a ?b |- context [w_db ?b] => rewrite (frame_db _ _ F)
  | F : frame ?a ?b |- context [w_env ?b] => rewrite (frame_env _ _ F)
  | F : frame ?a ?b |- context [w_broker ?b] => rewrite (frame_broker _ _ F)
  | F : frame ?a ?b |- context [w_commit_plan ?b] => rewrite (frame_commit _ _ F)
  | |- _ => progress world_simp
  end.

(** When no COMMIT is going to fail, the operation returns. *)
Definition calmly {A} (w : World) (o : outcome A) : Prop :=
  w_commit_plan w = [] -> exists a, o = Ok a.

(** What an operation made of one transaction leaves behind. *)
Definition ends {A} (w : World) (T : Z -> DB -> A -> Prop) (o : outcome A) (w' : World) : Prop :=
  quiet w w' /\ calmly w o /\ atomic (w_db w) (T (w_next_uuid w')) o (w_db w').

(** The outcomes of a COMMIT. *)
Lemma commit_cases (P : Prop) (plan : list CommitOutcome) (A B C : Prop) :
  (A -> P) -> (B -> P) -> (C -> P) ->
  match default CommitOk (head plan) with
  | CommitOk => A | CommitLost _ => B | CommitUnacknowledged _ => C
  end -> P.
Proof. intros HA HB HC. destruct (default CommitOk (head plan)); auto. Qed.

(** [create_dispatch_event_if_absent] inside a transaction: the job has a
    pending event afterwards, the old one or a fresh one. *)
Section events.
Context `{DC : DispatchCodec}.

Definition fresh_event (i job : uuid) (created_at available_at : datetime) : OutboxEvent := {|
  e_id := i; e_aggregate_id := job; e_event_type := job_event_type_value DISPATCH;
  e_payload := model_dump (mkDispatchOutboxMessage i job created_at);
  e_available_at := available_at; e_publish_attempts := 0; e_published_at := None;
  e_last_error := None; e_created_at := created_at; e_updated_at := created_at |}.

Definition add_event (i job : uuid) (created_at available_at : datetime) (d : DB) : DB :=
  set_outbox (<[i := fresh_event i job created_at available_at]> (db_outbox d)) d.

Lemma fresh_event_ok i job c a : event_ok i (fresh_event i job c a).
Proof.
  constructor; cbn; try (done || lia). exists (mkDispatchOutboxMessage i job c).
  by rewrite model_validate_dump.
Qed.

Lemma fresh_event_pending i job c a : pending_dispatch job (fresh_event i job c a) = true.
Proof. unfold pending_dispatch, unpublished. cbn. by rewrite Z.eqb_refl. Qed.

Lemma db_ok_add_event limit n n' d i job c a :
  db_ok limit n d -> n <= n' -> i < n' -> db_ok limit n' (add_event i job c a d).
Proof. intros. eapply db_ok_insert_event; eauto using fresh_event_ok. Qed.

(** What [create_dispatch_event_if_absent] did to the database. *)
Inductive ensured (job : uuid) (available_at : datetime) (n n' : Z) (d : DB)
  : DB -> option OutboxEvent -> Prop :=
| ensured_present : has_pending_event job d -> n <= n' -> ensured job available_at n n' d d None
| ensured_added i c :
    n <= i < n' ->
    ensured job available_at n n' d (add_event i job c available_at d)
      (Some (fresh_event i job c available_at)).

Lemma ensured_mono job a n n' n'' d d' r :
  n' <= n'' -> ensured job a n n' d d' r -> ensured job a n n'' d d' r.
Proof. destruct 2; constructor; (done || lia). Qed.

Lemma ensured_db_ok limit job a n n' d d' r :
  ensured job a n n' d d' r -> db_ok limit n d -> db_ok limit n' d'.
Proof. destruct 1; intros; [by eapply db_ok_mono | eapply db_ok_add_event; eauto; lia]. Qed.

Lemma ensured_jobs job a n n' d d' r : ensured job a n n' d d' r -> db_jobs d' = db_jobs d.
Proof. by destruct 1. Qed.

Lemma ensured_covers job a n n' d d' r : ensured job a n n' d d' r -> has_pending_event job d'.
Proof. destruct 1; [done|]. by apply pending_event_inserted, fresh_event_pending. Qed.

Lemma ensured_keeps job a n n' d d' r k :
  ensured job a n n' d d' r -> (forall i, is_Some (db_outbox d !! i) -> i < n) ->
  has_pending_event k d -> has_pending_event k d'.
Proof.
  destruct 1; intros Hids Hk; [done|]. apply pending_event_insert; [|done].
  destruct (db_outbox d !! i) eqn:E; [|done].
  assert (i < n) by (apply Hids; by eexists). lia.
Qed.

Lemma wp_ensure job a Q w work c :
  (forall w' d' r, ensured job a (w_next_uuid w) (w_next_uuid w') (seen w work) d' r ->
     frame w w' -> Q (Ok r) (in_tx w' (if r is Some _ then Some d' else work) c)) ->
  wp (SqlAlchemyOutboxRepository.create_dispatch_event_if_absent job a) Q (in_tx w work c).
Proof.
  intros HQ. unfold SqlAlchemyOutboxRepository.create_dispatch_event_if_absent.
  autounfold with repo. wp_run. fold (seen w work).
  pose proof (select_pending_event job (seen w work)) as Hp.
  destruct (scalar _) as [e|]; wp_run.
  - specialize (HQ w (seen w work) None). cbn in HQ. apply HQ; [|reflexivity].
    by constructor.
  - fold (seen w work). apply (HQ (bump_uuid (tick w)) _ (Some _)).
    + apply ensured_added. world_simp. lia.
    + etrans; [apply frame_tick | apply frame_bump].
Qed.

(** The same in a transaction that already wrote. *)
Lemma wp_ensure_written job a Q w d c :
  (forall w' d' r, ensured job a (w_next_uuid w) (w_next_uuid w') d d' r -> frame w w' ->
     Q (Ok r) (in_tx w' (Some d') c)) ->
  wp (SqlAlchemyOutboxRepository.create_dispatch_event_if_absent job a) Q (in_tx w (Some d) c).
Proof.
  intros HQ. apply wp_ensure. intros w' d' r He F. specialize (HQ w' d' r He F).
  destruct r; [done|]. by inversion He; subst.
Qed.

End events.

(** The exits of a transaction: commit, notify, leave.  [HT] says that the rows
    written are a result of the transaction. *)
Ltac calm_tac :=
  let Hcalm := fresh "Hcalm" in
  intros Hcalm;
  first
    [ by eexists
    | exfalso;
      match goal with
      | Hplan : default CommitOk (head (w_commit_plan _)) = _ |- _ =>
          revert Hplan; frame_simp; rewrite Hcalm; discriminate
      end ].
Ltac leave := (split; [quiet_tac | frame_simp]).
Ltac leave_tx := (split; [quiet_tac | split; [calm_tac | frame_simp] ]).
Ltac finish_tx HT :=
  let Hplan := fresh "Hplan" in
  destruct (default CommitOk _) eqn:Hplan;
  try (apply wp_notify_in_tx; intros ? ?; wp_run);
  leave_tx; first [by left | apply HT | right; eexists; apply HT];
  first [lia | done | apply st_uuid, q_steady; quiet_tac | world_simp; lia].
