(* ===== verification/Text.v ===== *)
(** * Text: the parts of Python's [json] and [hashlib] the program uses
    ([json.dumps(..., sort_keys=True, separators=(",", ":"))] and
    [sha256(...).hexdigest()]). *)
From S2P Require Import Prelude Exceptions Store.

(** ** [json.dumps] *)

(** One character inside a string literal, with [ensure_ascii]. *)
Definition escape_char (c : ascii) : string :=
  let n := code_point c in
  if n =? 34 then String "092"%char (String "034"%char EmptyString)
  else if n =? 92 then "\\"
  else if n =? 10 then "\n"
  else if n =? 13 then "\r"
  else if n =? 9 then "\t"
  else if n =? 12 then "\f"
  else if n =? 8 then "\b"
  else if (32 <=? n) && (n <=? 126) then String c EmptyString
  else "\u" +:+ hex_of 4 n.

Fixpoint escape (s : string) : string :=
  match s with
  | EmptyString => EmptyString
  | String c s' => escape_char c +:+ escape s'
  end.

Definition quote (s : string) : string := dquote +:+ escape s +:+ dquote.

Fixpoint join (sep : string) (l : list string) : string :=
  match l with
  | [] => ""
  | [s] => s
  | s :: l' => s +:+ sep +:+ join sep l'
  end.

(** Members sorted by key. *)
Definition key_le {A} (a b : string * A) : bool := String.leb (fst a) (fst b).

Fixpoint dumps (j : json) : string :=
  match j with
  | JNull => "null"
  | JBool true => "true"
  | JBool false => "false"
  | JNum n => str_of_int n
  | JFloat repr => repr
  | JStr s => quote s
  | JArr l => "[" +:+ join "," (List.map dumps l) +:+ "]"
  | JObj fields =>
      "{" +:+ join "," (List.map (fun kv => quote (fst kv) +:+ ":" +:+ snd kv)
                (order_by key_le (List.map (fun kv => (fst kv, dumps (snd kv))) fields)))
        +:+ "}"
  end.

(** ** SHA-256 (FIPS 180-4) on bytes *)
Module Sha256.

Definition word (n : Z) : Z := n mod 2 ^ 32.
Definition rotr (k x : Z) : Z := Z.lor (Z.shiftr x k) (word (Z.shiftl x (32 - k))).
Definition ch (x y z : Z) : Z := Z.lxor (Z.land x y) (Z.land (word (Z.lnot x)) z).
Definition maj (x y z : Z) : Z := Z.lxor (Z.land x y) (Z.lxor (Z.land x z) (Z.land y z)).
Definition big_sigma0 x := Z.lxor (rotr 2 x) (Z.lxor (rotr 13 x) (rotr 22 x)).
Definition big_sigma1 x := Z.lxor (rotr 6 x) (Z.lxor (rotr 11 x) (rotr 25 x)).
Definition sigma0 x := Z.lxor (rotr 7 x) (Z.lxor (rotr 18 x) (Z.shiftr x 3)).
Definition sigma1 x := Z.lxor (rotr 17 x) (Z.lxor (rotr 19 x) (Z.shiftr x 10)).

(** The constants are fractional bits of roots of the first primes: 32 of the
    square roots of eight for the initial value, 32 of the cube roots of
    sixty-four for the rounds. *)
Definition is_prime (n : Z) : bool :=
  forallb (fun d => negb (n mod Z.of_nat d =? 0)) (seq 2 (Z.to_nat n - 2)).

Definition primes (below : nat) : list Z :=
  List.filter is_prime (List.map Z.of_nat (seq 2 (below - 2))).

(** The largest [r] with [r ^ 3 <= n], from the bits of weight [2 ^ k] down. *)
Fixpoint cbrt_from (k : nat) (r n : Z) : Z :=
  let r' := r + 2 ^ Z.of_nat k in
  let r := if r' ^ 3 <=? n then r' else r in
  match k with O => r | S k => cbrt_from k r n end.

Definition round_constants : list Z := Eval vm_compute in
  List.map (fun p => word (cbrt_from 35 0 (p * 2 ^ 96))) (primes 312).

Definition initial_hash : list Z := Eval vm_compute in
  List.map (fun p => word (Z.sqrt (p * 2 ^ 64))) (primes 20).

(** The message, 0x80, zeros, and the 64-bit length in bits. *)
Definition pad (msg : list Z) : list Z :=
  let len := Z.of_nat (List.length msg) in
  msg ++ [0x80] ++ replicate (Z.to_nat ((55 - len) mod 64)) 0
    ++ List.map (fun i => Z.shiftr (8 * len) (8 * (7 - Z.of_nat i)) mod 256) (seq 0 8).

Fixpoint words (bytes : list Z) : list Z :=
  match bytes with
  | a :: b :: c :: d :: rest => (a * 2 ^ 24 + b * 2 ^ 16 + c * 2 ^ 8 + d) :: words rest
  | _ => []
  end.

(** The message schedule, newest word first. *)
Fixpoint extend (n : nat) (rev_w : list Z) : list Z :=
  match n with
  | O => rev_w
  | S k =>
      let w := fun i => nth (i - 1)%nat rev_w 0 in
      extend k (word (sigma1 (w 2%nat) + w 7%nat + sigma0 (w 15%nat) + w 16%nat) :: rev_w)
  end.

Definition step (h : list Z) (kw : Z * Z) : list Z :=
  match h with
  | [a; b; c; d; e; f; g; hh] =>
      let t1 := hh + big_sigma1 e + ch e f g + fst kw + snd kw in
      let t2 := big_sigma0 a + maj a b c in
      [word (t1 + t2); a; b; c; word (d + t1); e; f; g]
  | _ => h
  end.

Definition compress (h block : list Z) : list Z :=
  let schedule := rev (extend 48 (rev block)) in
  let h' := foldl step h (combine round_constants schedule) in
  List.map (fun xy => word (fst xy + snd xy)) (combine h h').

Fixpoint blocks (fuel : nat) (h ws : list Z) : list Z :=
  match fuel, ws with
  | S k, _ :: _ => blocks k (compress h (firstn 16 ws)) (skipn 16 ws)
  | _, _ => h
  end.

Definition digest (msg : list Z) : list Z :=
  let ws := words (pad msg) in
  blocks (List.length ws) initial_hash ws.

End Sha256.

Definition bytes_of (s : string) : list Z := List.map code_point (String.list_ascii_of_string s).

(** [hashlib.sha256(s.encode("utf-8")).hexdigest()] for ASCII text. *)
Definition sha256_hexdigest (s : string) : string :=
  String.concat "" (List.map (hex_of 8) (Sha256.digest (bytes_of s))).

Example sha256_abc :
  sha256_hexdigest "abc" = "ba7816bf8f01cfea414140de5dae2223b00361a396177a9cb410ff61f20015ad".
Proof. vm_compute. reflexivity. Qed.

Example sha256_two_blocks :
  sha256_hexdigest "abcdbcdecdefdefgefghfghighijhijkijkljklmklmnlmnomnopnopq"
  = "248d6a61d20638b8e5c026930c3e6039a33ce45964ff2167f6ecedd419db06c1".
Proof. vm_compute. reflexivity. Qed.

Example dumps_sorted :
  dumps (JObj [("b", JArr [JNum 1; JNull]); ("a", JBool true)])
  = "{" +:+ quote "a" +:+ ":true," +:+ quote "b" +:+ ":[1,null]}".
Proof. vm_compute. reflexivity. Qed.
