(* ===== verification/Config.v ===== *)
(** * Config: [Settings] of [app/core/config.py]. *)
From S2P Require Import Prelude Exceptions.

Inductive AppEnv := DEVELOPMENT | TEST | PRODUCTION.
#[export] Instance AppEnv_eq_dec : EqDecision AppEnv. Proof. solve_decision. Defined.

Record Settings := mkSettings {
  app_env : AppEnv;
  log_level : string;
  database_url : string;
  redis_url : string;
  rabbitmq_url : string;
  jwt_secret : string;
  access_token_ttl_minutes : Z;
  job_max_running_per_user : Z;
  job_max_retries : Z;
  job_lease_seconds : Z;
  outbox_poll_interval_seconds : Z;
  outbox_batch_size : Z;
  recovery_poll_interval_seconds : Z;
  recovery_batch_size : Z;
  cache_ttl_seconds : Z;
  create_job_rate_limit : Z;
  create_job_rate_window_seconds : Z
}.

(** The [Field(ge=...)] bounds. *)
Definition fields_in_range (s : Settings) : bool :=
  (1 <=? access_token_ttl_minutes s) && (1 <=? job_max_running_per_user s)
  && (0 <=? job_max_retries s) && (1 <=? job_lease_seconds s)
  && (1 <=? outbox_poll_interval_seconds s) && (1 <=? outbox_batch_size s)
  && (1 <=? recovery_poll_interval_seconds s) && (1 <=? recovery_batch_size s)
  && (1 <=? cache_ttl_seconds s) && (1 <=? create_job_rate_limit s)
  && (1 <=? create_job_rate_window_seconds s).

Definition allowed_log_levels : list string := ["CRITICAL"; "ERROR"; "WARNING"; "INFO"; "DEBUG"].

(** [validate_log_level]. *)
Definition validate_log_level (value : string) : outcome string :=
  let normalized := upper value in
  if negb (bool_decide (normalized ∈ allowed_log_levels))
  then Exc (ValueErr "LOG_LEVEL must be one of: CRITICAL, DEBUG, ERROR, INFO, WARNING")
  else Ok normalized.

(** [strip_non_empty]. *)
Definition strip_non_empty (value : string) : outcome string :=
  let stripped := strip value in
  if String.eqb stripped "" then Exc (ValueErr "value must not be blank") else Ok stripped.

Definition placeholder_secrets : list string :=
  ["change-me"; "change-me-to-a-long-random-secret"; "dev-secret"; "secret"].

(** [Settings.validate_runtime]. *)
Definition validate_runtime (s : Settings) : outcome unit :=
  if negb (bool_decide (app_env s = PRODUCTION)) then Ok tt
  else if bool_decide (lower (jwt_secret s) ∈ placeholder_secrets)
  then Exc (ProductionSettingsErr "JWT_SECRET must not use a placeholder value in production")
  else if slen (jwt_secret s) <? 32
  then Exc (ProductionSettingsErr "JWT_SECRET must be at least 32 characters in production")
  else Ok tt.

(** The settings when only the required variables are set. *)
Definition with_defaults (app_env : AppEnv) (log_level database_url redis_url rabbitmq_url
    jwt_secret : string) : Settings :=
  mkSettings app_env log_level database_url redis_url rabbitmq_url jwt_secret
    30 3 3 60 1 50 5 50 30 10 60.

(** [Settings()]: the field constraints, then the field validators; the first
    failure stands for pydantic's [ValidationError]. *)
Definition validate_settings (raw : Settings) : outcome Settings :=
  if negb (fields_in_range raw && (1 <=? slen (jwt_secret raw))) then Exc (ValidationErr "Settings")
  else
    match validate_log_level (log_level raw), strip_non_empty (database_url raw),
          strip_non_empty (redis_url raw), strip_non_empty (rabbitmq_url raw),
          strip_non_empty (jwt_secret raw) with
    | Ok level, Ok db, Ok redis, Ok rabbit, Ok secret =>
        Ok (mkSettings (app_env raw) level db redis rabbit secret
              (access_token_ttl_minutes raw) (job_max_running_per_user raw) (job_max_retries raw)
              (job_lease_seconds raw) (outbox_poll_interval_seconds raw) (outbox_batch_size raw)
              (recovery_poll_interval_seconds raw) (recovery_batch_size raw) (cache_ttl_seconds raw)
              (create_job_rate_limit raw) (create_job_rate_window_seconds raw))
    | _, _, _, _, _ => Exc (ValidationErr "Settings")
    end.

Lemma fields_in_range_limit s : fields_in_range s = true -> 1 <= job_max_running_per_user s.
Proof. unfold fields_in_range. rewrite !andb_true_iff, !Z.leb_le. tauto. Qed.

Lemma fields_in_range_batches s :
  fields_in_range s = true -> 1 <= outbox_batch_size s /\ 1 <= recovery_batch_size s.
Proof. unfold fields_in_range. rewrite !andb_true_iff, !Z.leb_le. tauto. Qed.
