(* ===== verification/JobService.v ===== *)
(** * JobService: [app/application/services/jobs.py], the operations on single
    jobs (creation, detail, logs, cancellation). *)
From S2P Require Import Prelude Exceptions Domain Store Effects Text Config JobRepo Repos PostCommit.

(** [_to_job_public_dto]. *)
Definition _to_job_public_dto (job : StoredJobDTO) : JobPublicDTO := {|
  jp_id := sj_id job;
  jp_owner_id := sj_owner_id job;
  jp_type := sj_type job;
  jp_payload := sj_payload job;
  jp_status := sj_status job;
  jp_idempotency_key := sj_idempotency_key job;
  jp_created_at := sj_created_at job;
  jp_updated_at := sj_updated_at job;
  jp_cancel_requested_at := sj_cancel_requested_at job;
  jp_attempt_count := sj_attempt_count job
|}.

(** [_build_request_hash]. *)
Definition _build_request_hash (job_type : JobType) (payload : json) : string :=
  let canonical_payload :=
    JObj [("type", JStr (job_type_value job_type)); ("payload", payload)] in
  sha256_hexdigest (dumps canonical_payload).

(** [JobService._validate_existing_job]. *)
Definition _validate_existing_job (existing_job : StoredJobDTO) (request_hash : string)
    : outcome JobPublicDTO :=
  if negb (String.eqb (sj_request_hash existing_job) request_hash)
  then Exc (app_err IdempotencyConflictError)
  else Ok (_to_job_public_dto existing_job).

(** The notification built by [JobService._notify_post_commit]. *)
Definition service_notification (job : JobPublicDTO) : JobPostCommitNotification := {|
  pn_job_id := jp_id job;
  pn_owner_id := jp_owner_id job;
  pn_status := jp_status job;
  pn_attempt_count := jp_attempt_count job;
  pn_committed_at := jp_updated_at job;
  pn_cancel_requested_at := jp_cancel_requested_at job
|}.

Definition is_duplicate_key_error (e : exn) : bool :=
  match e with
  | AppErr a => bool_decide (ae_class a = DuplicateJobIdempotencyKeyError)
  | _ => false
  end.

Module JobService.
Section service.
Context `{PG : PgDriver} `{DC : DispatchCodec}.
Context `{RL : CreateJobRateLimiter} `{JC : JobListCache} `{N : WorkerPostCommitNotifier}.
Context (settings : Settings).

(** [_load_existing_job]. *)
Definition _load_existing_job (owner_id : uuid) (idempotency_key request_hash : string)
    : M JobPublicDTO :=
  with_uow (
    existing_job ← SqlAlchemyJobRepository.get_by_idempotency_key owner_id idempotency_key;
    match existing_job with
    | None => raise (RuntimeErr "Expected an existing job after idempotency conflict")
    | Some existing_job => lift (_validate_existing_job existing_job request_hash)
    end).

(** [_load_existing_job_by_id]. *)
Definition _load_existing_job_by_id (job_id : uuid) : M JobPublicDTO :=
  with_uow (
    job ← SqlAlchemyJobRepository.get_by_id job_id;
    match job with
    | None => raise (app_err_msg ResourceNotFoundError "Job not found")
    | Some job => mret (_to_job_public_dto job)
    end).

(** [_load_authorized_job_for_update]. *)
Definition _load_authorized_job_for_update (current_user : CurrentUserDTO) (job_id : uuid)
    (lock : bool) : M StoredJobDTO :=
  job ← (if bool_decide (cu_role current_user = ADMIN)
    then if lock then SqlAlchemyJobRepository.get_by_id_for_update job_id
         else SqlAlchemyJobRepository.get_by_id job_id
    else if lock then SqlAlchemyJobRepository.get_by_id_for_owner_for_update job_id (cu_id current_user)
         else SqlAlchemyJobRepository.get_by_id_for_owner job_id (cu_id current_user));
  match job with
  | None => raise (app_err_msg ResourceNotFoundError "Job not found")
  | Some job => mret job
  end.

(** [_load_authorized_job]. *)
Definition _load_authorized_job (current_user : CurrentUserDTO) (job_id : uuid) : M StoredJobDTO :=
  with_uow (_load_authorized_job_for_update current_user job_id false).

(** The body of the [try] in [create_job]: job, log and outbox event in one
    transaction. *)
Definition insert_job_rows (current_user : CurrentUserDTO) (idempotency_key : string)
    (job_type : JobType) (payload : json) (request_hash : string) : M StoredJobDTO :=
  created_job ← SqlAlchemyJobRepository.create_pending_job (cu_id current_user) job_type payload
    idempotency_key request_hash (job_max_retries settings);
  SqlAlchemyJobLogRepository.create_job_created_log (sj_id created_job);;
  available_at ← now;
  SqlAlchemyOutboxRepository.create_dispatch_event (sj_id created_job) available_at;;
  uow_commit;;
  mret created_job.

Definition release_if_reserved (reservation : option CreateJobRateLimitReservationDTO) : M unit :=
  match reservation with Some r => release r | None => mret tt end.

(** [create_job]: [None] is the way out of the [async with] block after a lost
    race on the idempotency key. *)
Definition create_job (current_user : CurrentUserDTO) (idempotency_key : string)
    (job_type : JobType) (payload : json) : M JobCreateResultDTO :=
  let request_hash := _build_request_hash job_type payload in
  result ← with_uow (
    existing_job ←
      SqlAlchemyJobRepository.get_by_idempotency_key (cu_id current_user) idempotency_key;
    match existing_job with
    | Some existing_job =>
        job ← lift (_validate_existing_job existing_job request_hash);
        mret (Some (mkJobCreateResultDTO job false))
    | None =>
        rate_limit_reservation ← await_io (reserve (cu_id current_user));
        o ← attempt (insert_job_rows current_user idempotency_key job_type payload request_hash);
        match o with
        | Ok created_job =>
            invalidate_owner (cu_id current_user);;
            let created_job_public := _to_job_public_dto created_job in
            _notify_post_commit (service_notification created_job_public);;
            mret (Some (mkJobCreateResultDTO created_job_public true))
        | Exc e =>
            if is_duplicate_key_error e then
              release_if_reserved rate_limit_reservation;;
              uow_rollback;;
              mret None
            else
              release_if_reserved rate_limit_reservation;;
              raise e
        end
    end);
  match result with
  | Some r => mret r
  | None =>
      job ← _load_existing_job (cu_id current_user) idempotency_key request_hash;
      mret (mkJobCreateResultDTO job false)
  end.

(** [get_job_detail]. *)
Definition get_job_detail (current_user : CurrentUserDTO) (job_id : uuid) : M JobPublicDTO :=
  job ← _load_authorized_job current_user job_id;
  mret (_to_job_public_dto job).

(** [list_job_logs]. *)
Definition list_job_logs (current_user : CurrentUserDTO) (job_id : uuid) : M (list JobLogEntryDTO) :=
  _load_authorized_job current_user job_id;;
  with_uow (SqlAlchemyJobLogRepository.list_entries_for_job job_id).

(** After a successful cancellation statement: log, commit, invalidate,
    reload, notify. *)
Definition commit_cancellation (job : StoredJobDTO) (message : string) : M JobPublicDTO :=
  SqlAlchemyJobLogRepository.create_system_log (sj_id job) "info" message;;
  uow_commit;;
  invalidate_owner (sj_owner_id job);;
  refreshed ← _load_existing_job_by_id (sj_id job);
  _notify_post_commit (service_notification refreshed);;
  mret refreshed.

(** [cancel_job]. *)
Definition cancel_job (current_user : CurrentUserDTO) (job_id : uuid) : M JobPublicDTO :=
  now ← now;
  with_uow (
    job ← _load_authorized_job_for_update current_user job_id true;
    match sj_status job with
    | PENDING | QUEUED =>
        cancelled ← SqlAlchemyJobRepository.cancel_pending_or_queued (sj_id job) now;
        if cancelled : bool then commit_cancellation job "Job cancelled before execution"
        else mret (_to_job_public_dto job)
    | RUNNING =>
        requested ← SqlAlchemyJobRepository.request_running_cancellation (sj_id job) now;
        if requested : bool then commit_cancellation job "Job cancellation requested"
        else mret (_to_job_public_dto job)
    | COMPLETED | FAILED => raise (app_err JobNotCancellableError)
    | CANCELLED => mret (_to_job_public_dto job)
    end).

End service.
End JobService.
