(* ===== verification/CreationSteps.v ===== *)
(** * CreationSteps: the awaits of [JobService.create_job]
    ([app/application/services/jobs.py]) as the steps of a request, so that the
    steps of several requests can interleave. *)
From S2P Require Import Prelude Exceptions Domain Store Effects Tables Text Config JobRepo Repos PostCommit JobService.

(** ** A coroutine in a session of its own *)

(** Runs in the session [s] next to those already open; gives the session back. *)
Definition run_in {A} (m : M A) (s : Session) (w : World) : outcome A * Session * World :=
  let '(o, w') := m (set_sessions (s :: w_sessions w) w) in
  (o, List.hd (mkSession None false) (w_sessions w'), set_sessions (w_sessions w) w').

(** It works in the innermost session and leaves it open. *)
Class InSession {A} (m : M A) : Prop :=
  in_session w work c : exists o w2 work' c',
    m (in_tx w work c) = (o, in_tx w2 work' c') /\ w_sessions w2 = w_sessions w.

Section in_session.
Context {A B : Type}.

#[export] Instance session_framed (m : M A) : framed m -> InSession m.
Proof.
  intros Hm w work c. pose proof (Hm (in_tx w work c)) as F. destruct (m _) as [o w1]. cbn [snd] in F.
  apply frame_in_tx in F as (w2 & -> & F). exists o, w2, work, c. split; [done | apply F].
Qed.

#[export] Instance session_bind (m : M A) (k : A -> M B) :
  InSession m -> (forall a, InSession (k a)) -> InSession (m ≫= k).
Proof.
  intros Hm Hk w work c. destruct (Hm w work c) as (o & w1 & k1 & c1 & E & F).
  unfold mbind, M_bind. rewrite E. destruct o as [a|e]; [|by eexists _, _, _, _].
  destruct (Hk a w1 k1 c1) as (o2 & w2 & k2 & c2 & E2 & F2). rewrite E2.
  eexists _, _, _, _. split; [done | congruence].
Qed.

#[export] Instance session_attempt (m : M A) : InSession m -> InSession (attempt m).
Proof.
  intros Hm w work c. destruct (Hm w work c) as (o & w1 & k1 & c1 & E & F).
  unfold attempt. rewrite E. by eexists _, _, _, _.
Qed.

#[export] Instance session_await (m : M A) : InSession m -> InSession (await_io m).
Proof.
  intros Hm w work c. unfold await_io. rewrite env_in_tx.
  destruct (Hm (env_step w) work c) as (o & w1 & k1 & c1 & E & F). rewrite E. by eexists _, _, _, _.
Qed.

#[export] Instance session_lift (o : outcome A) : InSession (lift o).
Proof. intros w work c. by exists o, w, work, c. Qed.

#[export] Instance session_query (q : DB -> A) : InSession (db_query q).
Proof. intros w work c. by eexists _, _, _, _. Qed.

#[export] Instance session_exec (f : DB -> DB * A) : InSession (db_exec f).
Proof.
  intros w work c. unfold db_exec, in_tx. cbn. destruct (f _) as [d a].
  exists (Ok a), w, (Some d), c. done.
Qed.

#[export] Instance session_insert `{PgDriver} (f : DB -> DB + violation) : InSession (db_insert f).
Proof.
  intros w work c. unfold db_insert, in_tx. cbn. destruct (f _) as [d|v].
  - exists (Ok tt), w, (Some d), c. done.
  - eexists _, w, work, c. done.
Qed.

#[export] Instance session_commit : InSession uow_commit.
Proof.
  intros w work c. unfold uow_commit, in_tx. cbn. destruct (default CommitOk _) as [|m|m].
  - by exists (Ok tt), (set_db (seen w work) (pop_commit w)), None, true.
  - by exists (Exc (InfraErr m)), (pop_commit w), None, c.
  - by exists (Exc (InfraErr m)), (set_db (seen w work) (pop_commit w)), None, c.
Qed.

#[export] Instance session_rollback : InSession uow_rollback.
Proof. intros w work c. by exists (Ok tt), w, None, false. Qed.

End in_session.

#[export] Hint Extern 1 (framed _) => solve [auto with app] : typeclass_instances.
#[export] Hint Extern 1 (InSession (match ?x with _ => _ end)) => destruct x : typeclass_instances.

(** A sequence in a session, cut at its semicolon. *)
Lemma run_in_bind {A B} (m : M A) (k : A -> M B) w work c :
  InSession m ->
  (m ≫= k) (in_tx w work c) =
  let '(o, s, w') := run_in m (mkSession work c) w in
  match o with
  | Ok a => k a (in_tx w' (s_work s) (s_committed s))
  | Exc e => (Exc e, in_tx w' (s_work s) (s_committed s))
  end.
Proof.
  intros Hm. destruct (Hm w work c) as (o & w2 & k2 & c2 & E & F).
  unfold run_in. change (set_sessions (mkSession work c :: w_sessions w) w) with (in_tx w work c).
  unfold mbind, M_bind. rewrite E. cbn [List.hd in_tx w_sessions set_sessions s_work s_committed].
  replace (set_sessions (w_sessions w) (in_tx w2 k2 c2)) with w2; [by destruct o|].
  rewrite <- F. by destruct w2.
Qed.

(** ** The steps of a creation *)
Section steps.
Context `{PG : PgDriver} `{DC : DispatchCodec}.
Context `{RL : CreateJobRateLimiter} `{JC : JobListCache} `{N : WorkerPostCommitNotifier}.
Context (settings : Settings).

(** Where a request waits: for the SELECT by idempotency key, for the rate limiter,
    for the INSERTs and their COMMIT, for what follows them ([try ... else] or a
    handler), for the job that won the race, or for nothing. *)
Inductive Phase :=
| Entered
| Looked
| Reserved
| Inserted (created_job : outcome StoredJobDTO)
| Lost
| Answered (answer : outcome JobCreateResultDTO).

(** A call of [create_job]: its arguments, its local variable
    [rate_limit_reservation] and its session. *)
Record Creation := mkCreation {
  cr_user : CurrentUserDTO;
  cr_key : string;
  cr_type : JobType;
  cr_payload : json;
  cr_reservation : option CreateJobRateLimitReservationDTO;
  cr_session : Session;
  cr_phase : Phase
}.

Definition cr_hash (q : Creation) : string := _build_request_hash (cr_type q) (cr_payload q).

Definition moved (q : Creation) (s : Session) (p : Phase) : Creation :=
  mkCreation (cr_user q) (cr_key q) (cr_type q) (cr_payload q) (cr_reservation q) s p.

(** [JobCreateResultDTO(job=..., created=False)]. *)
Definition replayed (o : outcome JobPublicDTO) : outcome JobCreateResultDTO :=
  match o with Ok job => Ok (mkJobCreateResultDTO job false) | Exc e => Exc e end.

(** After the [try]: [None] when another request holds the key. *)
Definition after_insert (q : Creation) (created_job : outcome StoredJobDTO)
    : M (option JobCreateResultDTO) :=
  match created_job with
  | Ok created_job =>
      invalidate_owner (cu_id (cr_user q));;
      let created_job_public := _to_job_public_dto created_job in
      _notify_post_commit (service_notification created_job_public);;
      mret (Some (mkJobCreateResultDTO created_job_public true))
  | Exc e =>
      if is_duplicate_key_error e then
        JobService.release_if_reserved (cr_reservation q);;
        uow_rollback;;
        mret None
      else
        JobService.release_if_reserved (cr_reservation q);;
        raise e
  end.

(** One step of a request in the world it shares with the others. *)
Definition advance (q : Creation) (w : World) : Creation * World :=
  match cr_phase q with
  | Entered =>
      let '(o, s, w') :=
        run_in (SqlAlchemyJobRepository.get_by_idempotency_key (cu_id (cr_user q)) (cr_key q))
          (cr_session q) w in
      (moved q s (match o with
        | Ok None => Looked
        | Ok (Some existing_job) =>
            Answered (replayed
              (_validate_existing_job existing_job (cr_hash q)))
        | Exc e => Answered (Exc e)
        end), w')
  | Looked =>
      let '(o, s, w') := run_in (await_io (reserve (cu_id (cr_user q)))) (cr_session q) w in
      (match o with
       | Ok reservation =>
           mkCreation (cr_user q) (cr_key q) (cr_type q) (cr_payload q) reservation s Reserved
       | Exc e => moved q s (Answered (Exc e))
       end, w')
  | Reserved =>
      let '(o, s, w') :=
        run_in (JobService.insert_job_rows settings (cr_user q) (cr_key q) (cr_type q)
          (cr_payload q) (cr_hash q)) (cr_session q) w in
      (moved q s (Inserted o), w')
  | Inserted created_job =>
      let '(o, s, w') := run_in (after_insert q created_job) (cr_session q) w in
      (moved q s (match o with
        | Ok (Some r) => Answered (Ok r)
        | Ok None => Lost
        | Exc e => Answered (Exc e)
        end), w')
  | Lost =>
      let '(o, w') := JobService._load_existing_job (cu_id (cr_user q)) (cr_key q) (cr_hash q) w in
      (moved q (cr_session q) (Answered (replayed o)), w')
  | Answered _ => (q, w)
  end.

(** A request whose Unit of Work was just entered. *)
Definition entered (current_user : CurrentUserDTO) (idempotency_key : string) (job_type : JobType)
    (payload : json) : Creation :=
  mkCreation current_user idempotency_key job_type payload None (mkSession None false) Entered.

Definition advance_n (n : nat) (x : Creation * World) : Creation * World :=
  Nat.iter n (fun x => advance (fst x) (snd x)) x.

(** ** Alone, the steps are [create_job] *)

Context `{!RateLimiterLaws RL} `{!JobListCacheLaws JC} `{!NotifierLaws N}.

#[export] Instance session_lookup owner key :
  InSession (SqlAlchemyJobRepository.get_by_idempotency_key owner key).
Proof using. autounfold with repo. apply _. Qed.

#[export] Instance session_reserve u : InSession (await_io (reserve u)).
Proof using RateLimiterLaws0. apply session_await, session_framed, reserve_framed. Qed.

#[export] Instance session_insert_rows u key ty payload hash :
  InSession (JobService.insert_job_rows settings u key ty payload hash).
Proof using.
  unfold JobService.insert_job_rows. autounfold with repo.
  unfold SqlAlchemyOutboxRepository.create_dispatch_event. apply _.
Qed.

#[export] Instance session_after_insert q o : InSession (after_insert q o).
Proof using All.
  pose proof release_framed. pose proof invalidate_framed. pose proof notify_framed.
  assert (InSession (JobService.release_if_reserved (cr_reservation q))).
  { destruct (cr_reservation q); cbn; apply _. }
  assert (forall n, InSession (_notify_post_commit n)).
  { intros n. unfold _notify_post_commit. apply _. }
  assert (InSession (invalidate_owner (cu_id (cr_user q)))) by by apply session_framed.
  unfold after_insert. apply _.
Qed.

Lemma run_in_attempt {A} (m : M A) s w :
  run_in (attempt m) s w = let '(o, s', w') := run_in m s w in (Ok o, s', w').
Proof using. unfold run_in, attempt. by destruct (m _). Qed.

(** A block is its body in a new session, which is then closed. *)
Lemma run_in_block {A} (m : M A) w :
  InSession m ->
  with_uow m w = let '(o, s, w') := run_in m (mkSession None false) (env_step w) in (o, w').
Proof using.
  intros Hm. unfold with_uow, run_in, uow_aenter.
  change (set_sessions (mkSession None false :: w_sessions (env_step w)) (env_step w))
    with (in_tx (env_step w) None false).
  destruct (Hm (env_step w) None false) as (o & w2 & k & c & E & F). rewrite E. cbn zeta.
  rewrite aexit_in_tx, <- F. by destruct w2.
Qed.

Lemma run_in_then {A B} (m : M A) (k : A -> M B) s w :
  InSession m ->
  run_in (m ≫= k) s w =
  let '(o, s', w') := run_in m s w in
  match o with Ok a => run_in (k a) s' w' | Exc e => (Exc e, s', w') end.
Proof using.
  intros Hm. destruct s as [work c]. unfold run_in at 1.
  change (set_sessions (mkSession work c :: w_sessions w) w) with (in_tx w work c).
  rewrite run_in_bind by done.
  destruct (Hm w work c) as (o & w2 & k2 & c2 & E & F). unfold run_in.
  change (set_sessions (mkSession work c :: w_sessions w) w) with (in_tx w work c). rewrite E.
  cbn [List.hd in_tx w_sessions set_sessions s_work s_committed].
  assert (Hw : set_sessions (w_sessions w) (in_tx w2 k2 c2) = w2) by (rewrite <- F; by destruct w2).
  change (set_sessions (w_sessions w) (set_sessions _ w2)) with (set_sessions (w_sessions w) (in_tx w2 k2 c2)).
  rewrite Hw. destruct o as [a|e].
  - rewrite <- F. reflexivity.
  - rewrite <- F. by destruct w2.
Qed.

(** The block of [create_job], by its awaits. *)
Definition block (u : CurrentUserDTO) (key : string) (ty : JobType) (payload : json)
    : M (option JobCreateResultDTO) :=
  existing_job ← SqlAlchemyJobRepository.get_by_idempotency_key (cu_id u) key;
  match existing_job with
  | Some existing_job =>
      job ← lift (_validate_existing_job existing_job (_build_request_hash ty payload));
      mret (Some (mkJobCreateResultDTO job false))
  | None =>
      reservation ← await_io (reserve (cu_id u));
      o ← attempt (JobService.insert_job_rows settings u key ty payload (_build_request_hash ty payload));
      after_insert (mkCreation u key ty payload reservation (mkSession None false) Reserved) o
  end.

Lemma create_job_block u key ty payload w :
  JobService.create_job settings u key ty payload w =
  let '(o, w') := with_uow (block u key ty payload) w in
  match o with
  | Ok (Some r) => (Ok r, w')
  | Ok None =>
      let '(o, w'') :=
        JobService._load_existing_job (cu_id u) key (_build_request_hash ty payload) w' in
      (replayed o, w'')
  | Exc e => (Exc e, w')
  end.
Proof using.
  unfold JobService.create_job. unfold mbind at 1, M_bind at 1.
  change (with_uow _ w) with (with_uow (block u key ty payload) w).
  destruct (with_uow _ w) as [ [ [r|]|e] w']; [done| |done].
  unfold mbind, M_bind. by destruct (JobService._load_existing_job _ _ _ w') as [ [job|e] w''].
Qed.

#[export] Instance session_block u key ty payload : InSession (block u key ty payload).
Proof using All. unfold block. apply _. Qed.

Lemma run_in_lift {A} (o : outcome A) s w : run_in (lift o) s w = (o, s, w).
Proof using. unfold run_in, lift. cbn. by destruct w. Qed.

Lemma advance_more n q w : advance_n (S n) (q, w) = advance_n n (advance q w).
Proof using. unfold advance_n. by rewrite Nat.iter_succ_r. Qed.

#[local] Ltac next_step E :=
  rewrite advance_more; unfold advance, entered, moved, cr_hash;
  cbn [cr_phase cr_user cr_key cr_session cr_type cr_payload cr_reservation]; rewrite ?E.

(** After some steps the block is over, or lost to another request. *)
Lemma block_steps u key ty payload w :
  exists n s, advance_n n (entered u key ty payload, w) =
    (s, snd (run_in (block u key ty payload) (mkSession None false) w)) /\
    cr_phase s = (match fst (fst (run_in (block u key ty payload) (mkSession None false) w)) with
                  | Ok (Some r) => Answered (Ok r)
                  | Ok None => Lost
                  | Exc e => Answered (Exc e)
                  end) /\
    cr_user s = u /\ cr_key s = key /\ cr_hash s = _build_request_hash ty payload.
Proof using All.
  unfold block. rewrite run_in_then by apply _.
  destruct (run_in (SqlAlchemyJobRepository.get_by_idempotency_key (cu_id u) key) (mkSession None false) w)
    as [ [ [ [existing|]|e] s1] w1] eqn:E1.
  - exists 1%nat. next_step E1.
    destruct (_validate_existing_job existing _) as [job|e].
    + change (run_in _ s1 w1) with (run_in (lift (Ok (Some (mkJobCreateResultDTO job false)))) s1 w1).
      rewrite run_in_lift. eexists. split; [reflexivity | done].
    + change (run_in _ s1 w1) with (run_in (lift (A := option JobCreateResultDTO) (Exc e)) s1 w1).
      rewrite run_in_lift. eexists. split; [reflexivity | done].
  - rewrite run_in_then by apply _.
    destruct (run_in (await_io (reserve (cu_id u))) s1 w1) as [ [ [reservation|e] s2] w2] eqn:E2.
    + rewrite run_in_then, run_in_attempt by apply _.
      destruct (run_in (JobService.insert_job_rows settings u key ty payload _) s2 w2) as [ [o s3] w3] eqn:E3.
      exists 4%nat. next_step E1. next_step E2. next_step E3. next_step E3.
      change (after_insert (mkCreation u key ty payload reservation s3 (Inserted o)) o)
        with (after_insert (mkCreation u key ty payload reservation (mkSession None false) Reserved) o).
      destruct (run_in (after_insert _ o) s3 w3) as [ [ [ [r|]|e] s4] w4]; eexists; (split; [reflexivity | done]).
    + exists 2%nat. eexists. next_step E1. next_step E2. split; [reflexivity | done].
  - exists 1%nat. eexists. next_step E1. split; [reflexivity | done].
Qed.

(** Alone, the steps of a request are [create_job]: the same answer, the same
    world. *)
Theorem steps_are_create_job u key ty payload w :
  exists n s, advance_n n (entered u key ty payload, env_step w) =
    (s, snd (JobService.create_job settings u key ty payload w)) /\
    cr_phase s = Answered (fst (JobService.create_job settings u key ty payload w)).
Proof using All.
  rewrite create_job_block, run_in_block by apply _.
  destruct (block_steps u key ty payload (env_step w)) as (n & s & E & Hp & Hu & Hk & Hh).
  destruct (run_in (block u key ty payload) _ _) as [ [ [ [r|]|e] s1] w1]; cbn [fst snd] in *;
    [by exists n, s | | by exists n, s].
  exists (S n). unfold advance_n in *. cbn [Nat.iter nat_rect]. 
  change (nat_rect _ _ _ n) with (Nat.iter n (fun x : Creation * World => advance (fst x) (snd x)) (entered u key ty payload, env_step w)).
  rewrite E. cbn [fst snd]. unfold advance. rewrite Hp, Hu, Hk, Hh.
  destruct (JobService._load_existing_job _ _ _ w1) as [o w2]. eexists. by split.
Qed.

End steps.
