(* ===== verification/Rabbit.v ===== *)
(** * Rabbit: [app/infrastructure/rabbitmq/] - the topology, the dispatch
    publisher and the connection retry loop. *)
From S2P Require Import Prelude Exceptions Domain Store Effects Repos.

(** ** Names ([topology.py]) *)

Definition JOBS_DIRECT_EXCHANGE_NAME : string := "jobs.direct".
Definition JOBS_EXECUTE_QUEUE_NAME : string := "jobs.execute".
Definition JOBS_EXECUTE_ROUTING_KEY : string := "jobs.execute".
Definition JOBS_DLX_EXCHANGE_NAME : string := "jobs.dlx".
Definition JOBS_DEAD_QUEUE_NAME : string := "jobs.dead".
Definition JOBS_DEAD_ROUTING_KEY : string := "jobs.dead".

Definition execute_queue_arguments : list (string * string) :=
  [("x-dead-letter-exchange", JOBS_DLX_EXCHANGE_NAME);
   ("x-dead-letter-routing-key", JOBS_DEAD_ROUTING_KEY)].

(** ** [RabbitMQTopology.declare]: the calls made on the channel, in order. *)
Inductive channel_call :=
| DeclareExchange (name : string) (durable : bool)          (* ExchangeType.DIRECT *)
| DeclareQueue (name : string) (durable : bool) (arguments : list (string * string))
| BindQueue (queue exchange routing_key : string).

Definition declare_topology : list channel_call := [
  DeclareExchange JOBS_DIRECT_EXCHANGE_NAME true;
  DeclareExchange JOBS_DLX_EXCHANGE_NAME true;
  DeclareQueue JOBS_EXECUTE_QUEUE_NAME true execute_queue_arguments;
  DeclareQueue JOBS_DEAD_QUEUE_NAME true [];
  BindQueue JOBS_EXECUTE_QUEUE_NAME JOBS_DIRECT_EXCHANGE_NAME JOBS_EXECUTE_ROUTING_KEY;
  BindQueue JOBS_DEAD_QUEUE_NAME JOBS_DLX_EXCHANGE_NAME JOBS_DEAD_ROUTING_KEY].

(** What the program relies on from RabbitMQ once the calls were made: a direct
    exchange delivers a message to the queues bound to it with the message's
    routing key, and a message rejected without requeue is published to the
    dead-letter exchange of its queue with the dead-letter routing key. *)
Class BrokerRouting := {
  deliver : list channel_call -> string -> string -> list string;
  dead_letter : list channel_call -> string -> list string;
  deliver_direct calls x k q : q ∈ deliver calls x k <-> BindQueue q x k ∈ calls;
  dead_letter_queue calls queue args durable x k :
    args = [("x-dead-letter-exchange", x); ("x-dead-letter-routing-key", k)] ->
    DeclareQueue queue durable args ∈ calls ->
    (forall durable' args', DeclareQueue queue durable' args' ∈ calls -> args' = args) ->
    dead_letter calls queue = deliver calls x k
}.

(** ** [RabbitMQDispatchPublisher] *)

(** [exchange.publish] with publisher confirms: the broker's next answer. *)
Definition exchange_publish (m : BrokerMessage) : M unit := fun w =>
  let w1 := pop_publish w in
  match default PublishOk (head (w_publish_plan w)) with
  | PublishOk => (Ok tt, set_broker (w_broker w ++ [m]) w1)
  | PublishRefused e => (Exc (InfraErr e), w1)
  | PublishUnconfirmed e => (Exc (InfraErr e), set_broker (w_broker w ++ [m]) w1)
  end.

Section publisher.
Context `{DC : DispatchCodec}.

(** The [Message] of [publish_dispatch]. *)
Definition dispatch_message (outbox_event : OutboxEvent) (message : DispatchOutboxMessage)
    : BrokerMessage := {|
  bm_body := model_dump_json message;
  bm_content_type := "application/json";
  bm_persistent := true;
  bm_message_id := str_of_uuid (e_id outbox_event);
  bm_correlation_id := str_of_uuid (dm_job_id message);
  bm_timestamp := dm_created_at message;
  bm_type := dm_kind message;
  bm_headers := [("kind", dm_kind message); ("event_type", e_event_type outbox_event)];
  bm_routing_key := JOBS_EXECUTE_ROUTING_KEY
|}.

Definition publish_dispatch (outbox_event : OutboxEvent) (message : DispatchOutboxMessage) : M unit :=
  exchange_publish (dispatch_message outbox_event message).

End publisher.

Lemma wp_publish m Q w :
  wp (exchange_publish m) Q w =
  match default PublishOk (head (w_publish_plan w)) with
  | PublishOk => Q (Ok tt) (set_broker (w_broker w ++ [m]) (pop_publish w))
  | PublishRefused e => Q (Exc (InfraErr e)) (pop_publish w)
  | PublishUnconfirmed e => Q (Exc (InfraErr e)) (set_broker (w_broker w ++ [m]) (pop_publish w))
  end.
Proof. unfold wp, exchange_publish. by destruct (default _ _). Qed.

Lemma pop_publish_in_tx w work c : pop_publish (in_tx w work c) = in_tx (pop_publish w) work c.
Proof. reflexivity. Qed.

#[export] Hint Rewrite wp_publish pop_publish_in_tx : wp.

(** ** [connect_robust_with_retry] ([connection.py]) *)

Definition STARTUP_RETRY_BASE_SECONDS : Z := 1.
Definition STARTUP_RETRY_MAX_SECONDS : Z := 30.
Definition STARTUP_RETRY_ATTEMPTS : nat := 5.

Definition retry_delay (attempt_number : Z) : Z :=
  Z.min (STARTUP_RETRY_BASE_SECONDS * 2 ^ (attempt_number - 1)) STARTUP_RETRY_MAX_SECONDS.

(** What one run of the loop does: the sleeps it makes and how it ends.
    [connect n] is the outcome of the [n]-th attempt; [left] attempts remain,
    numbered from [attempt_number]. *)
Fixpoint connect_loop {C} (connect : Z -> outcome C) (attempts attempt_number : Z) (left : nat)
    (last_error : option exn) : list Z * outcome C :=
  match left with
  | O => ([], Exc (default AssertionErr last_error))
  | S left' =>
      match connect attempt_number with
      | Ok c => ([], Ok c)
      | Exc e =>
          if attempt_number =? attempts then ([], Exc e)
          else
            let '(sleeps, o) := connect_loop connect attempts (attempt_number + 1) left' (Some e) in
            (retry_delay attempt_number :: sleeps, o)
      end
  end.

Definition connect_robust_with_retry {C} (connect : Z -> outcome C) (attempts : nat)
    : list Z * outcome C :=
  connect_loop connect (Z.of_nat attempts) 1 attempts None.
