(* ===== verification/Handlers.v ===== *)
(** * Handlers: the job handlers and their registry
    ([app/workers/handlers/], [app/domain/handlers.py]). *)
From S2P Require Import Prelude Exceptions Domain Store Effects.

(** A [JobHandler]: its [job_type] and [execute(payload, cancellation_requested)]. *)
Record JobHandler := mkJobHandler {
  job_type : string;
  execute : json -> option (M bool) -> M unit
}.

(** [asyncio.sleep]: other processes run meanwhile. *)
Definition asyncio_sleep : M unit := await_io (mret tt).

(** [payload["duration_seconds"]]. *)
Definition subscript (payload : json) (key : string) : outcome json :=
  match payload with
  | JObj fields =>
      match json_get key fields with Some v => Ok v | None => Exc (KeyErr key) end
  | _ => Exc (TypeErr "payload is not a mapping")
  end.

(** [float(value)] of a duration, in quarters of a second
    ([SLEEP_CHUNK_SECONDS = 0.25] is exact in binary).  Payloads that passed
    [SleepJobPayload] hold an [int]; numeric texts and floats, which [float]
    would take as well, are outside the model and refused. *)
Definition float_quarters (value : json) : outcome Z :=
  match value with
  | JNum n => Ok (4 * n)
  | JBool b => Ok (if b then 4 else 0)
  | JStr _ => Exc (ValueErr "could not convert string to float")
  | _ => Exc (TypeErr "float() argument must be a string or a real number")
  end.

Definition SLEEP_CHUNK_QUARTERS : Z := 1.

(** The [while remaining_seconds > 0] loop; the fuel is the number of chunks. *)
Fixpoint sleep_loop (fuel : nat) (remaining : Z) (cancellation_requested : option (M bool)) : M unit :=
  match fuel with
  | O => mret tt
  | S fuel' =>
      if negb (0 <? remaining) then mret tt
      else
        cancel ← match cancellation_requested with Some ask => ask | None => mret false end;
        if cancel : bool then raise (JobCancellationRequestedErr "Job cancellation requested")
        else
          let sleep_quarters := Z.min remaining SLEEP_CHUNK_QUARTERS in
          asyncio_sleep;;
          sleep_loop fuel' (remaining - sleep_quarters) cancellation_requested
  end.

Definition SleepJobHandler : JobHandler := {|
  job_type := "sleep";
  execute payload cancellation_requested :=
    duration ← lift (subscript payload "duration_seconds");
    remaining ← lift (float_quarters duration);
    sleep_loop (Z.to_nat remaining) remaining cancellation_requested
|}.

Definition SuccessJobHandler : JobHandler := {|
  job_type := "success";
  execute _ _ := mret tt
|}.

Definition DEFAULT_FAILURE_MESSAGE : string := "Failure handler requested job failure".

Definition FailureJobHandler : JobHandler := {|
  job_type := "failure";
  execute payload _ :=
    let message := match payload with JObj fields => json_get "message" fields | _ => None end in
    match message with
    | Some (JStr m) =>
        if String.eqb m "" then raise (JobExecutionErr DEFAULT_FAILURE_MESSAGE)
        else raise (JobExecutionErr m)
    | _ => raise (JobExecutionErr DEFAULT_FAILURE_MESSAGE)
    end
|}.

(** ** [JobHandlerRegistry] *)

Definition JobHandlerRegistry : Type := gmap string JobHandler.

(** [{handler.job_type: handler for handler in handlers}]. *)
Definition make_registry (handlers : list JobHandler) : JobHandlerRegistry :=
  foldl (fun r h => <[job_type h := h]> r) ∅ handlers.

(** [JobHandlerRegistry.get]. *)
Definition registry_get (registry : JobHandlerRegistry) (t : JobType) : outcome JobHandler :=
  match registry !! job_type_value t with
  | Some handler => Ok handler
  | None => Exc (MissingJobHandlerErr
      ("No handler is registered for '" +:+ job_type_value t +:+ "'"))
  end.

Definition build_job_handler_registry : JobHandlerRegistry :=
  make_registry [SleepJobHandler; SuccessJobHandler; FailureJobHandler].
