(* ===== verification/Publisher.v ===== *)
(** * Publisher: [OutboxPublisher] of [app/workers/outbox_publisher.py]. *)
From S2P Require Import Prelude Exceptions Domain Store Effects Config JobRepo Repos Rabbit.

Definition MAX_OUTBOX_BACKOFF_SECONDS : Z := 300.
Definition MAX_OUTBOX_ERROR_LENGTH : Z := 1000.

(** A job is dispatchable while it is pending or queued. *)
Definition dispatchable (s : JobStatus) : bool := bool_decide (s ∈ [PENDING; QUEUED]).

Module OutboxPublisher.
Section publisher.
Context `{DC : DispatchCodec}.
Context (settings : Settings).

(** [_truncate_error]. *)
Definition _truncate_error (error : string) : string :=
  if slen error <=? MAX_OUTBOX_ERROR_LENGTH then error
  else slice_to error (MAX_OUTBOX_ERROR_LENGTH - 3) +:+ "...".

(** [_compute_retry_delay_seconds]. *)
Definition _compute_retry_delay_seconds (next_attempt_number : Z) : Z :=
  Z.min (2 ^ Z.max (next_attempt_number - 1) 0) MAX_OUTBOX_BACKOFF_SECONDS.

(** [_discard_non_dispatchable_event]. *)
Definition _discard_non_dispatchable_event (event : OutboxEvent) (status : JobStatus) : M unit :=
  SqlAlchemyJobLogRepository.create_system_log (e_aggregate_id event) "info"
    ("Dispatch skipped because job is not dispatchable (status=" +:+ job_status_value status +:+ ")");;
  at_ ← now;
  SqlAlchemyOutboxRepository.mark_published (e_id event) at_.

(** [_record_failure_after_rollback]. *)
Definition _record_failure_after_rollback (event_id : uuid) (event_type : string)
    (publish_attempts : Z) (error : string) : M unit :=
  uow_rollback;;
  at_ ← now;
  let next_available_at := at_ + seconds (_compute_retry_delay_seconds (publish_attempts + 1)) in
  let error_message := _truncate_error error in
  with_uow (
    SqlAlchemyOutboxRepository.record_publish_failure event_id error_message next_available_at;;
    uow_commit).

(** The body of the [try] in [_process_claimed_event_once]: [false] when the
    event was discarded there. *)
Definition queue_and_publish (locked_event : OutboxEvent) (job : StoredJobDTO) : M bool :=
  message ← lift (match model_validate (e_payload locked_event) with
                  | Some m => Ok m
                  | None => Exc (ValidationErr "DispatchOutboxMessage")
                  end);
  discarded ← (
    if bool_decide (sj_status job = PENDING) then
      at_ ← now;
      queued ← SqlAlchemyJobRepository.mark_queued (sj_id job) at_;
      if negb queued then
        _discard_non_dispatchable_event locked_event (sj_status job);;
        uow_commit;;
        mret true
      else mret false
    else mret false);
  if discarded : bool then mret false
  else publish_dispatch locked_event message;; mret true.

(** [_process_claimed_event_once]. *)
Definition _process_claimed_event_once (event_id : uuid) : M bool :=
  with_uow (
    locked_event ← SqlAlchemyOutboxRepository.get_by_id_for_update_unpublished event_id;
    match locked_event with
    | None => mret false
    | Some locked_event =>
        job ← SqlAlchemyJobRepository.get_by_id_for_update (e_aggregate_id locked_event);
        match job with
        | None =>
            at_ ← now;
            SqlAlchemyOutboxRepository.mark_published (e_id locked_event) at_;;
            uow_commit;;
            mret true
        | Some job =>
            if negb (dispatchable (sj_status job)) then
              _discard_non_dispatchable_event locked_event (sj_status job);;
              uow_commit;;
              mret true
            else
              o ← attempt (queue_and_publish locked_event job);
              match o with
              | Exc exc =>
                  _record_failure_after_rollback (e_id locked_event) (e_event_type locked_event)
                    (e_publish_attempts locked_event) (exn_str exc);;
                  mret true
              | Ok false => mret true
              | Ok true =>
                  at_ ← now;
                  SqlAlchemyOutboxRepository.mark_published (e_id locked_event) at_;;
                  uow_commit;;
                  mret true
              end
        end
    end).

(** The loop over the claimed identifiers. *)
Fixpoint process_claimed (event_ids : list uuid) : M Z :=
  match event_ids with
  | [] => mret 0
  | event_id :: rest =>
      processed ← _process_claimed_event_once event_id;
      n ← process_claimed rest;
      mret (if processed : bool then 1 + n else n)
  end.

(** [publish_due_batch_once]. *)
Definition publish_due_batch_once : M Z :=
  at_ ← now;
  claimed_event_ids ← with_uow (
    claimed_events ← SqlAlchemyOutboxRepository.claim_due_batch at_ (outbox_batch_size settings);
    mret (e_id <$> claimed_events));
  process_claimed claimed_event_ids.

(** [run_forever]: [stop_checks] are the successive readings of
    [stop_event.is_set()]; an idle round waits (for the event or the poll
    interval) before the next reading. *)
Fixpoint run_forever (stop_checks : list bool) : M unit :=
  match stop_checks with
  | [] | true :: _ => mret tt
  | false :: rest =>
      processed_count ← publish_due_batch_once;
      when (processed_count =? 0) (await_io (mret tt));;
      run_forever rest
  end.

End publisher.
End OutboxPublisher.
