(* ===== verification/Worker.v ===== *)
(** * Worker: [JobWorker] of [app/workers/job_worker.py]. *)
From S2P Require Import Prelude Exceptions Domain Store Effects Config JobRepo Repos PostCommit Handlers.

Definition CAPACITY_DEFER_SECONDS : Z := 3.
Definition MAX_JOB_ERROR_LENGTH : Z := 1000.
Definition MAX_TOTAL_JOB_ATTEMPTS : Z := 4.
Definition RETRY_BACKOFF_SECONDS_BY_ATTEMPT : list (Z * Z) := [(1, 5); (2, 15); (3, 30)].

(** [ExecutionClaim]. *)
Record ExecutionClaim := mkExecutionClaim {
  ec_job : JobExecutionDTO;
  ec_execution_token : uuid;
  ec_attempt_number : Z
}.

(** What [handle_message] does last with the message; if it raises, the
    message stays unacknowledged. *)
Inductive Disposition := Acked | RejectedWithoutRequeue.

(** The notification built by [JobWorker._notify_post_commit]. *)
Definition worker_notification (job_id owner_id : uuid) (status : JobStatus) (attempt_count : Z)
    (committed_at : datetime) : JobPostCommitNotification :=
  mkJobPostCommitNotification job_id owner_id status attempt_count committed_at None.

Module JobWorker.

(** [_truncate_error]. *)
Definition _truncate_error (error : string) : string :=
  if slen error <=? MAX_JOB_ERROR_LENGTH then error
  else slice_to error (MAX_JOB_ERROR_LENGTH - 3) +:+ "...".

(** [_max_total_attempts]. *)
Definition _max_total_attempts (job : JobExecutionDTO) : Z :=
  Z.min (je_max_retries job + 1) MAX_TOTAL_JOB_ATTEMPTS.

(** [_retry_backoff_seconds]: a dict subscript. *)
Definition _retry_backoff_seconds (attempt_number : Z) : outcome Z :=
  match list_find (fun kv => fst kv = attempt_number) RETRY_BACKOFF_SECONDS_BY_ATTEMPT with
  | Some (_, (_, delay)) => Ok delay
  | None => Exc (KeyErr (str_of_int attempt_number))
  end.

Section worker.
Context `{DC : DispatchCodec} `{N : WorkerPostCommitNotifier}.
Context (handler_registry : JobHandlerRegistry) (settings : Settings) (worker_id : string).

(** [_claim_execution]. *)
Definition _claim_execution (dispatch_message : DispatchOutboxMessage) : M (option ExecutionClaim) :=
  now ← now;
  execution_token ← uuid4;
  with_uow (
    owner_id ← SqlAlchemyJobRepository.get_owner_id (dm_job_id dispatch_message);
    match owner_id with
    | None => mret None
    | Some owner_id =>
    user ← SqlAlchemyUserRepository.lock_by_id owner_id;
    match user with
    | None => mret None
    | Some _ =>
    job ← SqlAlchemyJobRepository.get_execution_candidate_for_update (dm_job_id dispatch_message);
    match job with
    | None => mret None
    | Some job =>
    match je_status job with
    | PENDING => mret None
    | RUNNING => mret None
    | COMPLETED | FAILED | CANCELLED => mret None
    | QUEUED =>
    let next_attempt_number := je_attempt_count job + 1 in
    if _max_total_attempts job <? next_attempt_number then
      failed ← SqlAlchemyJobRepository.mark_failed_without_execution (je_id job) QUEUED now
        "Job exceeded the maximum execution attempts";
      (if failed : bool then
        SqlAlchemyJobLogRepository.create_system_log (je_id job) "error"
          "Job failed before execution because it exceeded the maximum attempts";;
        uow_commit;;
        _notify_post_commit (worker_notification (je_id job) (je_owner_id job) FAILED
          (je_attempt_count job) now)
      else mret tt);;
      mret None
    else
      running_count ← SqlAlchemyJobRepository.count_running_for_owner owner_id;
      if job_max_running_per_user settings <=? running_count then
        let defer_until := now + seconds CAPACITY_DEFER_SECONDS in
        deferred_event ←
          SqlAlchemyOutboxRepository.create_dispatch_event_if_absent (je_id job) defer_until;
        (match deferred_event with
         | Some _ =>
             SqlAlchemyJobLogRepository.create_system_log (je_id job) "info"
               "Job dispatch deferred because the owner reached the running-job limit"
         | None => mret tt
         end);;
        uow_commit;;
        _notify_post_commit (worker_notification (je_id job) (je_owner_id job) QUEUED
          (je_attempt_count job) now);;
        mret None
      else
        claimed ← SqlAlchemyJobRepository.mark_running (je_id job) worker_id execution_token now
          (now + seconds (job_lease_seconds settings));
        if negb claimed then mret None
        else
          SqlAlchemyJobLogRepository.create_system_log (je_id job) "info" "Job execution started";;
          uow_commit;;
          _notify_post_commit (worker_notification (je_id job) (je_owner_id job) RUNNING
            next_attempt_number now);;
          mret (Some (mkExecutionClaim job execution_token next_attempt_number))
    end
    end
    end
    end).

(** [_is_cancellation_requested]. *)
Definition _is_cancellation_requested (claim : ExecutionClaim) : M bool :=
  with_uow (
    current_job ← SqlAlchemyJobRepository.get_execution_candidate_for_update (je_id (ec_job claim));
    match current_job with
    | None => mret true
    | Some current_job =>
        if negb (bool_decide (je_execution_token current_job = Some (ec_execution_token claim)))
        then mret true
        else mret (negb (bool_decide (je_cancel_requested_at current_job = None)))
    end).

(** The tail the four finalizations share: log, commit, notify. *)
Definition commit_final (claim : ExecutionClaim) (now : datetime) (status : JobStatus)
    (level message : string) : M unit :=
  SqlAlchemyJobLogRepository.create_system_log (je_id (ec_job claim)) level message;;
  uow_commit;;
  _notify_post_commit (worker_notification (je_id (ec_job claim)) (je_owner_id (ec_job claim))
    status (ec_attempt_number claim) now).

(** [_mark_completed]. *)
Definition _mark_completed (claim : ExecutionClaim) : M unit :=
  now ← now;
  with_uow (
    completed ← SqlAlchemyJobRepository.mark_completed (je_id (ec_job claim))
      (ec_execution_token claim) now;
    if completed : bool then commit_final claim now COMPLETED "info" "Job completed"
    else mret tt).

(** [_mark_cancelled]. *)
Definition _mark_cancelled (claim : ExecutionClaim) : M unit :=
  now ← now;
  with_uow (
    cancelled ← SqlAlchemyJobRepository.mark_cancelled (je_id (ec_job claim))
      (ec_execution_token claim) now;
    if negb cancelled then mret tt
    else commit_final claim now CANCELLED "info"
      ("Job cancelled during attempt " +:+ str_of_int (ec_attempt_number claim))).

(** [_mark_failed]. *)
Definition _mark_failed (claim : ExecutionClaim) (error : string) : M unit :=
  now ← now;
  let error_message := _truncate_error error in
  with_uow (
    failed ← SqlAlchemyJobRepository.mark_failed (je_id (ec_job claim))
      (ec_execution_token claim) now error_message;
    if failed : bool then commit_final claim now FAILED "error"
      ("Job attempt " +:+ str_of_int (ec_attempt_number claim) +:+ " became a final failure: "
       +:+ error_message)
    else mret tt).

(** [_schedule_retry]. *)
Definition _schedule_retry (claim : ExecutionClaim) (error : string) : M unit :=
  now ← now;
  let error_message := _truncate_error error in
  retry_delay_seconds ← lift (_retry_backoff_seconds (ec_attempt_number claim));
  let retry_available_at := now + seconds retry_delay_seconds in
  with_uow (
    requeued ← SqlAlchemyJobRepository.requeue_running (je_id (ec_job claim))
      (ec_execution_token claim) now error_message;
    if requeued : bool then
      SqlAlchemyOutboxRepository.create_dispatch_event_if_absent (je_id (ec_job claim))
        retry_available_at;;
      commit_final claim now QUEUED "warning"
        ("Job attempt " +:+ str_of_int (ec_attempt_number claim)
         +:+ " failed and was queued for retry in " +:+ str_of_int retry_delay_seconds
         +:+ " seconds: " +:+ error_message)
    else mret tt).

(** [_finalize_failure]. *)
Definition _finalize_failure (claim : ExecutionClaim) (error : string) : M unit :=
  if _max_total_attempts (ec_job claim) <=? ec_attempt_number claim
  then _mark_failed claim error
  else _schedule_retry claim error.

(** The [except]/[else] clauses of [_execute_claim]. *)
Definition settle (claim : ExecutionClaim) (o : outcome unit) : M unit :=
  match o with
  | Exc (JobCancellationRequestedErr _) => _mark_cancelled claim
  | Exc (MissingJobHandlerErr m) => _mark_failed claim m
  | Exc (JobExecutionErr m) => _finalize_failure claim m
  | Exc e => _finalize_failure claim (exn_str e)
  | Ok _ => _mark_completed claim
  end.

(** [_execute_claim]. *)
Definition _execute_claim (claim : ExecutionClaim) : M unit :=
  o ← attempt (
    handler ← lift (registry_get handler_registry (je_type (ec_job claim)));
    execute handler (je_payload (ec_job claim)) (Some (_is_cancellation_requested claim)));
  settle claim o.

(** [handle_message]. *)
Definition handle_message (body : string) : M Disposition :=
  match model_validate_json body with
  | None => mret RejectedWithoutRequeue
  | Some dispatch_message =>
      claim ← _claim_execution dispatch_message;
      match claim with
      | None => mret Acked
      | Some claim => _execute_claim claim;; mret Acked
      end
  end.

End worker.
End JobWorker.
