(* ===== verification/ClaimSteps.v ===== *)
(** * ClaimSteps: the statements of [JobWorker._claim_execution]
    ([app/workers/job_worker.py]) as the steps of a claim, so that the statements of
    several claims can interleave. *)
From S2P Require Import Prelude Exceptions Domain Store Effects Tables Config JobRepo Repos PostCommit Invariants Steps Worker.
From S2P Require Import CreationSteps.

(** ** A statement of an open transaction *)

(** The rows a transaction sees after the statement [m], having seen [d]. *)
Definition effect {A} (m : M A) (w : World) (d : DB) : DB :=
  match w_sessions (snd (m (in_tx (set_db d w) (Some d) false))) with
  | s :: _ => default d (s_work s)
  | [] => d
  end.

(** A statement sees what the others committed by now under the [writes] of its own
    transaction, and adds to these.  The [writes] are a function of the committed
    rows, which the COMMIT applies to those of its moment: READ COMMITTED, where the
    rows a transaction wrote are its own until then. *)
Definition stmt {A} (m : M A) (writes : DB -> DB) (w : World) : outcome A * (DB -> DB) * World :=
  let '(o, w') := m (in_tx w (Some (writes (w_db w))) false) in
  (o, fun d => effect m w (writes d), set_sessions (w_sessions w) w').

(** ** The steps of a claim *)

(** What a claim waits to do next, with its local variables. *)
Inductive ClaimPhase :=
| LookUpOwner
| LockOwner (owner_id : uuid)
| LockJob (owner_id : uuid)
| MarkExhausted (owner_id : uuid) (job : JobExecutionDTO)
| LogExhausted (owner_id : uuid) (job : JobExecutionDTO)
| CountRunning (owner_id : uuid) (job : JobExecutionDTO)
| FindDeferred (owner_id : uuid) (job : JobExecutionDTO)
| AddDeferred (owner_id : uuid) (job : JobExecutionDTO)
| LogDeferred (owner_id : uuid) (job : JobExecutionDTO)
| MarkStarted (owner_id : uuid) (job : JobExecutionDTO)
| LogStarted (owner_id : uuid) (job : JobExecutionDTO)
| Committing (owner_id : uuid) (job : JobExecutionDTO) (status : JobStatus) (attempt_count : Z)
    (result : option ExecutionClaim)
| Notifying (notification : JobPostCommitNotification) (result : option ExecutionClaim)
| Claimed (answer : outcome (option ExecutionClaim)).

Record Claiming := mkClaiming {
  cl_message : DispatchOutboxMessage;
  cl_worker : string;
  cl_now : datetime;
  cl_token : uuid;
  cl_writes : DB -> DB;
  cl_phase : ClaimPhase
}.

Definition cl_job (c : Claiming) : uuid := dm_job_id (cl_message c).

(** The claim after a statement: on to the phase that its result calls for. *)
Definition proceed {A} (c : Claiming) (r : outcome A * (DB -> DB) * World) (next : A -> ClaimPhase)
    : Claiming * World :=
  let '(o, writes, w') := r in
  (mkClaiming (cl_message c) (cl_worker c) (cl_now c) (cl_token c) writes
     (match o with Ok a => next a | Exc e => Claimed (Exc e) end), w').

Section steps.
Context `{DC : DispatchCodec} `{N : WorkerPostCommitNotifier}.
Context (settings : Settings).

(** The claim whose Unit of Work was just entered. *)
Definition claim_entered (dispatch_message : DispatchOutboxMessage) (worker_id : string)
    (now : datetime) (execution_token : uuid) : Claiming :=
  mkClaiming dispatch_message worker_id now execution_token id LookUpOwner.

Definition next_attempt_number (job : JobExecutionDTO) : Z := je_attempt_count job + 1.

(** The phase the loaded row calls for. *)
Definition after_lock (owner_id : uuid) (job : option JobExecutionDTO) : ClaimPhase :=
  match job with
  | None => Claimed (Ok None)
  | Some job =>
      match je_status job with
      | PENDING => Claimed (Ok None)
      | RUNNING => Claimed (Ok None)
      | COMPLETED | FAILED | CANCELLED => Claimed (Ok None)
      | QUEUED =>
          if JobWorker._max_total_attempts job <? next_attempt_number job
          then MarkExhausted owner_id job
          else CountRunning owner_id job
      end
  end.

Definition advance_claim (c : Claiming) (w : World) : Claiming * World :=
  match cl_phase c with
  | LookUpOwner =>
      proceed c (stmt (SqlAlchemyJobRepository.get_owner_id (cl_job c)) (cl_writes c) w)
        (fun owner_id => match owner_id with
         | None => Claimed (Ok None)
         | Some owner_id => LockOwner owner_id
         end)
  | LockOwner owner_id =>
      proceed c (stmt (SqlAlchemyUserRepository.lock_by_id owner_id) (cl_writes c) w)
        (fun user => match user with
         | None => Claimed (Ok None)
         | Some _ => LockJob owner_id
         end)
  | LockJob owner_id =>
      proceed c (stmt (SqlAlchemyJobRepository.get_execution_candidate_for_update (cl_job c))
        (cl_writes c) w) (after_lock owner_id)
  | MarkExhausted owner_id job =>
      proceed c (stmt (SqlAlchemyJobRepository.mark_failed_without_execution (je_id job) QUEUED
        (cl_now c) "Job exceeded the maximum execution attempts") (cl_writes c) w)
        (fun failed : bool => if failed then LogExhausted owner_id job else Claimed (Ok None))
  | LogExhausted owner_id job =>
      proceed c (stmt (SqlAlchemyJobLogRepository.create_system_log (je_id job) "error"
        "Job failed before execution because it exceeded the maximum attempts") (cl_writes c) w)
        (fun _ => Committing owner_id job FAILED (je_attempt_count job) None)
  | CountRunning owner_id job =>
      proceed c (stmt (SqlAlchemyJobRepository.count_running_for_owner owner_id) (cl_writes c) w)
        (fun running_count =>
           if job_max_running_per_user settings <=? running_count then FindDeferred owner_id job
           else MarkStarted owner_id job)
  | FindDeferred owner_id job =>
      proceed c (stmt (db_query (fun d => scalar (select_where (pending_dispatch (je_id job)) (db_outbox d))))
        (cl_writes c) w)
        (fun existing_event => match existing_event with
         | Some _ => Committing owner_id job QUEUED (je_attempt_count job) None
         | None => AddDeferred owner_id job
         end)
  | AddDeferred owner_id job =>
      proceed c (stmt (SqlAlchemyOutboxRepository.create_dispatch_event (je_id job)
        (cl_now c + seconds CAPACITY_DEFER_SECONDS)) (cl_writes c) w)
        (fun _ => LogDeferred owner_id job)
  | LogDeferred owner_id job =>
      proceed c (stmt (SqlAlchemyJobLogRepository.create_system_log (je_id job) "info"
        "Job dispatch deferred because the owner reached the running-job limit") (cl_writes c) w)
        (fun _ => Committing owner_id job QUEUED (je_attempt_count job) None)
  | MarkStarted owner_id job =>
      proceed c (stmt (SqlAlchemyJobRepository.mark_running (je_id job) (cl_worker c) (cl_token c)
        (cl_now c) (cl_now c + seconds (job_lease_seconds settings))) (cl_writes c) w)
        (fun claimed : bool => if claimed then LogStarted owner_id job else Claimed (Ok None))
  | LogStarted owner_id job =>
      proceed c (stmt (SqlAlchemyJobLogRepository.create_system_log (je_id job) "info"
        "Job execution started") (cl_writes c) w)
        (fun _ => Committing owner_id job RUNNING (next_attempt_number job)
           (Some (mkExecutionClaim job (cl_token c) (next_attempt_number job))))
  | Committing owner_id job status attempt_count result =>
      let notification :=
        worker_notification (je_id job) (je_owner_id job) status attempt_count (cl_now c) in
      let at_phase p :=
        mkClaiming (cl_message c) (cl_worker c) (cl_now c) (cl_token c) id p in
      match default CommitOk (head (w_commit_plan w)) with
      | CommitOk =>
          (at_phase (Notifying notification result), set_db (cl_writes c (w_db w)) (pop_commit w))
      | CommitLost m => (at_phase (Claimed (Exc (InfraErr m))), pop_commit w)
      | CommitUnacknowledged m =>
          (at_phase (Claimed (Exc (InfraErr m))), set_db (cl_writes c (w_db w)) (pop_commit w))
      end
  | Notifying notification result =>
      let '(o, _, w') := run_in (_notify_post_commit notification) (mkSession None true) w in
      (mkClaiming (cl_message c) (cl_worker c) (cl_now c) (cl_token c) id
         (Claimed (match o with Ok _ => Ok result | Exc e => Exc e end)), w')
  | Claimed _ => (c, w)
  end.

(** The row locks it holds: SELECT ... FOR UPDATE takes them, the end of the
    transaction gives them back. *)
Definition holds_owner (c : Claiming) : option uuid :=
  match cl_phase c with
  | LockJob o | MarkExhausted o _ | LogExhausted o _ | CountRunning o _ | FindDeferred o _
  | AddDeferred o _ | LogDeferred o _ | MarkStarted o _ | LogStarted o _
  | Committing o _ _ _ _ => Some o
  | _ => None
  end.

Definition holds_job (c : Claiming) : option uuid :=
  match cl_phase c with
  | MarkExhausted _ _ | LogExhausted _ _ | CountRunning _ _ | FindDeferred _ _ | AddDeferred _ _
  | LogDeferred _ _ | MarkStarted _ _ | LogStarted _ _ | Committing _ _ _ _ _ => Some (cl_job c)
  | _ => None
  end.

(** ** Alone, the steps are [_claim_execution] *)

Definition advance_claims (n : nat) (x : Claiming * World) : Claiming * World :=
  Nat.iter n (fun x => advance_claim (fst x) (snd x)) x.

Lemma advance_claims_more n c w : advance_claims (S n) (c, w) = advance_claims n (advance_claim c w).
Proof using. unfold advance_claims. by rewrite Nat.iter_succ_r. Qed.

Context `{NL : !NotifierLaws N}.

Definition claim_runs (x : Claiming * World) (o : outcome (option ExecutionClaim)) (w' : World) : Prop :=
  exists n c, advance_claims n x = (c, w') /\ cl_phase c = Claimed o.

Lemma runs_now c w o : cl_phase c = Claimed o -> claim_runs (c, w) o w.
Proof using. intros H. by exists 0%nat, c. Qed.

Lemma runs_step c w o w' : claim_runs (advance_claim c w) o w' -> claim_runs (c, w) o w'.
Proof using. intros (n & c' & E & H). exists (S n), c'. by rewrite advance_claims_more. Qed.

(** Statements that only read, and statements that only write. *)
Lemma stmt_query {A} (q : DB -> A) p w :
  stmt (db_query q) p w = (Ok (q (p (w_db w))), p, w).
Proof using. unfold stmt, db_query, in_tx. cbn. by destruct w. Qed.

Lemma stmt_exec {A} (f : DB -> DB * A) p w :
  stmt (db_exec f) p w = (Ok (snd (f (p (w_db w)))), fun d => effect (db_exec f) w (p d), w).
Proof using.
  unfold stmt. assert (E : db_exec f (in_tx w (Some (p (w_db w))) false) =
    (Ok (snd (f (p (w_db w)))), in_tx w (Some (fst (f (p (w_db w))))) false)).
  { apply wp_exactly. by rewrite wp_exec. }
  rewrite E. unfold in_tx. cbn. by destruct w.
Qed.

Lemma effect_exec {A} (f : DB -> DB * A) w d : effect (db_exec f) w d = fst (f d).
Proof using.
  unfold effect. assert (E : db_exec f (in_tx (set_db d w) (Some d) false) =
    (Ok (snd (f d)), in_tx (set_db d w) (Some (fst (f d))) false)).
  { apply wp_exactly. by rewrite wp_exec. }
  by rewrite E.
Qed.

Lemma stmt_log k level message p w :
  stmt (SqlAlchemyJobLogRepository.create_system_log k level message) p w =
  (Ok tt, fun d => effect (SqlAlchemyJobLogRepository.create_system_log k level message) w (p d), tick w).
Proof using. unfold stmt, in_tx. cbn. by destruct w. Qed.

Lemma effect_log k level message w d :
  effect (SqlAlchemyJobLogRepository.create_system_log k level message) w d =
  insert_log k None level message (w_clock w (w_ticks w)) d.
Proof using. reflexivity. Qed.

Lemma stmt_query_map {A B} (q : DB -> A) (f : A -> B) p w :
  stmt (a ← db_query q; mret (f a)) p w = (Ok (f (q (p (w_db w)))), p, w).
Proof using. unfold stmt, in_tx. cbn. by destruct w. Qed.

Lemma stmt_dispatch k at_ p w :
  stmt (SqlAlchemyOutboxRepository.create_dispatch_event k at_) p w =
  (Ok (fresh_event (w_next_uuid w) k (w_clock w (w_ticks w)) at_),
   fun d => effect (SqlAlchemyOutboxRepository.create_dispatch_event k at_) w (p d), bump_uuid (tick w)).
Proof using. unfold stmt, in_tx. cbn. by destruct w. Qed.

Lemma effect_dispatch k at_ w d :
  effect (SqlAlchemyOutboxRepository.create_dispatch_event k at_) w d =
  add_event (w_next_uuid w) k (w_clock w (w_ticks w)) at_ d.
Proof using. reflexivity. Qed.

(** What holds of every way the claim can end: taken one step further. *)
Definition ends_in (x : Claiming * World) (Q : outcome (option ExecutionClaim) -> World -> Prop) : Prop :=
  forall o w', claim_runs x o w' -> Q o w'.

Lemma ends_step c w Q : ends_in (c, w) Q -> ends_in (advance_claim c w) Q.
Proof using. intros H o w' Hr. by apply H, runs_step. Qed.

Lemma ends_now c w Q o : ends_in (c, w) Q -> cl_phase c = Claimed o -> Q o w.
Proof using. intros H Hc. by apply H, runs_now. Qed.

(** The COMMIT and the notification, inside the block. *)
Lemma notify_ends c n r w Q :
  cl_phase c = Notifying n r -> ends_in (c, w) Q ->
  wp (_notify_post_commit n)
    (fun o w' => match o with
     | Ok _ => Q (Ok r) (uow_aexit false w')
     | Exc e => Q (Exc e) (uow_aexit true w')
     end) (in_tx w None true).
Proof using NL.
  intros Hp HQ. apply ends_step in HQ. unfold advance_claim in HQ. rewrite Hp in HQ.
  assert (Hi : InSession (_notify_post_commit n)).
  { apply session_framed. unfold _notify_post_commit. pose proof (notify_framed n). auto with app. }
  destruct (Hi w None true) as (o & w2 & k & c2 & E & F). unfold wp. rewrite E. cbn [fst snd].
  rewrite !aexit_in_tx. unfold run_in in HQ.
  change (set_sessions (mkSession None true :: w_sessions w) w) with (in_tx w None true) in HQ.
  rewrite E in HQ. cbv zeta in HQ.
  replace (set_sessions (w_sessions w) (in_tx w2 k c2)) with w2 in HQ by (rewrite <- F; by destruct w2).
  destruct o; by eapply ends_now.
Qed.

Lemma commit_ends c owner job status attempts r w Q :
  cl_phase c = Committing owner job status attempts r -> ends_in (c, w) Q ->
  let n := worker_notification (je_id job) (je_owner_id job) status attempts (cl_now c) in
  let d := cl_writes c (w_db w) in
  match default CommitOk (head (w_commit_plan w)) with
  | CommitOk =>
      wp (_notify_post_commit n)
        (fun o w' => match o with
         | Ok _ => Q (Ok r) (uow_aexit false w')
         | Exc e => Q (Exc e) (uow_aexit true w')
         end) (in_tx (set_db d (pop_commit w)) None true)
  | CommitLost m => Q (Exc (InfraErr m)) (pop_commit w)
  | CommitUnacknowledged m => Q (Exc (InfraErr m)) (set_db d (pop_commit w))
  end.
Proof using NL.
  intros Hp HQ. apply ends_step in HQ. unfold advance_claim in HQ. rewrite Hp in HQ. cbv zeta in *.
  destruct (default CommitOk (head (w_commit_plan w))) as [|m|m].
  - by eapply notify_ends; [|exact HQ].
  - by eapply ends_now.
  - by eapply ends_now.
Qed.

#[local] Ltac next_claim_step H :=
  apply ends_step in H; unfold advance_claim, claim_entered, cl_job in H;
  cbn [cl_phase cl_message cl_worker cl_now cl_token cl_writes] in H;
  autounfold with repo in H; rewrite ?stmt_query, ?stmt_query_map, ?stmt_exec, ?stmt_log in H;
  cbn [proceed id cl_message cl_worker cl_now cl_token fst snd] in H.

#[local] Ltac finish_claim H :=
  eapply commit_ends in H; [|reflexivity];
  cbn [cl_writes cl_now] in H; cbv zeta in H;
  rewrite ?effect_log, ?effect_dispatch, ?effect_exec in H; exact H.

Lemma claim_execution_by_steps msg worker w Q :
  ends_in (claim_entered msg worker (w_clock w (w_ticks w)) (w_next_uuid w), env_step (bump_uuid (tick w))) Q ->
  wp (JobWorker._claim_execution settings worker msg) Q w.
Proof using NL.
  intros HQ. unfold JobWorker._claim_execution. autounfold with repo. wp_run.
  revert HQ. generalize (env_step (bump_uuid (tick w))) (w_clock w (w_ticks w)) (w_next_uuid w).
  clear w. intros w0 t token HQ.
  next_claim_step HQ.
  destruct (scalar (select_where (fun j => j_id j =? dm_job_id msg) (db_jobs (w_db w0)))) as [j0|] eqn:Ej;
    cbn [fmap option_fmap option_map] in *; [|wp_run; by eapply ends_now].
  wp_run. next_claim_step HQ.
  destruct (scalar (select_where (fun u => u_id u =? j_owner_id j0) (db_users (w_db w0)))) as [u|];
    [|wp_run; by eapply ends_now].
  wp_run. next_claim_step HQ.
  rewrite Ej in HQ |- *. cbn [fmap option_fmap option_map after_lock] in *. wp_run.
  rewrite je_status_dto in *. destruct (j_status j0) eqn:Es; try (wp_run; by eapply ends_now).
  unfold next_attempt_number in HQ at 1. wp_run.
  destruct (JobWorker._max_total_attempts _ <? _).
  - wp_run. next_claim_step HQ. rewrite ?je_id_dto in HQ.
    destruct (snd (update_job _ _ _ _)); wp_run; [|by eapply ends_now].
    next_claim_step HQ. finish_claim HQ.
  - wp_run. next_claim_step HQ.
    destruct (job_max_running_per_user settings <=? _); wp_run.
    + unfold SqlAlchemyOutboxRepository.create_dispatch_event_if_absent, SqlAlchemyOutboxRepository.create_dispatch_event.
      wp_run. next_claim_step HQ.
      destruct (scalar (select_where (pending_dispatch _) _)) as [e|]; wp_run.
      * finish_claim HQ.
      * apply ends_step in HQ. unfold advance_claim in HQ.
        cbn [cl_phase cl_message cl_worker cl_now cl_token cl_writes] in HQ. rewrite stmt_dispatch in HQ.
        cbn [proceed cl_message cl_worker cl_now cl_token] in HQ.
        next_claim_step HQ. finish_claim HQ.
    + next_claim_step HQ. rewrite ?je_id_dto in HQ.
      destruct (snd (update_job _ _ _ _)); cbn [negb]; wp_run; [|by eapply ends_now].
      next_claim_step HQ. finish_claim HQ.
Qed.

(** Alone, the steps of a claim are [_claim_execution]: the same answer, the same
    world. *)
Theorem claim_steps_are_claim_execution msg worker w :
  claim_runs (claim_entered msg worker (w_clock w (w_ticks w)) (w_next_uuid w), env_step (bump_uuid (tick w)))
    (fst (JobWorker._claim_execution settings worker msg w))
    (snd (JobWorker._claim_execution settings worker msg w)).
Proof using NL. apply (claim_execution_by_steps msg worker w (claim_runs _)). by intros o w'. Qed.

End steps.
