(* ===== verification/Recovery.v ===== *)
(** * Recovery: [StaleRunningRecovery] of [app/workers/stale_running_recovery.py]. *)
From S2P Require Import Prelude Exceptions Domain Store Effects Config JobRepo Repos PostCommit.

Definition RECOVERY_FINAL_FAILURE_MESSAGE : string :=
  "Job failed after stale running recovery exhausted retries".
Definition RECOVERY_REQUEUE_MESSAGE : string :=
  "Job recovered from stale running state and queued for retry".

Module StaleRunningRecovery.
Section recovery.
Context `{DC : DispatchCodec} `{N : WorkerPostCommitNotifier}.
Context (settings : Settings).

(** [_max_total_attempts]. *)
Definition _max_total_attempts (job : JobExecutionDTO) : Z := Z.min (je_max_retries job + 1) 4.

(** [_recover_stale_job]. *)
Definition _recover_stale_job (job : JobExecutionDTO) (now : datetime)
    : M (option JobPostCommitNotification) :=
  match je_execution_token job with
  | None => mret None
  | Some execution_token =>
  owner ← SqlAlchemyUserRepository.lock_by_id (je_owner_id job);
  match owner with
  | None => mret None
  | Some _ =>
  let next_attempt_number := je_attempt_count job + 1 in
  if _max_total_attempts job <? next_attempt_number then
    failed ← SqlAlchemyJobRepository.mark_failed (je_id job) execution_token now
      RECOVERY_FINAL_FAILURE_MESSAGE;
    if negb failed then mret None
    else
      SqlAlchemyJobLogRepository.create_system_log (je_id job) "error"
        ("Job attempt " +:+ str_of_int (je_attempt_count job)
         +:+ " became a final failure during stale running recovery: "
         +:+ RECOVERY_FINAL_FAILURE_MESSAGE);;
      mret (Some (mkJobPostCommitNotification (je_id job) (je_owner_id job) FAILED
        (je_attempt_count job) now None))
  else
    requeued ← SqlAlchemyJobRepository.requeue_running (je_id job) execution_token now
      RECOVERY_REQUEUE_MESSAGE;
    if negb requeued then mret None
    else
      SqlAlchemyOutboxRepository.create_dispatch_event_if_absent (je_id job) now;;
      SqlAlchemyJobLogRepository.create_system_log (je_id job) "warning"
        ("Job attempt " +:+ str_of_int (je_attempt_count job)
         +:+ " was recovered from stale running state and queued for retry");;
      mret (Some (mkJobPostCommitNotification (je_id job) (je_owner_id job) QUEUED
        (je_attempt_count job) now None))
  end
  end.

(** The loop of [recover_due_batch_once]: the notifications, in order. *)
Fixpoint recover_jobs (stale_jobs : list JobExecutionDTO) (now : datetime)
    : M (list JobPostCommitNotification) :=
  match stale_jobs with
  | [] => mret []
  | stale_job :: rest =>
      notification ← _recover_stale_job stale_job now;
      notifications ← recover_jobs rest now;
      mret (match notification with Some n => n :: notifications | None => notifications end)
  end.

(** [recover_due_batch_once]. *)
Definition recover_due_batch_once : M Z :=
  now ← now;
  notifications ← with_uow (
    stale_jobs ← SqlAlchemyJobRepository.claim_expired_running_jobs_for_update now
      (recovery_batch_size settings);
    notifications ← recover_jobs stale_jobs now;
    when (0 <? Z.of_nat (List.length notifications)) uow_commit;;
    mret notifications);
  for_each notifications _notify_post_commit;;
  mret (Z.of_nat (List.length notifications)).

(** [run_forever]: see [OutboxPublisher.run_forever]. *)
Fixpoint run_forever (stop_checks : list bool) : M unit :=
  match stop_checks with
  | [] | true :: _ => mret tt
  | false :: rest =>
      recovered_count ← recover_due_batch_once;
      when (recovered_count =? 0) (await_io (mret tt));;
      run_forever rest
  end.

End recovery.
End StaleRunningRecovery.
