(* ===== verification/WorkerSpec.v ===== *)
(** * WorkerSpec: the transactions of the worker, as relations between the
    committed databases before and after, and the proof that [JobWorker]
    implements them. *)
From S2P Require Import Prelude Exceptions Domain Store Effects Tables Config JobRepo Repos.
From S2P Require Import PostCommit Handlers Invariants Steps Worker.

Definition exhausted_message : string := "Job exceeded the maximum execution attempts".
Definition exhausted_log : string :=
  "Job failed before execution because it exceeded the maximum attempts".
Definition deferred_log : string :=
  "Job dispatch deferred because the owner reached the running-job limit".

(** How an execution ends. *)
Inductive Verdict :=
| Completed
| Cancelled
| Failed (error : string)
| Retry (error : string).

Definition final_values (v : Verdict) (t : datetime) : list job_assignment :=
  match v with
  | Completed => [
      status_is COMPLETED; worker_id_is None; execution_token_is None; lease_expires_at_is None;
      finished_at_is (Some t); last_error_is None; updated_at_is t]
  | Cancelled => [
      status_is CANCELLED; worker_id_is None; execution_token_is None; lease_expires_at_is None;
      finished_at_is (Some t); updated_at_is t]
  | Failed error => [
      status_is FAILED; worker_id_is None; execution_token_is None; lease_expires_at_is None;
      finished_at_is (Some t); last_error_is (Some (JobWorker._truncate_error error));
      updated_at_is t]
  | Retry error => [
      status_is QUEUED; worker_id_is None; execution_token_is None; lease_expires_at_is None;
      finished_at_is None; last_error_is (Some (JobWorker._truncate_error error));
      updated_at_is t]
  end.

(** The delay before the next attempt. *)
Definition retry_delay_after (attempt : Z) : Z :=
  if attempt =? 1 then 5 else if attempt =? 2 then 15 else 30.

Definition final_level (v : Verdict) : string :=
  match v with Completed | Cancelled => "info" | Failed _ => "error" | Retry _ => "warning" end.

Definition final_message (v : Verdict) (attempt : Z) : string :=
  match v with
  | Completed => "Job completed"
  | Cancelled => "Job cancelled during attempt " +:+ str_of_int attempt
  | Failed error => "Job attempt " +:+ str_of_int attempt +:+ " became a final failure: "
      +:+ JobWorker._truncate_error error
  | Retry error => "Job attempt " +:+ str_of_int attempt
      +:+ " failed and was queued for retry in " +:+ str_of_int (retry_delay_after attempt)
      +:+ " seconds: " +:+ JobWorker._truncate_error error
  end.

(** The verdict on the [attempt]-th execution of a job: how the handler ended
    and whether attempts remain. *)
Definition verdict_of (max_attempts attempt : Z) (o : outcome unit) : Verdict :=
  match o with
  | Ok _ => Completed
  | Exc (JobCancellationRequestedErr _) => Cancelled
  | Exc (MissingJobHandlerErr m) => Failed m
  | Exc e => if max_attempts <=? attempt then Failed (exn_str e) else Retry (exn_str e)
  end.

Section spec.
Context `{DC : DispatchCodec}.
Context (settings : Settings) (worker_id : string).

Definition start_values (t : datetime) (token : uuid) (j : Job) : list job_assignment := [
  status_is RUNNING; worker_id_is (Some worker_id); execution_token_is (Some token);
  lease_expires_at_is (Some (t + seconds (job_lease_seconds settings)));
  started_at_is (Some (default t (j_started_at j))); finished_at_is None; last_error_is None;
  attempt_count_is (j_attempt_count j + 1); updated_at_is t].

Definition exhausted_values (t : datetime) : list job_assignment := [
  status_is FAILED; worker_id_is None; execution_token_is None; lease_expires_at_is None;
  finished_at_is (Some t); last_error_is (Some exhausted_message); updated_at_is t].

Definition attempts_left (j : Job) : bool :=
  negb (JobWorker._max_total_attempts (_to_job_execution_dto j) <? j_attempt_count j + 1).

(** Claiming job [k] at time [t] with the fresh [token]; the identifiers used
    are below [n]. *)
Inductive claim_tx (k : uuid) (t : datetime) (token : uuid) (d : DB) (n : Z)
  : DB -> option ExecutionClaim -> Prop :=
| claim_ignored :
    token < n -> (forall j, db_jobs d !! k = Some j -> j_status j <> QUEUED) ->
    claim_tx k t token d n d None
| claim_exhausted j at_ :
    token < n -> db_jobs d !! k = Some j -> j_status j = QUEUED -> attempts_left j = false ->
    claim_tx k t token d n
      (logged_update k j (exhausted_values t) "error" exhausted_log at_ d) None
| claim_deferred j d' e at_ :
    db_jobs d !! k = Some j -> j_status j = QUEUED -> attempts_left j = true ->
    job_max_running_per_user settings <= running_count (j_owner_id j) d ->
    ensured k (t + seconds CAPACITY_DEFER_SECONDS) (token + 1) n d d' e ->
    claim_tx k t token d n
      (if e is Some _ then insert_log k None "info" deferred_log at_ d' else d') None
| claim_started j at_ :
    token < n -> db_jobs d !! k = Some j -> j_status j = QUEUED -> attempts_left j = true ->
    running_count (j_owner_id j) d < job_max_running_per_user settings ->
    claim_tx k t token d n
      (logged_update k j (start_values t token j) "info" "Job execution started" at_ d)
      (Some (mkExecutionClaim (_to_job_execution_dto j) token (j_attempt_count j + 1))).

Context `{N : WorkerPostCommitNotifier} `{NL : !NotifierLaws N}.

Lemma claim_execution_refines limit n w msg :
  db_ok limit n (w_db w) -> w_env w = [] ->
  wp (JobWorker._claim_execution settings worker_id msg)
    (ends w (fun n' => claim_tx (dm_job_id msg) (w_clock w (w_ticks w)) (w_next_uuid w) (w_db w) n'))
    w.
Proof.
  intros H He. unfold JobWorker._claim_execution. autounfold with repo. wp_run. no_env. wp_run.
  rewrite (scalar_job limit n) by done.
  assert (Hnone : (forall j, db_jobs (w_db w) !! dm_job_id msg = Some j -> j_status j <> QUEUED) ->
    ends w (fun n' => claim_tx (dm_job_id msg) (w_clock w (w_ticks w)) (w_next_uuid w) (w_db w) n')
      (Ok None) (bump_uuid (tick w))) by (intros; leave_tx; constructor; [lia | done]).
  destruct (db_jobs (w_db w) !! dm_job_id msg) as [j|] eqn:Hj;
    cbn [fmap option_fmap option_map]; wp_run; [|by apply Hnone].
  destruct (scalar_owner limit n _ _ j H Hj) as [u ->].
  wp_run. rewrite (scalar_job limit n), Hj by done. cbn [fmap option_fmap option_map]. wp_run.
  destruct (j_status j) eqn:Hs; wp_run; try (apply Hnone; congruence). clear Hnone.
  rewrite !(update_job_spec limit n), !(db_ok_id limit n _ _ j H Hj), !Hj by done.
  unfold has_status. rewrite Hs, !bool_decide_true by done. cbn [fst snd negb].
  destruct (_ <? _) eqn:Ha.
  { assert (HT : forall n', w_next_uuid (bump_uuid (tick w)) <= n' -> claim_tx (dm_job_id msg) (w_clock w (w_ticks w)) (w_next_uuid w) (w_db w)
      n' (logged_update (dm_job_id msg) j (exhausted_values (w_clock w (w_ticks w))) "error"
         exhausted_log (w_clock w (S (w_ticks w))) (w_db w)) None).
    { cbn. intros. apply claim_exhausted; try (done || lia). unfold attempts_left. by rewrite Ha. }
    finish_tx HT. }
  fold (running_count (j_owner_id j) (w_db w)).
  destruct (Z.leb_spec (job_max_running_per_user settings) (running_count (j_owner_id j) (w_db w))).
  - apply wp_ensure. intros w' d' r. world_simp. intros He' F.
    assert (HT : forall n', w_next_uuid w' <= n' ->
      claim_tx (dm_job_id msg) (w_clock w (w_ticks w)) (w_next_uuid w) (w_db w) n'
        (if r is Some _ then insert_log (dm_job_id msg) None "info" deferred_log
           (w_clock w' (w_ticks w')) d' else d') None).
    { intros n' Hn. eapply claim_deferred; try done; [|by eapply ensured_mono].
      unfold attempts_left. by rewrite Ha. }
    destruct r as [e|]; wp_run; [finish_tx HT|].
    replace (w_db w') with d'; [finish_tx HT|]. rewrite (frame_db _ _ F). by inversion He'.
  - assert (HT : forall n', w_next_uuid (bump_uuid (tick w)) <= n' ->
      claim_tx (dm_job_id msg) (w_clock w (w_ticks w)) (w_next_uuid w) (w_db w) n'
        (logged_update (dm_job_id msg) j (start_values (w_clock w (w_ticks w)) (w_next_uuid w) j)
           "info" "Job execution started" (w_clock w (S (w_ticks w))) (w_db w))
        (Some (mkExecutionClaim (_to_job_execution_dto j) (w_next_uuid w) (j_attempt_count j + 1)))).
    { cbn. intros. apply claim_started; try (done || lia). unfold attempts_left. by rewrite Ha. }
    finish_tx HT.
Qed.

(** Ending at time [t] the execution of job [k] that holds [token]: a stale
    token changes nothing; a retry leaves a pending dispatch event; fresh
    identifiers are drawn from [lo]. *)
Inductive settle_tx (k token : uuid) (attempt : Z) (v : Verdict) (t : datetime) (lo : Z) (d : DB)
    (n : Z) : DB -> unit -> Prop :=
| settle_fenced : holder k token d = None -> settle_tx k token attempt v t lo d n d tt
| settle_final j at_ :
    holder k token d = Some j -> (forall error, v <> Retry error) ->
    settle_tx k token attempt v t lo d n
      (logged_update k j (final_values v t) (final_level v) (final_message v attempt) at_ d) tt
| settle_retry j error d' e at_ :
    holder k token d = Some j -> v = Retry error ->
    ensured k (t + seconds (retry_delay_after attempt)) lo n
      (set_jobs (<[k := job_values (final_values v t) j]> (db_jobs d)) d) d' e ->
    settle_tx k token attempt v t lo d n
      (insert_log k None (final_level v) (final_message v attempt) at_ d') tt.

(** The claim of a row whose table constraints hold, on an attempt that may
    still run. *)
Definition claim_ok (c : ExecutionClaim) : Prop :=
  je_max_retries (ec_job c) = 3 /\ 1 <= ec_attempt_number c <= 4.

Lemma max_attempts_ok c : claim_ok c -> JobWorker._max_total_attempts (ec_job c) = 4.
Proof. intros [H _]. unfold JobWorker._max_total_attempts. by rewrite H. Qed.

Lemma backoff_total attempt :
  1 <= attempt <= 3 ->
  JobWorker._retry_backoff_seconds attempt = Ok (retry_delay_after attempt).
Proof.
  intros H. assert (attempt = 1 \/ attempt = 2 \/ attempt = 3) as [-> | [-> | -> ] ] by lia;
    reflexivity.
Qed.

Lemma verdict_retry max attempt o error :
  verdict_of max attempt o = Retry error -> attempt < max.
Proof.
  unfold verdict_of. destruct o as [ |e]; [done|].
  destruct e; try done; destruct (Z.leb_spec max attempt); done.
Qed.

(** Each finalization ends in a result of [settle_tx] with its verdict. *)
Definition settles (w : World) (c : ExecutionClaim) (v : Verdict) (m : M unit) : Prop :=
  wp m (ends w (settle_tx (je_id (ec_job c)) (ec_execution_token c) (ec_attempt_number c) v
    (w_clock w (w_ticks w)) (w_next_uuid w) (w_db w))) w.

Ltac settle_tac limit n :=
  autounfold with repo; wp_run; no_env; wp_run;
  rewrite !(holder_update limit n) by done;
  let Hh := fresh "Hh" in
  let j := fresh "j" in
  destruct (holder _ _ _) as [j|] eqn:Hh; cbn [fst snd negb]; wp_run;
  [|leave_tx; by constructor].

Section finalizations.
Context (limit n : Z) (w : World) (c : ExecutionClaim).
Hypotheses (H : db_ok limit n (w_db w)) (He : w_env w = []).

Lemma mark_completed_settles : settles w c Completed (JobWorker._mark_completed c).
Proof using H He NL.
  unfold settles, JobWorker._mark_completed, JobWorker.commit_final. settle_tac limit n.
  pose proof (fun n' at_ => settle_final (je_id (ec_job c)) _ (ec_attempt_number c) Completed
    (w_clock w (w_ticks w)) (w_next_uuid w) _ n' j at_ Hh ltac:(done)) as HT.
  finish_tx HT.
Qed.

Lemma mark_cancelled_settles : settles w c Cancelled (JobWorker._mark_cancelled c).
Proof using H He NL.
  unfold settles, JobWorker._mark_cancelled, JobWorker.commit_final. settle_tac limit n.
  pose proof (fun n' at_ => settle_final (je_id (ec_job c)) _ (ec_attempt_number c) Cancelled
    (w_clock w (w_ticks w)) (w_next_uuid w) _ n' j at_ Hh ltac:(done)) as HT.
  finish_tx HT.
Qed.

Lemma mark_failed_settles error : settles w c (Failed error) (JobWorker._mark_failed c error).
Proof using H He NL.
  unfold settles, JobWorker._mark_failed, JobWorker.commit_final. settle_tac limit n.
  pose proof (fun n' at_ => settle_final (je_id (ec_job c)) _ (ec_attempt_number c) (Failed error)
    (w_clock w (w_ticks w)) (w_next_uuid w) _ n' j at_ Hh ltac:(done)) as HT.
  finish_tx HT.
Qed.

Lemma schedule_retry_settles error :
  1 <= ec_attempt_number c <= 3 -> settles w c (Retry error) (JobWorker._schedule_retry c error).
Proof using H He NL.
  intros Ha. unfold settles, JobWorker._schedule_retry, JobWorker.commit_final.
  rewrite (backoff_total _ Ha). settle_tac limit n.
  apply wp_ensure_written. intros w' d' r. world_simp. intros He' F.
  pose proof (fun n' at_ Hn => settle_retry (je_id (ec_job c)) _ (ec_attempt_number c) (Retry error)
    (w_clock w (w_ticks w)) (w_next_uuid w) _ n' j error d' r at_ Hh eq_refl
    (ensured_mono _ _ _ _ n' _ _ _ Hn He')) as HT.
  wp_run. finish_tx HT.
Qed.

(** [settle], whatever the handler did. *)
Lemma settle_refines o :
  claim_ok c ->
  settles w c (verdict_of (JobWorker._max_total_attempts (ec_job c)) (ec_attempt_number c) o)
    (JobWorker.settle c o).
Proof using H He NL.
  intros Hc. pose proof (max_attempts_ok c Hc) as Hm. destruct Hc as [_ Ha].
  assert (Hfin : forall e, settles w c
    (if JobWorker._max_total_attempts (ec_job c) <=? ec_attempt_number c then Failed e else Retry e)
    (JobWorker._finalize_failure c e)).
  { intros e. unfold JobWorker._finalize_failure. rewrite Hm.
    destruct (Z.leb_spec 4 (ec_attempt_number c)).
    - apply mark_failed_settles.
    - apply schedule_retry_settles. lia. }
  destruct o as [u|e]; [apply mark_completed_settles|].
  destruct e; try exact (Hfin _).
  - apply mark_cancelled_settles.
  - apply mark_failed_settles.
Qed.
End finalizations.

(** ** What the transactions preserve *)

Section preserve.
Context (limit : Z).

Lemma claim_tx_lt k t token d n d' r : claim_tx k t token d n d' r -> token < n.
Proof using. destruct 1 as [| |? ? ? ? ? ? ? ? []|]; lia. Qed.

(** A queued job has attempts left. *)
Lemma attempts_left_queued k j : job_ok k j -> j_status j = QUEUED -> attempts_left j = true.
Proof using.
  intros Hk Hs. unfold attempts_left, JobWorker._max_total_attempts. cbn.
  rewrite (ok_max_retries _ _ Hk). pose proof (ok_queued _ _ Hk Hs).
  apply negb_true_iff, Z.ltb_ge. unfold MAX_TOTAL_JOB_ATTEMPTS. lia.
Qed.

Lemma claim_tx_ok k t token d n d' r :
  job_max_running_per_user settings <= limit ->
  claim_tx k t token d n d' r -> db_ok limit (token + 1) d -> db_ok limit n d'.
Proof using.
  intros Hl HT H. assert (Hn : token + 1 <= n) by (apply claim_tx_lt in HT; lia). pose proof (db_ok_mono limit (token + 1) n d Hn H) as Hd.
  destruct HT as [Hn' Hi|j at_ Hn' Hj Hs Ha|j d' e at_ Hj Hs Ha Hc He|j at_ Hn' Hj Hs Ha Hc]; [done|..].
  - row_ok_tac.
  - pose proof (ensured_db_ok limit _ _ _ _ _ _ _ He H) as Hd'. destruct e; [|done].
    apply db_ok_insert_log; [done|]. rewrite (ensured_jobs _ _ _ _ _ _ _ He). by eexists.
  - pose proof (ok_queued _ _ (ok_jobs _ _ _ H k j Hj) Hs). row_ok_tac. intros _ _. lia.
Qed.

Lemma claim_tx_evolves k t token d n n0 d' r :
  claim_tx k t token d n d' r -> db_ok limit n0 d -> evolves d d'.
Proof using.
  intros HT H. destruct HT as [Hn' Hi|j at_ Hn' Hj Hs Ha|j d' e at_ Hj Hs Ha Hc He|j at_ Hn' Hj Hs Ha Hc]; [done|..].
  - by rewrite (attempts_left_queued k) in Ha by (done || by apply (ok_jobs _ _ _ H)).
  - apply evolves_same_jobs. destruct e; cbn; by rewrite (ensured_jobs _ _ _ _ _ _ _ He).
  - row_evolves_tac. rewrite Hs. by right.
Qed.

(** The message that was consumed may go: the job it names is not forgotten. *)
Lemma claim_tx_covered k t token d n n0 d' r q q' :
  claim_tx k t token d n d' r -> db_ok limit n0 d -> n0 <= token + 1 -> covered d q ->
  (forall k' m, k' <> k -> m ∈ q -> targets k' m -> m ∈ q') -> covered d' q'.
Proof using.
  intros HT H Hn0 Hc Hq.
  destruct HT as [Hn' Hs|j at_ Hn' Hj Hs Ha|j d' e at_ Hj Hs Ha Hl He|j at_ Hn' Hj Hs Ha Hl].
  - apply (covered_row k d _ q); try done. intros j' Hj' [Hp|Hp]; [|by destruct (Hs j' Hj')].
    left. specialize (Hc k j' Hj'). by rewrite Hp in Hc.
  - by apply (covered_logged_update d k j _ _ _ _ q).
  - pose proof (ensured_covers _ _ _ _ _ _ _ He) as Hcov.
    assert (Hkeep : forall k', has_pending_event k' d -> has_pending_event k' d').
    { intros k'. eapply ensured_keeps; [done|]. by apply (ok_event_ids limit _ _ (db_ok_mono _ n0 _ _ Hn0 H)). }
    pose proof (ensured_jobs _ _ _ _ _ _ _ He) as Hjobs.
    apply (covered_row k d _ q); [done|..].
    + intros k' _. by destruct e; cbn; rewrite Hjobs.
    + intros k' _ Hk'. destruct e; [|by apply Hkeep]. by apply Hkeep.
    + done.
    + intros; left; by destruct e.
  - by apply (covered_logged_update d k j _ _ _ _ q).
Qed.

Lemma settle_tx_ok k token a v t lo d n d' u :
  settle_tx k token a v t lo d n d' u -> db_ok limit lo d -> lo <= n -> 
  (forall j, holder k token d = Some j -> (exists error, v = Retry error) -> j_attempt_count j <= 3) ->
  db_ok limit n d'.
Proof using.
  intros HT H Hn Ha. pose proof (db_ok_mono limit lo n d Hn H) as Hd.
  destruct HT as [Hh|j at_ Hh Hv|j error d' e at_ Hh Hv He]; [done|..];
    destruct (holder_running _ _ _ _ Hh) as (Hj & Hs & _).
  - destruct v; [| | |by destruct (Hv error)]; cbn [final_values]; row_ok_tac.
  - specialize (Ha j Hh (ex_intro _ error Hv)).
    apply db_ok_insert_log.
    + eapply (ensured_db_ok limit); [done|]. subst v.
      apply db_ok_update_job; [done | done | | intro; discriminate].
      pose proof (ok_jobs _ _ _ H k j Hj). cbn [final_values]. job_ok_tac.
    + rewrite (ensured_jobs _ _ _ _ _ _ _ He). cbn. by rewrite lookup_insert_eq; eexists.
Qed.

Lemma settle_tx_evolves k token a v t lo d n d' u :
  settle_tx k token a v t lo d n d' u -> evolves d d'.
Proof using.
  intros HT. destruct HT as [Hh|j at_ Hh Hv|j error d' e at_ Hh Hv He]; [done|..];
    destruct (holder_running _ _ _ _ Hh) as (Hj & Hs & _).
  - destruct v; [| | |by destruct (Hv error)]; cbn [final_values]; row_evolves_tac;
      rewrite Hs; by right.
  - subst v. etrans; [|apply evolves_same_jobs; cbn; by rewrite (ensured_jobs _ _ _ _ _ _ _ He)].
    apply (evolves_update_job d k j); [done|].
    apply evolves_one; autorewrite with col; try reflexivity. rewrite Hs. by right.
Qed.

Lemma settle_tx_covered k token a v t lo d n d' u q :
  settle_tx k token a v t lo d n d' u -> db_ok limit lo d -> covered d q -> covered d' q.
Proof using.
  intros HT H Hc. destruct HT as [Hh|j at_ Hh Hv|j error d' e at_ Hh Hv He]; [done|..];
    destruct (holder_running _ _ _ _ Hh) as (Hj & Hs & _).
  - destruct v; [| | |by destruct (Hv error)]; by apply (covered_logged_update d k j _ _ _ _ q).
  - subst v. pose proof (ensured_covers _ _ _ _ _ _ _ He) as Hcov.
    pose proof (ensured_jobs _ _ _ _ _ _ _ He) as Hjobs.
    apply (covered_row k d _ q); try done.
    + intros k' Hk. cbn. rewrite Hjobs. cbn. by rewrite lookup_insert_ne.
    + intros k' Hk Hp. change (has_pending_event k' d').
      eapply ensured_keeps; [done | apply (ok_event_ids _ _ _ H) | done].
    + intros; left. exact Hcov.
Qed.

Lemma claim_tx_tokens k t token d n d' r : claim_tx k t token d n d' r -> tokens_from token d d'.
Proof using.
  destruct 1 as [Hn' Hi|j at_ Hn' Hj Hs Ha|j d' e at_ Hj Hs Ha Hc He|j at_ Hn' Hj Hs Ha Hc].
  - by apply tokens_from_same.
  - by apply (tokens_from_update _ _ _ j).
  - apply tokens_from_same. destruct e; apply (ensured_jobs _ _ _ _ _ _ _ He).
  - apply (tokens_from_update _ _ _ j); [done|]. intros token' [= <-]. left. lia.
Qed.

Lemma settle_tx_tokens k token a v t lo d n d' u :
  settle_tx k token a v t lo d n d' u -> tokens_from lo d d'.
Proof using.
  intros HT. destruct HT as [Hh|j at_ Hh Hv|j error d' e at_ Hh Hv He];
    [by apply tokens_from_same|..]; destruct (holder_running _ _ _ _ Hh) as (Hj & Hs & _).
  - apply (tokens_from_update _ _ _ j); [done|]. by destruct v.
  - subst v. pose proof (ensured_jobs _ _ _ _ _ _ _ He) as Hd.
    apply (tokens_from_trans lo lo _
      (set_jobs (<[k := job_values (final_values (Retry error) t) j]> (db_jobs d)) d));
      [reflexivity | by apply (tokens_from_update lo d k j) | by apply tokens_from_same].
Qed.

(** A stale token writes nothing; a finalization gives the token up. *)
Lemma settle_fenced_db k token a v t lo d n o d' :
  holder k token d = None -> atomic d (settle_tx k token a v t lo d n) o d' -> d' = d.
Proof using.
  intros Hh HA. assert (HT : forall u, settle_tx k token a v t lo d n d' u -> d' = d).
  { intros u HT. inversion HT; subst; congruence. }
  destruct o as [u|e]; [by apply (HT u)|]. destruct HA as [->|[u HA] ]; [done|]. by apply (HT u).
Qed.

Lemma settle_tx_over k token a v t lo d n d' u :
  settle_tx k token a v t lo d n d' u -> holder k token d' = None.
Proof using.
  destruct 1 as [Hh|j at_ Hh Hv|j error d' e at_ Hh Hv He]; [done|..].
  - unfold holder. cbn. rewrite lookup_insert_eq. by destruct v.
  - subst v. unfold holder. cbn. rewrite (ensured_jobs _ _ _ _ _ _ _ He). cbn.
    by rewrite lookup_insert_eq.
Qed.

End preserve.
End spec.
