(* ===== verification/RecoverySpec.v ===== *)
(** * RecoverySpec: what a recovery batch does to the database, and the proof
    that [StaleRunningRecovery] implements it. *)
From S2P Require Import Prelude Exceptions Domain Store Effects Tables Config JobRepo Repos.
From S2P Require Import PostCommit Invariants Steps Recovery.

Section spec.
Context `{DC : DispatchCodec}.

Definition recovery_failed_values (t : datetime) : list job_assignment := [
  status_is FAILED; worker_id_is None; execution_token_is None; lease_expires_at_is None;
  finished_at_is (Some t); last_error_is (Some RECOVERY_FINAL_FAILURE_MESSAGE); updated_at_is t].

Definition recovery_requeued_values (t : datetime) : list job_assignment := [
  status_is QUEUED; worker_id_is None; execution_token_is None; lease_expires_at_is None;
  finished_at_is None; last_error_is (Some RECOVERY_REQUEUE_MESSAGE); updated_at_is t].

Definition recovery_failed_log (attempt : Z) : string :=
  "Job attempt " +:+ str_of_int attempt
  +:+ " became a final failure during stale running recovery: "
  +:+ RECOVERY_FINAL_FAILURE_MESSAGE.

Definition recovery_requeued_log (attempt : Z) : string :=
  "Job attempt " +:+ str_of_int attempt
  +:+ " was recovered from stale running state and queued for retry".

(** The row afterwards. *)
Definition recovered_row (t : datetime) (j : Job) : Job :=
  job_values (if j_attempt_count j <? 4 then recovery_requeued_values t else recovery_failed_values t) j.

Lemma recovered_row_status t j :
  j_status (recovered_row t j) = if j_attempt_count j <? 4 then QUEUED else FAILED.
Proof. unfold recovered_row. by destruct (_ <? _). Qed.

(** Recovering the stale row [j] at time [t]: failed once its attempts are
    used up, queued again with a dispatch event otherwise. *)
Inductive recover_tx (t : datetime) (j : Job) (lo : Z) (d : DB) (n : Z) : DB -> Prop :=
| recover_failed at_ :
    4 <= j_attempt_count j -> lo <= n ->
    recover_tx t j lo d n
      (logged_update (j_id j) j (recovery_failed_values t) "error"
         (recovery_failed_log (j_attempt_count j)) at_ d)
| recover_requeued d' e at_ :
    j_attempt_count j < 4 ->
    ensured (j_id j) t lo n
      (set_jobs (<[j_id j := job_values (recovery_requeued_values t) j]> (db_jobs d)) d) d' e ->
    recover_tx t j lo d n
      (insert_log (j_id j) None "warning" (recovery_requeued_log (j_attempt_count j)) at_ d').

(** A batch, row by row. *)
Inductive recover_batch (t : datetime) : list Job -> Z -> DB -> Z -> DB -> Prop :=
| batch_done lo n d : lo <= n -> recover_batch t [] lo d n d
| batch_row j js lo lo' n d d1 d2 :
    recover_tx t j lo d lo' d1 -> recover_batch t js lo' d1 n d2 ->
    recover_batch t (j :: js) lo d n d2.

(** The rows of a batch: running, distinct, as they are in the table. *)
Record stale_rows (js : list Job) (d : DB) : Prop := mkStale {
  stale_lookup : forall j, j ∈ js -> db_jobs d !! j_id j = Some j;
  stale_running : forall j, j ∈ js -> j_status j = RUNNING;
  stale_distinct : NoDup (j_id <$> js)
}.

Section preserve.
Context (limit : Z).

Lemma recover_tx_mono t j lo d n n' d' :
  n <= n' -> recover_tx t j lo d n d' -> recover_tx t j lo d n' d'.
Proof using.
  intros Hn HT. destruct HT; [constructor; (done || lia)|].
  eapply recover_requeued; [done | by eapply ensured_mono].
Qed.

Lemma recover_tx_le t j lo d n d' : recover_tx t j lo d n d' -> lo <= n.
Proof using. destruct 1 as [|? ? ? ? []]; lia. Qed.

Lemma recover_tx_ok t j lo d n d' :
  recover_tx t j lo d n d' -> db_ok limit lo d -> db_jobs d !! j_id j = Some j -> db_ok limit n d'.
Proof using.
  intros HT H Hj. pose proof (db_ok_mono limit lo n d (recover_tx_le _ _ _ _ _ _ HT) H) as Hd.
  pose proof (ok_jobs _ _ _ H _ _ Hj) as Hok.
  destruct HT as [at_ Ha Hl|d' e at_ Ha He].
  - apply db_ok_logged_update; [done | done | job_ok_tac | intro; discriminate].
  - apply db_ok_insert_log; [|rewrite (ensured_jobs _ _ _ _ _ _ _ He); cbn;
      by rewrite lookup_insert_eq; eexists].
    eapply (ensured_db_ok limit); [done|].
    apply db_ok_update_job; [done | done | job_ok_tac | intro; discriminate].
Qed.

Lemma recover_tx_evolves t j lo d n d' :
  recover_tx t j lo d n d' -> db_jobs d !! j_id j = Some j -> j_status j = RUNNING -> evolves d d'.
Proof using.
  intros HT Hj Hs. destruct HT as [at_ Ha Hl|d' e at_ Ha He].
  - row_evolves_tac. rewrite Hs. by right.
  - pose proof (ensured_jobs _ _ _ _ _ _ _ He) as Hd.
    etrans; [|exact (evolves_same_jobs _ _ Hd)].
    apply (evolves_update_job d (j_id j) j); [done|].
    apply evolves_one; autorewrite with col; try reflexivity. rewrite Hs. by right.
Qed.

Lemma recover_tx_covered t j lo d n d' q :
  recover_tx t j lo d n d' -> db_ok limit lo d -> db_jobs d !! j_id j = Some j ->
  covered d q -> covered d' q.
Proof using.
  intros HT H Hj Hc. destruct HT as [at_ Ha Hl|d' e at_ Ha He].
  - by apply (covered_logged_update d (j_id j) j _ _ _ _ q).
  - pose proof (ensured_covers _ _ _ _ _ _ _ He) as Hcov.
    pose proof (ensured_jobs _ _ _ _ _ _ _ He) as Hjobs.
    apply (covered_row (j_id j) d _ q); try done.
    + intros k' Hk. cbn. rewrite Hjobs. cbn. by rewrite lookup_insert_ne.
    + intros k' Hk Hp. change (has_pending_event k' d').
      eapply ensured_keeps; [done | apply (ok_event_ids _ _ _ H) | done].
    + intros; left. exact Hcov.
Qed.

Lemma recover_tx_keeps t j lo d n d' k :
  recover_tx t j lo d n d' -> db_ok limit lo d -> has_pending_event k d -> has_pending_event k d'.
Proof using.
  intros HT H Hp. destruct HT as [at_ Ha Hl|d' e at_ Ha He]; [done|].
  change (has_pending_event k d'). eapply ensured_keeps; [done | apply (ok_event_ids _ _ _ H) | done].
Qed.

Lemma recover_tx_event t j lo d n d' :
  recover_tx t j lo d n d' -> j_attempt_count j < 4 -> has_pending_event (j_id j) d'.
Proof using.
  intros HT Ha. destruct HT as [at_ Ha' Hl|d' e at_ _ He]; [lia|].
  exact (ensured_covers _ _ _ _ _ _ _ He).
Qed.

Lemma recover_tx_tokens t j lo d n d' :
  recover_tx t j lo d n d' -> db_jobs d !! j_id j = Some j -> tokens_from lo d d'.
Proof using.
  intros HT Hj. destruct HT as [at_ Ha Hl|d' e at_ Ha He].
  - by apply (tokens_from_update lo d (j_id j) j).
  - pose proof (ensured_jobs _ _ _ _ _ _ _ He) as Hd.
    apply (tokens_from_trans lo lo _
      (set_jobs (<[j_id j := job_values (recovery_requeued_values t) j]> (db_jobs d)) d));
      [reflexivity | by apply (tokens_from_update lo d (j_id j) j) | by apply tokens_from_same].
Qed.

Lemma recover_tx_jobs t j lo d n d' :
  recover_tx t j lo d n d' -> db_jobs d' = <[j_id j := recovered_row t j]> (db_jobs d).
Proof using.
  unfold recovered_row. intros HT. destruct HT as [at_ Ha Hl|d' e at_ Ha He].
  - by rewrite (proj2 (Z.ltb_ge _ _)) by lia.
  - rewrite (proj2 (Z.ltb_lt _ _)) by lia. exact (ensured_jobs _ _ _ _ _ _ _ He).
Qed.

Lemma stale_rows_tail t j js lo d n d' :
  recover_tx t j lo d n d' -> stale_rows (j :: js) d -> stale_rows js d'.
Proof using.
  intros Hd%recover_tx_jobs [H1 H2 H3]. rewrite fmap_cons in H3.
  apply NoDup_cons in H3 as [Hn Hd3].
  constructor; [|by intros; apply H2; right | done].
  intros i Hi. rewrite Hd, lookup_insert_ne; [by apply H1; right|].
  intros Heq. apply Hn. rewrite Heq. by apply list_elem_of_fmap_2.
Qed.

Lemma recover_batch_mono t js lo d n n' d' :
  n <= n' -> recover_batch t js lo d n d' -> recover_batch t js lo d n' d'.
Proof using.
  intros Hn HB. induction HB; [constructor; lia | econstructor; eauto].
Qed.

Lemma recover_batch_ok t js lo d n d' :
  recover_batch t js lo d n d' -> db_ok limit lo d -> stale_rows js d -> db_ok limit n d'.
Proof using.
  induction 1 as [lo n d Hle|j js lo lo' n d d1 d2 HT _ IH]; intros Hok Hs; [by eapply db_ok_mono|].
  apply IH; [|by eapply stale_rows_tail].
  eapply recover_tx_ok; [done | done|]. apply Hs. left.
Qed.

Lemma recover_batch_evolves t js lo d n d' :
  recover_batch t js lo d n d' -> stale_rows js d -> evolves d d'.
Proof using.
  induction 1 as [lo n d Hle|j js lo lo' n d d1 d2 HT _ IH]; intros Hs; [done|].
  etrans; [|by apply IH; eapply stale_rows_tail].
  eapply recover_tx_evolves; [done | apply Hs; left | apply Hs; left].
Qed.

Lemma recover_batch_covered t js lo d n d' q :
  recover_batch t js lo d n d' -> db_ok limit lo d -> stale_rows js d -> covered d q -> covered d' q.
Proof using.
  induction 1 as [lo n d Hle|j js lo lo' n d d1 d2 HT _ IH]; intros Hok Hs Hc; [done|].
  assert (Hj : db_jobs d !! j_id j = Some j) by (apply Hs; left).
  apply IH; [by eapply recover_tx_ok | by eapply stale_rows_tail | by eapply recover_tx_covered].
Qed.

Lemma recover_batch_tokens t js lo d n d' :
  recover_batch t js lo d n d' -> stale_rows js d -> tokens_from lo d d'.
Proof using.
  induction 1 as [lo n d Hle|j js lo lo' n d d1 d2 HT _ IH]; intros Hs; [by apply tokens_from_same|].
  eapply tokens_from_trans; [by eapply recover_tx_le | | by apply IH; eapply stale_rows_tail].
  eapply recover_tx_tokens; [done|]. apply Hs. left.
Qed.

(** Rows outside the batch are untouched; rows of the batch no longer run. *)
Lemma recover_batch_rows t js lo d n d' k :
  recover_batch t js lo d n d' -> k ∉ j_id <$> js -> db_jobs d' !! k = db_jobs d !! k.
Proof using.
  induction 1 as [lo n d Hle|j js lo lo' n d d1 d2 HT _ IH]; intros Hk; [done|].
  rewrite fmap_cons in Hk. apply not_elem_of_cons in Hk as [Hne Hk]. rewrite IH by done.
  apply recover_tx_jobs in HT as ->. by rewrite lookup_insert_ne.
Qed.

Lemma recover_batch_recovered t js lo d n d' j :
  recover_batch t js lo d n d' -> stale_rows js d -> j ∈ js ->
  db_jobs d' !! j_id j = Some (recovered_row t j).
Proof using.
  induction 1 as [lo n d Hle|j0 js lo lo' n d d1 d2 HT HB IH]; intros Hs Hj; [by apply not_elem_of_nil in Hj|].
  apply elem_of_cons in Hj as [->|Hj]; [|by apply IH; [eapply stale_rows_tail|]].
  pose proof (stale_distinct _ _ Hs) as Hd. rewrite fmap_cons in Hd.
  apply NoDup_cons in Hd as [Hn _]. rewrite (recover_batch_rows _ _ _ _ _ _ _ HB Hn).
  apply recover_tx_jobs in HT as ->. apply lookup_insert_eq.
Qed.

Lemma recover_batch_keeps t js lo d n d' k :
  recover_batch t js lo d n d' -> stale_rows js d -> db_ok limit lo d ->
  has_pending_event k d -> has_pending_event k d'.
Proof using.
  induction 1 as [lo n d Hle|j js lo lo' n d d1 d2 HT _ IH]; intros Hs H Hp; [done|].
  apply IH; [by eapply stale_rows_tail | | by eapply recover_tx_keeps].
  eapply recover_tx_ok; [done | done | apply Hs; left].
Qed.

(** The jobs queued again have a dispatch event. *)
Lemma recover_batch_events t js lo d n d' j :
  recover_batch t js lo d n d' -> stale_rows js d -> db_ok limit lo d -> j ∈ js ->
  j_attempt_count j < 4 -> has_pending_event (j_id j) d'.
Proof using.
  induction 1 as [lo n d Hle|j0 js lo lo' n d d1 d2 HT HB IH]; intros Hs H Hj Ha;
    [by apply not_elem_of_nil in Hj|].
  assert (Hs1 : stale_rows js d1) by (by eapply stale_rows_tail).
  assert (H1 : db_ok limit lo' d1) by (eapply recover_tx_ok; [done | done | apply Hs; left]).
  apply elem_of_cons in Hj as [->|Hj]; [|by apply IH].
  eapply recover_batch_keeps; [done | done | done | by eapply recover_tx_event].
Qed.

End preserve.

(** ** The batch [recover_due_batch_once] selects *)

Definition due (settings : Settings) (t : datetime) (locked : gset uuid) (d : DB) : list Job :=
  limit (recovery_batch_size settings) (order_by oldest_lease_first (select_where
    (fun j => lease_expired t j && bool_decide (j_id j ∉ locked)) (db_jobs d))).

Lemma elem_of_due settings t locked d j :
  j ∈ due settings t locked d -> lease_expired t j = true /\ exists k, db_jobs d !! k = Some j.
Proof.
  intros Hj%elem_of_limit. rewrite (order_by_perm _) in Hj.
  apply elem_of_select in Hj as [Hp Hk]. apply andb_true_iff in Hp as [Hp _]. done.
Qed.

Lemma due_stale limit n settings t locked d :
  db_ok limit n d -> stale_rows (due settings t locked d) d.
Proof.
  intros H. constructor.
  - intros j Hj. apply elem_of_due in Hj as (_ & k & Hk).
    by rewrite (db_ok_id limit n d k j H Hk).
  - intros j Hj. apply elem_of_due in Hj as (Hp & _). unfold lease_expired, has_status in Hp.
    apply andb_true_iff in Hp as [Hp _]. by apply bool_decide_eq_true in Hp.
  - apply limit_nodup, keyed_nodup. by eapply db_ok_keyed.
Qed.

(** ** [StaleRunningRecovery] *)

Context `{N : WorkerPostCommitNotifier} `{NL : !NotifierLaws N} (limit : Z).

Lemma wp_recover_stale_job t j Q w work c :
  db_ok limit (w_next_uuid w) (seen w work) -> db_jobs (seen w work) !! j_id j = Some j ->
  j_status j = RUNNING ->
  (forall w' d' notification, frame w w' ->
     recover_tx t j (w_next_uuid w) (seen w work) (w_next_uuid w') d' ->
     Q (Ok (Some notification)) (in_tx w' (Some d') c)) ->
  wp (StaleRunningRecovery._recover_stale_job (_to_job_execution_dto j) t) Q (in_tx w work c).
Proof using.
  intros H Hj Hs HQ. pose proof (ok_jobs _ _ _ H _ _ Hj) as Hok.
  pose proof (ok_lease _ _ Hok) as Hl. rewrite Hs in Hl. destruct Hl as (_ & [token Ht] & _).
  unfold StaleRunningRecovery._recover_stale_job. rewrite je_token_dto, Ht.
  autounfold with repo. wp_run. fold (seen w work).
  destruct (scalar_owner limit _ _ _ j H Hj) as [u ->]. wp_run. fold (seen w work).
  rewrite !(holder_update limit (w_next_uuid w)) by done.
  rewrite (holder_intro _ _ _ _ Hj Hs Ht). cbn [fst snd negb].
  unfold StaleRunningRecovery._max_total_attempts. cbn [je_max_retries _to_job_execution_dto].
  rewrite (ok_max_retries _ _ Hok).
  destruct (Z.ltb_spec ((3 + 1) `min` 4) (j_attempt_count j + 1)); wp_run.
  - apply HQ; [apply frame_tick|]. apply recover_failed; [lia | reflexivity].
  - apply wp_ensure_written. intros w' d' r. intros He F. wp_run.
    apply HQ; [etrans; [exact F | apply frame_tick]|].
    world_simp. eapply recover_requeued; [lia | exact He].
Qed.

Lemma wp_recover_jobs t js Q w work c :
  db_ok limit (w_next_uuid w) (seen w work) -> stale_rows js (seen w work) ->
  (forall w' work' notifications, frame w w' -> List.length notifications = List.length js ->
     recover_batch t js (w_next_uuid w) (seen w work) (w_next_uuid w') (seen w' work') ->
     (js = [] -> work' = work) -> (js <> [] -> work' <> None) ->
     Q (Ok notifications) (in_tx w' work' c)) ->
  wp (StaleRunningRecovery.recover_jobs (_to_job_execution_dto <$> js) t) Q (in_tx w work c).
Proof using NL.
  revert Q w work. induction js as [|j js IH]; intros Q w work H Hjs HQ.
  - apply HQ; [reflexivity | done | by constructor | done | done].
  - rewrite fmap_cons. cbn [StaleRunningRecovery.recover_jobs]. rewrite wp_bind.
    assert (Hj : db_jobs (seen w work) !! j_id j = Some j) by (apply Hjs; left).
    apply wp_recover_stale_job; [done | done | apply Hjs; left |].
    intros w1 d1 note F1 HT. rewrite wp_bind.
    apply IH; [by eapply recover_tx_ok | by eapply stale_rows_tail |].
    intros w2 work2 notes F2 Hlen HB He Hne. rewrite wp_ret.
    apply HQ; [by etrans | by cbn; rewrite Hlen | by econstructor | done |].
    intros _. destruct js; [by rewrite He | by apply Hne].
Qed.

Lemma wp_notify_all notes Q w :
  (forall w', frame w w' -> Q (Ok tt) w') -> wp (for_each notes _notify_post_commit) Q w.
Proof using NL.
  revert Q w. induction notes as [|note notes IH]; intros Q w HQ; [by apply HQ|].
  cbn [for_each]. rewrite wp_bind. apply wp_notify. intros w1 F1. apply IH. intros w2 F2.
  apply HQ. by etrans.
Qed.

(** One batch: the due rows are recovered in one transaction. *)
Definition recovers (settings : Settings) (w : World) : outcome Z -> World -> Prop :=
  let t := w_clock w (w_ticks w) in
  let js := due settings t (w_locked w) (w_db w) in
  ends w (fun n' d' count =>
    count = Z.of_nat (List.length js) /\ recover_batch t js (w_next_uuid w) (w_db w) n' d').

Lemma recover_due_batch_refines settings w :
  db_ok limit (w_next_uuid w) (w_db w) -> w_env w = [] ->
  wp (StaleRunningRecovery.recover_due_batch_once settings) (recovers settings w) w.
Proof using NL.
  intros H He. unfold StaleRunningRecovery.recover_due_batch_once. autounfold with repo.
  wp_run. no_env. wp_run. fold (due settings (w_clock w (w_ticks w)) (w_locked w) (w_db w)).
  set (js := due _ _ _ _).
  apply wp_recover_jobs; [done | by eapply due_stale |].
  intros w' work' notes F Hlen. world_simp. intros HB Hnil Hcons. rewrite Hlen.
  assert (HT : forall n', w_next_uuid w' <= n' -> Z.of_nat (List.length notes) =
      Z.of_nat (List.length js) /\
    recover_batch (w_clock w (w_ticks w)) js (w_next_uuid w) (w_db w) n' (seen w' work')).
  { intros n' Hn. split; [by rewrite Hlen | by eapply recover_batch_mono]. }
  destruct (decide (js = [])) as [Hjs|Hjs].
  - pose proof (Hnil Hjs) as ->. cbn [seen] in HT. rewrite Hjs.
    change (0 <? Z.of_nat (List.length (@nil Job))) with false. cbn [when]. wp_run.
    apply wp_notify_all. intros w2 F2. wp_run. unfold recovers. fold js.
    assert (Hn : w_next_uuid w' <= w_next_uuid w2) by apply F2.
    leave_tx. cbn [atomic]. rewrite Hlen.
    specialize (HT _ Hn). rewrite (frame_db _ _ F) in HT. rewrite Hjs in HT |- *. exact (conj eq_refl (proj2 HT)).
  - destruct work' as [d'|]; [|by destruct (Hcons Hjs)].
    cbn [seen] in HT.
    replace (0 <? Z.of_nat (List.length js)) with true by (destruct js; [done | reflexivity]).
    cbn [when]. wp_run. unfold recovers. fold js.
    destruct (default CommitOk _) eqn:Hplan; [apply wp_notify_all; intros w2 F2; wp_run|..];
      leave_tx; first [by left | apply HT | right; eexists; apply HT];
      first [lia | apply st_uuid, q_steady; quiet_tac].
Qed.

End spec.
