(* ===== verification/PublisherSpec.v ===== *)
(** * PublisherSpec: what handling one outbox event does to the database and
    to the queue, and the proof that [OutboxPublisher] implements it. *)
From S2P Require Import Prelude Exceptions Domain Store Effects Tables Config JobRepo Repos.
From S2P Require Import PostCommit Invariants Steps Rabbit Publisher.

Section spec.
Context `{DC : DispatchCodec}.

(** The event [i] marked as published. *)
Definition event_done (i : uuid) (e : OutboxEvent) (t : datetime) (d : DB) : DB :=
  set_outbox (<[i := event_values
    [e_published_at_is (Some t); e_last_error_is None; e_updated_at_is t] e]> (db_outbox d)) d.

(** The event [i] after a failed attempt to publish it. *)
Definition event_failed (i : uuid) (e : OutboxEvent) (error : string) (t updated_at : datetime)
    (d : DB) : DB :=
  set_outbox (<[i := event_values
    [e_publish_attempts_is (e_publish_attempts e + 1);
     e_last_error_is (Some (OutboxPublisher._truncate_error error));
     e_available_at_is
       (t + seconds (OutboxPublisher._compute_retry_delay_seconds (e_publish_attempts e + 1)));
     e_updated_at_is updated_at] e]> (db_outbox d)) d.

(** The job marked as queued, if it was pending. *)
Definition queued_row (j : Job) (t : datetime) (d : DB) : DB :=
  if bool_decide (j_status j = PENDING)
  then set_jobs (<[j_id j := job_values [status_is QUEUED; updated_at_is t] j]> (db_jobs d)) d
  else d.

Definition skipped_log (s : JobStatus) : string :=
  "Dispatch skipped because job is not dispatchable (status=" +:+ job_status_value s +:+ ")".

(** The event and the job it is about. *)
Record dispatches (i : uuid) (e : OutboxEvent) (j : Job) (m : DispatchOutboxMessage) (d : DB)
  : Prop := mkDispatches {
  di_event : db_outbox d !! i = Some e;
  di_unpublished : unpublished e = true;
  di_job : db_jobs d !! e_aggregate_id e = Some j;
  di_dispatchable : dispatchable (j_status j) = true;
  di_message : model_validate (e_payload e) = Some m;
  di_target : dm_job_id m = e_aggregate_id e
}.

(** Handling event [i]: the database, the queue and the result. *)
Inductive publish_tx (i : uuid) (locked : gset uuid) (d : DB) (q : list BrokerMessage)
  : DB -> list BrokerMessage -> outcome bool -> Prop :=
| publish_skipped :
    (forall e, db_outbox d !! i = Some e -> unpublished e = true -> i ∈ locked) ->
    publish_tx i locked d q d q (Ok false)
| publish_orphan e t :
    db_outbox d !! i = Some e -> unpublished e = true -> db_jobs d !! e_aggregate_id e = None ->
    publish_tx i locked d q (event_done i e t d) q (Ok true)
| publish_discarded e j t t' :
    db_outbox d !! i = Some e -> unpublished e = true -> db_jobs d !! e_aggregate_id e = Some j ->
    dispatchable (j_status j) = false ->
    publish_tx i locked d q
      (event_done i e t' (insert_log (e_aggregate_id e) None "info" (skipped_log (j_status j)) t d))
      q (Ok true)
| publish_sent e j m t t' :
    dispatches i e j m d ->
    publish_tx i locked d q (event_done i e t' (queued_row j t d)) (q ++ [dispatch_message e m])
      (Ok true)
| publish_failed e j m error t t' q' :
    dispatches i e j m d -> q' = q \/ q' = q ++ [dispatch_message e m] ->
    publish_tx i locked d q (event_failed i e error t t' d) q' (Ok true)
| publish_interrupted err q' :
    q' = q \/ (exists e j m, dispatches i e j m d /\ q' = q ++ [dispatch_message e m]) ->
    publish_tx i locked d q d q' (Exc err)
| publish_unacknowledged d' q' r err :
    publish_tx i locked d q d' q' (Ok r) -> publish_tx i locked d q d' q' (Exc err).

Definition publishes (i : uuid) (w : World) (o : outcome bool) (w' : World) : Prop :=
  steady w w' /\ publish_tx i (w_locked w) (w_db w) (w_broker w) (w_db w') (w_broker w') o.

Context (limit : Z).

Lemma queued_row_ok n j t d :
  db_ok limit n d -> db_jobs d !! j_id j = Some j -> db_ok limit n (queued_row j t d).
Proof.
  intros H Hj. unfold queued_row. case_bool_decide as Hs; [|done].
  pose proof (ok_jobs _ _ _ H _ _ Hj).
  apply db_ok_update_job; [done | done | job_ok_tac | intro; discriminate].
Qed.

Lemma queued_row_outbox j t d : db_outbox (queued_row j t d) = db_outbox d.
Proof. unfold queued_row. by destruct (bool_decide _). Qed.

Lemma wp_record_failure i e ty error n Q w work c :
  db_ok limit n (w_db w) -> db_outbox (w_db w) !! i = Some e -> unpublished e = true ->
  w_env w = [] ->
  (forall o w', steady w w' -> w_broker w' = w_broker w ->
     atomic (w_db w) (fun d' _ => exists t t', d' = event_failed i e error t t' (w_db w)) o (w_db w') ->
     Q o (in_tx w' None false)) ->
  wp (OutboxPublisher._record_failure_after_rollback i ty (e_publish_attempts e) error) Q
    (in_tx w work c).
Proof.
  intros H Hi Hu He HQ. unfold OutboxPublisher._record_failure_after_rollback.
  autounfold with repo. wp_run. rewrite (env_step_nil (tick w)) by done. wp_run.
  change (seen (in_tx (tick w) None false) None) with (w_db w).
  rewrite (update_event_spec limit n), Hi, Hu by done. cbn [fst snd].
  change (w_commit_plan (in_tx _ _ _)) with (w_commit_plan w).
  destruct (default CommitOk _); wp_run; apply HQ; try (steady_tac || done); cbn [atomic];
    world_simp; [|by left | right; exists tt]; by do 2 eexists.
Qed.

Lemma wp_queue_and_publish i e j m n Q w :
  db_ok limit n (w_db w) -> dispatches i e j m (w_db w) ->
  (forall w' work t, steady w w' -> w_env w' = w_env w -> w_db w' = w_db w ->
     w_locked w' = w_locked w ->
     w_broker w' = w_broker w ++ [dispatch_message e m] ->
     seen w' work = queued_row j t (w_db w) -> Q (Ok true) (in_tx w' work false)) ->
  (forall w' work err, steady w w' -> w_env w' = w_env w -> w_db w' = w_db w ->
     w_broker w' = w_broker w \/ w_broker w' = w_broker w ++ [dispatch_message e m] ->
     Q (Exc err) (in_tx w' work false)) ->
  wp (OutboxPublisher.queue_and_publish e (_to_stored_job_dto j)) Q (in_tx w None false).
Proof using.
  intros H [Hi Hu Hj Hd Hm Ht] Hok Hexc.
  unfold OutboxPublisher.queue_and_publish, publish_dispatch,
    OutboxPublisher._discard_non_dispatchable_event. rewrite Hm. autounfold with repo. wp_run.
  destruct (bool_decide (j_status j = PENDING)) eqn:Hp; wp_run.
  - rewrite (update_job_spec limit n), (db_ok_id limit n _ _ j H Hj), Hj by done.
    unfold has_status. rewrite Hp. cbn [fst snd negb]. wp_run.
    destruct (default PublishOk _); wp_run.
    + eapply (Hok _ _ (w_clock w (w_ticks w))); try (steady_tac || done).
      unfold queued_row. by rewrite Hp, (db_ok_id limit n _ _ j H Hj).
    + apply Hexc; try (steady_tac || done). by left.
    + apply Hexc; try (steady_tac || done). by right.
  - destruct (default PublishOk _); wp_run.
    + apply (Hok _ _ 0); try (steady_tac || done). unfold queued_row. by rewrite Hp.
    + apply Hexc; try (steady_tac || done). by left.
    + apply Hexc; try (steady_tac || done). by right.
Qed.

(** The exits of the transaction: commit and leave. *)
Ltac pub_commit HT :=
  destruct (default CommitOk _); (split; [steady_tac|]); world_simp;
  [HT | by apply publish_interrupted; left | eapply publish_unacknowledged; HT].

Lemma process_event_refines i n w :
  db_ok limit n (w_db w) -> w_env w = [] ->
  wp (OutboxPublisher._process_claimed_event_once i) (publishes i w) w.
Proof.
  intros H He. unfold OutboxPublisher._process_claimed_event_once,
    OutboxPublisher._discard_non_dispatchable_event. autounfold with repo.
  wp_run. no_env. wp_run.
  rewrite (scalar_event_where limit n) by done.
  destruct (db_outbox (w_db w) !! i) as [e|] eqn:Hi.
  2: { wp_run. split; [steady_tac|]. world_simp. constructor. by rewrite Hi. }
  assert (Hid : e_id e = i) by (by eapply db_ok_keyed_events). rewrite Hid.
  destruct (unpublished e && bool_decide (i ∉ w_locked w)) eqn:Hg.
  2: { wp_run. split; [steady_tac|]. world_simp. constructor. intros e'. rewrite Hi.
       intros [= <-] Hu. rewrite Hu in Hg. cbn [andb] in Hg. apply bool_decide_eq_false in Hg.
       by apply dec_stable. }
  apply andb_true_iff in Hg as [Hu Hl]. wp_run. rewrite (scalar_job limit n) by done.
  destruct (db_jobs (w_db w) !! e_aggregate_id e) as [j|] eqn:Hj; cbn [fmap option_fmap option_map];
    wp_run; rewrite ?Hid, ?(update_event_spec limit n), ?Hi by done; cbn [fst snd].
  2: { pub_commit ltac:(by apply (publish_orphan i (w_locked w) _ _ e)). }
  destruct (dispatchable (j_status j)) eqn:Hd; cbn [negb]; wp_run.
  2: { rewrite (update_event_spec limit n) by
         (apply db_ok_insert_log; [done | by rewrite Hj; eexists]).
       cbn [db_outbox insert_log]. rewrite Hi. cbn [fst snd].
       pub_commit ltac:(by apply (publish_discarded i (w_locked w) _ _ e j)). }
  destruct (ok_event_payload _ _ (ok_events _ _ _ H i e Hi)) as (m & Hm & Ht & _).
  assert (HD : dispatches i e j m (w_db w)) by done.
  apply (wp_queue_and_publish i e j m n); [done | done |..].
  - intros w1 work t St He1 Hd1 Hl1 Hq1 Hs1. wp_run.
    change (seen (tick w1) work) with (seen w1 work). rewrite Hs1.
    assert (Hi' : db_outbox (queued_row j t (w_db w)) !! i = Some e) by (by rewrite queued_row_outbox).
    rewrite (update_event_spec limit n), Hi' by
      (apply queued_row_ok; [done | by rewrite (db_ok_id limit n _ _ j H Hj)]).
    cbn [fst snd].
    destruct (default CommitOk _); (split; [steady_tac|]); world_simp; rewrite ?Hd1, Hq1.
    + by apply (publish_sent i _ _ _ e j m t).
    + apply publish_interrupted. right. by exists e, j, m.
    + eapply publish_unacknowledged. by apply (publish_sent i _ _ _ e j m t).
  - intros w1 work err St He1 Hd1 Hq1. wp_run.
    apply wp_record_failure with (n := n); rewrite ?Hd1; [done | done | done | by rewrite He1 |].
    intros o w2 St2 Hq2 Hat. rewrite <- Hq2 in Hq1.
    destruct o as [ []|err2]; wp_run; cbn [atomic] in Hat; (split; [steady_tac|]).
    + destruct Hat as (t & t' & ->). by eapply publish_failed.
    + destruct Hat as [-> | (_ & t & t' & ->)].
      * apply publish_interrupted. destruct Hq1; [by left | right; by exists e, j, m].
      * eapply publish_unacknowledged. by eapply publish_failed.
Qed.

(** When neither the COMMIT nor the publication fails, the event is sent. *)
Definition sends (i : uuid) (e : OutboxEvent) (j : Job) (m : DispatchOutboxMessage) (w : World)
    (o : outcome bool) (w' : World) : Prop :=
  steady w w' /\ o = Ok true /\ w_broker w' = w_broker w ++ [dispatch_message e m] /\
  exists t t', w_db w' = event_done i e t' (queued_row j t (w_db w)).

Lemma process_event_sends i e j m n w :
  db_ok limit n (w_db w) -> w_env w = [] -> dispatches i e j m (w_db w) -> i ∉ w_locked w ->
  w_commit_plan w = [] -> w_publish_plan w = [] ->
  wp (OutboxPublisher._process_claimed_event_once i) (sends i e j m w) w.
Proof.
  intros H He D Hl Hc Hp. pose proof D as [Hi Hu Hj Hd Hm Ht].
  unfold OutboxPublisher._process_claimed_event_once, OutboxPublisher.queue_and_publish,
    publish_dispatch. autounfold with repo.
  assert (Hid : e_id e = i) by (by eapply db_ok_keyed_events).
  pose proof (db_ok_id limit n _ _ j H Hj) as Hjid.
  wp_run. no_env. wp_run. rewrite (scalar_event_where limit n), Hi, Hid, Hu, bool_decide_true by done.
  cbn [andb]. wp_run. rewrite (scalar_job limit n), Hj by done.
  cbn [fmap option_fmap option_map]. wp_run. rewrite Hd, Hm, Hid. cbn [negb]. wp_run.
  assert (Hq : forall t, db_outbox (queued_row j t (w_db w)) !! i = Some e)
    by (intros; by rewrite queued_row_outbox).
  assert (Hok : forall t, db_ok limit n (queued_row j t (w_db w)))
    by (intros; apply queued_row_ok; [done | by rewrite Hjid]).
  destruct (bool_decide (j_status j = PENDING)) eqn:Hs; wp_run.
  - rewrite (update_job_spec limit n), Hjid, Hj by done. unfold has_status. rewrite Hs.
    cbn [fst snd negb]. wp_run. rewrite Hp. cbn [default head]. wp_run.
    specialize (Hq (w_clock w (w_ticks w))). specialize (Hok (w_clock w (w_ticks w))).
    unfold queued_row in Hq, Hok. rewrite Hs, Hjid in Hq, Hok.
    rewrite (update_event_spec limit n), Hq by done. cbn [fst snd]. rewrite Hc. wp_run.
    split; [steady_tac|]. split; [done|]. split; [done|]. exists (w_clock w (w_ticks w)).
    eexists. unfold queued_row. by rewrite Hs, Hjid.
  - rewrite Hp. wp_run. rewrite (update_event_spec limit n), Hi by done.
    cbn [fst snd]. rewrite Hc. wp_run.
    split; [steady_tac|]. split; [done|]. split; [done|]. exists 0.
    eexists. unfold queued_row. by rewrite Hs.
Qed.

(** ** What handling an event preserves *)

Lemma event_done_ok n i e t d :
  db_ok limit n d -> db_outbox d !! i = Some e -> db_ok limit n (event_done i e t d).
Proof.
  intros H Hi. apply db_ok_update_event; [done | done|].
  apply (ok_event_attempts _ _ (ok_events _ _ _ H i e Hi)).
Qed.

Lemma event_failed_ok n i e error t t' d :
  db_ok limit n d -> db_outbox d !! i = Some e -> db_ok limit n (event_failed i e error t t' d).
Proof.
  intros H Hi. apply db_ok_update_event; [done | done|]. cbn.
  pose proof (ok_event_attempts _ _ (ok_events _ _ _ H i e Hi)). lia.
Qed.

Lemma publish_tx_ok n i locked d q d' q' o :
  publish_tx i locked d q d' q' o -> db_ok limit n d -> db_ok limit n d'.
Proof.
  intros HT H. induction HT as [Hs|e t Hi Hu Hj|e j t t' Hi Hu Hj Hd|e j m t t' D
    |e j m error t t' q' D Hq|err q' Hq|d' q' r err HT IH]; try done.
  - by apply event_done_ok.
  - apply event_done_ok; [|done]. apply db_ok_insert_log; [done | by eexists].
  - destruct D. apply event_done_ok; [apply queued_row_ok; [done|] | by rewrite queued_row_outbox].
    by rewrite (db_ok_id limit n d _ j H di_job0).
  - destruct D. by apply event_failed_ok.
Qed.

Lemma queued_row_evolves j t d :
  db_jobs d !! j_id j = Some j -> evolves d (queued_row j t d).
Proof.
  intros Hj. unfold queued_row. case_bool_decide as Hs; [|done].
  apply (evolves_update_job d (j_id j) j); [done|].
  apply evolves_one; autorewrite with col; try reflexivity. rewrite Hs. by right.
Qed.

Lemma queued_row_tokens lo j t d :
  db_jobs d !! j_id j = Some j -> tokens_from lo d (queued_row j t d).
Proof.
  intros Hj. unfold queued_row. case_bool_decide as Hs; [|by apply tokens_from_same].
  apply (tokens_from_update lo d (j_id j) j); [done|]. intros token Ht. by right.
Qed.

Lemma publish_tx_evolves n i locked d q d' q' o :
  publish_tx i locked d q d' q' o -> db_ok limit n d -> evolves d d'.
Proof.
  intros HT H. induction HT as [Hs|e t Hi Hu Hj|e j t t' Hi Hu Hj Hd|e j m t t' D
    |e j m error t t' q' D Hq|err q' Hq|d' q' r err HT IH];
    try (by apply evolves_same_jobs); try done.
  destruct D. change (evolves d (queued_row j t d)).
  apply queued_row_evolves. by rewrite (db_ok_id limit n d _ j H di_job0).
Qed.

Lemma publish_tx_tokens n lo i locked d q d' q' o :
  publish_tx i locked d q d' q' o -> db_ok limit n d -> tokens_from lo d d'.
Proof.
  intros HT H. induction HT as [Hs|e t Hi Hu Hj|e j t t' Hi Hu Hj Hd|e j m t t' D
    |e j m error t t' q' D Hq|err q' Hq|d' q' r err HT IH];
    try (by apply tokens_from_same); try done.
  destruct D. change (tokens_from lo d (queued_row j t d)).
  apply queued_row_tokens. by rewrite (db_ok_id limit n d _ j H di_job0).
Qed.

Lemma pending_event_update i e e' k d :
  db_outbox d !! i = Some e -> (pending_dispatch k e = true -> pending_dispatch k e' = true) ->
  has_pending_event k d -> has_pending_event k (set_outbox (<[i := e']> (db_outbox d)) d).
Proof.
  intros Hi He. apply has_pending_event_mono. intros i0 e0 H0 Hp0. cbn.
  destruct (decide (i0 = i)) as [->|Hne].
  - exists i, e'. rewrite lookup_insert_eq. rewrite Hi in H0. injection H0 as <-. auto.
  - exists i0, e0. by rewrite lookup_insert_ne.
Qed.

(** Publishing an event concerns only the job it dispatches. *)
Lemma event_done_keeps i e t k d :
  db_outbox d !! i = Some e -> k <> e_aggregate_id e ->
  has_pending_event k d -> has_pending_event k (event_done i e t d).
Proof.
  intros Hi Hk. apply (pending_event_update i e); [done|].
  unfold pending_dispatch. rewrite <- (Z.eqb_neq _ _) in Hk. rewrite Z.eqb_sym, Hk. done.
Qed.

Lemma publish_tx_covered n i locked d q d' q' o :
  publish_tx i locked d q d' q' o -> db_ok limit n d -> covered d q -> covered d' q'.
Proof.
  intros HT H Hc. induction HT as [Hs|e t Hi Hu Hj|e j t t' Hi Hu Hj Hd|e j m t t' D
    |e j m error t t' q' D Hq|err q' Hq|d' q' r err HT IH]; try done.
  - apply (covered_row (e_aggregate_id e) d _ q); try done.
    + intros k' Hk. by apply event_done_keeps.
    + intros j'. cbn. by rewrite Hj.
  - apply (covered_row (e_aggregate_id e) d _ q); try done.
    + intros k' Hk. by apply (event_done_keeps i e t').
    + intros j'. cbn. rewrite Hj. intros [= <-] [Hs|Hs]; unfold dispatchable in Hd;
        by rewrite Hs in Hd.
  - destruct D. apply (covered_row (e_aggregate_id e) d _ q); try done.
    + intros k' Hk. unfold queued_row. case_bool_decide; [|done]. cbn.
      rewrite lookup_insert_ne; [done|]. by rewrite (db_ok_id limit n d _ j H di_job0).
    + intros k' Hk Hp. apply (pending_event_same_outbox k' (event_done i e t' d)).
      * cbn. by rewrite queued_row_outbox.
      * by apply event_done_keeps.
    + intros k' m' _ Hm _. apply elem_of_app. by left.
    + intros j' Hj' Hs'. right. split.
      * revert Hj' Hs'. unfold queued_row. case_bool_decide as Hs; cbn.
        -- rewrite (db_ok_id limit n d _ j H di_job0), lookup_insert_eq. by intros [= <-].
        -- rewrite di_job0. intros [= <-] [?|?]; [done | done].
      * exists (dispatch_message e m). split; [apply elem_of_app; right; by left|].
        exists m. split; [apply model_validate_dump_json | done].
  - destruct D. apply (covered_mono d _ q); [done|]. intros k j' Hj' _. right; right.
    exists j'. split; [done|]. split; [done|]. split.
    + by apply (pending_event_update i e).
    + intros m' Hm' _. destruct Hq as [-> | ->]; [done|]. apply elem_of_app. by left.
  - apply (covered_mono d _ q); [done|]. intros k j' Hj' _. right; right.
    exists j'. split; [done|]. split; [done|]. split; [done|].
    intros m' Hm' _. destruct Hq as [-> | (e & j & m & _ & ->)]; [done|].
    apply elem_of_app. by left.
Qed.

End spec.
