(* ===== verification/TextSpec.v ===== *)
(** * TextSpec: the canonical JSON text does not depend on the order of the
    members of objects, and a SHA-256 digest is 64 lower-case hexadecimal
    digits. *)
From S2P Require Import Prelude Exceptions Domain Store Tables Text.

(** ** Equality of JSON values as Python compares them: objects are unordered *)

Inductive json_same : json -> json -> Prop :=
| same_null : json_same JNull JNull
| same_bool b : json_same (JBool b) (JBool b)
| same_num n : json_same (JNum n) (JNum n)
| same_float r : json_same (JFloat r) (JFloat r)
| same_str s : json_same (JStr s) (JStr s)
| same_arr l1 l2 : same_list l1 l2 -> json_same (JArr l1) (JArr l2)
| same_obj f1 f f2 :
    NoDup (fst <$> f1) -> same_fields f1 f -> f ≡ₚ f2 -> json_same (JObj f1) (JObj f2)
with same_list : list json -> list json -> Prop :=
| same_list_nil : same_list [] []
| same_list_cons a b l1 l2 : json_same a b -> same_list l1 l2 -> same_list (a :: l1) (b :: l2)
with same_fields : list (string * json) -> list (string * json) -> Prop :=
| same_fields_nil : same_fields [] []
| same_fields_cons k a b l1 l2 :
    json_same a b -> same_fields l1 l2 -> same_fields ((k, a) :: l1) ((k, b) :: l2).

Scheme json_same_ind2 := Induction for json_same Sort Prop
with same_list_ind2 := Induction for same_list Sort Prop
with same_fields_ind2 := Induction for same_fields Sort Prop.
Combined Scheme json_same_mutind from json_same_ind2, same_list_ind2, same_fields_ind2.

Lemma key_le_total {A} (a b : string * A) : key_le a b = true \/ key_le b a = true.
Proof. apply String.leb_total. Qed.

Lemma key_le_trans {A} (a b c : string * A) :
  key_le a b = true -> key_le b c = true -> key_le a c = true.
Proof.
  unfold key_le. intros H1%Is_true_true H2%Is_true_true. apply Is_true_true.
  change (String.le (fst a) (fst c)). etrans; [exact H1 | exact H2].
Qed.

(** Sorting by key does not depend on the order of distinct keys. *)
Lemma order_by_keys {A} (l1 l2 : list (string * A)) :
  NoDup (fst <$> l1) -> l1 ≡ₚ l2 -> order_by key_le l1 = order_by key_le l2.
Proof.
  intros Hn Hp. apply (StronglySorted_unique_strong (sorted_by key_le)).
  - intros x y Hx Hy H1 H2. rewrite (order_by_perm key_le) in Hx, Hy.
    apply (nodup_key_unique fst l1); [done | done | by rewrite Hp|].
    by apply String.leb_antisym.
  - apply order_by_sorted; [apply key_le_total | apply key_le_trans].
  - apply order_by_sorted; [apply key_le_total | apply key_le_trans].
  - by rewrite !order_by_perm.
Qed.

(** The members as texts, before they are sorted. *)
Definition texts (f : list (string * json)) : list (string * string) :=
  List.map (fun kv => (fst kv, dumps (snd kv))) f.

Lemma texts_keys f : fst <$> texts f = fst <$> f.
Proof. unfold texts. induction f as [|kv f IH]; [done|]. cbn. f_equal. exact IH. Qed.

Lemma dumps_same_all :
  (forall a b, json_same a b -> dumps a = dumps b) /\
  (forall l1 l2, same_list l1 l2 -> List.map dumps l1 = List.map dumps l2) /\
  (forall f1 f2, same_fields f1 f2 -> texts f1 = texts f2).
Proof.
  apply json_same_mutind; try done.
  - intros l1 l2 _ IH. cbn. by rewrite IH.
  - intros f1 f f2 Hn _ IH Hp. cbn. fold (texts f1) (texts f2).
    rewrite (order_by_keys (texts f1) (texts f2)); [done | by rewrite texts_keys|].
    rewrite IH. unfold texts. by apply Permutation_map.
  - intros a b l1 l2 _ IH _ IHl. cbn. by rewrite IH, IHl.
  - intros k a b l1 l2 _ IH _ IHl. cbn. rewrite IH. f_equal. exact IHl.
Qed.

Lemma dumps_same a b : json_same a b -> dumps a = dumps b.
Proof. apply dumps_same_all. Qed.

(** ** The shape of a digest *)

Definition is_hex (c : ascii) : bool :=
  let n := code_point c in ((48 <=? n) && (n <=? 57)) || ((97 <=? n) && (n <=? 102)).

Lemma hex_digit_is_hex n : 0 <= n < 16 -> is_hex (hex_digit n) = true.
Proof.
  intros H. assert (Hall : forallb (fun k => is_hex (hex_digit (Z.of_nat k))) (seq 0 16) = true)
    by reflexivity.
  rewrite forallb_forall in Hall. specialize (Hall (Z.to_nat n)).
  rewrite Z2Nat.id in Hall by lia. apply Hall, in_seq. lia.
Qed.

Lemma all_chars_app p s1 s2 : all_chars p (s1 +:+ s2) = all_chars p s1 && all_chars p s2.
Proof.
  induction s1 as [|c s1 IH]; [reflexivity|].
  change (all_chars p (String c s1 +:+ s2)) with (p c && all_chars p (s1 +:+ s2)).
  cbn [all_chars]. by rewrite IH, andb_assoc.
Qed.

Lemma hex_of_shape digits n :
  slen (hex_of digits n) = Z.of_nat digits /\ all_chars is_hex (hex_of digits n) = true.
Proof.
  revert n; induction digits as [|k IH]; intros n; [done|]. cbn [hex_of].
  destruct (IH (n / 16)) as [Hl Hc]. rewrite slen_app, all_chars_app, Hl, Hc. split.
  - change (slen (String _ EmptyString)) with 1. lia.
  - cbn [all_chars andb]. by rewrite hex_digit_is_hex by (apply Z.mod_pos_bound; lia).
Qed.

Lemma concat_hex_shape l :
  slen (String.concat "" (List.map (hex_of 8) l)) = 8 * Z.of_nat (List.length l) /\
  all_chars is_hex (String.concat "" (List.map (hex_of 8) l)) = true.
Proof.
  induction l as [|x l [IHl IHc] ]; [done|]. destruct (hex_of_shape 8 x) as [Hl Hc].
  destruct l as [|y l].
  - cbn [List.map String.concat]. split; [|exact Hc]. rewrite Hl. cbn. lia.
  - change (String.concat "" (List.map (hex_of 8) (x :: y :: l)))
      with (hex_of 8 x +:+ ("" +:+ String.concat "" (List.map (hex_of 8) (y :: l)))).
    change (EmptyString +:+ ?s) with s. rewrite slen_app, all_chars_app, Hl, Hc, IHl, IHc.
    split; [cbn [List.length]; lia | done].
Qed.

Lemma step_length h kw : List.length h = 8%nat -> List.length (Sha256.step h kw) = 8%nat.
Proof. intros H. do 9 (destruct h as [|? h]; [try done|]). done. Qed.

Lemma rounds_length kws h : List.length h = 8%nat -> List.length (foldl Sha256.step h kws) = 8%nat.
Proof. revert h; induction kws as [|kw kws IH]; intros h H; [done|]. by apply IH, step_length. Qed.

Lemma compress_length h b : List.length h = 8%nat -> List.length (Sha256.compress h b) = 8%nat.
Proof.
  intros H. unfold Sha256.compress. rewrite length_map, length_combine, rounds_length, H by done.
  reflexivity.
Qed.

Lemma blocks_length fuel h ws : List.length h = 8%nat -> List.length (Sha256.blocks fuel h ws) = 8%nat.
Proof.
  revert h ws; induction fuel as [|k IH]; intros h ws H; [done|]. cbn [Sha256.blocks].
  destruct ws; [done|]. by apply IH, compress_length.
Qed.

Lemma digest_length msg : List.length (Sha256.digest msg) = 8%nat.
Proof. by apply blocks_length. Qed.

(** The digest does fill the [CHAR(64)] column. *)
Lemma sha256_shape s :
  slen (sha256_hexdigest s) = 64 /\ all_chars is_hex (sha256_hexdigest s) = true.
Proof.
  unfold sha256_hexdigest. destruct (concat_hex_shape (Sha256.digest (bytes_of s))) as [Hl Hc].
  by rewrite Hl, digest_length.
Qed.
