(* ===== verification/ServiceSpec.v ===== *)
(** * ServiceSpec: the transactions of [JobService], as relations between
    databases, and the proof that the service implements them - creation under
    interference from concurrent requests. *)
From S2P Require Import Prelude Exceptions Domain Store Effects Tables Text Config JobRepo Repos.
From S2P Require Import PostCommit Invariants Steps JobService TextSpec.

(** ** Interference *)

(** Transactions other processes commit at an await: each keeps the database
    well formed and lets the jobs only evolve. *)
Definition env_ok `{DC : DispatchCodec} (limit : Z) (w : World) : Prop :=
  Forall (fun f => forall n d, w_next_uuid w <= n -> db_ok limit n d ->
    db_ok limit n (f d) /\ evolves d (f d)) (w_env w).

Lemma env_step_ok `{DC : DispatchCodec} limit n w :
  env_ok limit w -> w_next_uuid w <= n -> db_ok limit n (w_db w) ->
  db_ok limit n (w_db (env_step w)) /\ evolves (w_db w) (w_db (env_step w)) /\
  env_ok limit (env_step w).
Proof.
  intros He Hn H. unfold env_ok in *. destruct w as [d ? ? ? ? ? ? [|f fs] ? ? ? ?]; cbn in *; [done|].
  apply Forall_cons in He as [Hf He]. destruct (Hf n d Hn H). done.
Qed.

Lemma env_ok_nil `{DC : DispatchCodec} limit w : w_env w = [] -> env_ok limit w.
Proof. unfold env_ok. by intros ->. Qed.

Lemma env_ok_mono `{DC : DispatchCodec} limit w w' :
  w_env w' = w_env w -> w_next_uuid w <= w_next_uuid w' -> env_ok limit w -> env_ok limit w'.
Proof.
  unfold env_ok. intros -> Hn He. eapply Forall_impl; [exact He|]. intros f Hf n d Hle. apply Hf. lia.
Qed.

(** A database reached from [w] by interference only. *)
Definition interfered (w : World) (d : DB) : Prop :=
  evolves (w_db w) d /\ (w_env w = [] -> d = w_db w).

Lemma interfered_env `{DC : DispatchCodec} limit n w :
  env_ok limit w -> w_next_uuid w <= n -> db_ok limit n (w_db w) -> interfered w (w_db (env_step w)).
Proof.
  intros He Hle H. split; [by apply (env_step_ok limit n)|]. intros Hn. by rewrite env_step_nil.
Qed.

Lemma interfered_trans w w1 d :
  interfered w (w_db w1) -> (w_env w = [] -> w_env w1 = []) -> interfered w1 d -> interfered w d.
Proof.
  intros [E1 N1] Hn [E2 N2]. split; [by etrans|]. intros H0. by rewrite N2, N1 by auto.
Qed.

Section create.
Context `{DC : DispatchCodec}.

(** The row of a new job. *)
Definition new_job (k owner : uuid) (ty : JobType) (payload : json) (key hash : string)
    (created_at updated_at : datetime) : Job := {|
  j_id := k; j_owner_id := owner; j_type := ty; j_payload := payload;
  j_status := PENDING; j_idempotency_key := key; j_request_hash := hash;
  j_attempt_count := 0; j_max_retries := 3; j_cancel_requested_at := None;
  j_worker_id := None; j_execution_token := None; j_lease_expires_at := None;
  j_started_at := None; j_finished_at := None; j_last_error := None;
  j_created_at := created_at; j_updated_at := updated_at |}.

(** The database with a new job, its log line and its dispatch event. *)
Definition created_db (j : Job) (i : uuid) (logged_at available_at created_at : datetime) (d : DB)
  : DB :=
  add_event i (j_id j) created_at available_at
    (insert_log (j_id j) None "info" "Job created" logged_at
      (set_jobs (<[j_id j := j]> (db_jobs d)) d)).

(** [d'] is [d] with the new job [j]; identifiers are drawn from [lo] to [n]. *)
Inductive inserted (owner : uuid) (key : string) (ty : JobType) (payload : json) (hash : string)
    (lo n : Z) (d d' : DB) : Job -> Prop :=
| inserted_intro k i t1 t2 t3 t4 t5 :
    lo <= k -> k < i -> i < n ->
    key_taken owner key d = false -> is_Some (db_users d !! owner) ->
    d' = created_db (new_job k owner ty payload key hash t1 t2) i t3 t4 t5 d ->
    inserted owner key ty payload hash lo n d d' (new_job k owner ty payload key hash t1 t2).

Lemma inserted_ok limit owner key ty payload hash lo n d d' j :
  inserted owner key ty payload hash lo n d d' j -> db_ok limit lo d -> db_ok limit n d'.
Proof.
  destruct 1 as [k i t1 t2 t3 t4 t5 Hk Hi Hn Ht Hu ->]. intros H.
  apply (db_ok_add_event _ i); [|lia|lia].
  apply (db_ok_mono _ (k + 1)); [lia|].
  apply db_ok_insert_log; [|cbn; by rewrite lookup_insert_eq; eexists].
  apply (db_ok_insert_job limit (k + 1) d (new_job k owner ty payload key hash t1 t2));
    try done; cbn.
  - by apply (db_ok_mono _ lo); [lia|].
  - constructor; cbn; done || lia.
  - lia.
  - destruct (db_jobs d !! k) eqn:E; [|done].
    assert (k < lo) by (apply (ok_job_ids _ _ _ H); by eexists). lia.
Qed.

Lemma inserted_mono owner key ty payload hash lo n n' d d' j :
  n <= n' -> inserted owner key ty payload hash lo n d d' j ->
  inserted owner key ty payload hash lo n' d d' j.
Proof. destruct 2. econstructor; eauto. lia. Qed.

Lemma inserted_evolves limit owner key ty payload hash lo n d d' j :
  inserted owner key ty payload hash lo n d d' j -> db_ok limit lo d -> evolves d d'.
Proof.
  destruct 1 as [k i t1 t2 t3 t4 t5 Hk Hi Hn Ht Hu ->]. intros H.
  apply (evolves_insert_job d (new_job k owner ty payload key hash t1 t2)). cbn.
  destruct (db_jobs d !! k) eqn:E; [|done].
  assert (k < lo) by (apply (ok_job_ids _ _ _ H); by eexists). lia.
Qed.

Lemma inserted_row owner key ty payload hash lo n d d' j :
  inserted owner key ty payload hash lo n d d' j -> db_jobs d' !! j_id j = Some j.
Proof. destruct 1; subst. cbn. apply lookup_insert_eq. Qed.

Lemma inserted_tokens lo' owner key ty payload hash lo n d d' j :
  inserted owner key ty payload hash lo n d d' j -> tokens_from lo' d d'.
Proof.
  destruct 1 as [k i t1 t2 t3 t4 t5 Hk Hi Hn Ht Hu ->]. intros k' j' token. cbn.
  rewrite lookup_insert. case_decide; [by intros [= <-] | intros Hj Htok; right; by exists j'].
Qed.

Lemma inserted_covered limit owner key ty payload hash lo n d d' j q :
  inserted owner key ty payload hash lo n d d' j -> db_ok limit lo d -> covered d q -> covered d' q.
Proof.
  destruct 1 as [k i t1 t2 t3 t4 t5 Hk Hi Hn Ht Hu ->]. intros H Hc.
  apply (covered_row k d _ q); try done.
  - intros k' Hne. cbn. by rewrite lookup_insert_ne.
  - intros k' Hne Hp. apply pending_event_insert; [|done]. cbn.
    destruct (db_outbox d !! i) eqn:E; [|done].
    assert (i < lo) by (apply (ok_event_ids _ _ _ H); by eexists). lia.
  - intros; left. apply pending_event_inserted, fresh_event_pending.
Qed.

(** The statement [WHERE owner_id = :owner AND idempotency_key = :key]. *)
Lemma scalar_key owner key d :
  match scalar (select_where
    (fun j => (j_owner_id j =? owner) && String.eqb (j_idempotency_key j) key) (db_jobs d)) with
  | Some j => (exists k, db_jobs d !! k = Some j) /\ j_owner_id j = owner /\ j_idempotency_key j = key
  | None => key_taken owner key d = false
  end.
Proof.
  unfold key_taken.
  destruct (select_where _ _) as [|j l] eqn:E; cbn; [done|].
  assert (Hj : j ∈ select_where
    (fun j => (j_owner_id j =? owner) && String.eqb (j_idempotency_key j) key) (db_jobs d))
    by (rewrite E; left).
  apply elem_of_select in Hj as [Hp Hk]. apply andb_true_iff in Hp as [Ho He].
  apply Z.eqb_eq in Ho. apply String.eqb_eq in He. done.
Qed.

Lemma validate_spec j hash :
  _validate_existing_job (_to_stored_job_dto j) hash =
  if String.eqb (j_request_hash j) hash then Ok (_to_job_public_dto (_to_stored_job_dto j))
  else Exc (app_err IdempotencyConflictError).
Proof. unfold _validate_existing_job. rewrite sj_hash_dto. by destruct (String.eqb _ _). Qed.

Lemma key_taken_true owner key d :
  key_taken owner key d = true <->
  exists k j, db_jobs d !! k = Some j /\ j_owner_id j = owner /\ j_idempotency_key j = key.
Proof.
  split.
  - intros Ht. pose proof (scalar_key owner key d) as Hs. unfold key_taken in Ht.
    destruct (select_where _ _) as [|j l]; [done|]. cbn in Hs. destruct Hs as ([k Hk] & Ho & Hkey).
    by exists k, j.
  - intros (k & j & Hk & Ho & Hkey). apply not_false_iff_true. intros Hf.
    unfold key_taken in Hf. apply negb_false_iff, bool_decide_eq_true in Hf.
    assert (Hj : j ∈ select_where
      (fun j => (j_owner_id j =? owner) && String.eqb (j_idempotency_key j) key) (db_jobs d)).
    { apply elem_of_select. rewrite Ho, Hkey, Z.eqb_refl, String.eqb_refl. eauto. }
    rewrite Hf in Hj. by apply not_elem_of_nil in Hj.
Qed.

Lemma key_taken_evolves owner key d d' :
  evolves d d' -> key_taken owner key d = true -> key_taken owner key d' = true.
Proof.
  intros E (k & j & Hk & Ho & Hkey)%key_taken_true. destruct (E k j Hk) as (j' & Hj' & EJ).
  apply key_taken_true. exists k, j'. split; [done|].
  by rewrite (ev_owner _ _ EJ), (ev_key _ _ EJ).
Qed.

(** ** [create_job] *)

Context `{PG : PgDriver} `{RL : CreateJobRateLimiter} `{RLL : !RateLimiterLaws RL}.
Context `{JC : JobListCache} `{JCL : !JobListCacheLaws JC}.
Context `{N : WorkerPostCommitNotifier} `{NL : !NotifierLaws N}.
Context (settings : Settings) (limit : Z).

(** The [try] block of [create_job]: the rows are inserted and committed, or
    the key was taken, or the transaction failed. *)
Definition rows_post (owner : uuid) (key : string) (ty : JobType) (payload : json) (hash : string)
    (w : World) (o : outcome StoredJobDTO) (w' : World) : Prop :=
  match o with
  | Ok sj => job_max_retries settings = 3 /\ exists j, sj = _to_stored_job_dto j /\
      inserted owner key ty payload hash (w_next_uuid w) (w_next_uuid w') (w_db w) (w_db w') j
  | Exc e =>
      if is_duplicate_key_error e then w_db w' = w_db w /\ key_taken owner key (w_db w) = true
      else w_db w' = w_db w \/
        job_max_retries settings = 3 /\ exists j, inserted owner key ty payload hash (w_next_uuid w) (w_next_uuid w') (w_db w)
          (w_db w') j
  end.

Lemma wp_insert_job_rows u key ty payload hash Q w :
  db_ok limit (w_next_uuid w) (w_db w) ->
  (forall o w' work c, quiet w w' -> w_env w' = w_env w ->
     rows_post (cu_id u) key ty payload hash w o w' -> Q o (in_tx w' work c)) ->
  wp (JobService.insert_job_rows settings u key ty payload hash) Q (in_tx w None false).
Proof using.
  intros H HQ. unfold JobService.insert_job_rows. autounfold with repo.
  unfold SqlAlchemyOutboxRepository.create_dispatch_event. wp_run.
  unfold insert_job at 1. cbn [j_attempt_count j_max_retries j_id j_owner_id j_idempotency_key].
  change (negb (0 <=? 0)) with false. cbv iota.
  assert (Hfresh : db_jobs (w_db w) !! w_next_uuid w = None).
  { destruct (_ !! _) eqn:E; [|done].
    assert (w_next_uuid w < w_next_uuid w) by (apply (ok_job_ids _ _ _ H); by eexists). lia. }
  destruct (Z.eqb_spec (job_max_retries settings) 3) as [Hmr|]; cbn [negb].
  2: { rewrite check_is_not_duplicate. wp_run. apply HQ; [quiet_tac | done | by left]. }
  rewrite Hfresh, bool_decide_eq_false_2 by (by intros []).
  destruct (key_taken (cu_id u) key (w_db w)) eqn:Hkey.
  { rewrite unique_job_key_is_duplicate. wp_run. apply HQ; [quiet_tac | done | done]. }
  case_bool_decide as Hu.
  { rewrite fk_is_not_duplicate. wp_run. apply HQ; [quiet_tac | done | by left]. }
  rewrite Hmr. wp_run.
  assert (HI : forall d', d' = created_db (new_job (w_next_uuid w) (cu_id u) ty payload key hash
      (w_clock w (w_ticks w)) (w_clock w (S (w_ticks w)))) (w_next_uuid w + 1)
      (w_clock w (S (S (w_ticks w)))) (w_clock w (S (S (S (w_ticks w)))))
      (w_clock w (S (S (S (S (w_ticks w)))))) (w_db w) ->
    inserted (cu_id u) key ty payload hash (w_next_uuid w) (w_next_uuid w + 1 + 1) (w_db w) d'
      (new_job (w_next_uuid w) (cu_id u) ty payload key hash
      (w_clock w (w_ticks w)) (w_clock w (S (w_ticks w))))).
  { intros d' ->. econstructor; try reflexivity; try lia; [done|].
    destruct (db_users (w_db w) !! cu_id u); [by eexists | done]. }
  destruct (default CommitOk _); wp_run; (apply HQ; [quiet_tac | done |]); cbn [rows_post];
    world_simp.
  - split; [done|]. eexists. split; [reflexivity|]. by apply HI.
  - by left.
  - right. split; [done|]. eexists. by apply HI.
Qed.

(** How creating a job may end, [d] being the database once interference is
    over. *)
Inductive create_tx (owner : uuid) (key : string) (ty : JobType) (payload : json) (hash : string)
    (lo : Z) (d : DB) (n : Z) : DB -> outcome JobCreateResultDTO -> Prop :=
| create_replayed k j :
    db_jobs d !! k = Some j -> j_owner_id j = owner -> j_idempotency_key j = key ->
    j_request_hash j = hash ->
    create_tx owner key ty payload hash lo d n d
      (Ok (mkJobCreateResultDTO (_to_job_public_dto (_to_stored_job_dto j)) false))
| create_conflict k j :
    db_jobs d !! k = Some j -> j_owner_id j = owner -> j_idempotency_key j = key ->
    j_request_hash j <> hash ->
    create_tx owner key ty payload hash lo d n d (Exc (app_err IdempotencyConflictError))
| create_created j d' :
    job_max_retries settings = 3 -> inserted owner key ty payload hash lo n d d' j ->
    create_tx owner key ty payload hash lo d n d'
      (Ok (mkJobCreateResultDTO (_to_job_public_dto (_to_stored_job_dto j)) true))
| create_refused e : create_tx owner key ty payload hash lo d n d (Exc e)
| create_unacknowledged j d' e :
    job_max_retries settings = 3 -> inserted owner key ty payload hash lo n d d' j ->
    create_tx owner key ty payload hash lo d n d' (Exc e).

Definition creates (u : CurrentUserDTO) (key : string) (ty : JobType) (payload : json) (w : World)
    (o : outcome JobCreateResultDTO) (w' : World) : Prop :=
  quiet w w' /\ exists d lo,
    interfered w d /\ w_next_uuid w <= lo /\ lo <= w_next_uuid w' /\ db_ok limit lo d /\
    create_tx (cu_id u) key ty payload (_build_request_hash ty payload) lo d (w_next_uuid w') (w_db w') o.

Lemma create_existing u key ty payload d lo n j hash :
  hash = _build_request_hash ty payload ->
  (exists k, db_jobs d !! k = Some j) -> j_owner_id j = cu_id u -> j_idempotency_key j = key ->
  create_tx (cu_id u) key ty payload hash lo d n d
    match (if String.eqb (j_request_hash j) hash
           then Ok (_to_job_public_dto (_to_stored_job_dto j))
           else Exc (app_err IdempotencyConflictError)) with
    | Ok p => Ok (mkJobCreateResultDTO p false)
    | Exc e => Exc e
    end.
Proof using.
  intros -> [k Hk] Ho Hkey. destruct (String.eqb_spec (j_request_hash j) (_build_request_hash ty payload)).
  - by eapply create_replayed.
  - by eapply create_conflict.
Qed.

(** After a lost race the key is there: the second lookup finds its job. *)
Lemma wp_load_existing u key ty payload Q w :
  db_ok limit (w_next_uuid w) (w_db w) -> env_ok limit w ->
  key_taken (cu_id u) key (w_db w) = true ->
  (forall p, create_tx (cu_id u) key ty payload (_build_request_hash ty payload) (w_next_uuid w)
      (w_db (env_step w)) (w_next_uuid w) (w_db (env_step w)) 
      match p with Ok p => Ok (mkJobCreateResultDTO p false) | Exc e => Exc e end ->
    Q p (env_step w)) ->
  wp (JobService._load_existing_job (cu_id u) key (_build_request_hash ty payload)) Q w.
Proof using.
  intros H He Hk HQ. unfold JobService._load_existing_job. autounfold with repo. wp_run.
  destruct (env_step_ok _ _ _ He (Z.le_refl _) H) as (H1 & E1 & _).
  pose proof (scalar_key (cu_id u) key (w_db (env_step w))) as Hs.
  destruct (scalar _) as [j|]; cbn [fmap option_fmap option_map]; wp_run.
  - destruct Hs as (Hj & Ho & Hkey). rewrite validate_spec. apply HQ. by apply create_existing.
  - by rewrite (key_taken_evolves _ _ _ _ E1 Hk) in Hs.
Qed.

Lemma wp_release_if_in_tx r Q w work c :
  (forall w', frame w w' -> Q (Ok tt) (in_tx w' work c)) ->
  wp (JobService.release_if_reserved r) Q (in_tx w work c).
Proof using RLL.
  intros HQ. destruct r; [by apply wp_release_in_tx|]. by apply HQ.
Qed.

Lemma create_job_refines u key ty payload w :
  db_ok limit (w_next_uuid w) (w_db w) -> env_ok limit w ->
  wp (JobService.create_job settings u key ty payload) (creates u key ty payload w) w.
Proof using All.
  intros H He. unfold JobService.create_job. autounfold with repo. wp_run.
  destruct (env_step_ok _ _ _ He (Z.le_refl _) H) as (H1 & E1 & He1).
  pose proof (scalar_key (cu_id u) key (w_db (env_step w))) as Hs.
  destruct (scalar _) as [j|]; cbn [fmap option_fmap option_map]; wp_run.
  { destruct Hs as (Hk & Ho & Hkey). rewrite validate_spec.
    pose proof (create_existing u key ty payload _ (w_next_uuid w) (w_next_uuid w) j _ eq_refl Hk Ho Hkey)
      as HT.
    destruct (String.eqb _ _); wp_run; (split; [quiet_tac|]);
      exists (w_db (env_step w)), (w_next_uuid w); (split; [eapply interfered_env; [done | reflexivity | done]|done]). }
  apply wp_reserve_in_tx. intros r w1 F1. 
  destruct (env_step_ok limit (w_next_uuid w) (env_step w)) as (H2 & E2 & He2); [done | reflexivity | done |].
  assert (Hlo : w_next_uuid w <= w_next_uuid w1) by apply (frame_uuid _ _ F1).
  pose proof (db_ok_mono _ _ _ _ Hlo H2) as H3. rewrite <- (frame_db _ _ F1) in H2, H3, E2.
  assert (Hint : interfered w (w_db w1)).
  { rewrite (frame_db _ _ F1).
    apply (interfered_trans w (env_step w)); [eapply interfered_env; [done | reflexivity | done] | | eapply interfered_env; [done | reflexivity | done]].
    intros Hn. by rewrite env_step_nil. }
  assert (Henv1 : env_ok limit w1) by (apply (env_ok_mono limit (env_step (env_step w))); [apply F1 | apply F1 | done]).
  destruct r as [reservation|e]; wp_run.
  2: { split; [quiet_tac|]. exists (w_db w1), (w_next_uuid w1). do 4 (split; [done|]). apply create_refused. }
  apply wp_insert_job_rows; [done|]. intros o w2 work c Q2 E3 HP. wp_run.
  assert (Hend : forall w' d r, quiet w w' -> interfered w d -> db_ok limit (w_next_uuid w1) d ->
    w_next_uuid w1 <= w_next_uuid w' ->
    create_tx (cu_id u) key ty payload (_build_request_hash ty payload) (w_next_uuid w1) d
      (w_next_uuid w') (w_db w') r -> creates u key ty payload w r w').
  { intros w' d r Hq Hi Hd Hle HT. split; [done|]. by exists d, (w_next_uuid w1). }
  pose proof (st_uuid _ _ (q_steady _ _ Q2)) as Hle2.
  destruct o as [sj|e]; wp_run.
  - destruct HP as (Hmr & j & -> & HI).
    apply wp_invalidate_in_tx. intros w3 F3. wp_run. apply wp_notify_in_tx. intros w4 F4. wp_run.
    assert (Hle4 : w_next_uuid w2 <= w_next_uuid w4) by (etrans; [apply F3 | apply F4]).
    apply (Hend _ (w_db w1)); [quiet_tac | done | done | lia |].
    apply create_created; [done|]. rewrite (frame_db _ _ F4), (frame_db _ _ F3). eapply inserted_mono; [exact Hle4 | exact HI].
  - cbn [rows_post] in HP. destruct (is_duplicate_key_error e); wp_run;
      apply wp_release_if_in_tx; intros w3 F3; wp_run;
      pose proof (frame_uuid _ _ F3) as Hle3; pose proof (frame_db _ _ F3) as Hd3.
    + destruct HP as [Hd2 Hkt].
      assert (H4 : db_ok limit (w_next_uuid w3) (w_db w3)).
      { rewrite Hd3, Hd2. by apply (db_ok_mono _ (w_next_uuid w1)); [lia|]. }
      assert (He4 : env_ok limit w3) by
        (apply (env_ok_mono limit w1); [by rewrite (frame_env _ _ F3), E3 | lia | done]).
      apply wp_load_existing; [done | done | by rewrite Hd3, Hd2 |].
      intros p HT.
      assert (Hcr : creates u key ty payload w
        match p with Ok p => Ok (mkJobCreateResultDTO p false) | Exc e => Exc e end (env_step w3)).
      { split; [quiet_tac|]. exists (w_db (env_step w3)), (w_next_uuid w3).
        split; [|split; [lia|split; [reflexivity|split; [exact (proj1 (env_step_ok limit _ w3 He4 (Z.le_refl _) H4))|exact HT] ] ] ].
        apply (interfered_trans w w3); [by rewrite Hd3, Hd2 | | eapply interfered_env; [done | reflexivity | done]].
        intros Hn. rewrite (frame_env _ _ F3), E3, (frame_env _ _ F1). by rewrite !(env_step_nil w Hn). }
      by destruct p; wp_run.
    + apply (Hend _ (w_db w1)); [quiet_tac | done | done | lia |]. rewrite Hd3.
      destruct HP as [-> | (Hmr & j & HI)]; [apply create_refused|].
      eapply create_unacknowledged; [done|]. eapply inserted_mono; [exact Hle3 | exact HI].
Qed.

Lemma create_tx_preserves owner key ty payload hash lo d n d' o :
  create_tx owner key ty payload hash lo d n d' o -> lo <= n -> db_ok limit lo d ->
  db_ok limit n d' /\ evolves d d'.
Proof using.
  intros HT Hle Hd. pose proof (db_ok_mono _ _ _ _ Hle Hd) as Hd'.
  destruct HT as [| |j d' Hm HI| |j d' e Hm HI]; try done;
    (split; [by eapply inserted_ok | by eapply inserted_evolves]).
Qed.

End create.

(** ** [cancel_job] *)
Section cancel.
Context `{DC : DispatchCodec} `{JC : JobListCache} `{JCL : !JobListCacheLaws JC}.
Context `{N : WorkerPostCommitNotifier} `{NL : !NotifierLaws N}.
Context (limit : Z).

(** The jobs a user may see: all of them for an administrator. *)
Definition visible (u : CurrentUserDTO) (j : Job) : bool :=
  bool_decide (cu_role u = ADMIN) || (j_owner_id j =? cu_id u).

Definition cancelled_values (t : datetime) : list job_assignment := [
  status_is CANCELLED; worker_id_is None; execution_token_is None; lease_expires_at_is None;
  finished_at_is (Some t); updated_at_is t].

Definition requested_values (t : datetime) : list job_assignment := [
  cancel_requested_at_is (Some t); updated_at_is t].

Definition public (j : Job) : JobPublicDTO := _to_job_public_dto (_to_stored_job_dto j).

(** How cancelling job [k] at time [t] may end. *)
Inductive cancel_tx (u : CurrentUserDTO) (k : uuid) (t : datetime) (d : DB)
  : DB -> outcome JobPublicDTO -> Prop :=
| cancel_hidden :
    (forall j, db_jobs d !! k = Some j -> visible u j = false) ->
    cancel_tx u k t d d (Exc (app_err_msg ResourceNotFoundError "Job not found"))
| cancel_finished j :
    db_jobs d !! k = Some j -> visible u j = true -> j_status j = COMPLETED \/ j_status j = FAILED ->
    cancel_tx u k t d d (Exc (app_err JobNotCancellableError))
| cancel_already j :
    db_jobs d !! k = Some j -> visible u j = true ->
    j_status j = CANCELLED \/ (j_status j = RUNNING /\ j_cancel_requested_at j <> None) ->
    cancel_tx u k t d d (Ok (public j))
| cancel_waiting j at_ :
    db_jobs d !! k = Some j -> visible u j = true -> j_status j = PENDING \/ j_status j = QUEUED ->
    cancel_tx u k t d
      (logged_update k j (cancelled_values t) "info" "Job cancelled before execution" at_ d)
      (Ok (public (job_values (cancelled_values t) j)))
| cancel_running j at_ :
    db_jobs d !! k = Some j -> visible u j = true -> j_status j = RUNNING ->
    j_cancel_requested_at j = None ->
    cancel_tx u k t d
      (logged_update k j (requested_values t) "info" "Job cancellation requested" at_ d)
      (Ok (public (job_values (requested_values t) j)))
| cancel_interrupted m : cancel_tx u k t d d (Exc (InfraErr m))
| cancel_unacknowledged d' r m :
    cancel_tx u k t d d' (Ok r) -> cancel_tx u k t d d' (Exc (InfraErr m)).

(** The guarded SELECT of the service. *)
Lemma wp_load_authorized u k lock Q n w work c :
  db_ok limit n (seen w work) ->
  Q match db_jobs (seen w work) !! k with
    | Some j => if visible u j then Ok (_to_stored_job_dto j)
                else Exc (app_err_msg ResourceNotFoundError "Job not found")
    | None => Exc (app_err_msg ResourceNotFoundError "Job not found")
    end (in_tx w work c) ->
  wp (JobService._load_authorized_job_for_update u k lock) Q (in_tx w work c).
Proof using.
  intros H HQ. unfold JobService._load_authorized_job_for_update, visible in *.
  autounfold with repo. wp_run. fold (seen w work).
  destruct (bool_decide (cu_role u = ADMIN)); [|]; destruct lock; wp_run; fold (seen w work);
    rewrite ?(scalar_job limit n), ?(scalar_job_where limit n) by done;
    destruct (db_jobs (seen w work) !! k) as [j|] eqn:Hj; cbn [fmap option_fmap option_map orb] in *;
    wp_run; try done; destruct (j_owner_id j =? cu_id u); cbn [fmap option_fmap option_map] in *; by wp_run.
Qed.

Definition cancels (u : CurrentUserDTO) (k : uuid) (w : World) (o : outcome JobPublicDTO) (w' : World)
  : Prop :=
  quiet w w' /\ cancel_tx u k (w_clock w (w_ticks w)) (w_db w) (w_db w') o.

Lemma wp_commit_cancellation j j' message Q w d :
  w_env w = [] -> db_jobs d !! j_id j = Some j' ->
  (forall w' at_ c, quiet w w' -> w_db w' = insert_log (j_id j) None "info" message at_ d ->
     Q (Ok (public j')) (in_tx w' None c)) ->
  (forall w' m at_ c, quiet w w' ->
     w_db w' = w_db w \/ w_db w' = insert_log (j_id j) None "info" message at_ d ->
     Q (Exc (InfraErr m)) (in_tx w' None c)) ->
  wp (JobService.commit_cancellation (_to_stored_job_dto j) message) Q (in_tx w (Some d) false).
Proof using JCL NL.
  intros He Hj Hok Hexc. unfold JobService.commit_cancellation, JobService._load_existing_job_by_id.
  autounfold with repo. wp_run. destruct (default CommitOk _); wp_run.
  - apply wp_invalidate_in_tx. intros w1 F1. wp_run.
    assert (He1 : w_env w1 = []) by (rewrite (frame_env _ _ F1); exact He).
    rewrite (env_step_nil w1 He1). 
    change (seen (in_tx w1 None true) None) with (w_db w1). rewrite (frame_db _ _ F1).
    cbn [w_db set_db db_jobs insert_log]. rewrite Hj. cbn [fmap option_fmap option_map]. wp_run.
    apply wp_notify_in_tx. intros w2 F2. wp_run. 
    eapply Hok; [quiet_tac|]. frame_simp. reflexivity.
  - apply (Hexc _ _ 0); [quiet_tac|]. by left.
  - eapply Hexc; [quiet_tac|]. right. world_simp. reflexivity.
Qed.

Lemma cancel_job_refines u k n w :
  db_ok limit n (w_db w) -> w_env w = [] -> wp (JobService.cancel_job u k) (cancels u k w) w.
Proof using JCL NL.
  intros H He. unfold JobService.cancel_job. wp_run. no_env.
  apply (wp_load_authorized u k true _ n); [done|]. cbn [seen]. world_simp.
  destruct (db_jobs (w_db w) !! k) as [j|] eqn:Hj.
  2: { wp_run. leave. constructor. intros; congruence. }
  destruct (visible u j) eqn:Hv.
  2: { wp_run. leave. constructor. intros; congruence. }
  autounfold with repo. wp_run.
  assert (Hid : j_id j = k) by (by eapply db_ok_id).
  assert (Hrun : forall v message r,
    (forall at_, cancel_tx u k (w_clock w (w_ticks w)) (w_db w) (logged_update k j v "info" message at_ (w_db w))
       (Ok (public (job_values v j)))) ->
    r = Some (set_jobs (<[k := job_values v j]> (db_jobs (w_db w))) (w_db w)) ->
    wp (JobService.commit_cancellation (_to_stored_job_dto j) message)
      (fun o w' => cancels u k w o (uow_aexit match o with Ok _ => false | Exc _ => true end w'))
      (in_tx (tick w) r false)).
  { intros v message r HT ->. apply (wp_commit_cancellation j (job_values v j)); [done | |..].
    - cbn. rewrite Hid. apply lookup_insert_eq.
    - intros w' at_ c Q1 Hd. wp_run. split; [quiet_tac|]. rewrite Hd, Hid. apply HT.
    - intros w' m at_ c Q1 Hd. wp_run. split; [quiet_tac|].
      destruct Hd as [-> | ->]; [constructor|]. rewrite Hid. eapply cancel_unacknowledged, HT. }
  destruct (j_status j) eqn:Hs; wp_run;
    rewrite ?(update_job_spec limit n), ?Hid, ?Hj by done; unfold has_status; rewrite ?Hs;
    repeat first [rewrite bool_decide_eq_true_2 by done | rewrite (bool_decide_eq_false_2 (_ = PENDING)) by done];
    cbn [orb andb fst snd].
  1,2: (eapply Hrun; [|reflexivity]; intros at_; apply cancel_waiting; auto).
  - destruct (bool_decide (j_cancel_requested_at j = None)) eqn:Hc; cbn [fst snd].
    + apply bool_decide_eq_true in Hc. eapply Hrun; [|reflexivity]. intros at_. by apply cancel_running.
    + apply bool_decide_eq_false in Hc. unfold cancels. leave. apply (cancel_already _ _ _ _ j); auto.
  - unfold cancels; leave. apply (cancel_finished _ _ _ _ j); auto.
  - unfold cancels; leave. apply (cancel_finished _ _ _ _ j); auto.
  - unfold cancels; leave. apply (cancel_already _ _ _ _ j); auto.
Qed.

(** ** What cancelling preserves *)

Lemma cancel_tx_ok u k t n d d' o : cancel_tx u k t d d' o -> db_ok limit n d -> db_ok limit n d'.
Proof using.
  intros HT H. induction HT as [Hh|j Hj Hv Hs|j Hj Hv Hs|j at_ Hj Hv Hs|j at_ Hj Hv Hs Hc|m|d' r m HT IH];
    try done.
  - row_ok_tac.
  - pose proof (ok_jobs _ _ _ H k j Hj) as Hk. apply db_ok_logged_update; [done | done | |done].
    destruct Hk; constructor; done.
Qed.

Lemma cancel_tx_evolves u k t d d' o : cancel_tx u k t d d' o -> evolves d d'.
Proof using.
  intros HT. induction HT as [Hh|j Hj Hv Hs|j Hj Hv Hs|j at_ Hj Hv Hs|j at_ Hj Hv Hs Hc|m|d' r m HT IH];
    try done.
  - row_evolves_tac. right. by destruct Hs as [-> | ->].
  - row_evolves_tac. by left.
Qed.

Lemma cancel_tx_tokens lo u k t d d' o : cancel_tx u k t d d' o -> tokens_from lo d d'.
Proof using.
  intros HT. induction HT as [Hh|j Hj Hv Hs|j Hj Hv Hs|j at_ Hj Hv Hs|j at_ Hj Hv Hs Hc|m|d' r m HT IH];
    try (by apply tokens_from_same); try done.
  - by apply (tokens_from_update lo d k j).
  - apply (tokens_from_update lo d k j); [done|]. intros token Ht. by right.
Qed.

Lemma cancel_tx_covered u k t d d' o q :
  cancel_tx u k t d d' o -> covered d q -> covered d' q.
Proof using.
  intros HT Hc. induction HT as [Hh|j Hj Hv Hs|j Hj Hv Hs|j at_ Hj Hv Hs|j at_ Hj Hv Hs Hr|m|d' r m HT IH];
    try done.
  - by apply (covered_logged_update d k j _ _ _ _ q).
  - apply (covered_logged_update d k j _ _ _ _ q); try done; by cbn; rewrite Hs.
Qed.

End cancel.

(** ** Requests with the same key *)
Section requests.
Context `{DC : DispatchCodec} `{PG : PgDriver}.
Context `{RL : CreateJobRateLimiter} `{RLL : !RateLimiterLaws RL}.
Context `{JC : JobListCache} `{JCL : !JobListCacheLaws JC}.
Context `{N : WorkerPostCommitNotifier} `{NL : !NotifierLaws N}.
Context (settings : Settings) (limit : Z).

(** What a caller of [create_job] learns from a result. *)
Definition create_result_ok (u : CurrentUserDTO) (key : string) (ty : JobType) (payload : json)
    (before after : DB) (r : JobCreateResultDTO) : Prop :=
  exists j, db_jobs after !! jp_id (jc_job r) = Some j /\
    j_owner_id j = cu_id u /\ j_idempotency_key j = key /\
    j_request_hash j = _build_request_hash ty payload /\
    jc_job r = public j /\
    (jc_created r = true ->
       key_taken (cu_id u) key before = false /\ j_status j = PENDING /\
       j_type j = ty /\ j_payload j = payload /\ has_pending_event (j_id j) after).

Lemma create_job_outcome u key ty payload w o w' :
  db_ok limit (w_next_uuid w) (w_db w) -> env_ok limit w ->
  JobService.create_job settings u key ty payload w = (o, w') ->
  db_ok limit (w_next_uuid w') (w_db w') /\ evolves (w_db w) (w_db w') /\
  match o with
  | Ok r => create_result_ok u key ty payload (w_db w) (w_db w') r
  | Exc _ => exists d, interfered w d /\
      (w_db w' = d \/ exists lo j,
         inserted (cu_id u) key ty payload (_build_request_hash ty payload) lo (w_next_uuid w') d
           (w_db w') j)
  end.
Proof using All.
  intros H He Hrun.
  destruct (wp_run_elim _ _ _ _ _ (create_job_refines settings limit u key ty payload w H He) Hrun)
    as (_ & d & lo & Hi & Hlo & Hle & Hd & HT).
  destruct (create_tx_preserves _ _ _ _ _ _ _ _ _ _ _ _ HT Hle Hd) as [Hok HE].
  split; [done|]. split; [etrans; [apply Hi | done]|].
  remember (w_db w') as d1 eqn:Hd1. clear Hd1.
  destruct HT as [k j Hk Ho Hkey Hh|k j Hk Ho Hkey Hh|j d' Hm HI|e|j d' e Hm HI].
  - exists j. cbn. rewrite (db_ok_id _ _ _ _ _ Hd Hk). by repeat split.
  - exists d. split; [done | by left].
  - exists j. pose proof (inserted_row _ _ _ _ _ _ _ _ _ _ HI) as Hrow.
    destruct HI as [k i t1 t2 t3 t4 t5 Hk Hi' Hn Ht Hu ->]. split; [done|].
    do 4 (split; [done|]). intros _. split; [|by repeat split; apply pending_event_inserted, fresh_event_pending].
    apply not_true_iff_false. intros Hf. by rewrite (key_taken_evolves _ _ _ _ (proj1 Hi) Hf) in Ht.
  - exists d. split; [done | by left].
  - exists d. split; [done|]. right. by exists lo, j.
Qed.

(** A taken key: the stored job, or a conflict, and no effect. *)
Lemma create_job_taken u key ty payload w k j :
  db_ok limit (w_next_uuid w) (w_db w) -> w_env w = [] ->
  db_jobs (w_db w) !! k = Some j -> j_owner_id j = cu_id u -> j_idempotency_key j = key ->
  JobService.create_job settings u key ty payload w =
  (if String.eqb (j_request_hash j) (_build_request_hash ty payload)
   then Ok (mkJobCreateResultDTO (public j) false)
   else Exc (app_err IdempotencyConflictError), w).
Proof using.
  intros H He Hj Ho Hk.
  assert (HW : wp (JobService.create_job settings u key ty payload)
    (fun o w' => o = (if String.eqb (j_request_hash j) (_build_request_hash ty payload)
       then Ok (mkJobCreateResultDTO (public j) false)
       else Exc (app_err IdempotencyConflictError)) /\ w' = w) w).
  { unfold JobService.create_job. autounfold with repo. wp_run. no_env. wp_run.
    pose proof (scalar_key (cu_id u) key (w_db w)) as Hs.
    destruct (scalar _) as [j'|]; cbn [fmap option_fmap option_map]; wp_run.
    - destruct Hs as ([k' Hk'] & Ho' & Hkey').
      assert (k' = k) as -> by (eapply (ok_unique _ _ _ H); eauto; congruence).
      rewrite Hj in Hk'. injection Hk' as <-. rewrite validate_spec.
      by destruct (String.eqb _ _); wp_run.
    - exfalso. assert (Ht : key_taken (cu_id u) key (w_db w) = true) by
        (apply key_taken_true; eauto). congruence. }
  by apply wp_exactly.
Qed.

Lemma request_hash_same ty p1 p2 :
  json_same p1 p2 -> _build_request_hash ty p1 = _build_request_hash ty p2.
Proof using.
  intros Hp. unfold _build_request_hash. f_equal. apply dumps_same.
  eapply same_obj; [|repeat constructor; exact Hp | reflexivity].
  apply NoDup_cons; split; [|apply NoDup_singleton]. by rewrite list_elem_of_singleton.
Qed.

End requests.
