(* ===== verification/JsonText.v ===== *)
(** * JsonText: reading JSON.  [json.loads] as an interface whose law says that
    it reads back what [json.dumps] writes, and an executable parser that
    keeps the law. *)
From S2P Require Import Prelude Exceptions Store Tables Text TextSpec.

(** ** Values as they come back *)

(** A value whose objects have distinct keys, as dicts do, and that holds no
    float. *)
Fixpoint wf_json (j : json) : bool :=
  match j with
  | JFloat _ => false
  | JArr l => forallb wf_json l
  | JObj f => bool_decide (NoDup (fst <$> f)) && forallb (fun kv => wf_json (snd kv)) f
  | _ => true
  end.

(** The members of every object sorted by key, which Python's equality of
    dicts does not see. *)
Fixpoint canon (j : json) : json :=
  match j with
  | JArr l => JArr (List.map canon l)
  | JObj f => JObj (order_by key_le (List.map (fun kv => (fst kv, canon (snd kv))) f))
  | _ => j
  end.

(** [json.loads] on bytes: [None] when it raises. *)
Class JsonReader := {
  loads : list Z -> option json;
  loads_dumps j : wf_json j = true -> loads (bytes_of (dumps j)) = Some (canon j)
}.

(** ** A parser *)
Module JsonParser.

Definition is_ws (c : ascii) : bool :=
  let n := code_point c in (n =? 32) || (n =? 9) || (n =? 10) || (n =? 13).

Fixpoint skip_ws (s : string) : string :=
  match s with
  | String c s' => if is_ws c then skip_ws s' else s
  | EmptyString => s
  end.

Definition quote_char : ascii := ascii_of_nat 34.
Definition backslash : ascii := ascii_of_nat 92.

Definition hex_value (c : ascii) : option Z :=
  let n := code_point c in
  if (48 <=? n) && (n <=? 57) then Some (n - 48)
  else if (97 <=? n) && (n <=? 102) then Some (n - 87)
  else if (65 <=? n) && (n <=? 70) then Some (n - 55)
  else None.

(** The four digits of a [\uXXXX]; characters above 255 are outside the
    model's strings. *)
Definition unicode_escape (a b c d : ascii) : option ascii :=
  match hex_value a, hex_value b, hex_value c, hex_value d with
  | Some 0, Some 0, Some x, Some y => Some (ascii_of_N (Z.to_N (16 * x + y)))
  | _, _, _, _ => None
  end.

Definition simple_escape (c : ascii) : option ascii :=
  let n := code_point c in
  if (n =? 34) || (n =? 92) || (n =? 47) then Some c
  else if n =? 98 then Some (ascii_of_nat 8)
  else if n =? 102 then Some (ascii_of_nat 12)
  else if n =? 110 then Some (ascii_of_nat 10)
  else if n =? 114 then Some (ascii_of_nat 13)
  else if n =? 116 then Some (ascii_of_nat 9)
  else None.

Definition push (c : ascii) (r : option (string * string)) : option (string * string) :=
  match r with Some (s, rest) => Some (String c s, rest) | None => None end.

(** The rest of a string literal after its opening quote. *)
Fixpoint string_body (s : string) : option (string * string) :=
  match s with
  | EmptyString => None
  | String c s1 =>
      if Ascii.eqb c quote_char then Some (EmptyString, s1)
      else if Ascii.eqb c backslash then
        match s1 with
        | EmptyString => None
        | String e s2 =>
            if code_point e =? 117 then
              match s2 with
              | String x1 (String x2 (String x3 (String x4 s3))) =>
                  match unicode_escape x1 x2 x3 x4 with
                  | Some u => push u (string_body s3)
                  | None => None
                  end
              | _ => None
              end
            else
              match simple_escape e with
              | Some u => push u (string_body s2)
              | None => None
              end
        end
      else if code_point c <? 32 then None
      else push c (string_body s1)
  end.

Definition digit_value (c : ascii) : option Z :=
  let n := code_point c in if (48 <=? n) && (n <=? 57) then Some (n - 48) else None.

(** Further digits of a number. *)
Fixpoint digits (acc : Z) (s : string) : Z * string :=
  match s with
  | String c s' =>
      match digit_value c with
      | Some d => digits (10 * acc + d) s'
      | None => (acc, s)
      end
  | EmptyString => (acc, s)
  end.

(** A number without sign: no leading zeros. *)
Definition natural (s : string) : option (Z * string) :=
  match s with
  | String c s' =>
      match digit_value c with
      | Some 0 => Some (0, s')
      | Some d => Some (digits d s')
      | None => None
      end
  | EmptyString => None
  end.

(** A fraction or an exponent makes a float, which this parser refuses. *)
Definition float_follows (s : string) : bool :=
  match s with
  | String c _ => let n := code_point c in (n =? 46) || (n =? 101) || (n =? 69)
  | EmptyString => false
  end.

Definition number (s : string) : option (json * string) :=
  let '(negative, s1) :=
    match s with
    | String c s' => if Ascii.eqb c "-"%char then (true, s') else (false, s)
    | EmptyString => (false, s)
    end in
  match natural s1 with
  | Some (n, rest) =>
      if float_follows rest then None else Some (JNum (if negative then - n else n), rest)
  | None => None
  end.

(** What follows a keyword. *)
Fixpoint after (word s : string) : option string :=
  match word, s with
  | EmptyString, _ => Some s
  | String a word', String b s' => if Ascii.eqb a b then after word' s' else None
  | _, EmptyString => None
  end.

Definition keyword (s : string) : option (json * string) :=
  match after "null" s with
  | Some rest => Some (JNull, rest)
  | None =>
      match after "true" s with
      | Some rest => Some (JBool true, rest)
      | None => match after "false" s with Some rest => Some (JBool false, rest) | None => None end
      end
  end.

(** A value; the elements of a non-empty array; the members of a non-empty
    object, each up to and including the closing bracket. *)
Fixpoint value (fuel : nat) (s : string) : option (json * string) :=
  match fuel, s with
  | O, _ | _, EmptyString => None
  | S k, String c s1 =>
      if Ascii.eqb c quote_char then
        match string_body s1 with Some (t, rest) => Some (JStr t, rest) | None => None end
      else if Ascii.eqb c "["%char then
        match after "]" (skip_ws s1) with
        | Some rest => Some (JArr [], rest)
        | None =>
            match elements k (skip_ws s1) with Some (l, rest) => Some (JArr l, rest) | None => None end
        end
      else if Ascii.eqb c "{"%char then
        match after "}" (skip_ws s1) with
        | Some rest => Some (JObj [], rest)
        | None =>
            match members k (skip_ws s1) with Some (f, rest) => Some (JObj f, rest) | None => None end
        end
      else match keyword s with Some r => Some r | None => number s end
  end
with elements (fuel : nat) (s : string) : option (list json * string) :=
  match fuel with
  | O => None
  | S k =>
      match value k s with
      | None => None
      | Some (v, s1) =>
          match after "]" (skip_ws s1), after "," (skip_ws s1) with
          | Some rest, _ => Some ([v], rest)
          | None, Some s2 =>
              match elements k (skip_ws s2) with
              | Some (l, rest) => Some (v :: l, rest)
              | None => None
              end
          | None, None => None
          end
      end
  end
with members (fuel : nat) (s : string) : option (list (string * json) * string) :=
  match fuel with
  | O => None
  | S k =>
      match s with
      | EmptyString => None
      | String c s0 =>
          if negb (Ascii.eqb c quote_char) then None
          else match string_body s0 with
          | None => None
          | Some (key, s1) =>
              match after ":" (skip_ws s1) with
              | None => None
              | Some s2 =>
                  match value k (skip_ws s2) with
                  | None => None
                  | Some (v, s3) =>
                      match after "}" (skip_ws s3), after "," (skip_ws s3) with
                      | Some rest, _ => Some ([(key, v)], rest)
                      | None, Some s4 =>
                          match members k (skip_ws s4) with
                          | Some (f, rest) => Some ((key, v) :: f, rest)
                          | None => None
                          end
                      | None, None => None
                      end
                  end
              end
          end
      end
  end.

(** ASCII text only. *)
Fixpoint decode (bytes : list Z) : option string :=
  match bytes with
  | [] => Some EmptyString
  | b :: rest =>
      if (0 <=? b) && (b <? 128)
      then match decode rest with Some s => Some (String (ascii_of_N (Z.to_N b)) s) | None => None end
      else None
  end.

Definition parse (bytes : list Z) : option json :=
  match decode bytes with
  | None => None
  | Some s =>
      match value (2 * String.length s) (skip_ws s) with
      | Some (v, rest) => if String.eqb (skip_ws rest) EmptyString then Some v else None
      | None => None
      end
  end.

End JsonParser.

Example parse_spaced :
  JsonParser.parse (bytes_of (" { " +:+ dquote +:+ "a\u0041\n" +:+ dquote +:+ " : [ -10 , true,{}] } "))
  = Some (JObj [("aA" +:+ String (ascii_of_nat 10) "", JArr [JNum (-10); JBool true; JObj []])]).
Proof. vm_compute. reflexivity. Qed.

Example parse_refuses :
  JsonParser.parse (bytes_of "[1,]") = None /\ JsonParser.parse (bytes_of "01") = None /\
  JsonParser.parse (bytes_of "1 2") = None.
Proof. vm_compute. done. Qed.

(** ** The parser reads what [dumps] writes *)
Module JsonRoundTrip.
Import JsonParser.

(** *** Text *)

Lemma app_cons c s t : String c s +:+ t = String c (s +:+ t).
Proof. reflexivity. Qed.

Lemma app_assoc_str s1 s2 s3 : (s1 +:+ s2) +:+ s3 = s1 +:+ (s2 +:+ s3).
Proof. induction s1 as [|c s1 IH]; [done|]. by rewrite !app_cons, IH. Qed.

Lemma app_empty_r s : s +:+ "" = s.
Proof. induction s as [|c s IH]; [done|]. by rewrite app_cons, IH. Qed.

Lemma slen_cons c s : slen (String c s) = 1 + slen s.
Proof. unfold slen. cbn [String.length]. lia. Qed.

Lemma slen_empty : slen "" = 0.
Proof. reflexivity. Qed.

Create Rewrite HintDb text.
#[local] Hint Rewrite app_cons app_assoc_str slen_cons slen_app slen_empty : text.

(** *** String literals *)

Lemma body_escaped c t : string_body (escape_char c +:+ t) = push c (string_body t).
Proof. by destruct c as [ [] [] [] [] [] [] [] []]. Qed.

Lemma body_escape s rest :
  string_body (escape s +:+ String quote_char rest) = Some (s, rest).
Proof.
  induction s as [|c s IH]; [done|]. cbn [escape].
  by rewrite app_assoc_str, body_escaped, IH.
Qed.

Lemma quote_shape s rest :
  quote s +:+ rest = String quote_char (escape s +:+ String quote_char rest).
Proof. unfold quote, dquote. by rewrite !app_assoc_str. Qed.

(** *** Numbers *)

(** What may follow a number. *)
Definition stops (s : string) : Prop :=
  match s with
  | EmptyString => True
  | String c _ => digit_value c = None /\ float_follows s = false /\ is_ws c = false
  end.

Lemma digits_stops acc s : stops s -> digits acc s = (acc, s).
Proof. destruct s as [|c s]; [done|]. intros [H _]. cbn [digits]. by rewrite H. Qed.

Lemma digit_char d :
  (d < 10)%N -> digit_value (pretty_N_char d) = Some (Z.of_N d).
Proof.
  intros H. assert (Hall : forallb (fun k => bool_decide
    (digit_value (pretty_N_char (N.of_nat k)) = Some (Z.of_nat k))) (List.seq 0 10) = true)
    by (vm_compute; reflexivity).
  rewrite forallb_forall in Hall. specialize (Hall (N.to_nat d)).
  rewrite bool_decide_eq_true, N2Nat.id in Hall. rewrite Hall by (apply in_seq; lia). f_equal. lia.
Qed.

(** The decimal digits of [x] in front of [s], read with [acc] in hand. *)
Lemma natural_pretty x s :
  (0 < x)%N -> natural (pretty_N_go x s) = Some (digits (Z.of_N x) s).
Proof.
  revert s. induction (N.lt_wf_0 x) as [x _ IH]. intros s Hx.
  rewrite pretty_N_go_step by done.
  assert (Hd : (x mod 10 < 10)%N) by (apply N.mod_lt; lia).
  assert (Hdiv : x = (10 * (x / 10) + x mod 10)%N) by (apply N.div_mod; lia).
  destruct (N.eq_dec (x / 10) 0) as [H0|H0].
  - rewrite H0, pretty_N_go_0. cbn [natural]. rewrite (digit_char _ Hd).
    assert (Hxd : (x mod 10 = x)%N) by lia. rewrite Hxd.
    by destruct x as [|p]; [lia|].
  - rewrite IH by (apply N.div_lt || idtac; lia). cbn [digits].
    rewrite (digit_char _ Hd). do 2 f_equal. lia.
Qed.

Lemma natural_pretty_N x rest :
  stops rest -> natural (pretty x +:+ rest) = Some (Z.of_N x, rest).
Proof.
  intros Hs. unfold pretty, pretty_N. case_decide as Hx; [by subst|].
  assert (Happ : forall y s, pretty_N_go y s +:+ rest = pretty_N_go y (s +:+ rest)).
  { intros y. induction (N.lt_wf_0 y) as [y _ IH]. intros s.
    destruct (N.eq_dec y 0) as [->|Hy]; [by rewrite !pretty_N_go_0|].
    rewrite !(pretty_N_go_step y) by lia. rewrite IH by (apply N.div_lt; lia). done. }
  rewrite Happ. change ("" +:+ rest) with rest.
  rewrite natural_pretty by lia. by rewrite digits_stops.
Qed.

Lemma natural_digit c s r : natural (String c s) = Some r -> Ascii.eqb c "-"%char = false.
Proof.
  cbn [natural]. destruct (Ascii.eqb_spec c "-"%char) as [->|]; [|done]. discriminate.
Qed.

Lemma number_str_of_int n rest :
  stops rest -> number (str_of_int n +:+ rest) = Some (JNum n, rest).
Proof.
  intros Hs. assert (Hf : float_follows rest = false) by (destruct rest; [done | apply Hs]).
  assert (HN := fun x => natural_pretty_N x rest Hs).
  unfold number, str_of_int. destruct n as [|p|p].
  - specialize (HN 0%N). change (pretty 0) with (pretty 0%N).
    destruct (pretty 0%N +:+ rest) as [|c s] eqn:E; [discriminate|].
    rewrite (natural_digit _ _ _ HN), HN, Hf. done.
  - specialize (HN (N.pos p)). change (pretty (Z.pos p)) with (pretty (N.pos p)).
    destruct (pretty (N.pos p) +:+ rest) as [|c s] eqn:E; [discriminate|].
    rewrite (natural_digit _ _ _ HN), HN, Hf. done.
  - specialize (HN (N.pos p)). change (pretty (Z.neg p)) with (String "-" (pretty (N.pos p))).
    rewrite app_cons. cbn [Ascii.eqb]. cbn. rewrite HN, Hf. done.
Qed.

(** *** Values *)

(** A text that starts with a token other than [\]]. *)
Definition solid (s : string) : Prop :=
  match s with
  | String c _ => is_ws c = false /\ Ascii.eqb c "]"%char = false
  | EmptyString => False
  end.

Lemma solid_skip s : solid s -> skip_ws s = s.
Proof. destruct s as [|c s]; [done|]. intros [H _]. cbn [skip_ws]. by rewrite H. Qed.

Lemma solid_after s : solid s -> after "]" s = None.
Proof.
  destruct s as [|c s]; [done|]. intros [_ H]. cbn [after].
  by rewrite Ascii.eqb_sym, H.
Qed.

(** What starts a number starts nothing else. *)
Lemma number_head c s r :
  number (String c s) = Some r ->
  solid (String c s) /\ Ascii.eqb c quote_char = false /\ Ascii.eqb c "["%char = false
  /\ Ascii.eqb c "{"%char = false /\ keyword (String c s) = None.
Proof. by destruct c as [ [] [] [] [] [] [] [] []]. Qed.

Lemma value_number k s r : number s = Some r -> value (S k) s = Some r.
Proof.
  destruct s as [|c s]; [done|]. intros H.
  destruct (number_head _ _ _ H) as (_ & H1 & H2 & H3 & H4).
  cbn [value]. by rewrite H1, H2, H3, H4.
Qed.

Lemma solid_app s t : solid s -> solid (s +:+ t).
Proof. by destruct s. Qed.

Lemma dumps_solid j : wf_json j = true -> solid (dumps j).
Proof.
  destruct j as [|b|n|r|s|l|f]; intros H; try done.
  - by destruct b.
  - pose proof (number_str_of_int n "" I) as E. cbn [dumps].
    rewrite <- (app_empty_r (str_of_int n)).
    destruct (str_of_int n +:+ "") as [|c s]; [discriminate|]. by eapply number_head.
Qed.

(** Sorting by key commutes with a change of the values. *)
Lemma order_by_map {A B} (g : A -> B) (f : list (string * A)) :
  NoDup (fst <$> f) ->
  order_by key_le (List.map (fun kv => (fst kv, g (snd kv))) f)
  = List.map (fun kv => (fst kv, g (snd kv))) (order_by key_le f).
Proof.
  intros Hn. set (h := fun kv : string * A => (fst kv, g (snd kv))).
  assert (Hk : forall l : list (string * A), fst <$> List.map h l = fst <$> l).
  { intros l. induction l as [|x l IH]; [done|]. cbn. f_equal. exact IH. }
  rewrite (order_by_keys (List.map h f) (List.map h (order_by key_le f))).
  - apply (StronglySorted_unique_strong (sorted_by key_le)).
    + intros x y Hx Hy H1 H2. rewrite (order_by_perm key_le) in Hx.
      apply (nodup_key_unique fst (List.map h (order_by key_le f))); try done.
      * by rewrite Hk, (order_by_perm key_le).
      * by apply String.leb_antisym.
    + apply order_by_sorted; [apply key_le_total | apply key_le_trans].
    + assert (Hs := order_by_sorted key_le key_le_total key_le_trans f).
      induction Hs as [|x l Hs IH HF]; cbn; constructor; [exact IH|].
      rewrite List.Forall_map. exact HF.
    + apply order_by_perm.
  - by rewrite Hk.
  - unfold h. apply Permutation_map. symmetry. apply order_by_perm.
Qed.

Definition reads (j : json) : Prop :=
  forall k rest, stops rest -> 2 * slen (dumps j +:+ rest) <= Z.of_nat k ->
  value k (dumps j +:+ rest) = Some (canon j, rest).

Definition elements_read (l : list json) : Prop :=
  forall k rest, 2 * slen (join "," (List.map dumps l) +:+ String "]" rest) + 1 <= Z.of_nat k ->
  elements k (join "," (List.map dumps l) +:+ String "]" rest) = Some (List.map canon l, rest).

Definition member_text (kv : string * json) : string := quote (fst kv) +:+ ":" +:+ dumps (snd kv).

Definition members_read (f : list (string * json)) : Prop :=
  forall k rest, 2 * slen (join "," (List.map member_text f) +:+ String "}" rest) + 1 <= Z.of_nat k ->
  members k (join "," (List.map member_text f) +:+ String "}" rest)
  = Some (List.map (fun kv => (fst kv, canon (snd kv))) f, rest).

Lemma stops_bracket c rest : c = "]"%char \/ c = "}"%char \/ c = ","%char -> stops (String c rest).
Proof. by intros [ -> | [ -> | -> ] ]. Qed.

Lemma join_cons a b l : join "," (a :: b :: l) = a +:+ String "," (join "," (b :: l)).
Proof. reflexivity. Qed.

Lemma elements_step j l :
  wf_json j = true -> reads j -> (l = [] \/ elements_read l /\ solid (join "," (List.map dumps l))) ->
  elements_read (j :: l).
Proof.
  intros Hw Hj Hl k rest Hk. destruct k as [|k]; [pose proof (slen_nonneg
    (join "," (List.map dumps (j :: l)) +:+ String "]" rest)); lia|].
  destruct l as [|j' l]; cbn [List.map] in *.
  - cbn [join] in *. cbn [elements].
    rewrite Hj by (first [apply stops_bracket; by auto | lia]). reflexivity.
  - destruct Hl as [?|[Hl Hs] ]; [done|]. rewrite join_cons in *. cbn [elements].
    rewrite app_assoc_str, app_cons in Hk |- *.
    rewrite Hj by (first [apply stops_bracket; by auto | lia]).
    change (skip_ws (String "," ?s)) with (String "," s). cbn [after Ascii.eqb Bool.eqb].
    rewrite solid_skip by (by apply solid_app).
    rewrite Hl; [done|]. revert Hk. cbn [List.map]. autorewrite with text.
    pose proof (slen_nonneg (dumps j)). lia.
Qed.

Lemma member_shape kv rest :
  member_text kv +:+ rest = String quote_char
    (escape (fst kv) +:+ String quote_char (String ":" (dumps (snd kv) +:+ rest))).
Proof. unfold member_text. by rewrite app_assoc_str, quote_shape, app_assoc_str. Qed.

Lemma members_step kv f :
  wf_json (snd kv) = true -> reads (snd kv) -> (f = [] \/ members_read f) -> members_read (kv :: f).
Proof.
  intros Hw Hj Hf k rest Hk. destruct k as [|k]; [pose proof (slen_nonneg
    (join "," (List.map member_text (kv :: f)) +:+ String "}" rest)); lia|].
  assert (Hd : forall t, solid (dumps (snd kv) +:+ t)) by (intros; by apply solid_app, dumps_solid).
  pose proof (slen_nonneg (escape (fst kv))). pose proof (slen_nonneg (dumps (snd kv))).
  destruct f as [|kv' f].
  - cbn [join List.map] in Hk |- *. rewrite member_shape in Hk |- *. cbn [members].
    change (Ascii.eqb quote_char quote_char) with true. cbn [negb]. rewrite body_escape.
    change (skip_ws (String ":" ?s)) with (String ":" s). cbn [after Ascii.eqb Bool.eqb].
    rewrite solid_skip by apply Hd.
    rewrite Hj; [reflexivity | apply stops_bracket; by auto |].
    revert Hk. autorewrite with text. lia.
  - destruct Hf as [?|Hf]; [done|].
    change (List.map member_text (kv :: kv' :: f))
      with (member_text kv :: member_text kv' :: List.map member_text f) in Hk |- *.
    rewrite join_cons, app_assoc_str, app_cons, member_shape in Hk |- *. cbn [members].
    change (Ascii.eqb quote_char quote_char) with true. cbn [negb]. rewrite body_escape.
    change (skip_ws (String ":" ?s)) with (String ":" s). cbn [after Ascii.eqb Bool.eqb].
    rewrite solid_skip by apply Hd.
    rewrite Hj; [|apply stops_bracket; by auto|].
    + change (skip_ws (String "," ?s)) with (String "," s). cbn [after Ascii.eqb Bool.eqb].
      rewrite solid_skip by (destruct f; cbn [List.map];
        rewrite ?join_cons, ?app_assoc_str; cbn [join]; by rewrite member_shape).
      rewrite Hf; [done|]. revert Hk. cbn [List.map]. autorewrite with text. lia.
    + revert Hk. autorewrite with text. lia.
Qed.

Lemma elements_all l :
  Forall (fun j => wf_json j = true -> reads j) l -> forallb wf_json l = true -> l <> [] ->
  elements_read l /\ solid (join "," (List.map dumps l)).
Proof.
  induction 1 as [|j l Hj _ IH]; [done|]. cbn [forallb]. intros [Hw Hl]%andb_true_iff _. split.
  - apply elements_step; auto. destruct l as [|j' l]; [by left|]. right. by apply IH.
  - cbn [List.map]. pose proof (dumps_solid j Hw).
    destruct l; cbn [List.map]; [done|]. rewrite join_cons. by apply solid_app.
Qed.

Lemma members_all f :
  Forall (fun kv => wf_json (snd kv) = true -> reads (snd kv)) f ->
  forallb (fun kv => wf_json (snd kv)) f = true -> f <> [] -> members_read f.
Proof.
  induction 1 as [|kv f Hj _ IH]; [done|]. cbn [forallb]. intros [Hw Hf]%andb_true_iff _.
  apply members_step; auto. destruct f; [by left | right; by apply IH].
Qed.

Lemma dumps_obj f :
  NoDup (fst <$> f) ->
  dumps (JObj f) = "{" +:+ join "," (List.map member_text (order_by key_le f)) +:+ "}".
Proof.
  intros Hn. cbn [dumps]. rewrite (order_by_map dumps) by done. by rewrite List.map_map.
Qed.

Lemma canon_obj f :
  NoDup (fst <$> f) ->
  canon (JObj f) = JObj (List.map (fun kv => (fst kv, canon (snd kv))) (order_by key_le f)).
Proof. intros Hn. cbn [canon]. by rewrite (order_by_map canon). Qed.

Lemma reads_fuel j k rest :
  wf_json j = true -> 2 * slen (dumps j +:+ rest) <= Z.of_nat k -> exists k', k = S k'.
Proof.
  intros HS%dumps_solid. pose proof (slen_nonneg rest).
  destruct (dumps j) as [|c s]; [done|]. rewrite slen_app, slen_cons. pose proof (slen_nonneg s).
  destruct k; [lia | by eexists].
Qed.

Lemma members_head kv g rest :
  exists t, join "," (List.map member_text (kv :: g)) +:+ rest = String quote_char t.
Proof.
  destruct g as [|kv' g]; cbn [List.map join]; rewrite ?app_assoc_str; rewrite member_shape; by eexists.
Qed.

Lemma value_dumps j : wf_json j = true -> reads j.
Proof.
  induction j as [|b|n|r|s|l IH|f IH] using json_nested_ind; intros Hw k rest Hs Hk;
    destruct (reads_fuel _ _ _ Hw Hk) as [k' ->]; try done.
  - by destruct b.
  - apply value_number, number_str_of_int, Hs.
  - cbn [dumps canon]. rewrite quote_shape. cbn [value].
    change (Ascii.eqb quote_char quote_char) with true. cbn iota. by rewrite body_escape.
  - cbn [wf_json] in Hw. destruct l as [|j l]; [done|].
    destruct (elements_all (j :: l) IH Hw) as [Hel Hso]; [done|].
    revert Hk. cbn [dumps canon]. rewrite !app_assoc_str.
    change ("[" +:+ ?s) with (String "[" s). change ("]" +:+ ?s) with (String "]" s). intros Hk.
    cbn [value]. change (Ascii.eqb "[" quote_char) with false.
    change (Ascii.eqb "[" "[") with true. cbn iota.
    rewrite (solid_skip (_ +:+ _)) by (by apply solid_app).
    rewrite solid_after by (by apply solid_app).
    rewrite Hel; [done|]. revert Hk. rewrite slen_cons. lia.
  - cbn [wf_json] in Hw. apply andb_true_iff in Hw as [Hn%bool_decide_eq_true Hw].
    revert Hk. rewrite dumps_obj, canon_obj by done.
    assert (HP : order_by key_le f ≡ₚ f) by apply order_by_perm.
    assert (Hm : order_by key_le f <> [] -> members_read (order_by key_le f)).
    { apply members_all; [by rewrite HP|]. rewrite forallb_forall in Hw |- *.
      intros x Hx. apply Hw. by rewrite <- HP. }
    destruct (order_by key_le f) as [|kv g]; [done|]. specialize (Hm ltac:(done)).
    rewrite !app_assoc_str.
    change ("{" +:+ ?s) with (String "{" s). change ("}" +:+ ?s) with (String "}" s). intros Hk.
    specialize (Hm k' rest). destruct (members_head kv g (String "}" rest)) as [t Ht].
    rewrite Ht in *. cbn [value]. change (Ascii.eqb "{" quote_char) with false.
    change (Ascii.eqb "{" "[") with false. change (Ascii.eqb "{" "{") with true. cbn iota.
    change (skip_ws (String quote_char t)) with (String quote_char t).
    change (after "}" (String quote_char t)) with (@None string). cbn iota.
    rewrite Hm; [done|]. revert Hk. rewrite slen_cons. lia.
Qed.

(** *** The whole text *)

Lemma decode_ascii s :
  all_chars (fun c => code_point c <? 128) s = true -> decode (bytes_of s) = Some s.
Proof.
  unfold bytes_of. induction s as [|c s IH]; [done|]. cbn [all_chars]. intros [Hc Hs]%andb_true_iff.
  cbn [String.list_ascii_of_string List.map decode]. rewrite (IH Hs), Hc.
  rewrite (proj2 (Z.leb_le 0 _)) by (unfold code_point; lia). cbn [andb].
  unfold code_point. by rewrite N2Z.id, ascii_N_embedding.
Qed.

Definition printable (c : ascii) : bool := (32 <=? code_point c) && (code_point c <=? 126).

Lemma escape_printable s : all_chars printable (escape s) = true.
Proof.
  induction s as [|c s IH]; [done|]. cbn [escape]. rewrite all_chars_app, IH, andb_true_r.
  by destruct c as [ [] [] [] [] [] [] [] []].
Qed.

Lemma quote_printable s : all_chars printable (quote s) = true.
Proof. unfold quote. by rewrite !all_chars_app, escape_printable. Qed.

Lemma join_printable l :
  Forall (fun s => all_chars printable s = true) l -> all_chars printable (join "," l) = true.
Proof.
  induction 1 as [|s l Hs Hl IH]; [done|]. destruct l as [|t l]; [exact Hs|].
  rewrite join_cons, all_chars_app, Hs. exact IH.
Qed.

Lemma digit_char_printable d : (d < 10)%N -> printable (pretty_N_char d) = true.
Proof.
  intros H. assert (Hall : forallb (fun k => printable (pretty_N_char (N.of_nat k))) (List.seq 0 10)
    = true) by (vm_compute; reflexivity).
  rewrite forallb_forall in Hall. specialize (Hall (N.to_nat d)).
  rewrite N2Nat.id in Hall. apply Hall, in_seq. lia.
Qed.

Lemma pretty_N_go_printable x s :
  all_chars printable s = true -> all_chars printable (pretty_N_go x s) = true.
Proof.
  revert s. induction (N.lt_wf_0 x) as [x _ IH]. intros s Hs.
  destruct (N.eq_dec x 0) as [->|Hx]; [by rewrite pretty_N_go_0|].
  rewrite pretty_N_go_step by lia. apply IH; [apply N.div_lt; lia|].
  cbn [all_chars]. by rewrite Hs, digit_char_printable by (apply N.mod_lt; lia).
Qed.

Lemma pretty_N_printable (x : N) : all_chars printable (pretty x) = true.
Proof. unfold pretty, pretty_N. case_decide; [done|]. by apply pretty_N_go_printable. Qed.

Lemma str_of_int_printable n : all_chars printable (str_of_int n) = true.
Proof.
  destruct n as [|p|p]; [done | apply (pretty_N_printable (N.pos p)) |].
  change (str_of_int (Z.neg p)) with (String "-" (pretty (N.pos p))).
  cbn [all_chars]. by rewrite pretty_N_printable.
Qed.

Lemma dumps_printable j : wf_json j = true -> all_chars printable (dumps j) = true.
Proof.
  induction j as [|b|n|r|s|l IH|f IH] using json_nested_ind; intros Hw; try done.
  - by destruct b.
  - apply str_of_int_printable.
  - apply quote_printable.
  - cbn [dumps]. rewrite !all_chars_app, join_printable; [done|]. cbn [wf_json] in Hw.
    rewrite forallb_forall in Hw. rewrite List.Forall_map, List.Forall_forall.
    rewrite Forall_forall in IH. intros x Hx. apply IH; [by apply list_elem_of_In | auto].
  - cbn [wf_json] in Hw. apply andb_true_iff in Hw as [Hn%bool_decide_eq_true Hw].
    rewrite dumps_obj by done. rewrite !all_chars_app, join_printable; [done|].
    rewrite forallb_forall in Hw. rewrite List.Forall_map, List.Forall_forall.
    rewrite Forall_forall in IH. intros x Hx. rewrite order_by_perm in Hx.
    unfold member_text. rewrite !all_chars_app, quote_printable, IH; [done| |auto].
    by apply list_elem_of_In.
Qed.

Lemma printable_ascii s :
  all_chars printable s = true -> all_chars (fun c => code_point c <? 128) s = true.
Proof.
  induction s as [|c s IH]; [done|]. cbn [all_chars].
  intros [ [_ Hc]%andb_true_iff Hs]%andb_true_iff. rewrite IH by done. bool_simp.
  by rewrite (proj2 (Z.ltb_lt _ _)) by lia.
Qed.

Lemma parse_dumps j : wf_json j = true -> parse (bytes_of (dumps j)) = Some (canon j).
Proof.
  intros Hw. unfold parse. rewrite decode_ascii by by apply printable_ascii, dumps_printable.
  rewrite (solid_skip _ (dumps_solid _ Hw)).
  pose proof (value_dumps j Hw (2 * String.length (dumps j))%nat "" I) as Hv.
  rewrite app_empty_r in Hv. rewrite Hv by (unfold slen; lia). done.
Qed.

End JsonRoundTrip.

#[export] Instance json_parser : JsonReader := {|
  loads := JsonParser.parse;
  loads_dumps := JsonRoundTrip.parse_dumps
|}.

(** ** Sorting members does not change a value *)

Lemma canon_same j : wf_json j = true -> json_same j (canon j).
Proof.
  induction j as [|b|n|r|s|l IH|f IH] using json_nested_ind; intros Hw; try by constructor.
  - constructor. cbn [wf_json] in Hw. induction IH as [|x l Hx _ IHl]; cbn; constructor.
    + apply Hx. cbn in Hw. by apply andb_true_iff in Hw as [? _].
    + apply IHl. cbn in Hw. by apply andb_true_iff in Hw as [_ ?].
  - cbn [wf_json] in Hw. apply andb_true_iff in Hw as [Hn%bool_decide_eq_true Hw].
    cbn [canon]. eapply same_obj; [exact Hn | | symmetry; apply order_by_perm].
    clear Hn. induction IH as [|kv f Hkv _ IHf]; cbn; [constructor|].
    cbn in Hw. apply andb_true_iff in Hw as [Hk Hf]. destruct kv as [k v].
    constructor; [by apply Hkv | by apply IHf].
Qed.
