(* ===== verification/Iso.v ===== *)
(** * Iso: the texts of times and identifiers - [datetime.isoformat],
    [datetime.fromisoformat], [str(uuid)] and [uuid.UUID(text)]. *)
From S2P Require Import Prelude Exceptions Store Tables Text TextSpec JsonText.

(** ** The proleptic Gregorian calendar *)

(** Year, month and day of a day counted from 1970-01-01; the year is taken to
    begin in March. *)
Definition civil (days : Z) : Z * Z * Z :=
  let z := days + 719468 in
  let era := z / 146097 in
  let doe := z mod 146097 in
  let yoe := (doe - doe / 1460 + doe / 36524 - doe / 146096) / 365 in
  let doy := doe - (365 * yoe + yoe / 4 - yoe / 100) in
  let mp := (5 * doy + 2) / 153 in
  let d := doy - (153 * mp + 2) / 5 + 1 in
  let m := if mp <? 10 then mp + 3 else mp - 9 in
  (yoe + era * 400 + (if m <=? 2 then 1 else 0), m, d).

(** The day of a date. *)
Definition days_of (y m d : Z) : Z :=
  let y := if m <=? 2 then y - 1 else y in
  let era := y / 400 in
  let yoe := y mod 400 in
  let mp := if 2 <? m then m - 3 else m + 9 in
  let doy := (153 * mp + 2) / 5 + d - 1 in
  era * 146097 + (yoe * 365 + yoe / 4 - yoe / 100 + doy) - 719468.

(** The dates there are. *)
Definition valid_date (y m d : Z) : bool :=
  (1 <=? y) && (y <=? 9999) && bool_decide (civil (days_of y m d) = (y, m, d)).

Definition day_us : Z := 86400000000.

(** The moments a [datetime] can hold: the years 1 to 9999. *)
Definition representable (t : datetime) : Prop := -719162 <= t / day_us <= 2932896.

(** ** [datetime.isoformat] of a UTC time *)

Definition decimal_digit (n : Z) : ascii := ascii_of_N (Z.to_N (48 + n)).

(** [k] decimal digits, with leading zeros. *)
Fixpoint dec (k : nat) (n : Z) : string :=
  match k with
  | O => EmptyString
  | S k => dec k (n / 10) +:+ String (decimal_digit (n mod 10)) EmptyString
  end.

Definition isoformat (t : datetime) : string :=
  let '(y, m, d) := civil (t / day_us) in
  let us := t mod day_us in
  let s := us / 1000000 in
  let fraction := us mod 1000000 in
  dec 4 y +:+ "-" +:+ dec 2 m +:+ "-" +:+ dec 2 d +:+ "T"
  +:+ dec 2 (s / 3600) +:+ ":" +:+ dec 2 (s / 60 mod 60) +:+ ":" +:+ dec 2 (s mod 60)
  +:+ (if fraction =? 0 then "" else "." +:+ dec 6 fraction) +:+ "+00:00".

(** [datetime.fromisoformat], as the instant meant: [None] when it raises.  It
    reads every ISO 8601 text; what is relied on is that it reads back the
    texts of [isoformat]. *)
Class IsoReader := {
  fromisoformat : string -> option datetime;
  fromisoformat_isoformat t : representable t -> fromisoformat (isoformat t) = Some t
}.

(** ** A reader of the extended format *)
Module IsoParser.

(** Exactly [k] digits, after [acc]. *)
Fixpoint read_dec (k : nat) (acc : Z) (s : string) : option (Z * string) :=
  match k, s with
  | O, _ => Some (acc, s)
  | S k, String c s' =>
      match JsonParser.digit_value c with
      | Some d => read_dec k (10 * acc + d) s'
      | None => None
      end
  | S _, EmptyString => None
  end.

(** [YYYY-MM-DD], any separator, [HH:MM:SS], microseconds or not, an offset or
    not. *)
Definition date_part (s : string) : option (Z * string) :=
  '(y, s) ← read_dec 4 0 s;
  s ← JsonParser.after "-" s;
  '(m, s) ← read_dec 2 0 s;
  s ← JsonParser.after "-" s;
  '(d, s) ← read_dec 2 0 s;
  if valid_date y m d then Some (days_of y m d, s) else None.

Definition time_part (s : string) : option (Z * string) :=
  '(h, s) ← read_dec 2 0 s;
  s ← JsonParser.after ":" s;
  '(mi, s) ← read_dec 2 0 s;
  s ← JsonParser.after ":" s;
  '(sec, s) ← read_dec 2 0 s;
  if (h <? 24) && (mi <? 60) && (sec <? 60) then
    match JsonParser.after "." s with
    | Some s =>
        '(f, s) ← read_dec 6 0 s;
        Some ((h * 3600 + mi * 60 + sec) * 1000000 + f, s)
    | None => Some ((h * 3600 + mi * 60 + sec) * 1000000, s)
    end
  else None.

Definition offset_part (s : string) : option Z :=
  match s with
  | EmptyString => Some 0
  | String c s =>
      sign ← (if Ascii.eqb c "+"%char then Some 1 else if Ascii.eqb c "-"%char then Some (-1) else None);
      '(h, s) ← read_dec 2 0 s;
      s ← JsonParser.after ":" s;
      '(mi, s) ← read_dec 2 0 s;
      if (h <? 24) && (mi <? 60) && String.eqb s EmptyString
      then Some (sign * (h * 3600 + mi * 60) * 1000000) else None
  end.

Definition parse (s : string) : option datetime :=
  '(days, s) ← date_part s;
  match s with
  | EmptyString => Some (days * day_us)
  | String _ s =>
      '(us, s) ← time_part s;
      offset ← offset_part s;
      Some (days * day_us + us - offset)
  end.

End IsoParser.

Example iso_texts :
  isoformat 0 = "1970-01-01T00:00:00+00:00" /\
  isoformat 951827696000001 = "2000-02-29T12:34:56.000001+00:00" /\
  IsoParser.parse "2000-02-29 14:34:56.000001+02:00" = Some 951827696000001 /\
  IsoParser.parse "2023-02-29T00:00:00" = None.
Proof. vm_compute. done. Qed.

(** ** [uuid.UUID(text)] *)

Section replace.
Context (needle : string).

(** [s.replace(needle, "")]; [skip] characters of a match are still to pass. *)
Fixpoint remove_from (skip : nat) (s : string) : string :=
  match s with
  | EmptyString => EmptyString
  | String c s' =>
      match skip with
      | S k => remove_from k s'
      | O =>
          if String.prefix needle s then remove_from (String.length needle - 1) s'
          else String c (remove_from O s')
      end
  end.

Definition remove (s : string) : string := remove_from 0 s.
End replace.

(** [s.strip("{}")]. *)
Definition is_brace (c : ascii) : bool := Ascii.eqb c "{"%char || Ascii.eqb c "}"%char.

Section trim.
Context (p : ascii -> bool).
Fixpoint ltrim (s : string) : string :=
  match s with
  | String c s' => if p c then ltrim s' else s
  | EmptyString => s
  end.
Fixpoint rtrim (s : string) : string :=
  match s with
  | EmptyString => EmptyString
  | String c s' =>
      match rtrim s' with
      | EmptyString => if p c then EmptyString else String c EmptyString
      | t => String c t
      end
  end.
End trim.

(** [int(s, 16)]: surrounding blanks, a sign, [0x], and single underscores
    between digits are allowed.  A text beyond ASCII has its blanks turned into
    spaces first. *)
Definition c_blank (c : ascii) : bool :=
  let n := code_point c in ((9 <=? n) && (n <=? 13)) || (n =? 32).

Definition transform_spaces (s : string) : string :=
  if all_chars (fun c => code_point c <? 128) s then s
  else map_chars (fun c => if is_space c then " "%char else
                           if code_point c <? 128 then c else "?"%char) s.

Fixpoint hex_run (underscore : bool) (acc : Z) (s : string) : option (Z * string) :=
  match s with
  | EmptyString => if underscore then None else Some (acc, s)
  | String c s' =>
      match JsonParser.hex_value c with
      | Some d => hex_run false (16 * acc + d) s'
      | None =>
          if underscore then None
          else if Ascii.eqb c "_"%char then hex_run true acc s' else Some (acc, s)
      end
  end.

Definition hex_number (s : string) : option Z :=
  match s with
  | String c _ =>
      match JsonParser.hex_value c with
      | None => None
      | Some _ =>
          match hex_run false 0 s with
          | Some (n, rest) => if String.eqb (ltrim c_blank rest) EmptyString then Some n else None
          | None => None
          end
      end
  | EmptyString => None
  end.

Definition drop_prefix (s : string) : string :=
  match s with
  | String z (String x s') =>
      if Ascii.eqb z "0"%char && (Ascii.eqb x "x"%char || Ascii.eqb x "X"%char) then
        match s' with
        | String u s'' => if Ascii.eqb u "_"%char then s'' else s'
        | EmptyString => s'
        end
      else s
  | _ => s
  end.

Definition int16 (s : string) : option Z :=
  match ltrim c_blank (transform_spaces s) with
  | String c s' =>
      if Ascii.eqb c "+"%char then hex_number (drop_prefix s')
      else if Ascii.eqb c "-"%char then Z.opp <$> hex_number (drop_prefix s')
      else hex_number (drop_prefix (String c s'))
  | EmptyString => None
  end.

(** [UUID(text)]: [None] for a [ValueError]. *)
Definition parse_uuid (text : string) : option uuid :=
  let hex := remove "uuid:" (remove "urn:" text) in
  let hex := remove "-" (rtrim is_brace (ltrim is_brace hex)) in
  if negb (slen hex =? 32) then None
  else match int16 hex with
  | Some n => if (0 <=? n) && (n <? 2 ^ 128) then Some n else None
  | None => None
  end.

Example uuid_texts :
  parse_uuid "{urn:uuid:01234567-89AB-cdef-0123-456789abcdef}" = Some 0x0123456789abcdef0123456789abcdef /\
  parse_uuid "0123456789abcdef0123456789abcde" = None /\
  parse_uuid "0x23456789abcdef0123456789abcdef" = Some 0x23456789abcdef0123456789abcdef.
Proof. vm_compute. done. Qed.

(** ** The calendar is a bijection *)

Ltac cal := Z.to_euclidean_division_equations; lia.

Section calendar.
Context (z : Z).
Let doe := (z + 719468) mod 146097.
Let yoe := (doe - doe / 1460 + doe / 36524 - doe / 146096) / 365.
Let doy := doe - (365 * yoe + yoe / 4 - yoe / 100).
Let mp := (5 * doy + 2) / 153.

Lemma doe_range : 0 <= doe < 146097.
Proof. apply Z.mod_pos_bound. lia. Qed.

Lemma yoe_range : 0 <= yoe < 400.
Proof. pose proof doe_range. subst yoe. clearbody doe. cal. Qed.

Lemma doy_range : 0 <= doy < 366.
Proof. pose proof doe_range. pose proof yoe_range. subst doy. subst yoe. clearbody doe. cal. Qed.

Lemma mp_range : 0 <= mp < 12.
Proof. pose proof doy_range. subst mp. clearbody doy. cal. Qed.
End calendar.

Lemma days_of_civil z : let '(y, m, d) := civil z in days_of y m d = z.
Proof.
  unfold civil. cbv zeta.
  pose proof (yoe_range z) as Hy. pose proof (mp_range z) as Hm. cbv zeta in Hy, Hm.
  assert (Hz : z + 719468 = 146097 * ((z + 719468) / 146097) + (z + 719468) mod 146097)
    by (apply Z.div_mod; lia).
  set (era := (z + 719468) / 146097) in *. set (doe := (z + 719468) mod 146097) in *.
  set (yoe := (doe - doe / 1460 + doe / 36524 - doe / 146096) / 365) in *.
  set (doy := doe - (365 * yoe + yoe / 4 - yoe / 100)) in *.
  set (mp := (5 * doy + 2) / 153) in *.
  unfold days_of. cbv zeta.
  assert (Hmp : (if 2 <? (if mp <? 10 then mp + 3 else mp - 9)
                 then (if mp <? 10 then mp + 3 else mp - 9) - 3
                 else (if mp <? 10 then mp + 3 else mp - 9) + 9) = mp).
  { destruct (Z.ltb_spec mp 10); destruct (Z.ltb_spec 2 (mp + 3)); destruct (Z.ltb_spec 2 (mp - 9)); lia. }
  rewrite Hmp.
  set (m := if mp <? 10 then mp + 3 else mp - 9).
  assert (Hyear : (if m <=? 2 then yoe + era * 400 + (if m <=? 2 then 1 else 0) - 1
                   else yoe + era * 400 + (if m <=? 2 then 1 else 0)) = yoe + era * 400).
  { destruct (m <=? 2); lia. }
  rewrite Hyear. rewrite Z.div_add, Z.mod_add, (Z.div_small yoe), (Z.mod_small yoe) by lia.
  subst doy. lia.
Qed.

(** The parts of a date fit their digits. *)
Lemma civil_range z :
  -719162 <= z <= 2932896 ->
  let '(y, m, d) := civil z in 1 <= y <= 9999 /\ 1 <= m <= 12 /\ 1 <= d <= 31.
Proof.
  intros Hz. unfold civil. cbv zeta.
  pose proof (doe_range z) as Hd. pose proof (yoe_range z) as Hy. pose proof (doy_range z) as Hdy.
  pose proof (mp_range z) as Hm. cbv zeta in Hd, Hy, Hdy, Hm.
  assert (He : z + 719468 = 146097 * ((z + 719468) / 146097) + (z + 719468) mod 146097)
    by (apply Z.div_mod; lia).
  set (era := (z + 719468) / 146097) in *. set (doe := (z + 719468) mod 146097) in *.
  set (yoe := (doe - doe / 1460 + doe / 36524 - doe / 146096) / 365) in *.
  set (doy := doe - (365 * yoe + yoe / 4 - yoe / 100)) in *.
  set (mp := (5 * doy + 2) / 153) in *.
  assert (Hmd : 153 * mp <= 5 * doy + 2 < 153 * mp + 153) by (subst mp; clearbody doy; cal).
  set (m := if mp <? 10 then mp + 3 else mp - 9).
  assert (Hm' : 1 <= m <= 12 /\ (m <= 2 <-> 10 <= mp)).
  { unfold m. destruct (Z.ltb_spec mp 10); lia. }
  assert (Hera : 0 <= era <= 24) by lia.
  assert (Hdoe : doe = 365 * yoe + yoe / 4 - yoe / 100 + doy) by (subst doy; lia).
  clearbody m mp doy yoe doe era. split; [|split; [lia|] ].
  - destruct (Z.leb_spec m 2); split; cal.
  - split; cal.
Qed.

Lemma civil_valid z :
  -719162 <= z <= 2932896 ->
  let '(y, m, d) := civil z in valid_date y m d = true /\ days_of y m d = z.
Proof.
  intros Hz. pose proof (civil_range z Hz) as HR. pose proof (days_of_civil z) as HD.
  destruct (civil z) as [ [y m] d] eqn:E. split; [|done]. unfold valid_date.
  rewrite HD, E. rewrite bool_decide_eq_true_2 by done.
  destruct (Z.leb_spec 1 y), (Z.leb_spec y 9999); (done || lia).
Qed.

(** ** The reader reads what [isoformat] writes *)
Module IsoRoundTrip.
Import IsoParser JsonRoundTrip.

Lemma decimal_digit_value n :
  0 <= n < 10 -> JsonParser.digit_value (decimal_digit n) = Some n.
Proof.
  intros H. assert (Hall : forallb (fun k => bool_decide
    (JsonParser.digit_value (decimal_digit (Z.of_nat k)) = Some (Z.of_nat k))) (List.seq 0 10) = true)
    by (vm_compute; reflexivity).
  rewrite forallb_forall in Hall. specialize (Hall (Z.to_nat n)).
  rewrite bool_decide_eq_true, Z2Nat.id in Hall by lia. apply Hall, in_seq. lia.
Qed.

Lemma read_dec_more k j acc n s :
  0 <= n < 10 ^ Z.of_nat k ->
  read_dec (k + j) acc (dec k n +:+ s) = read_dec j (acc * 10 ^ Z.of_nat k + n) s.
Proof.
  revert j acc n s; induction k as [|k IH]; intros j acc n s Hn.
  - cbn [dec Nat.add]. change ("" +:+ s) with s. f_equal. cbn in Hn |- *. lia.
  - rewrite Nat2Z.inj_succ, Z.pow_succ_r in Hn by lia.
    cbn [dec]. rewrite app_assoc_str, app_cons. change ("" +:+ s) with s.
    replace (S k + j)%nat with (k + S j)%nat by lia.
    rewrite IH by cal. cbn [read_dec].
    rewrite decimal_digit_value by (apply Z.mod_pos_bound; lia).
    f_equal. rewrite Nat2Z.inj_succ, Z.pow_succ_r by lia. cal.
Qed.

(** A padded number, read back. *)
Lemma read_dec_dec k n s :
  0 <= n < 10 ^ Z.of_nat k -> read_dec k 0 (dec k n +:+ s) = Some (n, s).
Proof.
  intros H. pose proof (read_dec_more k 0 0 n s H) as E.
  rewrite Nat.add_0_r in E. rewrite E. done.
Qed.

Lemma date_part_iso y m d s :
  valid_date y m d = true -> 1 <= y <= 9999 -> 1 <= m <= 12 -> 1 <= d <= 31 ->
  date_part (dec 4 y +:+ "-" +:+ dec 2 m +:+ "-" +:+ dec 2 d +:+ s) = Some (days_of y m d, s).
Proof.
  intros Hv Hy Hm Hd. unfold date_part.
  rewrite read_dec_dec by (cbn; lia). cbn [mbind option_bind].
  change (JsonParser.after "-" ("-" +:+ ?t)) with (Some t). cbn [mbind option_bind].
  rewrite read_dec_dec by (cbn; lia). cbn [mbind option_bind].
  change (JsonParser.after "-" ("-" +:+ ?t)) with (Some t). cbn [mbind option_bind].
  rewrite read_dec_dec by (cbn; lia). cbn [mbind option_bind]. by rewrite Hv.
Qed.

Lemma time_part_iso h mi sec f s :
  0 <= h < 24 -> 0 <= mi < 60 -> 0 <= sec < 60 -> 0 <= f < 1000000 ->
  time_part (dec 2 h +:+ ":" +:+ dec 2 mi +:+ ":" +:+ dec 2 sec
             +:+ (if f =? 0 then "" else "." +:+ dec 6 f) +:+ "+" +:+ s)
  = Some ((h * 3600 + mi * 60 + sec) * 1000000 + f, "+" +:+ s).
Proof.
  intros Hh Hm Hs Hf. unfold time_part.
  rewrite read_dec_dec by (cbn; lia). cbn [mbind option_bind].
  change (JsonParser.after ":" (":" +:+ ?t)) with (Some t). cbn [mbind option_bind].
  rewrite read_dec_dec by (cbn; lia). cbn [mbind option_bind].
  change (JsonParser.after ":" (":" +:+ ?t)) with (Some t). cbn [mbind option_bind].
  rewrite read_dec_dec by (cbn; lia). cbn [mbind option_bind].
  rewrite (proj2 (Z.ltb_lt h 24)), (proj2 (Z.ltb_lt mi 60)), (proj2 (Z.ltb_lt sec 60)) by lia.
  cbn [andb]. destruct (Z.eqb_spec f 0) as [->|Hne].
  - change ("" +:+ ?t) with t. change (JsonParser.after "." ("+" +:+ s)) with (@None string).
    cbn iota. by rewrite Z.add_0_r.
  - rewrite app_assoc_str. change (JsonParser.after "." ("." +:+ ?t)) with (Some t). cbn iota.
    by rewrite read_dec_dec by (cbn; lia).
Qed.

Lemma parse_isoformat t : representable t -> parse (isoformat t) = Some t.
Proof.
  intros Hr. unfold representable in Hr. unfold isoformat, parse.
  assert (Hday : t = day_us * (t / day_us) + t mod day_us) by (apply Z.div_mod; discriminate).
  assert (Hus : 0 <= t mod day_us < day_us) by (apply Z.mod_pos_bound; done).
  pose proof (civil_range _ Hr) as HR. pose proof (civil_valid _ Hr) as HV.
  destruct (civil (t / day_us)) as [ [y m] d]. destruct HV as [HV HD]. destruct HR as (HRy & HRm & HRd).
  set (us := t mod day_us) in *. cbv zeta. unfold day_us in Hus, Hday.
  rewrite date_part_iso by done. cbn [mbind option_bind]. rewrite HD.
  change ("T" +:+ ?s) with (String "T" s). cbn iota.
  change "+00:00" with ("+" +:+ "00:00").
  rewrite time_part_iso by cal. cbn [mbind option_bind].
  change (offset_part ("+" +:+ "00:00")) with (Some 0). cbn [mbind option_bind]. f_equal.
  unfold day_us. cal.
Qed.

End IsoRoundTrip.

#[export] Instance iso_parser : IsoReader := {|
  fromisoformat := IsoParser.parse;
  fromisoformat_isoformat := IsoRoundTrip.parse_isoformat
|}.

(** ** Identifiers are read back *)
Module UuidRoundTrip.
Import JsonRoundTrip.

Lemma hex_of_app a b n :
  hex_of (a + b) n = hex_of a (n / 16 ^ Z.of_nat b) +:+ hex_of b n.
Proof.
  revert n; induction b as [|b IH]; intros n.
  - rewrite Nat.add_0_r. cbn. by rewrite app_empty_r, Z.div_1_r.
  - rewrite Nat.add_succ_r. cbn [hex_of]. rewrite IH, app_assoc_str. f_equal. f_equal.
    rewrite Nat2Z.inj_succ, Z.pow_succ_r, Z.div_div by lia. done.
Qed.

Lemma hex_digit_value n : 0 <= n < 16 -> JsonParser.hex_value (hex_digit n) = Some n.
Proof.
  intros H. assert (Hall : forallb (fun k => bool_decide
    (JsonParser.hex_value (hex_digit (Z.of_nat k)) = Some (Z.of_nat k))) (List.seq 0 16) = true)
    by (vm_compute; reflexivity).
  rewrite forallb_forall in Hall. specialize (Hall (Z.to_nat n)).
  rewrite bool_decide_eq_true, Z2Nat.id in Hall by lia. apply Hall, in_seq. lia.
Qed.

Lemma hex_run_hex_of k acc n s :
  0 <= n < 16 ^ Z.of_nat k ->
  hex_run false acc (hex_of k n +:+ s) = hex_run false (acc * 16 ^ Z.of_nat k + n) s.
Proof.
  revert acc n s; induction k as [|k IH]; intros acc n s Hn.
  - cbn [hex_of]. change ("" +:+ s) with s. f_equal. cbn in Hn |- *. lia.
  - rewrite Nat2Z.inj_succ, Z.pow_succ_r in Hn by lia.
    cbn [hex_of]. rewrite app_assoc_str, app_cons. change ("" +:+ s) with s.
    rewrite IH by cal. cbn [hex_run].
    rewrite hex_digit_value by (apply Z.mod_pos_bound; lia).
    f_equal. rewrite Nat2Z.inj_succ, Z.pow_succ_r by lia. cal.
Qed.

(** Hexadecimal digits are left alone by the clean-up. *)
Lemma remove_absent needle c s :
  String.prefix (String c EmptyString) needle = true -> all_chars (fun x => negb (Ascii.eqb c x)) s = true ->
  remove needle s = s.
Proof.
  intros Hp. unfold remove. induction s as [|x s IH]; [done|]. cbn [all_chars].
  intros [Hx Hs]%andb_true_iff. cbn [remove_from].
  destruct needle as [|c' needle]; [done|]. cbn [String.prefix] in *.
  destruct (ascii_dec c c') as [->|]; [|done].
  destruct (ascii_dec c' x) as [->|]; [by rewrite Ascii.eqb_refl in Hx|]. by rewrite IH.
Qed.

Lemma remove_dash_app s1 s2 : remove "-" (s1 +:+ s2) = remove "-" s1 +:+ remove "-" s2.
Proof.
  assert (Hp : forall s, String.prefix "" s = true) by (by intros []).
  unfold remove. induction s1 as [|c s1 IH]; [done|]. rewrite app_cons. cbn [remove_from String.prefix].
  rewrite !Hp. destruct (ascii_dec "-" c) as [<-|]; cbn [String.length Nat.sub]; by rewrite IH.
Qed.

Lemma all_chars_mono (p q : ascii -> bool) s :
  (forall c, p c = true -> q c = true) -> all_chars p s = true -> all_chars q s = true.
Proof.
  intros H. induction s as [|c s IH]; [done|]. cbn [all_chars].
  intros [Hc Hs]%andb_true_iff. by rewrite (H _ Hc), IH.
Qed.

(** Every hexadecimal digit or dash passes a test. *)
Ltac hex_chars := intros c; destruct c as [ [] [] [] [] [] [] [] []]; (reflexivity || discriminate).

Definition uuid_char (c : ascii) : bool := is_hex c || Ascii.eqb c "-"%char.

Lemma hex_uuid_chars k n : all_chars uuid_char (hex_of k n) = true.
Proof. apply (all_chars_mono is_hex); [|apply hex_of_shape]. unfold uuid_char. by intros c ->. Qed.

Lemma str_of_uuid_chars u : all_chars uuid_char (str_of_uuid u) = true.
Proof. unfold str_of_uuid. rewrite !all_chars_app, !hex_uuid_chars. done. Qed.

Lemma ltrim_none p s : all_chars (fun c => negb (p c)) s = true -> ltrim p s = s.
Proof.
  destruct s as [|c s]; [done|]. cbn [all_chars ltrim]. intros [Hc _]%andb_true_iff.
  apply negb_true_iff in Hc. by rewrite Hc.
Qed.

Lemma rtrim_none p s : all_chars (fun c => negb (p c)) s = true -> rtrim p s = s.
Proof.
  induction s as [|c s IH]; [done|]. cbn [all_chars rtrim]. intros [Hc Hs]%andb_true_iff.
  rewrite (IH Hs). apply negb_true_iff in Hc. rewrite Hc. by destruct s.
Qed.

Lemma digits_of_uuid u :
  remove "-" (str_of_uuid u) = hex_of 32 u.
Proof.
  unfold str_of_uuid. rewrite !remove_dash_app.
  rewrite !(remove_absent "-" "-" (hex_of _ _))
    by (first [reflexivity | apply (all_chars_mono is_hex); [hex_chars | apply hex_of_shape] ]).
  change (remove "-" "-") with "". change ("" +:+ ?s) with s.
  change 32%nat with (8 + (4 + (4 + (4 + 12))))%nat. rewrite !hex_of_app.
  change (16 ^ Z.of_nat (4 + (4 + (4 + 12)))) with (2 ^ 96).
  change (16 ^ Z.of_nat (4 + (4 + 12))) with (2 ^ 80).
  change (16 ^ Z.of_nat (4 + 12)) with (2 ^ 64). change (16 ^ Z.of_nat 12) with (2 ^ 48). done.
Qed.

Lemma int16_hex u : 0 <= u < 2 ^ 128 -> int16 (hex_of 32 u) = Some u.
Proof.
  intros Hu. pose proof (proj2 (hex_of_shape 32 u)) as Hc.
  assert (Hr := hex_run_hex_of 32 0 u "" Hu). rewrite app_empty_r in Hr.
  unfold int16, transform_spaces.
  rewrite (all_chars_mono is_hex) by (done || hex_chars).
  rewrite ltrim_none by (apply (all_chars_mono is_hex); [hex_chars | done]).
  destruct (hex_of 32 u) as [|a [|b s] ] eqn:E.
  - pose proof (proj1 (hex_of_shape 32 u)) as Hl. by rewrite E in Hl.
  - pose proof (proj1 (hex_of_shape 32 u)) as Hl. by rewrite E in Hl.
  - cbn [all_chars] in Hc. apply andb_true_iff in Hc as [Ha [Hb _]%andb_true_iff].
    assert (Ha' : Ascii.eqb a "+" = false /\ Ascii.eqb a "-" = false /\
      exists d, JsonParser.hex_value a = Some d).
    { revert Ha. clear. destruct a as [ [] [] [] [] [] [] [] []]; try discriminate;
        intros _; repeat split; eexists; reflexivity. }
    assert (Hb' : Ascii.eqb b "x" = false /\ Ascii.eqb b "X" = false).
    { revert Hb. clear. by destruct b as [ [] [] [] [] [] [] [] []]. }
    destruct Ha' as (-> & -> & d & Hd). cbn [drop_prefix]. destruct Hb' as [-> ->].
    rewrite andb_false_r. unfold hex_number. rewrite Hd, Hr. done.
Qed.

Lemma parse_str_of_uuid u : 0 <= u < 2 ^ 128 -> parse_uuid (str_of_uuid u) = Some u.
Proof.
  intros Hu. pose proof (str_of_uuid_chars u) as Hc. unfold parse_uuid.
  rewrite (remove_absent "urn:" "u") by (first [reflexivity | apply (all_chars_mono uuid_char); [hex_chars | exact Hc] ]).
  rewrite (remove_absent "uuid:" "u") by (first [reflexivity | apply (all_chars_mono uuid_char); [hex_chars | exact Hc] ]).
  rewrite ltrim_none by (apply (all_chars_mono uuid_char); [hex_chars | exact Hc]).
  rewrite rtrim_none by (apply (all_chars_mono uuid_char); [hex_chars | exact Hc]).
  rewrite digits_of_uuid, (proj1 (hex_of_shape 32 u)), int16_hex by done.
  change (negb (Z.of_nat 32 =? 32)) with false. cbn iota.
  rewrite (proj2 (Z.leb_le 0 u)), (proj2 (Z.ltb_lt u (2 ^ 128))) by lia. done.
Qed.

End UuidRoundTrip.
