(* ===== verification/ListJobs.v ===== *)
(** * ListJobs: [JobService.list_jobs] of [app/application/services/jobs.py],
    with its pages and cursors. *)
From S2P Require Import Prelude Base64 Exceptions Domain Store Effects Text JsonText Iso JobRepo.
From S2P Require Import PostCommit JobService.

Definition DEFAULT_LIST_LIMIT : Z := 20.
Definition MAX_LIST_LIMIT : Z := 100.

(** [_normalize_limit]. *)
Definition _normalize_limit (limit : option Z) : Z :=
  match limit with
  | None => DEFAULT_LIST_LIMIT
  | Some limit => Z.max 1 (Z.min limit MAX_LIST_LIMIT)
  end.

(** ** Cursors *)

Definition cursor_json (cursor : JobListCursor) : json :=
  JObj [("v", JNum 1);
        ("created_at", JStr (isoformat (cur_created_at cursor)));
        ("id", JStr (str_of_uuid (cur_job_id cursor)))].

(** [_encode_cursor]. *)
Definition _encode_cursor (cursor : JobListCursor) : string :=
  Base64.urlsafe_b64encode (bytes_of (dumps (cursor_json cursor))).

Definition is_ascii (s : string) : bool := all_chars (fun c => code_point c <? 128) s.

(** [value == 1] in Python. *)
Definition equals_one (value : json) : bool :=
  match value with
  | JNum n => n =? 1
  | JBool b => b
  | JFloat repr => String.eqb repr "1.0"
  | _ => false
  end.

Section codec.
Context `{JR : JsonReader} `{IR : IsoReader}.

(** The body of the [try]: [None] for whatever exception it ends with. *)
Definition read_cursor (cursor : string) : option JobListCursor :=
  if negb (is_ascii cursor) then None
  else
    payload ← Base64.urlsafe_b64decode cursor;
    decoded ← loads payload;
    match decoded with
    | JObj fields =>
        if negb (bool_decide ((list_to_set (fst <$> fields) : gset string)
                              = {["v"; "created_at"; "id"]})) then None
        else
          v ← json_get "v" fields;
          if negb (equals_one v) then None
          else
            created_at ← json_get "created_at" fields;
            id ← json_get "id" fields;
            match created_at, id with
            | JStr created_at, JStr id =>
                created_at ← fromisoformat created_at;
                job_id ← parse_uuid id;
                Some (mkJobListCursor created_at job_id)
            | _, _ => None
            end
    | _ => None
    end.

(** [_decode_cursor]. *)
Definition _decode_cursor (cursor : string) : outcome JobListCursor :=
  match read_cursor cursor with
  | Some c => Ok c
  | None => Exc (app_err InvalidCursorError)
  end.

End codec.

(** ** Pages *)

(** [_build_job_list_page]; [1 <= limit], so that a page with a successor has
    a last job. *)
Definition _build_job_list_page (jobs : list StoredJobDTO) (limit : Z) : JobListPageDTO :=
  let page_jobs := take (Z.to_nat limit) jobs in
  let next_cursor :=
    if limit <? Z.of_nat (List.length jobs) then
      last_job ← last page_jobs;
      Some (_encode_cursor (mkJobListCursor (sj_created_at last_job) (sj_id last_job)))
    else None in
  mkJobListPageDTO (_to_job_public_dto <$> page_jobs) next_cursor.

Section service.
Context `{JR : JsonReader} `{IR : IsoReader} `{JC : JobListCache}.

(** [owner_id=None if current_user.role is UserRole.ADMIN else current_user.id]. *)
Definition cache_owner (current_user : CurrentUserDTO) : option uuid :=
  if bool_decide (cu_role current_user = ADMIN) then None else Some (cu_id current_user).

(** [list_jobs]. *)
Definition list_jobs (current_user : CurrentUserDTO) (cursor : option string) (limit : option Z)
    : M JobListPageDTO :=
  let normalized_limit := _normalize_limit limit in
  cached_page ← get_page (cache_owner current_user) cursor normalized_limit;
  match cached_page with
  | Some page => mret page
  | None =>
      decoded_cursor ← match cursor with
        | Some cursor => c ← lift (_decode_cursor cursor); mret (Some c)
        | None => mret None
        end;
      jobs ← with_uow (
        if bool_decide (cu_role current_user = ADMIN)
        then SqlAlchemyJobRepository.list_all_keyset decoded_cursor (normalized_limit + 1)
        else SqlAlchemyJobRepository.list_for_owner_keyset (cu_id current_user) decoded_cursor
               (normalized_limit + 1));
      let page := _build_job_list_page jobs normalized_limit in
      set_page (cache_owner current_user) cursor normalized_limit page;;
      mret page
  end.

End service.
