(* ===== verification/ListSpec.v ===== *)
(** * ListSpec: the keyset listing - sorted rows, what comes after a cursor,
    one page, and the pages a client collects by following cursors. *)
From S2P Require Import Prelude Base64 Exceptions Domain Store Effects Tables Text TextSpec.
From S2P Require Import JsonText Iso JobRepo PostCommit Invariants JobService ServiceSpec ListJobs.

(** ** Cursors *)

Definition cursor_ok (c : JobListCursor) : Prop :=
  representable (cur_created_at c) /\ 0 <= cur_job_id c < 2 ^ 128.

Lemma cursor_json_wf c : wf_json (cursor_json c) = true.
Proof. reflexivity. Qed.

Lemma bytes_of_range s : Forall Base64.is_byte (bytes_of s).
Proof.
  unfold bytes_of. apply List.Forall_map, List.Forall_forall. intros c _.
  unfold Base64.is_byte, code_point. pose proof (N_ascii_bounded c). lia.
Qed.

Lemma url_char_ascii s : all_chars Base64.url_char s = true -> is_ascii s = true.
Proof.
  unfold is_ascii. induction s as [|c s IH]; [done|]. cbn [all_chars].
  intros [Hc Hs]%andb_true_iff. rewrite (IH Hs), andb_true_r.
  by destruct c as [ [] [] [] [] [] [] [] []].
Qed.

Section codec.
Context `{JR : JsonReader} `{IR : IsoReader}.

Lemma read_encoded c : cursor_ok c -> read_cursor (_encode_cursor c) = Some c.
Proof.
  intros [Ht Hi]. unfold read_cursor, _encode_cursor.
  rewrite url_char_ascii by apply Base64.encode_url_chars, bytes_of_range. cbn [negb].
  rewrite Base64.decode_encode by apply bytes_of_range. cbn [mbind option_bind].
  rewrite loads_dumps by apply cursor_json_wf. cbn [mbind option_bind].
  change (canon (cursor_json c)) with (JObj [
    ("created_at", JStr (isoformat (cur_created_at c)));
    ("id", JStr (str_of_uuid (cur_job_id c))); ("v", JNum 1)]).
  cbn iota.
  rewrite bool_decide_eq_true_2 by (vm_compute; reflexivity). cbn [negb].
  cbn [json_get String.eqb Ascii.eqb Bool.eqb mbind option_bind equals_one Z.eqb Pos.eqb negb].
  rewrite fromisoformat_isoformat by done. cbn [mbind option_bind].
  rewrite UuidRoundTrip.parse_str_of_uuid by done. by destruct c.
Qed.
End codec.

(** ** Rows in keyset order *)

Lemma newest_first_total a b : newest_first a b = true \/ newest_first b a = true.
Proof.
  unfold newest_first. rewrite !orb_true_iff, !andb_true_iff, !Z.ltb_lt, !Z.eqb_eq, !Z.leb_le. lia.
Qed.

Lemma newest_first_trans a b c :
  newest_first a b = true -> newest_first b c = true -> newest_first a c = true.
Proof.
  unfold newest_first. rewrite !orb_true_iff, !andb_true_iff, !Z.ltb_lt, !Z.eqb_eq, !Z.leb_le. lia.
Qed.

Definition cursor_of (j : Job) : JobListCursor := mkJobListCursor (j_created_at j) (j_id j).

(** [b] comes strictly after [a] in the listing. *)
Definition before (a b : Job) : Prop :=
  j_created_at b < j_created_at a \/ (j_created_at b = j_created_at a /\ j_id b < j_id a).

Lemma after_cursor_of a b :
  SqlAlchemyJobRepository.after_cursor (Some (cursor_of a)) b = true <-> before a b.
Proof.
  unfold before. cbn. unfold SqlAlchemyJobRepository._keyset_clause. cbn.
  rewrite orb_true_iff, andb_true_iff, !Z.ltb_lt, Z.eqb_eq. done.
Qed.

Lemma after_cursor_trans c a b :
  SqlAlchemyJobRepository.after_cursor c a = true -> before a b ->
  SqlAlchemyJobRepository.after_cursor c b = true.
Proof.
  destruct c as [ [t i]|]; [|done]. unfold before. cbn.
  unfold SqlAlchemyJobRepository._keyset_clause. cbn.
  rewrite !orb_true_iff, !andb_true_iff, !Z.ltb_lt, !Z.eqb_eq. lia.
Qed.

#[export] Instance before_trans : Transitive before.
Proof. intros a b c. unfold before. lia. Qed.

Lemma before_irrefl a : ~ before a a.
Proof. unfold before. lia. Qed.

(** Distinct rows in order are in strict order. *)
Lemma sorted_strict l :
  NoDup (j_id <$> l) -> StronglySorted (sorted_by newest_first) l -> StronglySorted before l.
Proof.
  induction l as [|a l IH]; intros Hn Hs; [constructor|].
  rewrite fmap_cons in Hn. apply NoDup_cons in Hn as [Ha Hn].
  apply StronglySorted_inv in Hs as [Hs HF]. constructor; [by apply IH|].
  rewrite Forall_forall in HF |- *. intros b Hb. specialize (HF b Hb).
  assert (j_id b <> j_id a) by (intros E; apply Ha; rewrite <- E; by apply list_elem_of_fmap_2).
  unfold sorted_by, newest_first in HF. unfold before.
  rewrite orb_true_iff, andb_true_iff, Z.ltb_lt, Z.eqb_eq, Z.leb_le in HF. lia.
Qed.

Section listing.
Context (u : CurrentUserDTO).

(** All the jobs the user may see, newest first. *)
Definition listing (d : DB) : list Job := order_by newest_first (select_where (visible u) (db_jobs d)).

(** The part of it after a cursor. *)
Definition rest_after (c : option JobListCursor) (d : DB) : list Job :=
  filter (fun j => SqlAlchemyJobRepository.after_cursor c j = true) (listing d).

(** A database whose jobs can be listed: rows under their identifiers, which
    have 128 bits, with times a [datetime] can hold. *)
Definition listable (d : DB) : Prop :=
  keyed j_id (db_jobs d) /\ forall k j, db_jobs d !! k = Some j -> cursor_ok (cursor_of j).

Lemma elem_of_listing d j :
  j ∈ listing d <-> visible u j = true /\ exists k, db_jobs d !! k = Some j.
Proof. unfold listing. rewrite (order_by_perm newest_first). apply elem_of_select. Qed.

Lemma elem_of_rest c d j :
  j ∈ rest_after c d <->
  SqlAlchemyJobRepository.after_cursor c j = true /\ visible u j = true
  /\ exists k, db_jobs d !! k = Some j.
Proof. unfold rest_after. by rewrite list_elem_of_filter, elem_of_listing. Qed.

Lemma rest_all d : rest_after None d = listing d.
Proof.
  unfold rest_after. induction (listing d) as [|j l IH]; [done|].
  rewrite filter_cons_True by done. by rewrite IH.
Qed.

Lemma listing_strict d : listable d -> StronglySorted before (listing d).
Proof.
  intros [Hk _]. apply sorted_strict.
  - unfold listing. rewrite (order_by_perm newest_first). by apply keyed_nodup.
  - apply order_by_sorted; [apply newest_first_total | apply newest_first_trans].
Qed.

Lemma sorted_filter (p : Job -> bool) l :
  StronglySorted before l -> StronglySorted before (filter (fun j => p j = true) l).
Proof.
  induction 1 as [|a l Hs IH HF]; [constructor|]. rewrite filter_cons. case_decide; [|exact IH].
  constructor; [exact IH|]. rewrite Forall_forall in HF |- *. intros b Hb.
  apply list_elem_of_filter in Hb as [_ Hb]. by apply HF.
Qed.

Lemma rest_strict c d : listable d -> StronglySorted before (rest_after c d).
Proof. intros H. by apply sorted_filter, listing_strict. Qed.

(** The statement with the cursor condition selects that part. *)
Lemma strict_unique l1 l2 : StronglySorted before l1 -> StronglySorted before l2 -> l1 ≡ₚ l2 -> l1 = l2.
Proof.
  intros H1 H2 Hp. apply (StronglySorted_unique_strong before); try done.
  intros x y _ _ Hxy Hyx. exfalso. apply (before_irrefl x). by etrans.
Qed.

Lemma select_rest c d :
  listable d ->
  order_by newest_first (select_where (fun j => visible u j && SqlAlchemyJobRepository.after_cursor c j)
    (db_jobs d)) = rest_after c d.
Proof.
  intros Hd. apply strict_unique.
  - apply sorted_strict.
    + rewrite (order_by_perm newest_first). apply keyed_nodup, Hd.
    + apply order_by_sorted; [apply newest_first_total | apply newest_first_trans].
  - by apply rest_strict.
  - rewrite (order_by_perm newest_first). unfold rest_after, listing.
    rewrite (order_by_perm newest_first). unfold select_where. rewrite list_filter_filter.
    erewrite list_filter_iff; [reflexivity|]. intros j. cbn. rewrite andb_true_iff. tauto.
Qed.

Lemma rest_nodup c d : listable d -> NoDup (rest_after c d).
Proof.
  intros Hd. apply (NoDup_fmap_1 j_id), (sublist_NoDup _ (j_id <$> listing d)).
  - unfold listing. rewrite (order_by_perm newest_first). apply keyed_nodup, Hd.
  - apply sublist_map, sublist_filter.
Qed.

(** What comes after a row of the listing. *)
Lemma rest_after_row c d l1 x l2 :
  listable d -> rest_after c d = l1 ++ x :: l2 -> rest_after (Some (cursor_of x)) d = l2.
Proof.
  intros Hd HR. pose proof (rest_strict c d Hd) as HS. rewrite HR in HS.
  apply strict_unique; [by apply rest_strict | |].
  - apply StronglySorted_app_1_r in HS. by apply StronglySorted_inv in HS as [? _].
  - assert (Hx : x ∈ rest_after c d) by (rewrite HR; apply elem_of_app; right; left).
    pose proof (rest_nodup c d Hd) as Hn. rewrite HR in Hn.
    apply NoDup_app in Hn as (_ & _ & [_ Hn]%NoDup_cons).
    apply NoDup_Permutation; [by apply rest_nodup | done |].
    intros b. rewrite elem_of_rest, after_cursor_of. split.
    + intros (Hb & Hv & Hk).
      assert (Hin : b ∈ rest_after c d).
      { apply elem_of_rest. split; [|done]. eapply after_cursor_trans; [|exact Hb].
        by apply elem_of_rest in Hx as [? _]. }
      rewrite HR in Hin. apply elem_of_app in Hin as [Hin|[->|Hin]%elem_of_cons]; [| |done].
      * exfalso. apply (before_irrefl b). etrans; [|exact Hb].
        eapply (StronglySorted_app_1_elem_of before); [exact HS | exact Hin | left].
      * by destruct (before_irrefl x).
    + intros Hb. assert (Hin : b ∈ rest_after c d) by (rewrite HR; apply elem_of_app; right; by right).
      apply elem_of_rest in Hin as (_ & Hv & Hk). split; [|done].
      apply StronglySorted_app_1_r in HS. apply StronglySorted_inv in HS as [_ HF].
      rewrite Forall_forall in HF. by apply HF.
Qed.

End listing.

(** ** One page *)

(** The page of at most [n] of the jobs [rest]. *)
Definition page_of (rest : list Job) (n : Z) : JobListPageDTO :=
  mkJobListPageDTO (public <$> take (Z.to_nat n) rest)
    (if n <? Z.of_nat (List.length rest)
     then _encode_cursor ∘ cursor_of <$> last (take (Z.to_nat n) rest) else None).

Lemma normalized_limit_range lim : 1 <= _normalize_limit lim <= 100.
Proof. unfold _normalize_limit, DEFAULT_LIST_LIMIT, MAX_LIST_LIMIT. destruct lim; lia. Qed.

Lemma build_page rest n :
  1 <= n ->
  _build_job_list_page (_to_stored_job_dto <$> limit (n + 1) rest) n = page_of rest n.
Proof.
  intros Hn. unfold _build_job_list_page, page_of, limit.
  rewrite <- fmap_take, take_take, length_fmap, length_take.
  replace (Z.to_nat n `min` Z.to_nat (n + 1))%nat with (Z.to_nat n) by lia.
  f_equal; [rewrite <- list_fmap_compose; done|].
  assert (E : (n <? Z.of_nat (Z.to_nat (n + 1) `min` List.length rest)) = (n <? Z.of_nat (List.length rest))).
  { destruct (Z.ltb_spec n (Z.of_nat (List.length rest)));
      destruct (Z.ltb_spec n (Z.of_nat (Z.to_nat (n + 1) `min` List.length rest))); lia. }
  rewrite E. destruct (n <? Z.of_nat (List.length rest)); [|reflexivity]. rewrite fmap_last.
  by destruct (last (take (Z.to_nat n) rest)).
Qed.

(** Where a page that has a successor ends. *)
Lemma page_next rest n :
  1 <= n ->
  (Z.of_nat (List.length rest) <= n /\ page_of rest n = mkJobListPageDTO (public <$> rest) None) \/
  (exists l x, rest = l ++ x :: drop (Z.to_nat n) rest /\ n < Z.of_nat (List.length rest) /\
    page_of rest n = mkJobListPageDTO (public <$> l ++ [x]) (Some (_encode_cursor (cursor_of x)))).
Proof.
  intros Hn. unfold page_of. destruct (Z.ltb_spec n (Z.of_nat (List.length rest))) as [Hl|Hl].
  - right. destruct (take (Z.to_nat n) rest) as [|a l] eqn:E using rev_ind.
    { apply (f_equal (@List.length _)) in E. rewrite length_take in E. cbn in E. lia. }
    exists l, a. split; [|split; [done|] ].
    + rewrite <- (take_drop (Z.to_nat n) rest) at 1. rewrite E, <- app_assoc. done.
    + by rewrite last_snoc.
  - left. split; [done|]. by rewrite take_ge by lia.
Qed.

(** How a client names its position. *)
Inductive cursor_text `{JsonReader} `{IsoReader} : option string -> option JobListCursor -> Prop :=
| no_cursor : cursor_text None None
| some_cursor s c : read_cursor s = Some c -> cursor_text (Some s) (Some c).

Section pages.
Context `{JR : JsonReader} `{IR : IsoReader} `{JC : JobListCache} `{JCL : !JobListCacheLaws JC}.

Lemma frame_env_step w w' : frame w w' -> frame (env_step w) (env_step w').
Proof. intros []. constructor; cbn; congruence. Qed.

Lemma list_jobs_page u cur c lim w :
  fst (get_page (cache_owner u) cur (_normalize_limit lim) w) = Ok None ->
  cursor_text cur c -> listable (w_db (env_step w)) ->
  wp (list_jobs u cur lim) (fun o w' =>
    o = Ok (page_of (rest_after u c (w_db (env_step w))) (_normalize_limit lim))
    /\ frame (env_step w) w') w.
Proof using All.
  intros Hm Hc Hd. unfold list_jobs. rewrite wp_bind. unfold wp at 1.
  pose proof (get_page_framed (cache_owner u) cur (_normalize_limit lim) w) as F1.
  destruct (get_page _ _ _ w) as [o1 w1]. cbn [fst snd] in *. subst o1. cbn iota.
  pose proof (frame_env_step _ _ F1) as F.
  pose proof (frame_db _ _ F) as Hdb.
  assert (Hcur : forall Q : outcome (option JobListCursor) -> World -> Prop,
    Q (Ok c) w1 -> wp (match cur with
      | Some cursor => c ← lift (_decode_cursor cursor); mret (Some c) | None => mret None end) Q w1).
  { intros Q HQ. destruct Hc as [|s c Hs]; wp_run; [done|]. unfold _decode_cursor. by rewrite Hs. }
  rewrite wp_bind. apply Hcur. clear Hcur Hc. wp_run.
  assert (Hq : forall Q : outcome (list StoredJobDTO) -> World -> Prop,
    Q (Ok (_to_stored_job_dto <$> limit (_normalize_limit lim + 1) (rest_after u c (w_db (env_step w)))))
      (in_tx (env_step w1) None false) ->
    if bool_decide (cu_role u = ADMIN)
    then wp (SqlAlchemyJobRepository.list_all_keyset c (_normalize_limit lim + 1)) Q
           (in_tx (env_step w1) None false)
    else wp (SqlAlchemyJobRepository.list_for_owner_keyset (cu_id u) c (_normalize_limit lim + 1)) Q
           (in_tx (env_step w1) None false)).
  { intros Q HQ. autounfold with repo.
    assert (Hsel := select_rest u c (w_db (env_step w)) Hd). rewrite <- Hdb in Hsel, HQ.
    rewrite <- Hsel in HQ. unfold visible in HQ.
    destruct (bool_decide (cu_role u = ADMIN)); wp_run; exact HQ. }
  apply Hq. clear Hq. wp_run. rewrite build_page by apply normalized_limit_range.
  apply wp_framed_total; [apply set_page_framed | intros; apply set_page_total |].
  intros w2 F2. wp_run. split; [done|]. by etrans.
Qed.

(** ** Following the cursors *)

(** A cache that has nothing for anybody. *)
Hypothesis misses : forall o c n w, fst (get_page o c n w) = Ok None.

(** A client that fetches pages until there is no next cursor. *)
Fixpoint fetch_all (fuel : nat) (u : CurrentUserDTO) (cursor : option string) (lim : option Z)
    : M (list JobPublicDTO) :=
  match fuel with
  | O => raise (RuntimeErr "more pages")
  | S k =>
      page ← list_jobs u cursor lim;
      match pg_next_cursor page with
      | None => mret (pg_items page)
      | Some next => rest ← fetch_all k u (Some next) lim; mret (pg_items page ++ rest)
      end
  end.

Lemma cursor_text_row u c d l x r :
  listable d -> rest_after u c d = l ++ x :: r ->
  cursor_text (Some (_encode_cursor (cursor_of x))) (Some (cursor_of x)).
Proof using.
  intros [_ Hd] HR. constructor. apply read_encoded.
  assert (Hx : x ∈ rest_after u c d) by (rewrite HR; apply elem_of_app; right; left).
  apply elem_of_rest in Hx as (_ & _ & k & Hk). by apply (Hd k).
Qed.

(** The first page and the pages after it. *)
Lemma fetch_all_cases u c cur lim k w (Q : outcome (list JobPublicDTO) -> World -> Prop) :
  cursor_text cur c -> listable (w_db (env_step w)) ->
  (forall w1, frame (env_step w) w1 ->
    Q (Ok (public <$> rest_after u c (w_db (env_step w)))) w1) ->
  (forall l x r w1, frame (env_step w) w1 -> rest_after u c (w_db (env_step w)) = l ++ x :: r ->
    cursor_text (Some (_encode_cursor (cursor_of x))) (Some (cursor_of x)) ->
    (forall w2, snd (list_jobs u cur lim w) = w2 -> w2 = w1) ->
    wp (fetch_all k u (Some (_encode_cursor (cursor_of x))) lim) (fun o w' =>
      match o with Ok rest => Q (Ok ((public <$> l ++ [x]) ++ rest)) w' | Exc e => Q (Exc e) w' end) w1) ->
  wp (fetch_all (S k) u cur lim) Q w.
Proof using All.
  intros Hc Hd Hlast Hmore. cbn [fetch_all]. rewrite wp_bind.
  pose proof (list_jobs_page u cur c lim w (misses _ _ _ _) Hc Hd) as HP. unfold wp in HP |- *.
  destruct (list_jobs u cur lim w) as [o w1] eqn:Hrun. cbn [fst snd] in *. destruct HP as [-> F].
  destruct (page_next (rest_after u c (w_db (env_step w))) (_normalize_limit lim)) as
    [ [_ ->]|(l & x & HR & _ & ->)]; [apply normalized_limit_range| |].
  - by apply Hlast.
  - cbn [pg_next_cursor pg_items].
    specialize (Hmore l x _ w1 F HR (cursor_text_row _ _ _ _ _ _ Hd HR)).
    change (wp (fetch_all k u (Some (_encode_cursor (cursor_of x))) lim ≫= fun rest =>
      mret ((public <$> l ++ [x]) ++ rest)) Q w1).
    rewrite wp_bind. eapply wp_mono; [|apply Hmore; congruence].
    intros [rest|e] w'; exact id.
Qed.

(** Nothing else happening, the pages are the listing. *)
Lemma fetch_all_static u lim fuel cur c w :
  cursor_text cur c -> w_env w = [] -> listable (w_db w) ->
  (List.length (rest_after u c (w_db w)) < fuel)%nat ->
  wp (fetch_all fuel u cur lim) (fun o w' =>
    o = Ok (public <$> rest_after u c (w_db w)) /\ frame w w') w.
Proof using All.
  revert cur c w; induction fuel as [|k IH]; intros cur c w Hc He Hd Hl; [lia|].
  apply (fetch_all_cases u c); rewrite ?env_step_nil by done; try done.
  intros l x r w1 F HR Hx _. pose proof (rest_after_row u c _ _ _ _ Hd HR) as Hr.
  rewrite HR, length_app in Hl. cbn [List.length] in Hl.
  eapply wp_mono; [|apply (IH _ _ w1 Hx)].
  - intros o w' [-> F']. rewrite (frame_db _ _ F), Hr, HR.
    split; [|by etrans]. by rewrite <- fmap_app, <- app_assoc.
  - by rewrite (frame_env _ _ F).
  - by rewrite (frame_db _ _ F).
  - rewrite (frame_db _ _ F), Hr. lia.
Qed.

(** ** Pages fetched while others commit *)

(** The other processes keep rows and add listable ones. *)
Definition env_lists (w : World) : Prop :=
  Forall (fun f => forall d, listable d -> listable (f d) /\ evolves d (f d)) (w_env w).

Lemma env_lists_step w :
  env_lists w -> listable (w_db w) ->
  listable (w_db (env_step w)) /\ evolves (w_db w) (w_db (env_step w)) /\ env_lists (env_step w).
Proof using.
  unfold env_lists. intros He Hd. destruct w as [d ? ? ? ? ? ? [|f fs] ? ? ? ?]; cbn in *; [done|].
  apply Forall_cons in He as [Hf He]. destruct (Hf d Hd). done.
Qed.

Definition listed_before (p q : JobPublicDTO) : Prop :=
  jp_created_at q < jp_created_at p \/ (jp_created_at q = jp_created_at p /\ jp_id q < jp_id p).

(** [p] shows the job it names as some committed state between had it. *)
Definition shows (u : CurrentUserDTO) (c : option JobListCursor) (d' : DB) (p : JobPublicDTO) : Prop :=
  exists j j', p = public j /\ visible u j = true /\ SqlAlchemyJobRepository.after_cursor c j = true /\
    db_jobs d' !! jp_id p = Some j' /\ job_evolves j j'.

Record collected (u : CurrentUserDTO) (c : option JobListCursor) (d d' : DB) (l : list JobPublicDTO)
  : Prop := mkCollected {
  cl_sorted : StronglySorted listed_before l;
  cl_shows : Forall (shows u c d') l;
  cl_complete k j :
    db_jobs d !! k = Some j -> visible u j = true -> SqlAlchemyJobRepository.after_cursor c j = true ->
    exists p, p ∈ l /\ jp_id p = k
}.

(** The rows of one reading, as pages of a later state [d']. *)
Lemma collected_rest u c d0 d d' :
  listable d -> evolves d0 d -> evolves d d' -> (forall k j, db_jobs d0 !! k = Some j -> j_id j = k) ->
  collected u c d0 d' (public <$> rest_after u c d).
Proof using.
  intros Hd E0 E Hid. constructor.
  - pose proof (rest_strict u c d Hd) as HS. induction HS as [|a l _ IH HF]; [constructor|].
    rewrite fmap_cons. constructor; [exact IH|]. rewrite Forall_fmap. exact HF.
  - rewrite Forall_fmap, Forall_forall. intros j Hj.
    apply elem_of_rest in Hj as (Ha & Hv & k & Hk). destruct (E k j Hk) as (j' & Hj' & HE).
    exists j, j'. do 3 (split; [done|]). split; [|exact HE]. cbn. by rewrite (proj1 Hd _ _ Hk).
  - intros k j Hj Hv Ha. destruct (E0 k j Hj) as (j' & Hj' & HE).
    exists (public j'). split; [|by rewrite <- (proj1 Hd _ _ Hj')].
    apply list_elem_of_fmap_2, elem_of_rest. split; [|split; [|by eexists] ].
    + revert Ha. destruct c as [ [t i]|]; [|done]. cbn. unfold SqlAlchemyJobRepository._keyset_clause.
      by rewrite (ev_created _ _ HE), (ev_id _ _ HE).
    + revert Hv. unfold visible. by rewrite (ev_owner _ _ HE).
Qed.

(** Pages up to a row, and the pages after it. *)
Lemma collected_app u c x d0 d1 d' l r l' :
  listable d1 -> evolves d0 d1 -> evolves d1 d' -> (forall k j, db_jobs d0 !! k = Some j -> j_id j = k) ->
  rest_after u c d1 = l ++ x :: r -> collected u (Some (cursor_of x)) d1 d' l' ->
  collected u c d0 d' ((public <$> l ++ [x]) ++ l').
Proof using.
  intros Hd E0 E Hid HR [Hs Hsh Hc].
  pose proof (collected_rest u c d0 d1 d' Hd E0 E Hid) as [Ks Ksh Kc].
  assert (HR' : rest_after u c d1 = (l ++ [x]) ++ r) by (by rewrite <- app_assoc).
  rewrite HR', fmap_app in Ks, Ksh, Kc.
  assert (Hax : SqlAlchemyJobRepository.after_cursor c x = true).
  { assert (Hx : x ∈ rest_after u c d1) by (rewrite HR; apply elem_of_app; right; left).
    by apply elem_of_rest in Hx as [? _]. }
  constructor.
  - apply StronglySorted_app_2; [|by apply StronglySorted_app_1_l in Ks | done].
    intros p q Hp Hq. rewrite Forall_forall in Hsh.
    destruct (Hsh q Hq) as (j & j' & -> & _ & Ha%after_cursor_of & _).
    apply list_elem_of_fmap in Hp as (i & -> & Hi).
    change (before i j). apply elem_of_app in Hi as [Hi|Hi%list_elem_of_singleton]; [|by subst].
    etrans; [|exact Ha]. pose proof (rest_strict u c d1 Hd) as HS. rewrite HR in HS.
    eapply (StronglySorted_app_1_elem_of before); [exact HS | exact Hi | left].
  - apply Forall_app in Ksh as [Ksh _]. apply Forall_app. split; [done|].
    eapply Forall_impl; [exact Hsh|]. intros p (j & j' & -> & Hv & Ha & Hj & HE).
    exists j, j'. do 2 (split; [done|]). split; [|done].
    eapply after_cursor_trans; [exact Hax|]. by apply after_cursor_of.
  - intros k j Hj Hv Ha. destruct (Kc k j Hj Hv Ha) as (p & Hp & Hk).
    apply elem_of_app in Hp as [Hp|Hp]; [exists p; split; [by apply elem_of_app; left | done]|].
    apply list_elem_of_fmap in Hp as (i & -> & Hi).
    rewrite <- (rest_after_row u c d1 l x r Hd HR) in Hi.
    apply elem_of_rest in Hi as (Hia & Hiv & k' & Hk').
    assert (k' = k) as -> by (rewrite <- Hk; symmetry; by apply (proj1 Hd)).
    destruct (Hc k i Hk' Hiv Hia) as (q & Hq & Hqk). exists q. split; [by apply elem_of_app; right | done].
Qed.

(** The pages come to an end, because the others do. *)
Lemma fetch_all_collects u lim cur c w :
  cursor_text cur c -> env_lists w -> listable (w_db w) ->
  exists fuel0, forall fuel, (fuel0 <= fuel)%nat ->
  wp (fetch_all fuel u cur lim) (fun o w' =>
    exists l, o = Ok l /\ evolves (w_db w) (w_db w') /\ collected u c (w_db w) (w_db w') l) w.
Proof using All.
  remember (List.length (w_env w)) as n eqn:Hn. revert cur c w Hn.
  induction n as [|n IH]; intros cur c w Hn Hc He Hd.
  - exists (S (List.length (rest_after u c (w_db w)))). intros fuel Hf.
    eapply wp_mono; [|apply (fetch_all_static u lim fuel cur c w Hc); [|done|lia] ].
    + intros o w' [-> F]. exists (public <$> rest_after u c (w_db w)). rewrite (frame_db _ _ F).
      split; [done|]. split; [done|]. apply collected_rest; (done || by apply Hd).
    + by destruct (w_env w).
  - destruct (env_lists_step w He Hd) as (Hd1 & E0 & He1).
    assert (Hn1 : List.length (w_env (env_step w)) = n).
    { cbn. destruct (w_env w); cbn in *; congruence. }
    set (w1 := snd (list_jobs u cur lim w)).
    pose proof (list_jobs_page u cur c lim w (misses _ _ _ _) Hc Hd1) as HP. unfold wp in HP.
    fold w1 in HP. destruct HP as [_ F1].
    assert (Hfuel : exists fuel0, forall fuel, (fuel0 <= fuel)%nat ->
      forall x, x ∈ rest_after u c (w_db (env_step w)) ->
      wp (fetch_all fuel u (Some (_encode_cursor (cursor_of x))) lim) (fun o w' =>
        exists l, o = Ok l /\ evolves (w_db w1) (w_db w') /\
          collected u (Some (cursor_of x)) (w_db w1) (w_db w') l) w1).
    { apply uniform_bound. intros x (l & r & HR)%list_elem_of_split. apply IH.
      - by rewrite (frame_env _ _ F1).
      - by eapply cursor_text_row.
      - unfold env_lists. by rewrite (frame_env _ _ F1).
      - by rewrite (frame_db _ _ F1). }
    destruct Hfuel as [fuel0 Hfuel]. exists (S fuel0). intros [|fuel] Hf; [lia|].
    apply (fetch_all_cases u c); try done.
    + intros w2 F2. eexists. split; [done|]. rewrite (frame_db _ _ F2). split; [done|].
      apply collected_rest; (done || by apply Hd).
    + intros l x r w2 F2 HR Hx Hw2. assert (w2 = w1) as -> by (symmetry; by apply Hw2).
      eapply wp_mono; [|apply (Hfuel fuel ltac:(lia) x);
        rewrite HR; apply elem_of_app; right; left].
      intros o w' (l' & -> & E & C). exists ((public <$> l ++ [x]) ++ l'). split; [done|].
      rewrite (frame_db _ _ F1) in E, C. split; [by etrans|].
      eapply (collected_app u c x _ (w_db (env_step w))); (done || apply Hd).
Qed.

End pages.
