(* ===== verification/Redis.v ===== *)
(** * Redis: the commands the rate limiter and the list cache send, on the keys
    of [w_redis], and calls that may fail. *)
From S2P Require Import Prelude Exceptions Domain Store Effects PostCommit JsonText.

(** How a call to Redis ends: answered; not carried out; or carried out and the
    answer lost. *)
Inductive RedisOutcome := RedisOk | RedisDown (msg : string) | RedisLost (msg : string).

(** The server as a client meets it: its own clock, and how the next call
    ends. *)
Class RedisServer := {
  redis_time : World -> datetime;
  redis_answer : World -> RedisOutcome
}.

(** A command or a script, carried out in one step at a time of the server. *)
Definition Script (A : Type) : Type :=
  datetime -> gmap string RedisEntry -> outcome A * gmap string RedisEntry.

#[export] Instance Script_ret : MRet Script := fun A a _ r => (Ok a, r).
#[export] Instance Script_bind : MBind Script := fun A B k m t r =>
  match m t r with
  | (Ok a, r') => k a t r'
  | (Exc e, r') => (Exc e, r')
  end.

Definition redis_call `{RedisServer} {A} (f : Script A) : M A := fun w =>
  let '(o, r) := f (redis_time w) (w_redis w) in
  match redis_answer w with
  | RedisOk => (o, set_redis r w)
  | RedisDown m => (Exc (InfraErr m), w)
  | RedisLost m => (Exc (InfraErr m), set_redis r w)
  end.

(** ** Commands *)

(** The entry of a key that has not expired. *)
Definition live (t : datetime) (r : gmap string RedisEntry) (key : string) : option RedisEntry :=
  match r !! key with
  | Some e =>
      match re_expires_at e with
      | Some until => if t <? until then Some e else None
      | None => Some e
      end
  | None => None
  end.

(** A signed 64-bit integer in decimal, as INCR and DECR require. *)
Definition in_int64 (n : Z) : bool := (- 2 ^ 63 <=? n) && (n <? 2 ^ 63).

Definition redis_int (s : string) : option Z :=
  match JsonParser.number s with
  | Some (JNum n, rest) =>
      if String.eqb rest "" && String.eqb (str_of_int n) s && in_int64 n then Some n else None
  | _ => None
  end.

Definition GET (key : string) : Script (option string) := fun t r =>
  (Ok (re_value <$> live t r key), r).

Definition SET_EX (key value : string) (ex : Z) : Script unit := fun t r =>
  (Ok tt, <[key := mkRedisEntry value (Some (t + seconds ex))]> r).

(** INCR and DECR: an absent key counts as 0; the time to live stays. *)
Definition INCRBY (key : string) (delta : Z) : Script Z := fun t r =>
  match live t r key with
  | None => (Ok delta, <[key := mkRedisEntry (str_of_int delta) None]> r)
  | Some e =>
      match redis_int (re_value e) with
      | None => (Exc (InfraErr "ERR value is not an integer or out of range"), r)
      | Some n =>
          if in_int64 (n + delta)
          then (Ok (n + delta), <[key := mkRedisEntry (str_of_int (n + delta)) (re_expires_at e)]> r)
          else (Exc (InfraErr "ERR increment or decrement would overflow"), r)
      end
  end.

Definition INCR (key : string) : Script Z := INCRBY key 1.
Definition DECR (key : string) : Script Z := INCRBY key (-1).

Definition EXPIRE (key : string) (ex : Z) : Script Z := fun t r =>
  match live t r key with
  | None => (Ok 0, r)
  | Some e => (Ok 1, <[key := mkRedisEntry (re_value e) (Some (t + seconds ex))]> r)
  end.

(** The seconds left, rounded; -1 without expiry, -2 without key. *)
Definition TTL (key : string) : Script Z := fun t r =>
  (Ok match live t r key with
      | None => -2
      | Some e =>
          match re_expires_at e with
          | None => -1
          | Some until => ((until - t) / 1000 + 500) / 1000
          end
      end, r).

Definition DEL (key : string) : Script unit := fun t r => (Ok tt, delete key r).

(** ** Facts *)

Lemma redis_int_str n : in_int64 n = true -> redis_int (str_of_int n) = Some n.
Proof.
  intros H. unfold redis_int. pose proof (JsonRoundTrip.number_str_of_int n "" I) as E.
  rewrite JsonRoundTrip.app_empty_r in E. rewrite E, H, !String.eqb_refl. done.
Qed.

Lemma framed_redis_call `{RedisServer} {A} (f : Script A) : framed (redis_call f).
Proof.
  intros w. unfold redis_call. destruct (f (redis_time w) (w_redis w)) as [o r].
  destruct (redis_answer w); cbn; auto with app.
Qed.

#[export] Hint Resolve framed_redis_call : app.

(** An attempted call that answers. *)
Lemma attempt_redis_ok `{RedisServer} {A} (f : Script A) w :
  redis_answer w = RedisOk ->
  attempt (redis_call f) w =
  (Ok (fst (f (redis_time w) (w_redis w))), set_redis (snd (f (redis_time w) (w_redis w))) w).
Proof.
  intros H0. unfold attempt, redis_call. rewrite H0. by destruct (f (redis_time w) (w_redis w)).
Qed.

(** An attempted call that does not. *)
Lemma attempt_redis_failed `{RedisServer} {A} (f : Script A) w :
  redis_answer w <> RedisOk -> exists m r, attempt (redis_call f) w = (Ok (Exc (InfraErr m)), set_redis r w).
Proof.
  intros H0. unfold attempt, redis_call. destruct (f (redis_time w) (w_redis w)) as [o r].
  destruct (redis_answer w) as [|m|m]; [done|exists m, (w_redis w); by destruct w | by exists m, r].
Qed.

Lemma live_insert t r key e :
  (forall until, re_expires_at e = Some until -> t < until) -> live t (<[key := e]> r) key = Some e.
Proof.
  intros H. unfold live. rewrite lookup_insert_eq. destruct (re_expires_at e) as [until|]; [|done].
  by rewrite (proj2 (Z.ltb_lt _ _)) by auto.
Qed.

Lemma live_insert_ne t r key key' e : key <> key' -> live t (<[key := e]> r) key' = live t r key'.
Proof. intros H. unfold live. by rewrite lookup_insert_ne. Qed.

Lemma live_delete t r key : live t (delete key r) key = None.
Proof. unfold live. by rewrite lookup_delete_eq. Qed.

Lemma live_none t r key : r !! key = None -> live t r key = None.
Proof. unfold live. by intros ->. Qed.
