(* ===== verification/RateLimiter.v ===== *)
(** * RateLimiter: [RedisCreateJobRateLimiter] of
    [app/infrastructure/redis/rate_limiter.py], a fixed-window counter in
    Redis, and what it does to the counters. *)
From S2P Require Import Prelude Exceptions Domain Store Effects PostCommit Config JsonText Iso Redis.

Definition KEY_EXPIRY_MARGIN_SECONDS : Z := 5.

(** [CREATE_JOB_RATE_LIMIT_SCRIPT]. *)
Definition CREATE_JOB_RATE_LIMIT_SCRIPT (key : string) (expiry_seconds : Z) : Script (Z * Z) :=
  current ← INCR key;
  (if current =? 1 then EXPIRE key expiry_seconds else mret 0);;
  ttl ← TTL key;
  mret (current, ttl).

(** [RELEASE_CREATE_JOB_RATE_LIMIT_SCRIPT]; [tonumber] of what INCR wrote. *)
Definition RELEASE_CREATE_JOB_RATE_LIMIT_SCRIPT (key : string) : Script Z :=
  current ← GET key;
  match current with
  | None => mret 0
  | Some current =>
      match redis_int current with
      | None => fun _ r => (Exc (InfraErr "ERR attempt to compare nil with number"), r)
      | Some current =>
          if current <=? 1 then DEL key;; mret 0
          else DECR key
      end
  end.

(** [RateLimitExceededError(...)]. *)
Definition rate_limit_exceeded (limit retry_after_seconds reset_epoch : Z) : exn :=
  AppErr (application_error RateLimitExceededError None None (Some
    [("Retry-After", str_of_int retry_after_seconds);
     ("X-RateLimit-Limit", str_of_int limit);
     ("X-RateLimit-Remaining", "0");
     ("X-RateLimit-Reset", str_of_int reset_epoch)])).

Section limiter.
Context `{RS : RedisServer} (settings : Settings).

(** [_build_window_key]. *)
Definition window_start (now : datetime) : Z :=
  let now_epoch := epoch_seconds now in
  now_epoch - now_epoch mod create_job_rate_window_seconds settings.

Definition window_key (user_id : uuid) (window_start_epoch : Z) : string :=
  "rate:create-job:" +:+ str_of_uuid user_id +:+ ":" +:+ str_of_int window_start_epoch.

Definition _build_window_key (user_id : uuid) (now : datetime) : string * Z :=
  let window_start_epoch := window_start now in
  (window_key user_id window_start_epoch,
   window_start_epoch + create_job_rate_window_seconds settings).

(** [reserve]. *)
Definition limiter_reserve (user_id : uuid) : M (option CreateJobRateLimitReservationDTO) :=
  now ← now;
  let '(key, reset_epoch) := _build_window_key user_id now in
  let expiry_seconds := create_job_rate_window_seconds settings + KEY_EXPIRY_MARGIN_SECONDS in
  let retry_after_seconds := Z.max (reset_epoch - epoch_seconds now) 0 in
  raw_result ← attempt (redis_call (CREATE_JOB_RATE_LIMIT_SCRIPT key expiry_seconds));
  match raw_result with
  | Exc _ => mret None
  | Ok (used, _) =>
      let remaining := Z.max (create_job_rate_limit settings - used) 0 in
      let reservation := mkCreateJobRateLimitReservationDTO key (create_job_rate_limit settings)
        used remaining retry_after_seconds reset_epoch in
      if create_job_rate_limit settings <? used
      then raise (rate_limit_exceeded (rl_limit reservation) (rl_retry_after_seconds reservation)
                    (rl_reset_epoch reservation))
      else mret (Some reservation)
  end.

(** [release]. *)
Definition limiter_release (reservation : CreateJobRateLimitReservationDTO) : M unit :=
  _ ← attempt (redis_call (RELEASE_CREATE_JOB_RATE_LIMIT_SCRIPT (rl_key reservation)));
  mret tt.

Definition RedisCreateJobRateLimiter : CreateJobRateLimiter := {|
  reserve := limiter_reserve;
  release := limiter_release
|}.

End limiter.

(** ** The limiter keeps the promises of its interface *)

#[export] Instance redis_limiter_laws `{RedisServer} settings :
  RateLimiterLaws (RedisCreateJobRateLimiter settings).
Proof.
  constructor.
  - intros u. cbn. apply framed_bind; [apply framed_now|]. intros t.
    destruct (_build_window_key settings u t) as [key reset].
    apply framed_bind; [apply framed_attempt, framed_redis_call|].
    intros [ [used ttl]|e]; [|apply framed_ret]. destruct (_ <? _); [apply framed_raise | apply framed_ret].
  - intros r. cbn. apply framed_bind; [apply framed_attempt, framed_redis_call|].
    intros. apply framed_ret.
  - intros r w. cbn. unfold limiter_release, mbind, M_bind, attempt. by destruct (redis_call _ w).
Qed.

(** ** The counters *)

(** The counter of a key, if it is one that the scripts keep. *)
Definition counter (t : datetime) (r : gmap string RedisEntry) (key : string) (n : Z) : Prop :=
  match live t r key with
  | None => n = 0
  | Some e => re_value e = str_of_int n /\ 1 <= n
  end.

Lemma counter_fun t r key n m : counter t r key n -> counter t r key m -> n = m.
Proof.
  unfold counter. destruct (live t r key) as [e|]; [|congruence].
  intros [H1 _] [H2 _]. rewrite H1 in H2.
  assert (E : forall k, JsonParser.number (str_of_int k) = Some (JNum k, "")).
  { intros k. pose proof (JsonRoundTrip.number_str_of_int k "" I) as Hk.
    by rewrite JsonRoundTrip.app_empty_r in Hk. }
  pose proof (E n) as En. rewrite H2, E in En. congruence.
Qed.

(** The reservation script counts one more, and gives a new counter a time to
    live. *)
Lemma create_script_spec t r key ex n :
  counter t r key n -> n + 1 < 2 ^ 63 -> 0 < ex ->
  exists until ttl, CREATE_JOB_RATE_LIMIT_SCRIPT key ex t r =
    (Ok (n + 1, ttl), <[key := mkRedisEntry (str_of_int (n + 1)) until]> r) /\
    match live t r key with
    | None => until = Some (t + seconds ex)
    | Some e => until = re_expires_at e
    end.
Proof.
  intros Hc Hn Hex. unfold CREATE_JOB_RATE_LIMIT_SCRIPT, counter in *.
  assert (Hex' : t < t + seconds ex) by (unfold seconds; lia).
  unfold mbind, Script_bind, INCR, INCRBY. destruct (live t r key) as [e|] eqn:Hl.
  - destruct Hc as [Hv H1].
    rewrite Hv, redis_int_str by (unfold in_int64; rewrite andb_true_iff, Z.leb_le, Z.ltb_lt; lia).
    replace (in_int64 (n + 1)) with true
      by (symmetry; unfold in_int64; rewrite andb_true_iff, Z.leb_le, Z.ltb_lt; lia).
    rewrite (proj2 (Z.eqb_neq (n + 1) 1)) by lia.
    exists (re_expires_at e). eexists. split; [reflexivity | done].
  - subst n. cbn [Z.add Z.eqb Pos.eqb]. unfold EXPIRE. rewrite live_insert by done.
    rewrite insert_insert_eq. exists (Some (t + seconds ex)). eexists. split; [reflexivity | done].
Qed.

(** Releasing takes one back. *)
Lemma release_script_spec t r key n :
  counter t r key n -> n < 2 ^ 63 ->
  exists r', RELEASE_CREATE_JOB_RATE_LIMIT_SCRIPT key t r = (Ok (Z.max (n - 1) 0), r') /\
    counter t r' key (Z.max (n - 1) 0) /\ (forall key', key' <> key -> r' !! key' = r !! key').
Proof.
  intros Hc Hn. unfold RELEASE_CREATE_JOB_RATE_LIMIT_SCRIPT, counter in *.
  unfold mbind, Script_bind, GET. destruct (live t r key) as [e|] eqn:Hl; cbn [fmap option_fmap option_map].
  - destruct Hc as [Hv H1].
    rewrite Hv, redis_int_str by (unfold in_int64; rewrite andb_true_iff, Z.leb_le, Z.ltb_lt; lia).
    destruct (Z.leb_spec n 1).
    + exists (delete key r). replace (Z.max (n - 1) 0) with 0 by lia. split; [done|].
      rewrite live_delete. split; [done|]. intros. by rewrite lookup_delete_ne.
    + unfold DECR, INCRBY. rewrite Hl, Hv,
        redis_int_str by (unfold in_int64; rewrite andb_true_iff, Z.leb_le, Z.ltb_lt; lia).
      replace (in_int64 (n + -1)) with true
        by (symmetry; unfold in_int64; rewrite andb_true_iff, Z.leb_le, Z.ltb_lt; lia).
      replace (Z.max (n - 1) 0) with (n + -1) by lia. eexists. split; [reflexivity|].
      rewrite live_insert.
      * split; [split; [done | lia]|]. intros. by rewrite lookup_insert_ne.
      * cbn. intros x Hu. unfold live in Hl. destruct (r !! key) as [e'|]; [|done].
        destruct (re_expires_at e') as [u|] eqn:Eu; [|congruence].
        destruct (Z.ltb_spec t u); [|done]. congruence.
  - subst n. exists r. rewrite Hl. done.
Qed.
