(* ===== verification/ListCache.v ===== *)
(** * ListCache: [RedisJobListCache] of [app/infrastructure/redis/job_list_cache.py],
    pages of job lists under versioned keys. *)
From S2P Require Import Prelude Exceptions Domain Store Effects PostCommit Config Text JsonText Iso.
From S2P Require Import Redis.

Definition ADMIN_LIST_VERSION_KEY : string := "jobs:list:version:admin".
Definition OWNER_LIST_VERSION_KEY (owner_id : uuid) : string :=
  "jobs:list:version:user:" +:+ str_of_uuid owner_id.
Definition VERSION_TTL_SECONDS : Z := 7 * 24 * 60 * 60.

(** ** Pages as JSON *)

Definition json_of_option {A} (f : A -> json) (o : option A) : json :=
  match o with Some a => f a | None => JNull end.

Definition encode_item (item : JobPublicDTO) : json := JObj [
  ("id", JStr (str_of_uuid (jp_id item)));
  ("owner_id", JStr (str_of_uuid (jp_owner_id item)));
  ("type", JStr (job_type_value (jp_type item)));
  ("payload", jp_payload item);
  ("status", JStr (job_status_value (jp_status item)));
  ("idempotency_key", JStr (jp_idempotency_key item));
  ("created_at", JStr (isoformat (jp_created_at item)));
  ("updated_at", JStr (isoformat (jp_updated_at item)));
  ("cancel_requested_at", json_of_option (fun t => JStr (isoformat t)) (jp_cancel_requested_at item))].

(** [_encode_page]. *)
Definition _encode_page (page : JobListPageDTO) : string :=
  dumps (JObj [("items", JArr (List.map encode_item (pg_items page)));
               ("next_cursor", json_of_option JStr (pg_next_cursor page))]).

Section decode.
Context `{JR : JsonReader} `{IR : IsoReader}.

(** [item[key]], a value of the expected type, and the conversions of
    [_decode_page]; [None] when one of them raises. *)
Definition text_of (j : json) : option string := match j with JStr s => Some s | _ => None end.

Definition ok_of {A} (o : outcome A) : option A := match o with Ok a => Some a | Exc _ => None end.

Definition optional {A} (f : json -> option A) (j : json) : option (option A) :=
  match j with JNull => Some None | _ => Some <$> f j end.

Definition time_of (j : json) : option datetime := s ← text_of j; fromisoformat s.
Definition uuid_of (j : json) : option uuid := s ← text_of j; parse_uuid s.
Definition type_of (j : json) : option JobType := s ← text_of j; ok_of (parse_job_type s).
Definition status_of (j : json) : option JobStatus := s ← text_of j; ok_of (parse_job_status s).

Definition field {A} (f : json -> option A) (key : string) (item : list (string * json)) : option A :=
  v ← json_get key item; f v.

(** One item; the attempt count is not stored, and comes back as its default. *)
Definition decode_item (j : json) : option JobPublicDTO :=
  match j with
  | JObj item =>
      id ← field uuid_of "id" item;
      owner_id ← field uuid_of "owner_id" item;
      type ← field type_of "type" item;
      payload ← field Some "payload" item;
      status ← field status_of "status" item;
      idempotency_key ← field text_of "idempotency_key" item;
      created_at ← field time_of "created_at" item;
      updated_at ← field time_of "updated_at" item;
      cancel_requested_at ← field (optional time_of) "cancel_requested_at" item;
      Some (mkJobPublicDTO id owner_id type payload status idempotency_key created_at updated_at
              cancel_requested_at 0)
  | _ => None
  end.

Definition decode_items (j : json) : option (list JobPublicDTO) :=
  match j with JArr l => mapM decode_item l | _ => None end.

(** [_decode_page]. *)
Definition _decode_page (payload : string) : outcome JobListPageDTO :=
  match
    decoded ← loads (bytes_of payload);
    match decoded with
    | JObj fields =>
        items ← field decode_items "items" fields;
        next_cursor ← field (optional text_of) "next_cursor" fields;
        Some (mkJobListPageDTO items next_cursor)
    | _ => None
    end
  with
  | Some page => Ok page
  | None => Exc (ValueErr "malformed cached page")
  end.

End decode.

(** ** The cache *)
Section cache.
Context `{JR : JsonReader} `{IR : IsoReader} `{RS : RedisServer} (settings : Settings).

Definition version_key (owner_id : option uuid) : string :=
  match owner_id with
  | None => ADMIN_LIST_VERSION_KEY
  | Some owner_id => OWNER_LIST_VERSION_KEY owner_id
  end.

(** [_get_version]: [int(value)]. *)
Definition _get_version (owner_id : option uuid) : M Z :=
  value ← redis_call (GET (version_key owner_id));
  match value with
  | None => mret 0
  | Some value =>
      match redis_int value with
      | Some n => mret n
      | None => raise (ValueErr "invalid literal for int()")
      end
  end.

(** [_cache_key]. *)
Definition _cache_key (owner_id : option uuid) (version : Z) (cursor : option string) (limit : Z)
    : string :=
  let cursor_hash := sha256_hexdigest (default "" cursor) in
  match owner_id with
  | None =>
      "jobs:list:admin:v:" +:+ str_of_int version +:+ ":cursor:" +:+ cursor_hash
      +:+ ":limit:" +:+ str_of_int limit
  | Some owner_id =>
      "jobs:list:user:" +:+ str_of_uuid owner_id +:+ ":v:" +:+ str_of_int version
      +:+ ":cursor:" +:+ cursor_hash +:+ ":limit:" +:+ str_of_int limit
  end.

(** [get_page]: a failure of Redis is a miss; the page found is decoded outside
    the [try]. *)
Definition cache_get_page (owner_id : option uuid) (cursor : option string) (limit : Z)
    : M (option JobListPageDTO) :=
  payload ← attempt (
    version ← _get_version owner_id;
    redis_call (GET (_cache_key owner_id version cursor limit)));
  match payload with
  | Exc _ => mret None
  | Ok None => mret None
  | Ok (Some payload) => page ← lift (_decode_page payload); mret (Some page)
  end.

(** [set_page]. *)
Definition cache_set_page (owner_id : option uuid) (cursor : option string) (limit : Z)
    (page : JobListPageDTO) : M unit :=
  _ ← attempt (
    version ← _get_version owner_id;
    redis_call (SET_EX (_cache_key owner_id version cursor limit) (_encode_page page)
                  (cache_ttl_seconds settings)));
  mret tt.

(** [invalidate_owner]: one MULTI/EXEC transaction. *)
Definition invalidation (owner_id : uuid) : Script unit :=
  let owner_key := OWNER_LIST_VERSION_KEY owner_id in
  INCR owner_key;;
  EXPIRE owner_key VERSION_TTL_SECONDS;;
  INCR ADMIN_LIST_VERSION_KEY;;
  EXPIRE ADMIN_LIST_VERSION_KEY VERSION_TTL_SECONDS;;
  mret tt.

Definition cache_invalidate_owner (owner_id : uuid) : M unit :=
  _ ← attempt (redis_call (invalidation owner_id));
  mret tt.

Definition RedisJobListCache : JobListCache := {|
  get_page := cache_get_page;
  set_page := cache_set_page;
  invalidate_owner := cache_invalidate_owner
|}.

End cache.

(** ** The cache keeps the promises of its interface *)
Section laws.
Context `{JR : JsonReader} `{IR : IsoReader} `{RS : RedisServer} (settings : Settings).

Lemma framed_lift {A} (o : outcome A) : framed (lift o).
Proof. intros w. reflexivity. Qed.

Lemma get_version_framed o : framed (_get_version o).
Proof.
  apply framed_bind; [apply framed_redis_call|]. intros [v|]; [|apply framed_ret].
  destruct (redis_int v); [apply framed_ret | apply framed_raise].
Qed.

#[export] Instance redis_cache_laws : JobListCacheLaws (RedisJobListCache settings).
Proof.
  constructor.
  - intros o c l. cbn. apply framed_bind.
    + apply framed_attempt, framed_bind; [apply get_version_framed | intros; apply framed_redis_call].
    + intros [ [p|]|e]; [|apply framed_ret..]. apply framed_bind; [apply framed_lift|].
      intros. apply framed_ret.
  - intros o c l p. cbn. apply framed_bind; [|intros; apply framed_ret].
    apply framed_attempt, framed_bind; [apply get_version_framed | intros; apply framed_redis_call].
  - intros o. cbn. apply framed_bind; [|intros; apply framed_ret]. apply framed_attempt, framed_redis_call.
  - intros o c l p w. cbn. unfold cache_set_page, mbind, M_bind at 1, attempt.
    by destruct (M_bind _ _ _ _ w).
  - intros o w. cbn. unfold cache_invalidate_owner, mbind, M_bind, attempt. by destruct (redis_call _ w).
Qed.

End laws.
