(* ===== verification/ListCacheSpec.v ===== *)
(** * ListCacheSpec: pages survive the cache, and what the three operations of
    [RedisJobListCache] do to the keys. *)
From S2P Require Import Prelude Exceptions Domain Store Effects Tables Config Text TextSpec JsonText Iso.
From S2P Require Import PostCommit Redis ListCache.

(** ** Pages survive the cache *)

Definition uuid_ok (u : uuid) : Prop := 0 <= u < 2 ^ 128.

Record item_ok (p : JobPublicDTO) : Prop := mkItemOk {
  io_id : uuid_ok (jp_id p);
  io_owner : uuid_ok (jp_owner_id p);
  io_payload : wf_json (jp_payload p) = true;
  io_created : representable (jp_created_at p);
  io_updated : representable (jp_updated_at p);
  io_cancel t : jp_cancel_requested_at p = Some t -> representable t
}.

Definition page_ok (page : JobListPageDTO) : Prop := Forall item_ok (pg_items page).

(** What is left of an item: not the attempt count, and the members of the
    payload sorted. *)
Definition item_as_cached (p : JobPublicDTO) : JobPublicDTO :=
  mkJobPublicDTO (jp_id p) (jp_owner_id p) (jp_type p) (canon (jp_payload p)) (jp_status p)
    (jp_idempotency_key p) (jp_created_at p) (jp_updated_at p) (jp_cancel_requested_at p) 0.

Definition as_cached (page : JobListPageDTO) : JobListPageDTO :=
  mkJobListPageDTO (item_as_cached <$> pg_items page) (pg_next_cursor page).

Lemma wf_optional_text {A} (f : A -> string) (o : option A) :
  wf_json (json_of_option (fun a => JStr (f a)) o) = true.
Proof. by destruct o. Qed.

Lemma encode_item_wf p : item_ok p -> wf_json (encode_item p) = true.
Proof.
  intros H. unfold encode_item. cbn [wf_json fmap list_fmap fst snd forallb].
  rewrite (io_payload _ H), wf_optional_text. cbn [andb]. rewrite andb_true_r.
  vm_compute. reflexivity.
Qed.

Section decode.
Context `{JR : JsonReader} `{IR : IsoReader}.

Lemma canon_item p :
  canon (encode_item p) = JObj [
    ("cancel_requested_at", json_of_option (fun t => JStr (isoformat t)) (jp_cancel_requested_at p));
    ("created_at", JStr (isoformat (jp_created_at p)));
    ("id", JStr (str_of_uuid (jp_id p)));
    ("idempotency_key", JStr (jp_idempotency_key p));
    ("owner_id", JStr (str_of_uuid (jp_owner_id p)));
    ("payload", canon (jp_payload p));
    ("status", JStr (job_status_value (jp_status p)));
    ("type", JStr (job_type_value (jp_type p)));
    ("updated_at", JStr (isoformat (jp_updated_at p)))].
Proof. unfold encode_item. destruct (jp_cancel_requested_at p); reflexivity. Qed.

Lemma decode_canon_item p : item_ok p -> decode_item (canon (encode_item p)) = Some (item_as_cached p).
Proof.
  intros []. rewrite canon_item. unfold decode_item, field, uuid_of, type_of, status_of, time_of.
  cbn [json_get String.eqb Ascii.eqb Bool.eqb mbind option_bind text_of].
  rewrite !UuidRoundTrip.parse_str_of_uuid by done. cbn [mbind option_bind].
  rewrite parse_job_type_value, parse_job_status_value. cbn [ok_of mbind option_bind].
  rewrite !fromisoformat_isoformat by done. cbn [mbind option_bind].
  unfold item_as_cached. destruct (jp_cancel_requested_at p) as [t|]; cbn [json_of_option optional].
  - cbn [text_of mbind option_bind]. by rewrite fromisoformat_isoformat by auto.
  - done.
Qed.

Lemma decode_encode_page page :
  page_ok page -> _decode_page (_encode_page page) = Ok (as_cached page).
Proof.
  intros H. unfold _decode_page, _encode_page, page_ok in *. rewrite loads_dumps.
  - cbn [mbind option_bind].
    assert (E : canon (JObj [("items", JArr (List.map encode_item (pg_items page)));
                   ("next_cursor", json_of_option JStr (pg_next_cursor page))])
      = JObj [("items", JArr (List.map canon (List.map encode_item (pg_items page))));
              ("next_cursor", json_of_option JStr (pg_next_cursor page))])
      by (destruct (pg_next_cursor page); reflexivity).
    rewrite E. unfold field. cbn [json_get String.eqb Ascii.eqb Bool.eqb mbind option_bind decode_items].
    assert (Hl : mapM decode_item (List.map canon (List.map encode_item (pg_items page)))
      = Some (item_as_cached <$> pg_items page)).
    { clear E. revert H. generalize (pg_items page). induction 1 as [|p l Hp _ IH]; [done|]. cbn [List.map mapM fmap list_fmap].
      rewrite decode_canon_item by done. cbn [mbind option_bind]. rewrite IH. done. }
    rewrite Hl. cbn [mbind option_bind]. unfold as_cached.
    by destruct (pg_next_cursor page).
  - cbn [wf_json forallb fst snd fmap list_fmap]. rewrite andb_true_iff. split; [reflexivity|].
    rewrite !andb_true_iff. split; [|split; [by destruct (pg_next_cursor page) | done] ].
    rewrite forallb_forall. intros j (p & <- & Hp)%in_map_iff.
    rewrite Forall_forall in H. apply encode_item_wf, H. by apply list_elem_of_In.
Qed.
End decode.

(** ** Keys are distinct *)

Lemma app_inj_length s1 s2 t1 t2 :
  slen s1 = slen s2 -> s1 +:+ t1 = s2 +:+ t2 -> s1 = s2 /\ t1 = t2.
Proof.
  unfold slen. revert s2; induction s1 as [|c s1 IH]; intros [|c2 s2] Hl H; cbn [String.length] in Hl;
    try lia; [done|].
  rewrite !JsonRoundTrip.app_cons in H. injection H as -> H.
  destruct (IH s2) as [-> ->]; [lia | done | done].
Qed.

Lemma slen_uuid u : slen (str_of_uuid u) = 36.
Proof. unfold str_of_uuid. rewrite !slen_app, !(fun k n => proj1 (hex_of_shape k n)). reflexivity. Qed.

Lemma str_of_uuid_inj u v : uuid_ok u -> uuid_ok v -> str_of_uuid u = str_of_uuid v -> u = v.
Proof.
  intros Hu Hv H. pose proof (UuidRoundTrip.parse_str_of_uuid u Hu) as E.
  rewrite H, UuidRoundTrip.parse_str_of_uuid in E by done. congruence.
Qed.

(** A number followed by something else than a digit is read off. *)
Lemma str_of_int_app_inj n m s t :
  str_of_int n +:+ String ":" s = str_of_int m +:+ String ":" t -> n = m.
Proof.
  intros H. pose proof (JsonRoundTrip.number_str_of_int n (String ":" s)) as E.
  rewrite H, JsonRoundTrip.number_str_of_int in E by done. specialize (E ltac:(done)). congruence.
Qed.

Definition scope_ok (o : option uuid) : Prop := match o with Some u => uuid_ok u | None => True end.

Lemma owner_prefix_inj (p : string) u v s t :
  uuid_ok u -> uuid_ok v ->
  p +:+ (str_of_uuid u +:+ s) = p +:+ (str_of_uuid v +:+ t) -> u = v /\ s = t.
Proof.
  intros Hu Hv [_ H]%app_inj_length; [|done].
  apply app_inj_length in H as [H ->]; [|by rewrite !slen_uuid]. split; [|done].
  by apply str_of_uuid_inj.
Qed.

Lemma version_key_inj o o' : scope_ok o -> scope_ok o' -> version_key o = version_key o' -> o = o'.
Proof.
  destruct o as [u|], o' as [v|]; cbn [scope_ok version_key]; intros Hu Hv H; try done;
    unfold ADMIN_LIST_VERSION_KEY, OWNER_LIST_VERSION_KEY in H; try discriminate H.
  f_equal. apply (app_inj_length _ _ _ _ eq_refl) in H as [_ H]. by apply str_of_uuid_inj.
Qed.

Lemma cache_key_inj o o' v v' c c' l l' :
  scope_ok o -> scope_ok o' -> _cache_key o v c l = _cache_key o' v' c' l' -> o = o' /\ v = v'.
Proof.
  destruct o as [u|], o' as [u'|]; cbn [scope_ok]; intros Hu Hu' H; unfold _cache_key in H;
    try discriminate H.
  - apply owner_prefix_inj in H as [-> H]; [|done..]. split; [done|].
    apply (app_inj_length _ _ _ _ eq_refl) in H as [_ H]. by apply str_of_int_app_inj in H.
  - split; [done|]. apply (app_inj_length _ _ _ _ eq_refl) in H as [_ H].
    by apply str_of_int_app_inj in H.
Qed.

Lemma cache_key_not_version o o' v c l : _cache_key o v c l <> version_key o'.
Proof. destruct o, o'; intros H; unfold _cache_key, version_key in H; discriminate H. Qed.

(** ** The operations *)
Section operations.
Context `{JR : JsonReader} `{IR : IsoReader} `{RS : RedisServer} (settings : Settings).
Implicit Types (t : datetime) (r : gmap string RedisEntry) (o : option uuid).

(** The version of a scope. *)
Definition read_version t r o : option Z :=
  match live t r (version_key o) with Some e => redis_int (re_value e) | None => Some 0 end.

(** The page a reader finds. *)
Definition page_entry t r o (c : option string) (l : Z) : option RedisEntry :=
  v ← read_version t r o; live t r (_cache_key o v c l).

Lemma set_redis_same w : set_redis (w_redis w) w = w.
Proof using. by destruct w. Qed.

Lemma get_version_up w o :
  redis_answer w = RedisOk ->
  _get_version o w =
  (match read_version (redis_time w) (w_redis w) o with
   | Some v => Ok v | None => Exc (ValueErr "invalid literal for int()") end, w).
Proof using.
  intros H. unfold _get_version, mbind, M_bind, redis_call, GET, read_version. rewrite H.
  rewrite set_redis_same. destruct (live _ _ _) as [e|]; cbn; [|done]. by destruct (redis_int _).
Qed.

Lemma get_page_up w o c l :
  redis_answer w = RedisOk ->
  cache_get_page o c l w =
  (match page_entry (redis_time w) (w_redis w) o c l with
   | None => Ok None
   | Some e => match _decode_page (re_value e) with Ok p => Ok (Some p) | Exc x => Exc x end
   end, w).
Proof using.
  intros H. unfold cache_get_page, page_entry, mbind at 1, M_bind at 1, attempt.
  unfold mbind at 1, M_bind at 1. rewrite get_version_up by done.
  destruct (read_version _ _ o) as [v|]; [|done]. cbn [mbind option_bind].
  unfold redis_call, GET. rewrite H, set_redis_same.
  destruct (live _ _ _) as [e|]; cbn; [|done]. unfold mbind, M_bind, lift.
  by destruct (_decode_page _).
Qed.

Lemma get_page_failed w o c l :
  redis_answer w <> RedisOk -> cache_get_page o c l w = (Ok None, w).
Proof using.
  intros H. unfold cache_get_page, _get_version, mbind, M_bind, attempt, redis_call, GET.
  destruct (redis_answer w); [done | done |]. by rewrite set_redis_same.
Qed.

Definition page_written t (page : JobListPageDTO) : RedisEntry :=
  mkRedisEntry (_encode_page page) (Some (t + seconds (cache_ttl_seconds settings))).

Lemma set_page_up w o c l page :
  redis_answer w = RedisOk ->
  cache_set_page settings o c l page w =
  (Ok tt, match read_version (redis_time w) (w_redis w) o with
   | Some v => set_redis (<[_cache_key o v c l := page_written (redis_time w) page]> (w_redis w)) w
   | None => w
   end).
Proof using.
  intros H. unfold cache_set_page, mbind at 1, M_bind at 1, attempt.
  unfold mbind at 1, M_bind at 1. rewrite get_version_up by done.
  destruct (read_version _ _ o) as [v|]; [|done].
  unfold redis_call, SET_EX. by rewrite H.
Qed.

(** The keys after an invalidation. *)
Definition version_written t (v : Z) : RedisEntry :=
  mkRedisEntry (str_of_int v) (Some (t + seconds VERSION_TTL_SECONDS)).

Lemma bump_version t r o v :
  read_version t r o = Some v -> in_int64 (v + 1) = true ->
  (INCR (version_key o);; EXPIRE (version_key o) VERSION_TTL_SECONDS) t r
  = (Ok 1, <[version_key o := version_written t (v + 1)]> r).
Proof using.
  intros Hv H64. unfold read_version in Hv. unfold mbind, Script_bind, INCR, INCRBY, EXPIRE.
  assert (Hlive : forall e, live t r (version_key o) = Some e ->
    live t (<[version_key o := mkRedisEntry (str_of_int (v + 1)) (re_expires_at e)]> r) (version_key o)
    = Some (mkRedisEntry (str_of_int (v + 1)) (re_expires_at e))).
  { intros e He. apply live_insert. cbn. intros x Hx. unfold live in He.
    destruct (r !! version_key o) as [e'|]; [|done].
    destruct (re_expires_at e') as [y|] eqn:Ey; [|congruence].
    destruct (Z.ltb_spec t y); [|done]. congruence. }
  destruct (live t r (version_key o)) as [e|] eqn:He.
  - rewrite Hv, H64, Hlive by done. by rewrite insert_insert_eq.
  - injection Hv as <-. rewrite live_insert by done. by rewrite insert_insert_eq.
Qed.

Lemma invalidate_up w u v va :
  redis_answer w = RedisOk -> uuid_ok u ->
  read_version (redis_time w) (w_redis w) (Some u) = Some v ->
  read_version (redis_time w) (w_redis w) None = Some va ->
  in_int64 (v + 1) = true -> in_int64 (va + 1) = true ->
  cache_invalidate_owner u w =
  (Ok tt, set_redis (<[version_key None := version_written (redis_time w) (va + 1)]>
            (<[version_key (Some u) := version_written (redis_time w) (v + 1)]> (w_redis w))) w).
Proof using.
  intros H Hu Hv Hva H1 H2. unfold cache_invalidate_owner, mbind at 1, M_bind at 1, attempt, redis_call.
  set (t := redis_time w) in *. set (r := w_redis w) in *.
  assert (E : invalidation u t r = (Ok tt, <[version_key None := version_written t (va + 1)]>
    (<[version_key (Some u) := version_written t (v + 1)]> r))).
  { pose proof (bump_version t r (Some u) v Hv H1) as B1.
    assert (Hva' : read_version t (<[version_key (Some u) := version_written t (v + 1)]> r) None = Some va).
    { rewrite <- Hva. unfold read_version. rewrite live_insert_ne; [done|]. by intros [=]%version_key_inj. }
    pose proof (bump_version t _ None va Hva' H2) as B2.
    unfold invalidation. cbv zeta. change (OWNER_LIST_VERSION_KEY u) with (version_key (Some u)).
    change ADMIN_LIST_VERSION_KEY with (version_key None).
    unfold mbind, Script_bind in B1, B2 |- *.
    destruct (INCR (version_key (Some u)) t r) as [ [n1|e1] r1]; [|done].
    rewrite B1. destruct (INCR (version_key None) t _) as [ [n2|e2] r2]; [|done].
    by rewrite B2. }
  rewrite E, H. done.
Qed.

(** ** No page is stored under a version still to come *)

Definition no_newer t r : Prop :=
  forall o v v' c l, scope_ok o -> read_version t r o = Some v -> v < v' ->
  live t r (_cache_key o v' c l) = None.

Lemma no_newer_empty t : no_newer t ∅.
Proof using. intros o v v' c l _ _ _. by apply live_none. Qed.

Lemma read_version_page t r o o' v c l e :
  read_version t (<[_cache_key o v c l := e]> r) o' = read_version t r o'.
Proof using. unfold read_version. rewrite live_insert_ne; [done | apply cache_key_not_version]. Qed.

Lemma no_newer_set t r o v c l e :
  no_newer t r -> scope_ok o -> read_version t r o = Some v -> no_newer t (<[_cache_key o v c l := e]> r).
Proof using.
  intros H Ho Hv o1 v1 v' c' l' Ho1 Hv1 Hlt. rewrite read_version_page in Hv1.
  rewrite live_insert_ne; [by eapply H|]. intros [-> ->]%cache_key_inj; [|done..].
  rewrite Hv in Hv1. injection Hv1 as <-. lia.
Qed.

Lemma read_version_written t r o n :
  in_int64 n = true -> read_version t (<[version_key o := version_written t n]> r) o = Some n.
Proof using.
  intros Hn. unfold read_version. rewrite live_insert.
  - by apply redis_int_str.
  - cbn. intros x [= <-]. unfold seconds, VERSION_TTL_SECONDS. lia.
Qed.

Lemma read_version_other t r o o' e :
  scope_ok o -> scope_ok o' -> o <> o' ->
  read_version t (<[version_key o := e]> r) o' = read_version t r o'.
Proof using.
  intros Ho Ho' Hne. unfold read_version. rewrite live_insert_ne; [done|]. by intros ?%version_key_inj.
Qed.

Lemma no_newer_bump t r o v :
  no_newer t r -> scope_ok o -> read_version t r o = Some v -> in_int64 (v + 1) = true ->
  no_newer t (<[version_key o := version_written t (v + 1)]> r).
Proof using.
  intros H Ho Hv H64 o1 v1 v' c l Ho1 Hv1 Hlt.
  rewrite live_insert_ne by (intros E; by apply (cache_key_not_version o1 o v' c l)).
  destruct (decide (o = o1)) as [<-|Hne].
  - rewrite read_version_written in Hv1 by done. injection Hv1 as <-. apply (H o v); (done || lia).
  - rewrite read_version_other in Hv1 by done. by apply (H o1 v1).
Qed.

Lemma live_later t t' r k : t <= t' -> live t r k = None -> live t' r k = None.
Proof using.
  intros Ht. unfold live. destruct (r !! k) as [e|]; [|done].
  destruct (re_expires_at e) as [x|]; [|done].
  destruct (Z.ltb_spec t x); [done|]. by destruct (Z.ltb_spec t' x); [lia|].
Qed.

End operations.
