(* ===== verification/EventStream.v ===== *)
(** * EventStream: the subscriber of [app/infrastructure/redis/job_status_pubsub.py]
    and the Server-Sent Events stream of [app/api/routes/jobs.py]. *)
From S2P Require Import Prelude Exceptions Domain Store Effects Text PostCommit JobRepo JobService.

(** ** Texts *)

(** [json.dumps(j, separators=(item, key))], members in the order of the dict. *)
Fixpoint write (item key : string) (j : json) : string :=
  match j with
  | JNull => "null"
  | JBool true => "true"
  | JBool false => "false"
  | JNum n => str_of_int n
  | JFloat repr => repr
  | JStr s => quote s
  | JArr l => "[" +:+ join item (List.map (write item key) l) +:+ "]"
  | JObj fields =>
      "{" +:+ join item (List.map (fun kv => quote (fst kv) +:+ key +:+ write item key (snd kv)) fields)
        +:+ "}"
  end.

(** How pydantic writes a [datetime] in JSON mode. *)
Class DatetimeText := { datetime_text : datetime -> string }.

Definition newline : string := String (ascii_of_nat 10) EmptyString.

Section texts.
Context `{DT : DatetimeText}.

(** [event.model_dump(mode="json")]. *)
Definition event_model_dump (event : JobStatusEvent) : json := JObj [
  ("event_id", JStr (str_of_uuid (se_event_id event)));
  ("job_id", JStr (str_of_uuid (se_job_id event)));
  ("status", JStr (job_status_value (se_status event)));
  ("attempt_count", JNum (se_attempt_count event));
  ("occurred_at", JStr (datetime_text (se_occurred_at event)));
  ("cancel_requested_at",
    match se_cancel_requested_at event with Some t => JStr (datetime_text t) | None => JNull end)].

(** [_format_sse_event]. *)
Definition _format_sse_event (event : JobStatusEvent) : string :=
  "id: " +:+ str_of_uuid (se_event_id event) +:+ newline
  +:+ "event: job.status" +:+ newline
  +:+ "data: " +:+ write "," ":" (event_model_dump event) +:+ newline +:+ newline.

(** [_format_stream_error_event]. *)
Definition _format_stream_error_event (code : string) : string :=
  "event: stream.error" +:+ newline
  +:+ "data: " +:+ write ", " ": " (JObj [("code", JStr code)]) +:+ newline +:+ newline.

End texts.

Definition keep_alive : string := ": keep-alive" +:+ newline +:+ newline.

(** ** The subscription *)

(** [message["data"]]: bytes, by the text they are the UTF-8 encoding of, if
    they are one; a text; or an integer. *)
Inductive MessageData :=
| DataBytes (text : option string)
| DataText (text : string)
| DataInt (n : Z).

(** How one [pubsub.get_message(timeout=1.0)] ends, and the milliseconds it
    takes. *)
Inductive Received := NoMessage | Message (data : MessageData) | ReceiveFailed.
Record Poll := mkPoll { poll_result : Received; poll_ms : Z }.

(** The state of the [pubsub] object of a subscription. *)
Record Subscription := mkSubscription { sub_subscribed : bool; sub_connected : bool }.

Definition unsubscribe (s : Subscription) : Subscription := mkSubscription false (sub_connected s).
Definition aclose (s : Subscription) : Subscription := mkSubscription false false.

(** The payload; [None] when [data.decode("utf-8")] raises. *)
Definition message_payload (data : MessageData) : option string :=
  match data with
  | DataBytes text => text
  | DataText text => Some text
  | DataInt n => Some (str_of_int n)
  end.

(** The asynchronous generator [event_iterator()]: at its [yield] or not yet
    started, or over. *)
Inductive Generator := Suspended | Finished.

(** How [await asyncio.wait_for(events.__anext__(), timeout=...)] ends. *)
Inductive Anext :=
| Yielded (event : JobStatusEvent)
| AnextTimeout
| AnextPubSubError
| AnextDecodeError
| AnextStop
| AnextPending.

Definition SSE_HEARTBEAT_MS : Z := 15000.

Section stream.
Context `{EC : JobStatusEventCodec} `{DT : DatetimeText}.

(** The loop of the generator, up to its next [yield]; [elapsed] is the time
    since [wait_for] was called, which cancels the [await] that is under way when
    its time is up ([CancelledError] is not an [Exception], so only the [finally]
    sees it).  Without further input it waits. *)
Fixpoint receive (polls : list Poll) (elapsed : Z) : Anext * list Poll :=
  match polls with
  | [] => (AnextPending, [])
  | poll :: rest =>
      let elapsed := elapsed + poll_ms poll in
      if SSE_HEARTBEAT_MS <=? elapsed then (AnextTimeout, rest)
      else
        match poll_result poll with
        | ReceiveFailed => (AnextPubSubError, rest)
        | NoMessage => receive rest elapsed
        | Message data =>
            match message_payload data with
            | None => (AnextDecodeError, rest)
            | Some payload =>
                match event_validate_json payload with
                | Some event => (Yielded event, rest)
                | None => receive rest elapsed
                end
            end
        end
  end.

(** [wait_for(events.__anext__(), ...)]: an exception, the cancellation
    included, runs the [finally] of the generator and ends it; a generator that
    is over raises [StopAsyncIteration]. *)
Definition anext (generator : Generator) (subscription : Subscription) (polls : list Poll)
    : Anext * Generator * Subscription * list Poll :=
  match generator with
  | Finished => (AnextStop, Finished, subscription, polls)
  | Suspended =>
      let '(result, rest) := receive polls 0 in
      match result with
      | Yielded _ | AnextPending => (result, Suspended, subscription, rest)
      | _ => (result, Finished, aclose (unsubscribe subscription), rest)
      end
  end.

(** How the response ends: [return] as the client is gone, after a terminal
    event, or after the error event; [break] at [StopAsyncIteration]; an
    exception; or not yet. *)
Inductive StreamEnd := ClientGone | TerminalSent | ErrorSent | IteratorOver | Crashed | StillOpen.

(** The [while True] of [event_stream]; [gone] are the answers of
    [request.is_disconnected()], no once exhausted. *)
Fixpoint stream_loop (fuel : nat) (generator : Generator) (subscription : Subscription)
    (polls : list Poll) (gone : list bool) : list string * StreamEnd * Subscription :=
  match fuel with
  | O => ([], StillOpen, subscription)
  | S fuel =>
      if default false (head gone) then ([], ClientGone, subscription)
      else
        let '(result, generator, subscription, polls) := anext generator subscription polls in
        match result with
        | AnextTimeout =>
            let '(frames, ending, s) := stream_loop fuel generator subscription polls (tail gone) in
            (keep_alive :: frames, ending, s)
        | AnextPubSubError => ([_format_stream_error_event "reconnect"], ErrorSent, subscription)
        | AnextStop => ([], IteratorOver, subscription)
        | AnextDecodeError => ([], Crashed, subscription)
        | AnextPending => ([], StillOpen, subscription)
        | Yielded event =>
            if is_terminal_status (se_status event)
            then ([_format_sse_event event], TerminalSent, subscription)
            else
              let '(frames, ending, s) := stream_loop fuel generator subscription polls (tail gone) in
              (_format_sse_event event :: frames, ending, s)
        end
  end.

(** [_job_snapshot_event]. *)
Definition _job_snapshot_event (event_id : uuid) (job : JobPublicDTO) : JobStatusEvent :=
  mkJobStatusEvent event_id (jp_id job) (jp_status job) (jp_attempt_count job) (jp_updated_at job)
    (jp_cancel_requested_at job).

(** [async with job_status_pubsub.subscribe(job_id) as events]: on the way out
    the connection is closed. *)
Definition subscribed_stream (polls : list Poll) (gone : list bool)
    : list string * StreamEnd * Subscription :=
  let '(frames, ending, s) :=
    stream_loop (List.length polls + 2) Suspended (mkSubscription true true) polls gone in
  (frames, ending, match ending with StillOpen => s | _ => aclose s end).

(** [event_stream], given the snapshot event. *)
Definition event_stream (snapshot : JobStatusEvent) (polls : list Poll) (gone : list bool)
    : list string * StreamEnd * Subscription :=
  if is_terminal_status (se_status snapshot)
  then ([_format_sse_event snapshot], TerminalSent, mkSubscription false false)
  else
    let '(frames, ending, s) := subscribed_stream polls gone in
    (_format_sse_event snapshot :: frames, ending, s).

(** [stream_job_events]: the job is loaded, and authorised, before the response
    starts. *)
Definition stream_job_events (current_user : CurrentUserDTO) (job_id : uuid) (polls : list Poll)
    (gone : list bool) : M (list string * StreamEnd * Subscription) :=
  current_job ← JobService.get_job_detail current_user job_id;
  event_id ← uuid4;
  mret (event_stream (_job_snapshot_event event_id current_job) polls gone).

End stream.
