(* ===== verification/StreamSpec.v ===== *)
(** * StreamSpec: what an event stream carries, as a reference without
    generators and timers, and what a client reads back from its text. *)
From S2P Require Import Prelude Exceptions Domain Store Effects Text TextSpec JsonText Iso.
From S2P Require Import PostCommit EventStream.

(** ** What the subscriber receives *)
Section wire.
Context `{EC : JobStatusEventCodec} `{DT : DatetimeText}.

Definition event_of_data (data : MessageData) : option JobStatusEvent :=
  payload ← message_payload data; event_validate_json payload.

(** The event a poll brings, if any. *)
Definition event_of (poll : Poll) : option JobStatusEvent :=
  match poll_result poll with Message data => event_of_data data | _ => None end.

Definition events_of (polls : list Poll) : list JobStatusEvent := omap event_of polls.

Definition terminal (event : JobStatusEvent) : bool := is_terminal_status (se_status event).

Fixpoint upto_terminal (events : list JobStatusEvent) : list JobStatusEvent :=
  match events with
  | [] => []
  | event :: rest => if terminal event then [event] else event :: upto_terminal rest
  end.

(** Redis answers, in text. *)
Definition readable (poll : Poll) : bool :=
  match poll_result poll with
  | NoMessage => true
  | Message data => bool_decide (is_Some (message_payload data))
  | ReceiveFailed => false
  end.

(** Never fifteen seconds without an event. *)
Fixpoint prompt (polls : list Poll) (elapsed : Z) : bool :=
  match polls with
  | [] => true
  | poll :: rest =>
      let elapsed := elapsed + poll_ms poll in
      (elapsed <? SSE_HEARTBEAT_MS) && readable poll &&
      prompt rest (match event_of poll with Some _ => 0 | None => elapsed end)
  end.

Lemma receive_yields polls elapsed event rest :
  receive polls elapsed = (Yielded event, rest) ->
  events_of polls = event :: events_of rest /\ (List.length rest < List.length polls)%nat.
Proof using.
  revert elapsed; induction polls as [|poll polls IH]; intros elapsed H; cbn [receive] in H; [done|].
  destruct (_ <=? _); [done|]. unfold events_of. cbn [omap list_omap List.length].
  unfold event_of at 1. destruct (poll_result poll) as [|data|]; [| |done].
  - apply IH in H as [H Hl]. split; [exact H | lia].
  - unfold event_of_data. destruct (message_payload data) as [payload|]; [|done].
    cbn [mbind option_bind]. destruct (event_validate_json payload) as [e|].
    + injection H as <- <-. split; [done | lia].
    + apply IH in H as [H Hl]. split; [exact H | lia].
Qed.

Lemma receive_pending polls elapsed rest :
  receive polls elapsed = (AnextPending, rest) -> rest = [] /\ events_of polls = [].
Proof using.
  revert elapsed; induction polls as [|poll polls IH]; intros elapsed H; cbn [receive] in H.
  - by injection H as <-.
  - destruct (_ <=? _); [done|]. unfold events_of. cbn [omap list_omap].
    unfold event_of at 1. destruct (poll_result poll) as [|data|]; [by apply IH in H| |done].
    unfold event_of_data. destruct (message_payload data) as [payload|]; [|done].
    cbn [mbind option_bind]. destruct (event_validate_json payload); [done|]. by apply IH in H.
Qed.

Lemma receive_stop polls elapsed rest : receive polls elapsed <> (AnextStop, rest).
Proof using.
  revert elapsed; induction polls as [|poll polls IH]; intros elapsed; cbn [receive]; [done|].
  destruct (_ <=? _); [done|]. destruct (poll_result poll) as [|data|]; [done| |done].
  destruct (message_payload data) as [payload|]; [|done].
  by destruct (event_validate_json payload).
Qed.

(** What comes after the events: nothing, one keep-alive, or the error event. *)
Definition ending_frames (ending : StreamEnd) (tail : list string) : Prop :=
  match ending with
  | IteratorOver => tail = [keep_alive]
  | ClientGone => tail = [] \/ tail = [keep_alive]
  | ErrorSent => tail = [_format_stream_error_event "reconnect"]
  | TerminalSent | Crashed | StillOpen => tail = []
  end.

Record carried (polls : list Poll) (frames : list string) (ending : StreamEnd)
    (events : list JobStatusEvent) (tail : list string) : Prop := mkCarried {
  ca_frames : frames = (_format_sse_event <$> events) ++ tail;
  ca_order : events `prefix_of` events_of polls;
  ca_terminal : events = upto_terminal events;
  ca_sent : ending = TerminalSent <-> exists e, last events = Some e /\ terminal e = true;
  ca_open : ending = StillOpen -> events = events_of polls;
  ca_tail : ending_frames ending tail
}.

(** After a keep-alive the loop only ends. *)
Lemma loop_finished fuel s polls gone :
  (1 <= fuel)%nat ->
  exists ending, stream_loop fuel Finished s polls gone = ([], ending, s) /\
  (ending = ClientGone \/ ending = IteratorOver).
Proof using.
  intros Hf. destruct fuel as [|fuel]; [lia|]. cbn.
  destruct (default false _); eexists; (split; [reflexivity|]); auto.
Qed.

(** The loop ends without an event. *)
Lemma carried_none polls ending tail :
  ending <> TerminalSent -> (ending = StillOpen -> events_of polls = []) -> ending_frames ending tail ->
  carried polls tail ending [] tail.
Proof using.
  intros H1 H2 H3. constructor; [done | apply prefix_nil | done | | intros; by rewrite H2 | exact H3].
  split; [done | by intros (e & He & _)].
Qed.

Lemma carried_event polls rest event frames ending events tail :
  events_of polls = event :: events_of rest -> terminal event = false ->
  carried rest frames ending events tail ->
  carried polls (_format_sse_event event :: frames) ending (event :: events) tail.
Proof using.
  intros Hp Ht [-> Ho Hu Hs Hop Hta]. constructor; [done| | | | |done].
  - rewrite Hp. by apply prefix_cons.
  - cbn. by rewrite Ht, <- Hu.
  - rewrite Hs. split.
    + intros (e & He & Hte). exists e. split; [|done]. destruct events; [done|]. exact He.
    + intros (e & He & Hte). exists e. split; [|done].
      destruct events as [|e' events]; [|exact He]. injection He as ->. congruence.
  - intros H. by rewrite Hp, Hop.
Qed.

Lemma carried_terminal polls rest event :
  events_of polls = event :: events_of rest -> terminal event = true ->
  carried polls [_format_sse_event event] TerminalSent [event] [].
Proof using.
  intros Hp Ht. constructor; [done| | | |done|done].
  - rewrite Hp. apply prefix_cons, prefix_nil.
  - cbn. by rewrite Ht.
  - split; [|done]. intros _. by exists event.
Qed.

(** The state of the subscription when the loop ends. *)
Lemma loop_carries fuel polls gone s :
  (List.length polls + 2 <= fuel)%nat ->
  exists frames ending s' events tail,
    stream_loop fuel Suspended s polls gone = (frames, ending, s') /\
    carried polls frames ending events tail.
Proof using.
  revert polls gone; induction fuel as [|fuel IH]; intros polls gone Hf; [lia|]. cbn [stream_loop].
  destruct (default false (head gone)).
  { eexists _, _, _, [], []. split; [reflexivity|]. apply carried_none; [done | done | by left]. }
  unfold anext. destruct (receive polls 0) as [result rest] eqn:E. destruct result as [event| | | | |].
  - apply receive_yields in E as [Hp Hl]. destruct (is_terminal_status (se_status event)) eqn:Ht.
    + eexists _, _, _, [event], []. split; [reflexivity|]. by eapply carried_terminal.
    + destruct (IH rest (tail gone) ltac:(lia)) as (frames & ending & s' & events & tl & -> & Hc).
      eexists _, _, _, (event :: events), tl. split; [reflexivity|]. by eapply carried_event.
  - destruct (loop_finished fuel (aclose (unsubscribe s)) rest (tail gone) ltac:(lia))
      as (ending & -> & He).
    eexists _, _, _, [], [keep_alive]. split; [reflexivity|].
    apply carried_none; [by destruct He as [-> | ->].. |]. destruct He as [-> | ->]; [by right | done].
  - eexists _, _, _, [], _. split; [reflexivity|]. by apply carried_none.
  - eexists _, _, _, [], []. split; [reflexivity|]. by apply carried_none.
  - by apply receive_stop in E.
  - apply receive_pending in E as [_ Hp]. eexists _, _, _, [], []. split; [reflexivity|].
    by apply carried_none.
Qed.

(** Without silence, failures or a client that leaves, every event arrives. *)
Lemma receive_prompt polls elapsed :
  prompt polls elapsed = true ->
  (receive polls elapsed = (AnextPending, []) /\ events_of polls = []) \/
  exists event rest, receive polls elapsed = (Yielded event, rest) /\ prompt rest 0 = true.
Proof using.
  revert elapsed; induction polls as [|poll polls IH]; intros elapsed H; [by left|].
  cbn [prompt receive] in H |- *. apply andb_true_iff in H as [H Hrest].
  apply andb_true_iff in H as [Ht Hread]. apply Z.ltb_lt in Ht.
  rewrite (proj2 (Z.leb_gt _ _)) by exact Ht.
  unfold events_of, event_of, readable in *. cbn [omap list_omap].
  destruct (poll_result poll) as [|data|]; [by apply IH| |done].
  unfold event_of_data in *. apply bool_decide_eq_true in Hread as [payload Hpay].
  rewrite Hpay in Hrest |- *. cbn [mbind option_bind] in Hrest |- *.
  destruct (event_validate_json payload) as [event|]; [|by apply IH].
  right. by exists event, polls.
Qed.

Lemma loop_delivers fuel polls gone s :
  (List.length polls + 2 <= fuel)%nat -> prompt polls 0 = true -> Forall (eq false) gone ->
  stream_loop fuel Suspended s polls gone =
  (_format_sse_event <$> upto_terminal (events_of polls),
   if existsb terminal (events_of polls) then TerminalSent else StillOpen, s).
Proof using.
  revert polls gone; induction fuel as [|fuel IH]; intros polls gone Hf Hp Hg; [lia|]. cbn [stream_loop].
  assert (default false (head gone) = false) as -> by (by destruct Hg).
  assert (Forall (eq false) (tail gone)) by (destruct Hg; [constructor | assumption]).
  unfold anext. destruct (receive_prompt polls 0 Hp) as [ [E ->] | (event & rest & E & Hr)]; rewrite E; [done|].
  apply receive_yields in E as [-> Hl]. cbn [upto_terminal existsb].
  change (is_terminal_status (se_status event)) with (terminal event).
  destruct (terminal event); [done|]. by rewrite (IH rest) by (try assumption; lia).
Qed.

End wire.

(** ** The client *)

(** The pieces of a text that end with a newline. *)
Fixpoint complete_lines (acc s : string) : list string :=
  match s with
  | EmptyString => []
  | String c s' =>
      if Ascii.eqb c (ascii_of_nat 10) then acc :: complete_lines "" s'
      else complete_lines (acc +:+ String c EmptyString) s'
  end.

Definition no_newline (s : string) : bool := all_chars (fun c => negb (Ascii.eqb c (ascii_of_nat 10))) s.

(** A field name and its value, without one space after the colon. *)
Fixpoint field_of (name line : string) : string * string :=
  match line with
  | EmptyString => (name, "")
  | String c rest =>
      if Ascii.eqb c ":"%char
      then (name, match rest with String " "%char value => value | _ => rest end)
      else field_of (name +:+ String c EmptyString) rest
  end.

(** An event as an EventSource dispatches it. *)
Record ClientEvent := mkClientEvent { ce_id : string; ce_type : string; ce_data : list string }.

(** The buffers of the client: the last id, the type, and the data lines in
    reverse. *)
Record Buffers := mkBuffers { bu_id : string; bu_type : string; bu_data : list string }.

Fixpoint read_lines (b : Buffers) (lines : list string) : list ClientEvent :=
  match lines with
  | [] => []
  | line :: rest =>
      if String.eqb line "" then
        match bu_data b with
        | [] => read_lines (mkBuffers (bu_id b) "" []) rest
        | data => mkClientEvent (bu_id b) (bu_type b) (rev data)
            :: read_lines (mkBuffers (bu_id b) "" []) rest
        end
      else
        let '(name, value) := field_of "" line in
        let b :=
          if String.eqb name "id" then mkBuffers value (bu_type b) (bu_data b)
          else if String.eqb name "event" then mkBuffers (bu_id b) value (bu_data b)
          else if String.eqb name "data" then mkBuffers (bu_id b) (bu_type b) (value :: bu_data b)
          else b in
        read_lines b rest
  end.

Definition read_stream (text : string) : list ClientEvent :=
  read_lines (mkBuffers "" "" []) (complete_lines "" text).

Lemma complete_lines_line acc line rest :
  no_newline line = true ->
  complete_lines acc (line +:+ newline +:+ rest) = (acc +:+ line) :: complete_lines "" rest.
Proof.
  revert acc; induction line as [|c line IH]; intros acc H.
  - by rewrite JsonRoundTrip.app_empty_r.
  - unfold no_newline in H. cbn [all_chars] in H. apply andb_true_iff in H as [Hc H].
    apply negb_true_iff in Hc. rewrite JsonRoundTrip.app_cons. cbn [complete_lines].
    rewrite Hc, IH by exact H. by rewrite JsonRoundTrip.app_assoc_str.
Qed.

Lemma complete_lines_blank rest : complete_lines "" (newline +:+ rest) = "" :: complete_lines "" rest.
Proof. reflexivity. Qed.

Lemma printable_no_newline s : all_chars JsonRoundTrip.printable s = true -> no_newline s = true.
Proof.
  apply UuidRoundTrip.all_chars_mono. intros c Hc. destruct (Ascii.eqb_spec c (ascii_of_nat 10)) as [->|]; [|done].
  discriminate Hc.
Qed.

Lemma hex_of_printable k n : all_chars JsonRoundTrip.printable (hex_of k n) = true.
Proof.
  revert n; induction k as [|k IH]; intros n; [done|]. cbn [hex_of]. rewrite all_chars_app, IH.
  cbn [all_chars andb]. rewrite andb_true_r. unfold hex_digit.
  pose proof (Z.mod_pos_bound n 16 ltac:(lia)) as Hb. revert Hb. generalize (n mod 16). intros d Hd.
  assert (Hall : forallb (fun d => JsonRoundTrip.printable
    (ascii_of_N (Z.to_N (if d <? 10 then 48 + d else 87 + d)))) (List.map Z.of_nat (seq 0 16)) = true)
    by reflexivity.
  rewrite forallb_forall in Hall. apply Hall, in_map_iff. exists (Z.to_nat d). rewrite in_seq. lia.
Qed.

Lemma uuid_printable u : all_chars JsonRoundTrip.printable (str_of_uuid u) = true.
Proof. unfold str_of_uuid. rewrite !all_chars_app, !hex_of_printable. reflexivity. Qed.

Section client.
Context `{DT : DatetimeText}.

Lemma event_text_printable event :
  all_chars JsonRoundTrip.printable (write "," ":" (event_model_dump event)) = true.
Proof using.
  unfold event_model_dump. cbn [write List.map fst snd join].
  destruct (se_cancel_requested_at event); cbn [write];
    rewrite !all_chars_app, !JsonRoundTrip.quote_printable, JsonRoundTrip.str_of_int_printable;
    reflexivity.
Qed.

(** What the client makes of a status event. *)
Definition client_event (event : JobStatusEvent) : ClientEvent :=
  mkClientEvent (str_of_uuid (se_event_id event)) "job.status"
    [write "," ":" (event_model_dump event)].

(** The body of the response. *)
Definition body (frames : list string) : string := foldr String.append "" frames.

(** One frame at the head of the text. *)
Lemma read_event event b rest :
  read_lines b (complete_lines "" (_format_sse_event event +:+ rest)) =
  mkClientEvent (str_of_uuid (se_event_id event)) "job.status"
     (rev (bu_data b) ++ [write "," ":" (event_model_dump event)])
  :: read_lines (mkBuffers (str_of_uuid (se_event_id event)) "" []) (complete_lines "" rest).
Proof using.
  unfold _format_sse_event. rewrite !JsonRoundTrip.app_assoc_str.
  pose proof (printable_no_newline _ (uuid_printable (se_event_id event))) as Hid.
  pose proof (printable_no_newline _ (event_text_printable event)) as Hdata.
  rewrite <- (JsonRoundTrip.app_assoc_str "id: "), complete_lines_line by exact Hid.
  rewrite complete_lines_line by reflexivity.
  rewrite <- (JsonRoundTrip.app_assoc_str "data: "), complete_lines_line by exact Hdata.
  rewrite complete_lines_blank. reflexivity.
Qed.

Lemma read_keep_alive b rest :
  bu_data b = [] ->
  read_lines b (complete_lines "" (keep_alive +:+ rest))
  = read_lines (mkBuffers (bu_id b) "" []) (complete_lines "" rest).
Proof using.
  intros Hb. unfold keep_alive. rewrite !JsonRoundTrip.app_assoc_str.
  rewrite complete_lines_line, complete_lines_blank by reflexivity.
  destruct b as [i t d]. cbn in Hb. by subst d.
Qed.

Lemma read_events i events rest :
  exists i',
  read_lines (mkBuffers i "" []) (complete_lines "" (body (_format_sse_event <$> events) +:+ rest)) =
  (client_event <$> events) ++ read_lines (mkBuffers i' "" []) (complete_lines "" rest).
Proof using.
  revert i; induction events as [|event events IH]; intros i; [by exists i|].
  destruct (IH (str_of_uuid (se_event_id event))) as [i' H]. exists i'.
  cbn [fmap list_fmap body foldr]. rewrite JsonRoundTrip.app_assoc_str, read_event.
  cbn [bu_data rev app]. f_equal. exact H.
Qed.

Lemma read_stream_events events :
  read_stream (body (_format_sse_event <$> events)) = client_event <$> events.
Proof using.
  unfold read_stream. destruct (read_events "" events "") as [i H].
  rewrite JsonRoundTrip.app_empty_r in H. rewrite H. by rewrite app_nil_r.
Qed.

End client.
