(* ===== verification/Auth.v ===== *)
(** * Auth: [app/core/security.py] and [AuthService] of
    [app/application/services/auth.py]. *)
From S2P Require Import Prelude Exceptions Domain Store Effects Text Config Iso Repos.

(** ** Parameters: pwdlib, PyJWT and the arithmetic of floats *)

(** [PasswordHash.recommended()] of pwdlib: hashes are salted, and a password
    verifies against its own. *)
Class PasswordHash := {
  pw_hash : uuid -> string -> string;
  pw_verify : string -> string -> outcome bool;
  pw_verify_hash salt password : pw_verify password (pw_hash salt password) = Ok true
}.

(** The registered claims of a token that PyJWT checks. *)
Record issued (payload : list (string * json)) (iat exp : Z) : Prop := mkIssued {
  is_sub : exists s, json_get "sub" payload = Some (JStr s);
  is_jti : exists s, json_get "jti" payload = Some (JStr s);
  is_iat : json_get "iat" payload = Some (JNum iat);
  is_exp : json_get "exp" payload = Some (JNum exp)
}.

(** [jwt.encode] and [jwt.decode], which reads the clock: a token decodes under
    its own secret to its payload from the time it was issued until it expires,
    and raises [ExpiredSignatureError] from then on. *)
Class PyJWT := {
  jwt_encode : list (string * json) -> string -> string -> string;
  jwt_decode : datetime -> string -> string -> list string -> outcome (list (string * json));
  jwt_decode_valid now payload secret algorithm iat exp :
    issued payload iat exp -> NoDup (fst <$> payload) -> seconds iat <= now -> now < seconds exp ->
    jwt_decode now (jwt_encode payload secret algorithm) secret [algorithm] = Ok payload;
  jwt_decode_expired now payload secret algorithm iat exp :
    issued payload iat exp -> NoDup (fst <$> payload) -> seconds iat <= now -> seconds exp <= now ->
    jwt_decode now (jwt_encode payload secret algorithm) secret [algorithm] = Exc ExpiredSignatureErr
}.

(** [datetime.fromtimestamp(x, UTC)] of a float, by its [repr]. *)
Class FloatTime := { fromtimestamp_float : string -> outcome datetime }.

(** ** Python values *)

(** [repr(s)] of a text of code points below 256. *)
Definition repr_char (quote : ascii) (c : ascii) : string :=
  let n := code_point c in
  if (Ascii.eqb c quote || (n =? 92))%bool then String "092"%char (String c EmptyString)
  else if n =? 10 then "\n"
  else if n =? 13 then "\r"
  else if n =? 9 then "\t"
  else if (n <? 32) || ((127 <=? n) && (n <=? 160)) || (n =? 173)
  then String "092"%char ("x" +:+ hex_of 2 n)
  else String c EmptyString.

Fixpoint repr_chars (quote : ascii) (s : string) : string :=
  match s with
  | EmptyString => EmptyString
  | String c s' => repr_char quote c +:+ repr_chars quote s'
  end.

Definition repr_str (s : string) : string :=
  let quote := if contains "'" s && negb (contains dquote s) then "034"%char else "'"%char in
  String quote (repr_chars quote s) +:+ String quote EmptyString.

(** [repr] and [str] of the values of a JSON document. *)
Fixpoint py_repr (j : json) : string :=
  match j with
  | JNull => "None"
  | JBool b => if b then "True" else "False"
  | JNum n => str_of_int n
  | JFloat repr => repr
  | JStr s => repr_str s
  | JArr l => "[" +:+ join ", " (List.map py_repr l) +:+ "]"
  | JObj f =>
      "{" +:+ join ", " (List.map (fun kv => repr_str (fst kv) +:+ ": " +:+ py_repr (snd kv)) f) +:+ "}"
  end.

Definition py_str (j : json) : string := match j with JStr s => s | _ => py_repr j end.

(** [payload[key]]. *)
Definition item (key : string) (payload : list (string * json)) : M json :=
  match json_get key payload with Some v => mret v | None => raise (KeyErr key) end.

(** [uuid.UUID(value)]. *)
Definition uuid_of_json (value : json) : M uuid :=
  match value with
  | JStr s =>
      match parse_uuid s with
      | Some u => mret u
      | None => raise (ValueErr "badly formed hexadecimal UUID string")
      end
  | JNull => raise (TypeErr "one of the hex, bytes, bytes_le, fields, or int arguments must be given")
  | _ => raise (OtherErr "AttributeError" "object has no attribute 'replace'")
  end.

(** [UserRole(value)]. *)
Definition role_of_json (value : json) : M UserRole :=
  match value with
  | JStr s => lift (parse_user_role s)
  | _ => raise (ValueErr (py_repr value +:+ " is not a valid UserRole"))
  end.

Definition in_calendar (t : datetime) : bool := (-719162 <=? t / day_us) && (t / day_us <=? 2932896).

Section auth.
Context `{PH : PasswordHash} `{PJ : PyJWT} `{FT : FloatTime} `{PG : PgDriver} (settings : Settings).

(** [datetime.fromtimestamp(value, UTC)]. *)
Definition timestamp (n : Z) : M datetime :=
  if negb ((- 2 ^ 63 <=? n) && (n <? 2 ^ 63))
  then raise (OtherErr "OverflowError" "timestamp out of range for platform time_t")
  else if in_calendar (seconds n) then mret (seconds n)
  else raise (ValueErr "year is out of range").

Definition fromtimestamp (value : json) : M datetime :=
  match value with
  | JNum n => timestamp n
  | JBool b => timestamp (if b then 1 else 0)
  | JFloat repr => lift (fromtimestamp_float repr)
  | _ => raise (TypeErr "an integer or a float is required")
  end.

(** ** [app/core/security.py] *)

Definition normalize_email (email : string) : string := lower (strip email).

(** [hash_password]: the salt is random. *)
Definition hash_password (password : string) : M string :=
  salt ← uuid4; mret (pw_hash salt password).

Definition verify_password (password password_hash : string) : outcome bool :=
  pw_verify password password_hash.

Record AccessTokenPayload := mkAccessTokenPayload {
  tp_subject : uuid; tp_role : UserRole; tp_issued_at : datetime; tp_expires_at : datetime;
  tp_jwt_id : string
}.

Definition jwt_algorithm : string := "HS256".

Definition token_payload (user_id : uuid) (role : UserRole) (issued_at expires_at : datetime) (jti : uuid)
    : list (string * json) := [
  ("sub", JStr (str_of_uuid user_id));
  ("role", JStr (user_role_value role));
  ("iat", JNum (epoch_seconds issued_at));
  ("exp", JNum (epoch_seconds expires_at));
  ("jti", JStr (str_of_uuid jti))].

(** [create_access_token]. *)
Definition create_access_token (user_id : uuid) (role : UserRole) : M (string * datetime) :=
  issued_at ← now;
  let expires_at := issued_at + seconds (60 * access_token_ttl_minutes settings) in
  if negb (in_calendar expires_at) then raise (OtherErr "OverflowError" "date value out of range")
  else
    jti ← uuid4;
    let payload := token_payload user_id role issued_at expires_at jti in
    mret (jwt_encode payload (jwt_secret settings) jwt_algorithm, expires_at).

Definition read_payload (payload : list (string * json)) : M AccessTokenPayload :=
  sub ← item "sub" payload;
  subject ← uuid_of_json sub;
  role ← item "role" payload;
  role ← role_of_json role;
  iat ← item "iat" payload;
  issued_at ← fromtimestamp iat;
  exp ← item "exp" payload;
  expires_at ← fromtimestamp exp;
  jti ← item "jti" payload;
  mret (mkAccessTokenPayload subject role issued_at expires_at (py_str jti)).

(** [decode_access_token]. *)
Definition decode_access_token (token : string) : M AccessTokenPayload :=
  now ← now;
  match jwt_decode now token (jwt_secret settings) [jwt_algorithm] with
  | Exc ExpiredSignatureErr => raise (app_err_msg AuthenticationError "Access token has expired")
  | Exc InvalidTokenErr => raise (app_err_msg AuthenticationError "Access token is invalid")
  | Exc e => raise e
  | Ok payload =>
      result ← attempt (read_payload payload);
      match result with
      | Ok claims => mret claims
      | Exc (KeyErr _ | TypeErr _ | ValueErr _) =>
          raise (app_err_msg AuthenticationError "Access token is invalid")
      | Exc e => raise e
      end
  end.

(** ** [AuthService] *)

Definition to_user_public_dto (user : User) : UserPublicDTO :=
  mkUserPublicDTO (u_id user) (u_email user) (u_role user) (u_is_active user) (u_created_at user)
    (u_updated_at user).

(** [register_user]: other requests may commit between the two statements. *)
Definition register_user (email password : string) : M UserPublicDTO :=
  let normalized_email := normalize_email email in
  password_hash ← hash_password password;
  user ← with_uow (
    existing_user ← SqlAlchemyUserRepository.get_by_email normalized_email;
    match existing_user with
    | Some _ => raise (app_err DuplicateEmailError)
    | None =>
        user ← await_io (SqlAlchemyUserRepository.create_user normalized_email password_hash USER true);
        uow_commit;;
        mret user
    end);
  mret (to_user_public_dto user).

(** [login_user]. *)
Definition login_user (email password : string) : M LoginResultDTO :=
  let normalized_email := normalize_email email in
  user ← with_uow (
    user ← SqlAlchemyUserRepository.get_by_email normalized_email;
    match user with
    | None => raise (app_err_msg AuthenticationError "Invalid email or password")
    | Some user => mret user
    end);
  verified ← lift (verify_password password (u_password_hash user));
  if negb verified then raise (app_err_msg AuthenticationError "Invalid email or password")
  else if negb (u_is_active user) then raise (app_err InactiveUserError)
  else
    '(token, expires_at) ← create_access_token (u_id user) (u_role user);
    mret (mkLoginResultDTO token "bearer" expires_at).

(** [get_current_user]. *)
Definition get_current_user (access_token : string) : M CurrentUserDTO :=
  claims ← decode_access_token access_token;
  with_uow (
    user ← SqlAlchemyUserRepository.get_by_id (tp_subject claims);
    match user with
    | None => raise (app_err_msg AuthenticationError "Access token is invalid")
    | Some user =>
        if negb (u_is_active user) then raise (app_err InactiveUserError)
        else mret (mkCurrentUserDTO (u_id user) (u_email user) (u_role user) (u_is_active user))
    end).

(** [create_or_update_admin]. *)
Definition create_or_update_admin (email password : string) : M UserPublicDTO :=
  let normalized_email := normalize_email email in
  password_hash ← hash_password password;
  user ← with_uow (
    user ← SqlAlchemyUserRepository.create_or_update_admin normalized_email password_hash;
    uow_commit;;
    mret user);
  mret (to_user_public_dto user).

End auth.
