(* ===== verification/Http.v ===== *)
(** * Http: request schemas, dependencies, routes and error handlers of
    [app/schemas/], [app/api/], and the middleware of [app/main.py]. *)
From S2P Require Import Prelude Exceptions Domain Store Effects Text JsonText Iso Config Repos PostCommit.
From S2P Require Import JobRepo JobService ListJobs Auth EventStream.

(** ** Parameters: pydantic and email-validator *)

(** [int] fields in pydantic's lax mode; an integer is itself. *)
Class LaxInt := {
  lax_int : json -> option Z;
  lax_int_num n : lax_int (JNum n) = Some n
}.

(** [EmailStr]: the address, or no. *)
Class EmailValidator := { validate_email : string -> option string }.

(** ** Request schemas ([app/schemas/jobs.py], [app/schemas/auth.py]) *)

(** [ConfigDict(extra="forbid")]. *)
Definition only_keys (allowed : list string) (fields : list (string * json)) : bool :=
  forallb (fun kv => bool_decide (fst kv ∈ allowed)) fields.

Section schemas.
Context `{LI : LaxInt} `{EV : EmailValidator}.

(** [SleepJobPayload], validated and dumped. *)
Definition SleepJobPayload (payload : json) : option json :=
  match payload with
  | JObj fields =>
      if only_keys ["duration_seconds"] fields then
        value ← json_get "duration_seconds" fields;
        n ← lax_int value;
        if (1 <=? n) && (n <=? 30) then Some (JObj [("duration_seconds", JNum n)]) else None
      else None
  | _ => None
  end.

(** [EmptyJobPayload]. *)
Definition EmptyJobPayload (payload : json) : option json :=
  match payload with
  | JObj [] => Some (JObj [])
  | _ => None
  end.

(** [FailureJobPayload]. *)
Definition FailureJobPayload (payload : json) : option json :=
  match payload with
  | JObj fields =>
      if only_keys ["message"] fields then
        match json_get "message" fields with
        | None | Some JNull => Some (JObj [("message", JNull)])
        | Some (JStr s) => if slen s <=? 500 then Some (JObj [("message", JStr s)]) else None
        | Some _ => None
        end
      else None
  | _ => None
  end.

(** [JobCreateRequest], the union discriminated by [type]. *)
Definition JobCreateRequest (body : json) : option (JobType * json) :=
  match body with
  | JObj fields =>
      if only_keys ["type"; "payload"] fields then
        type ← json_get "type" fields;
        payload ← json_get "payload" fields;
        match type with
        | JStr "sleep" => p ← SleepJobPayload payload; Some (SLEEP, p)
        | JStr "success" => p ← EmptyJobPayload payload; Some (SUCCESS, p)
        | JStr "failure" => p ← FailureJobPayload payload; Some (FAILURE, p)
        | _ => None
        end
      else None
  | _ => None
  end.

(** [RegisterRequest] and [LoginRequest]: address, normalised, and password. *)
Definition CredentialsRequest (body : json) : option (string * string) :=
  match body with
  | JObj fields =>
      if only_keys ["email"; "password"] fields then
        email ← json_get "email" fields;
        password ← json_get "password" fields;
        match email, password with
        | JStr email, JStr password => e ← validate_email email; Some (normalize_email e, password)
        | _, _ => None
        end
      else None
  | _ => None
  end.

End schemas.

(** ** Responses *)

Record Response := mkResponse {
  rs_status : Z; rs_headers : list (string * string); rs_body : json
}.

(** [headers[name] = value]. *)
Fixpoint set_item (name value : string) (headers : list (string * string)) : list (string * string) :=
  match headers with
  | [] => [(name, value)]
  | (k, v) :: rest => if String.eqb k name then (name, value) :: rest else (k, v) :: set_item name value rest
  end.

Fixpoint header (name : string) (headers : list (string * string)) : option string :=
  match headers with
  | [] => None
  | (k, v) :: rest => if String.eqb k name then Some v else header name rest
  end.

Definition REQUEST_ID_HEADER : string := "X-Request-ID".

(** ** [app/api/error_handlers.py] *)

(** [_resolve_request_id]: of the request's state, or of the context. *)
Definition _resolve_request_id (state_request_id context_request_id : option string) : option string :=
  match state_request_id with
  | Some s => if String.eqb s "" then context_request_id else Some s
  | None => context_request_id
  end.

Section handlers.
Context (state_request_id context_request_id : option string).

Definition build_error_response (status : Z) (code message : string) (details : option json)
    (headers : option (list (string * string))) : Response :=
  let response_headers := default [] headers in
  let response_headers :=
    match _resolve_request_id state_request_id context_request_id with
    | Some request_id => set_item REQUEST_ID_HEADER request_id response_headers
    | None => response_headers
    end in
  mkResponse status response_headers (JObj [("error", JObj [
    ("code", JStr code); ("message", JStr message); ("details", default JNull details)])]).

Definition handle_application_error (exc : AppError) : Response :=
  build_error_response (status_code (ae_class exc)) (error_code (ae_class exc)) (ae_message exc)
    (ae_details exc) (ae_headers exc).

Definition code_map (status : Z) : string :=
  if status =? 401 then "AUTHENTICATION_REQUIRED"
  else if status =? 403 then "ACCESS_DENIED"
  else if status =? 404 then "NOT_FOUND"
  else if status =? 422 then "INVALID_REQUEST"
  else "HTTP_ERROR".

Definition message_map (status : Z) : string :=
  if status =? 401 then "Authentication credentials were not provided"
  else if status =? 403 then "Access denied"
  else if status =? 404 then "Resource not found"
  else if status =? 422 then "Request validation failed"
  else "Request failed".

Definition handle_http_exception (status : Z) : Response :=
  build_error_response status (code_map status) (message_map status) None None.

Definition handle_request_validation_error : Response :=
  build_error_response 422 "INVALID_REQUEST" "Request validation failed" None None.

Definition handle_unexpected_exception : Response :=
  build_error_response 500 "INTERNAL_SERVER_ERROR" "An internal server error occurred" None None.

(** The handler registered for the class of an exception; [None] for those
    only the handler of [Exception] takes. *)
Definition exception_handler (e : exn) : option Response :=
  match e with
  | AppErr exc => Some (handle_application_error exc)
  | HTTPExc status _ => Some (handle_http_exception status)
  | RequestValidationErr _ => Some handle_request_validation_error
  | _ => None
  end.

End handlers.

(** ** The application ([create_app] of [app/main.py]) *)

(** [request.headers.get(REQUEST_ID_HEADER) or str(uuid4())]. *)
Definition choose_request_id (header : option string) : M string :=
  match header with
  | Some h => if String.eqb h "" then u ← uuid4; mret (str_of_uuid u) else mret h
  | None => u ← uuid4; mret (str_of_uuid u)
  end.

(** [request_context_middleware] around the application's exception handlers;
    what they do not take passes through it, after the context is reset, to the
    handler of [Exception], which finds the identifier in the state. *)
Definition serve (request_id_header : option string) (route : M Response) : M Response :=
  request_id ← choose_request_id request_id_header;
  o ← attempt route;
  match o with
  | Ok response =>
      mret (mkResponse (rs_status response) (set_item REQUEST_ID_HEADER request_id (rs_headers response))
              (rs_body response))
  | Exc e =>
      match exception_handler (Some request_id) (Some request_id) e with
      | Some response =>
          mret (mkResponse (rs_status response) (set_item REQUEST_ID_HEADER request_id (rs_headers response))
                  (rs_body response))
      | None => mret (handle_unexpected_exception (Some request_id) None)
      end
  end.

(** ** Dependencies ([app/api/dependencies/auth.py]) *)

(** [validate_idempotency_key] of [app/api/routes/jobs.py]. *)
Definition validate_idempotency_key (idempotency_key : string) : outcome string :=
  if 128 <? slen idempotency_key
  then Exc (app_err_msg InvalidRequestError "Idempotency-Key must be at most 128 characters")
  else if negb (all_chars (fun c => (32 <=? code_point c) && (code_point c <=? 126)) idempotency_key)
  then Exc (app_err_msg InvalidRequestError "Idempotency-Key must contain printable ASCII characters only")
  else if String.eqb (strip idempotency_key) ""
  then Exc (app_err_msg InvalidRequestError "Idempotency-Key must not be blank")
  else Ok idempotency_key.

(** The header parameter and [get_idempotency_key]: [None] for a validation
    error of the parameter, which FastAPI collects. *)
Definition get_idempotency_key (header : option string) : M (option string) :=
  match header with
  | None => mret None
  | Some key => if String.eqb key "" then mret None else key ← lift (validate_idempotency_key key); mret (Some key)
  end.

Definition ensure_owner_or_admin (current_user : CurrentUserDTO) (owner_id : uuid) : outcome unit :=
  if bool_decide (cu_role current_user = ADMIN) then Ok tt
  else if cu_id current_user =? owner_id then Ok tt
  else Exc (app_err_msg AuthorizationError "You do not have access to this resource").

Definition require_owner_or_admin_user (owner_id : uuid) (current_user : CurrentUserDTO)
    : outcome CurrentUserDTO :=
  match ensure_owner_or_admin current_user owner_id with
  | Ok _ => Ok current_user
  | Exc e => Exc e
  end.

Definition require_admin_user (current_user : CurrentUserDTO) : outcome CurrentUserDTO :=
  if negb (bool_decide (cu_role current_user = ADMIN))
  then Exc (app_err_msg AuthorizationError "Admin access is required")
  else Ok current_user.

(** ** Routes *)
Section routes.
Context `{LI : LaxInt} `{EV : EmailValidator} `{DT : DatetimeText} `{EC : JobStatusEventCodec}.
Context `{PH : PasswordHash} `{PJ : PyJWT} `{FT : FloatTime} `{PG : PgDriver} `{DC : DispatchCodec}.
Context `{RL : CreateJobRateLimiter} `{JC : JobListCache} `{N : WorkerPostCommitNotifier}.
Context `{JR : JsonReader} `{IR : IsoReader} (settings : Settings).

(** [get_current_user]; the credentials are those [HTTPBearer] found. *)
Definition current_user_dep (credentials : option string) : M CurrentUserDTO :=
  match credentials with
  | None => raise (HTTPExc 401 "Authentication credentials were not provided")
  | Some token => Auth.get_current_user settings token
  end.

Definition time_json (t : option datetime) : json :=
  match t with Some t => JStr (datetime_text t) | None => JNull end.

(** [JobResponse.model_validate(job)], as JSON: [payload] is a dict. *)
Definition JobResponse (job : JobPublicDTO) : outcome json :=
  match jp_payload job with
  | JObj _ => Ok (JObj [
      ("id", JStr (str_of_uuid (jp_id job)));
      ("owner_id", JStr (str_of_uuid (jp_owner_id job)));
      ("type", JStr (job_type_value (jp_type job)));
      ("payload", jp_payload job);
      ("status", JStr (job_status_value (jp_status job)));
      ("idempotency_key", JStr (jp_idempotency_key job));
      ("created_at", JStr (datetime_text (jp_created_at job)));
      ("updated_at", JStr (datetime_text (jp_updated_at job)));
      ("cancel_requested_at", time_json (jp_cancel_requested_at job))])
  | _ => Exc (ValidationErr "JobResponse")
  end.

Definition JobLogResponse (log : JobLogEntryDTO) : json := JObj [
  ("id", JNum (le_id log));
  ("job_id", JStr (str_of_uuid (le_job_id log)));
  ("attempt_number", match le_attempt_number log with Some n => JNum n | None => JNull end);
  ("level", JStr (le_level log));
  ("message", JStr (le_message log));
  ("created_at", JStr (datetime_text (le_created_at log)))].

Definition JobListResponse (items : list json) (next_cursor : option string) : json :=
  JObj [("items", JArr items); ("next_cursor", match next_cursor with Some c => JStr c | None => JNull end)].

Definition UserResponse (user : UserPublicDTO) : json := JObj [
  ("id", JStr (str_of_uuid (up_id user)));
  ("email", JStr (up_email user));
  ("role", JStr (user_role_value (up_role user)));
  ("is_active", JBool (up_is_active user));
  ("created_at", JStr (datetime_text (up_created_at user)));
  ("updated_at", JStr (datetime_text (up_updated_at user)))].

Definition LoginResponse (result : LoginResultDTO) : json := JObj [
  ("access_token", JStr (lr_access_token result));
  ("token_type", JStr (lr_token_type result));
  ("expires_at", JStr (datetime_text (lr_expires_at result)))].

(** [create_job] of [app/api/routes/jobs.py], its arguments resolved. *)
Definition create_job_route (current_user : CurrentUserDTO) (idempotency_key : string)
    (job_type : JobType) (payload : json) : M Response :=
  result ← JobService.create_job settings current_user idempotency_key job_type payload;
  body ← lift (JobResponse (jc_job result));
  mret (mkResponse (if jc_created result then 201 else 200)
          [("Idempotency-Replayed", if jc_created result then "false" else "true")] body).

(** [POST /jobs]: FastAPI reads the body, resolves the dependencies in their
    order, and then reports what it could not validate. *)
Definition post_jobs (credentials idempotency_key : option string) (body : option json) : M Response :=
  match body with
  | None => raise (RequestValidationErr 1)
  | Some body =>
      current_user ← current_user_dep credentials;
      idempotency_key ← get_idempotency_key idempotency_key;
      match idempotency_key, JobCreateRequest body with
      | Some idempotency_key, Some (job_type, payload) =>
          create_job_route current_user idempotency_key job_type payload
      | None, None => raise (RequestValidationErr 2)
      | _, _ => raise (RequestValidationErr 1)
      end
  end.

(** [get_job]. *)
Definition get_job (credentials : option string) (job_id : uuid) : M Response :=
  current_user ← current_user_dep credentials;
  job ← JobService.get_job_detail current_user job_id;
  body ← lift (JobResponse job);
  mret (mkResponse 200 [] body).

Fixpoint responses (jobs : list JobPublicDTO) : outcome (list json) :=
  match jobs with
  | [] => Ok []
  | job :: rest =>
      match JobResponse job with
      | Exc e => Exc e
      | Ok body => match responses rest with Ok bodies => Ok (body :: bodies) | Exc e => Exc e end
      end
  end.

(** [list_jobs]; [limit] is declared [ge=1, le=100]. *)
Definition get_jobs (credentials cursor : option string) (limit : option Z) : M Response :=
  current_user ← current_user_dep credentials;
  if match limit with Some n => (n <? 1) || (100 <? n) | None => false end
  then raise (RequestValidationErr 1)
  else
    page ← ListJobs.list_jobs current_user cursor limit;
    items ← lift (responses (pg_items page));
    mret (mkResponse 200 [] (JobListResponse items (pg_next_cursor page))).

(** [get_job_logs]. *)
Definition get_job_logs (credentials : option string) (job_id : uuid) : M Response :=
  current_user ← current_user_dep credentials;
  logs ← JobService.list_job_logs current_user job_id;
  mret (mkResponse 200 [] (JArr (JobLogResponse <$> logs))).

(** [cancel_job]. *)
Definition post_cancel (credentials : option string) (job_id : uuid) : M Response :=
  current_user ← current_user_dep credentials;
  job ← JobService.cancel_job current_user job_id;
  body ← lift (JobResponse job);
  mret (mkResponse 200 [] body).

(** [register] of [app/api/routes/auth.py]. *)
Definition post_register (body : option json) : M Response :=
  match body ≫= CredentialsRequest with
  | None => raise (RequestValidationErr 1)
  | Some (email, password) =>
      user ← register_user email password;
      mret (mkResponse 201 [] (UserResponse user))
  end.

(** [login]. *)
Definition post_login (body : option json) : M Response :=
  match body ≫= CredentialsRequest with
  | None => raise (RequestValidationErr 1)
  | Some (email, password) =>
      result ← login_user settings email password;
      mret (mkResponse 200 [] (LoginResponse result))
  end.

(** [live] and [ready] of [app/api/routes/health.py]. *)
Definition live : Response := mkResponse 200 [] (JObj [("status", JStr "alive")]).

Definition not_ready : Response :=
  mkResponse 503 [] (JObj [("status", JStr "not_ready"); ("checks", JNull)]).

Definition ready (is_ready : bool) (_check_database ping : M unit) : M Response :=
  if negb is_ready then mret not_ready
  else
    database ← attempt _check_database;
    match database with
    | Exc _ => mret not_ready
    | Ok _ =>
        pong ← attempt ping;
        let redis_status := match pong with Ok _ => "ok" | Exc _ => "degraded" end in
        mret (mkResponse 200 [] (JObj [("status", JStr "ready");
          ("checks", JObj [("database", JStr "ok"); ("redis", JStr redis_status)])]))
    end.

End routes.
