(* ===== verification/Logging.v ===== *)
(** * Logging: [app/core/logging.py], the JSON log lines with their redaction,
    and the request context of [app/core/request_context.py]. *)
From S2P Require Import Prelude Exceptions Domain Store Effects Text Iso.

Definition SENSITIVE_LOG_KEYS : list string :=
  ["password"; "token"; "authorization"; "jwt"; "secret"; "database_url"; "redis_url"; "rabbitmq_url"].

(** [_is_sensitive_key]. *)
Definition _is_sensitive_key (key : string) : bool :=
  let normalized := lower key in
  existsb (fun sensitive_key => contains sensitive_key normalized) SENSITIVE_LOG_KEYS.

#[global] Arguments _is_sensitive_key : simpl never.

Definition REDACTED : json := JStr "[REDACTED]".

(** [_sanitize_log_value]; lists, tuples and sets are [JArr]. *)
Fixpoint sanitize (value : json) : json :=
  match value with
  | JObj fields =>
      JObj (List.map (fun kv => (fst kv, if _is_sensitive_key (fst kv) then REDACTED else sanitize (snd kv)))
              fields)
  | JArr l => JArr (List.map sanitize l)
  | _ => value
  end.

Definition _sanitize_log_value (value : json) (key : option string) : json :=
  match key with
  | Some key => if _is_sensitive_key key then REDACTED else sanitize value
  | None => sanitize value
  end.

(** A [LogRecord]: what [format] reads of it; [rec_dict] is its [__dict__],
    extras included, and [rec_exception] the formatted traceback. *)
Record LogRecord := mkLogRecord {
  rec_levelname : string;
  rec_name : string;
  rec_message : string;
  rec_request_id : option string;
  rec_dict : list (string * json);
  rec_exception : option string
}.

Definition standard_attributes : list string :=
  ["args"; "created"; "exc_info"; "exc_text"; "filename"; "funcName"; "levelname"; "levelno"; "lineno";
   "module"; "msecs"; "message"; "msg"; "name"; "pathname"; "process"; "processName"; "relativeCreated";
   "stack_info"; "thread"; "threadName"; "taskName"; "request_id"].

Definition extras (record : LogRecord) : list (string * json) :=
  List.filter (fun kv => negb (bool_decide (fst kv ∈ standard_attributes))) (rec_dict record).

Definition text_or_null (o : option string) : json := match o with Some s => JStr s | None => JNull end.

(** The payload of [JsonLogFormatter.format] at time [now]. *)
Definition log_payload (now : datetime) (record : LogRecord) : json := JObj (
  [("timestamp", JStr (isoformat now));
   ("level", JStr (rec_levelname record));
   ("logger", JStr (rec_name record));
   ("message", JStr (rec_message record));
   ("request_id", text_or_null (rec_request_id record))]
  ++ match extras record with [] => [] | e => [("extra", _sanitize_log_value (JObj e) None)] end
  ++ match rec_exception record with Some text => [("exception", JStr text)] | None => [] end).

(** [JsonLogFormatter.format]. *)
Definition format_record (record : LogRecord) : M string :=
  now ← now; mret (dumps (log_payload now record)).

(** [RequestContextFilter.filter]: the record takes the identifier of the
    context. *)
Definition RequestContextFilter (get_request_id : option string) (record : LogRecord) : LogRecord :=
  mkLogRecord (rec_levelname record) (rec_name record) (rec_message record) get_request_id
    (rec_dict record) (rec_exception record).

(** The root logger, as far as [configure_logging] touches it: the number of
    its handlers that write JSON lines, of its other handlers, and its level. *)
Record RootLogger := mkRootLogger {
  root_configured : bool; root_json_handlers : nat; root_other_handlers : nat; root_level : Z
}.

(** [getattr(logging, level.upper(), logging.INFO)]. *)
Definition level_number (level : string) : Z :=
  match upper level with
  | "CRITICAL" => 50 | "FATAL" => 50 | "ERROR" => 40 | "WARNING" => 30 | "WARN" => 30
  | "INFO" => 20 | "DEBUG" => 10 | "NOTSET" => 0
  | _ => 20
  end.

(** [configure_logging]. *)
Definition configure_logging (level : string) (root : RootLogger) : RootLogger :=
  if root_configured root
  then mkRootLogger true (root_json_handlers root) (root_other_handlers root) (level_number level)
  else mkRootLogger true 1 0 (level_number level).
