(* ===== verification/Process.v ===== *)
(** * Process: the processes of [app/cli/] - what they set up and close, in
    which order, their tasks and signals - over the coroutines they run. *)
From S2P Require Import Prelude Exceptions Domain Store Effects Config Repos PostCommit Handlers Auth.
From S2P Require Import Rabbit Publisher Worker Recovery Logging.

(** ** Programs over calls to the outside *)

Inductive Task := HeartbeatTask | RecoveryTask.
Inductive Signal := SIGINT | SIGTERM.

(** The calls a process makes on libraries and the operating system. *)
Inductive Call :=
| CAddSignalHandler (sig : Signal)                   (* loop.add_signal_handler(sig, stop_event.set) *)
| CSignal (sig : Signal)                             (* signal.signal(sig, ...) *)
| CCreateAsyncEngine (url : string)                  (* create_async_engine *)
| CConnectRobust (url : string)                      (* aio_pika.connect_robust *)
| CSleep (delay : Z)                                 (* asyncio.sleep *)
| CRedisFromUrl (url : string)                       (* Redis.from_url *)
| CChannel (publisher_confirms : option bool)        (* connection.channel *)
| CSetQos (prefetch_count : Z)                       (* channel.set_qos *)
| CDeclare (declaration : channel_call)              (* a declaration or binding on the channel *)
| CConsume (queue : string) (no_ack : bool)          (* execute_queue.consume *)
| CAck (body : string)                               (* message.ack *)
| CReject (body : string)                            (* message.reject(requeue=False) *)
| CCancelConsumer (queue : string)                   (* execute_queue.cancel *)
| CCreateTask (task : Task) | CCancelTask (task : Task) | CGather (tasks : list Task)
| CWaitStop                                          (* stop_event.wait() *)
| CMkdir (path : string)                             (* Path(path).parent.mkdir(parents=True, exist_ok=True) *)
| CTouch (path : string)                             (* Path(path).touch() *)
| CRedisClose | CConnectionClose | CEngineDispose
| CLog (message : string).

(** A process: the world its coroutines run in; how a call ends after the calls
    made before it (an exception, or it returns); the calls made so far; and its
    root logger. *)
Record Proc := mkProc {
  pr_world : World;
  pr_answers : list Call -> Call -> option exn;
  pr_calls : list Call;
  pr_logger : RootLogger
}.

Definition P (A : Type) : Type := Proc -> outcome A * Proc.

#[export] Instance P_ret : MRet P := fun A a s => (Ok a, s).
#[export] Instance P_bind : MBind P := fun A B k m s =>
  match m s with
  | (Ok a, s') => k a s'
  | (Exc e, s') => (Exc e, s')
  end.

Definition pthrow {A} (e : exn) : P A := fun s => (Exc e, s).
Definition plift {A} (o : outcome A) : P A := fun s => (o, s).

(** [try: m  except Exception: ...] *)
Definition ptry {A} (m : P A) : P (outcome A) := fun s => let '(o, s') := m s in (Ok o, s').

Definition pwhen (b : bool) (m : P unit) : P unit := if b then m else mret tt.

(** [try: body  finally: cleanup]; an exception of [cleanup] replaces the
    outcome. *)
Definition finally {A} (body : P A) (cleanup : P unit) : P A := fun s =>
  let '(o, s1) := body s in
  match cleanup s1 with
  | (Ok _, s2) => (o, s2)
  | (Exc e, s2) => (Exc e, s2)
  end.

Definition call (c : Call) : P unit := fun s =>
  (match pr_answers s (pr_calls s) c with Some e => Exc e | None => Ok tt end,
   mkProc (pr_world s) (pr_answers s) (pr_calls s ++ [c]) (pr_logger s)).

Fixpoint calls (cs : list Call) : P unit :=
  match cs with [] => mret tt | c :: cs' => call c;; calls cs' end.

(** A coroutine of the application, to its end. *)
Definition run_coroutine {A} (m : M A) : P A := fun s =>
  let '(o, w) := m (pr_world s) in (o, mkProc w (pr_answers s) (pr_calls s) (pr_logger s)).

(** [configure_logging]. *)
Definition set_up_logging (level : string) : P unit := fun s =>
  (Ok tt, mkProc (pr_world s) (pr_answers s) (pr_calls s) (configure_logging level (pr_logger s))).

(** ** [app/cli/runtime.py] *)

Definition is_not_implemented (e : exn) : bool :=
  match e with OtherErr name _ => String.eqb name "NotImplementedError" | _ => false end.

Definition install_handler (sig : Signal) : P unit :=
  o ← ptry (call (CAddSignalHandler sig));
  match o with
  | Ok _ => mret tt
  | Exc e => if is_not_implemented e then call (CSignal sig) else pthrow e
  end.

Definition install_shutdown_handlers : P unit :=
  install_handler SIGINT;; install_handler SIGTERM.

Definition run_background_loop (run : P unit) (service_name : string) : P unit :=
  install_shutdown_handlers;;
  call (CLog (service_name +:+ "_started"));;
  finally run (call (CLog (service_name +:+ "_stopped"))).

(** ** [app/cli/heartbeat.py] *)

Definition touch_heartbeat (path : string) : P unit :=
  call (CMkdir path);; call (CTouch path).

(** [touch_heartbeat_forever] by its instants, in microseconds: the times at
    which it has touched the file, from time [t] on.  Each round takes some time to
    do so, given by [takes]; [stop_event] is set at time [stop]; [fuel] rounds. *)
Fixpoint touch_heartbeat_forever (fuel : nat) (interval_seconds : Z) (stop : Z) (takes : nat -> Z)
    (round : nat) (t : Z) : list Z :=
  match fuel with
  | O => []
  | S fuel' =>
      if stop <=? t then []
      else
        let touched := t + takes round in
        let woken := Z.max touched (Z.min stop (touched + seconds interval_seconds)) in
        touched :: touch_heartbeat_forever fuel' interval_seconds stop takes (S round) woken
  end.

(** ** Connections *)

(** [connect_robust_with_retry] with [asyncio.sleep], its last [left] attempts. *)
Fixpoint connect_attempts (url : string) (attempts attempt_number : Z) (left : nat) : P unit :=
  match left with
  | O => pthrow AssertionErr
  | S left' =>
      o ← ptry (call (CConnectRobust url));
      match o with
      | Ok _ => mret tt
      | Exc e =>
          if attempt_number =? attempts then pthrow e
          else
            call (CSleep (retry_delay attempt_number));;
            connect_attempts url attempts (attempt_number + 1) left'
      end
  end.

Definition connect_with_retry (url : string) : P unit :=
  connect_attempts url (Z.of_nat STARTUP_RETRY_ATTEMPTS) 1 STARTUP_RETRY_ATTEMPTS.

Definition has_path (path : option string) : bool :=
  match path with Some p => negb (String.eqb p "") | None => false end.

Section processes.
Context `{PG : PgDriver} `{DC : DispatchCodec} `{PH : PasswordHash} `{N : WorkerPostCommitNotifier}.
Context (settings : Settings).

(** What every process does first: [settings.validate_runtime()] and
    [configure_logging]. *)
Definition start_process : P unit :=
  plift (validate_runtime settings);;
  set_up_logging (log_level settings).

(** ** [app/cli/create_admin.py] *)
Definition create_admin_run (email password : string) : P unit :=
  set_up_logging (log_level settings);;
  call (CCreateAsyncEngine (database_url settings));;
  finally (_ ← run_coroutine (create_or_update_admin email password); mret tt) (call CEngineDispose).

(** ** [app/cli/run_outbox_publisher.py]; [stop_checks] are the readings of the
    stop event, [healthcheck_file] is the variable HEALTHCHECK_FILE. *)
Definition publish_until_stopped (stop_checks : list bool) (healthcheck_file : option string) : P unit :=
  call (CChannel (Some true));;
  call (CSetQos (outbox_batch_size settings));;
  calls (CDeclare <$> declare_topology);;
  let heartbeat := has_path healthcheck_file in
  pwhen heartbeat (call (CCreateTask HeartbeatTask));;
  finally (run_coroutine (OutboxPublisher.run_forever settings stop_checks))
    (pwhen heartbeat (call (CCancelTask HeartbeatTask);; call (CGather [HeartbeatTask]))).

Definition outbox_publisher_run (stop_checks : list bool) (healthcheck_file : option string) : P unit :=
  start_process;;
  call (CCreateAsyncEngine (database_url settings));;
  connect_with_retry (rabbitmq_url settings);;
  finally (publish_until_stopped stop_checks healthcheck_file)
    (call CConnectionClose;; call CEngineDispose).

Definition outbox_publisher_main (stop_checks : list bool) (healthcheck_file : option string) : P unit :=
  run_background_loop (outbox_publisher_run stop_checks healthcheck_file) "outbox_publisher".

(** ** [app/cli/run_stale_running_recovery.py] *)
Definition stale_running_recovery_run (stop_checks : list bool) : P unit :=
  start_process;;
  call (CCreateAsyncEngine (database_url settings));;
  call (CRedisFromUrl (redis_url settings));;
  finally (run_coroutine (StaleRunningRecovery.run_forever settings stop_checks))
    (call CRedisClose;; call CEngineDispose).

Definition stale_running_recovery_main (stop_checks : list bool) : P unit :=
  run_background_loop (stale_running_recovery_run stop_checks) "stale_running_recovery".

(** ** [app/cli/run_job_worker.py] *)
Section worker.
Context (worker_id : string).

(** The tasks that have not ended. *)
Record Tasks := mkTasks { heartbeat_alive : bool; recovery_alive : bool }.

(** What the event loop runs while [main] waits for the stop event: a message is
    delivered to the consumer; the recovery task makes a round of its loop; the
    heartbeat task makes one of its. *)
Inductive Activity := Delivery (body : string) | RecoveryRound | HeartbeatRound.

(** [consume(message)]: what it raises, the consumer only logs; the message
    then stays unacknowledged. *)
Definition consume (body : string) : P unit :=
  o ← ptry (
    disposition ← run_coroutine
      (JobWorker.handle_message build_job_handler_registry settings worker_id body);
    match disposition with
    | Acked => call (CAck body)
    | RejectedWithoutRequeue => call (CReject body)
    end);
  mret tt.

Definition activity (healthcheck_file : string) (a : Activity) (tasks : Tasks) : P Tasks :=
  match a with
  | Delivery body => consume body;; mret tasks
  | RecoveryRound =>
      if recovery_alive tasks then
        o ← ptry (run_coroutine (StaleRunningRecovery.recover_due_batch_once settings));
        mret (mkTasks (heartbeat_alive tasks) (match o with Ok _ => true | Exc _ => false end))
      else mret tasks
  | HeartbeatRound =>
      if heartbeat_alive tasks then
        o ← ptry (touch_heartbeat healthcheck_file);
        mret (mkTasks (match o with Ok _ => true | Exc _ => false end) (recovery_alive tasks))
      else mret tasks
  end.

Fixpoint activities (healthcheck_file : string) (l : list Activity) (tasks : Tasks) : P Tasks :=
  match l with
  | [] => mret tasks
  | a :: l' => tasks ← activity healthcheck_file a tasks; activities healthcheck_file l' tasks
  end.

(** The body of the [try] of [main]; [meanwhile] is what runs until the stop
    event is set.  [gather] collects the exceptions of the tasks. *)
Definition work_until_stopped (meanwhile : list Activity) (healthcheck_file : option string) : P unit :=
  call (CChannel None);;
  call (CSetQos 4);;
  calls (CDeclare <$> declare_topology);;
  call (CDeclare (DeclareQueue JOBS_EXECUTE_QUEUE_NAME true execute_queue_arguments));;
  call (CConsume JOBS_EXECUTE_QUEUE_NAME false);;
  let heartbeat := has_path healthcheck_file in
  pwhen heartbeat (call (CCreateTask HeartbeatTask));;
  call (CCreateTask RecoveryTask);;
  _ ← activities (default "" healthcheck_file) meanwhile (mkTasks heartbeat true);
  call CWaitStop;;
  call (CCancelConsumer JOBS_EXECUTE_QUEUE_NAME);;
  call (CCancelTask RecoveryTask);;
  pwhen heartbeat (call (CCancelTask HeartbeatTask));;
  call (CGather (RecoveryTask :: if heartbeat then [HeartbeatTask] else [])).

Definition job_worker_main (meanwhile : list Activity) (healthcheck_file : option string) : P unit :=
  start_process;;
  call (CCreateAsyncEngine (database_url settings));;
  connect_with_retry (rabbitmq_url settings);;
  call (CRedisFromUrl (redis_url settings));;
  install_shutdown_handlers;;
  finally (work_until_stopped meanwhile healthcheck_file)
    (call CRedisClose;; call CConnectionClose;; call CEngineDispose).

End worker.
End processes.
