(* ===== verification/ProcessSpec.v ===== *)
(** * ProcessSpec: the traces of a process - which calls it can have made when it
    ends, and how. *)
From S2P Require Import Prelude Exceptions Domain Store Effects Config PostCommit Rabbit Logging Process.

Section traces.
Context (answers : list Call -> Call -> option exn).

(** When the outside answers as given, [m] adds to the calls some that, with its
    outcome, are in [T]. *)
Definition traces {A} (m : P A) (T : outcome A -> list Call -> Prop) : Prop :=
  forall s, pr_answers s = answers ->
    pr_answers (snd (m s)) = answers /\
    exists l, pr_calls (snd (m s)) = pr_calls s ++ l /\ T (fst (m s)) l.

(** A call that always returns. *)
Definition reliable (c : Call) : Prop := forall before, answers before c = None.

(** What a sequence leaves: all of it when it returned, otherwise a part from
    the start that ends with the call that raised. *)
Definition ran (cs : list Call) {A} (o : outcome A) (l : list Call) : Prop :=
  l `prefix_of` cs /\ ((exists a, o = Ok a) -> l = cs) /\ (Forall reliable cs -> exists a, o = Ok a) /\
  ((exists e, o = Exc e) -> l <> []).

(** After a sequence, [T]; or the sequence broke off. *)
Definition after (cs : list Call) {A} (T : outcome A -> list Call -> Prop) (o : outcome A)
    (l : list Call) : Prop :=
  ((exists e, o = Exc e) /\ l `prefix_of` cs /\ l <> []) \/ exists l2, l = cs ++ l2 /\ T o l2.

Lemma traces_mono {A} (m : P A) (T1 T2 : outcome A -> list Call -> Prop) :
  traces m T1 -> (forall o l, T1 o l -> T2 o l) -> traces m T2.
Proof using. intros H HT s Hs. destruct (H s Hs) as (Ha & l & Hl & HTl). eauto 6. Qed.

Lemma traces_ret {A} (a : A) : traces (mret a) (fun o l => o = Ok a /\ l = []).
Proof using. intros s Hs. split; [done|]. exists []. by rewrite app_nil_r. Qed.

Lemma traces_throw {A} e : traces (pthrow (A := A) e) (fun o l => o = Exc e /\ l = []).
Proof using. intros s Hs. split; [done|]. exists []. by rewrite app_nil_r. Qed.

Lemma traces_lift {A} (o : outcome A) : traces (plift o) (fun o' l => o' = o /\ l = []).
Proof using. intros s Hs. split; [done|]. exists []. by rewrite app_nil_r. Qed.

Lemma traces_coroutine {A} (m : M A) : traces (run_coroutine m) (fun _ l => l = []).
Proof using.
  intros s Hs. unfold run_coroutine. destruct (m (pr_world s)) as [o w]. split; [done|].
  exists []. by rewrite app_nil_r.
Qed.

Lemma traces_logging level : traces (set_up_logging level) (fun o l => o = Ok tt /\ l = []).
Proof using. intros s Hs. split; [done|]. exists []. by rewrite app_nil_r. Qed.

Lemma traces_call c : traces (call c) (ran [c]).
Proof using.
  intros s Hs. split; [done|]. exists [c]. split; [done|]. cbn. rewrite Hs.
  split; [done|]. split; [done|]. split; [|done].
  intros [Hc _]%Forall_cons. rewrite Hc. by exists tt.
Qed.

Lemma traces_bind {A B} (m : P A) (k : A -> P B) T1 T2 T :
  traces m T1 -> (forall a, traces (k a) (T2 a)) ->
  (forall e l, T1 (Exc e) l -> T (Exc e) l) ->
  (forall a o l1 l2, T1 (Ok a) l1 -> T2 a o l2 -> T o (l1 ++ l2)) ->
  traces (m ≫= k) T.
Proof using.
  intros Hm Hk He Ho s Hs. destruct (Hm s Hs) as (Ha & l1 & Hl1 & HT1).
  unfold mbind, P_bind. destruct (m s) as [ [a|e] s1]; cbn in *; [|split; eauto].
  destruct (Hk a s1 Ha) as (Ha' & l2 & Hl2 & HT2). split; [done|].
  exists (l1 ++ l2). split; [by rewrite Hl2, Hl1, app_assoc|]. by eapply Ho.
Qed.

Lemma traces_try {A} (m : P A) T T' :
  traces m T -> (forall o l, T o l -> T' (Ok o) l) -> traces (ptry m) T'.
Proof using.
  intros Hm HT s Hs. destruct (Hm s Hs) as (Ha & l & Hl & HTl). unfold ptry.
  destruct (m s) as [o s1]. cbn in *. eauto.
Qed.

(** The cleanup runs however the body ended. *)
Lemma traces_finally {A} (body : P A) (cleanup : P unit) T1 T2 T :
  traces body T1 -> traces cleanup T2 ->
  (forall o l1 l2, T1 o l1 -> T2 (Ok tt) l2 -> T o (l1 ++ l2)) ->
  (forall o e l1 l2, T1 o l1 -> T2 (Exc e) l2 -> T (Exc e) (l1 ++ l2)) ->
  traces (finally body cleanup) T.
Proof using.
  intros Hb Hc H1 H2 s Hs. destruct (Hb s Hs) as (Ha & l1 & Hl1 & HT1).
  unfold finally. destruct (body s) as [o s1]; cbn in *.
  destruct (Hc s1 Ha) as (Ha' & l2 & Hl2 & HT2).
  destruct (cleanup s1) as [ [[]|e] s2]; cbn in *; (split; [done|]); exists (l1 ++ l2);
    (split; [by rewrite Hl2, Hl1, app_assoc|]); eauto.
Qed.

(** Sequences compose. *)
Lemma ran_nil {A} (a : A) : ran [] (Ok a) [].
Proof using. split; [done|]. split; [done|]. split; [by exists a | by intros [? ?] ]. Qed.

Lemma traces_seq {A B} (m : P A) (k : A -> P B) cs1 cs2 :
  traces m (ran cs1) -> (forall a, traces (k a) (ran cs2)) -> traces (m ≫= k) (ran (cs1 ++ cs2)).
Proof using.
  intros Hm Hk. eapply (traces_bind _ _ _ (fun _ => ran cs2)); [exact Hm | exact Hk | |].
  - intros e l (Hp & _ & Hr & Hn). split; [by apply prefix_app_r|]. split; [by intros [? ?]|].
    split; [|intros _; apply Hn; by exists e]. intros [Hr1 _]%Forall_app. by destruct (Hr Hr1).
  - intros a o l1 l2 (_ & E & _) (Hp & E2 & Hr2 & Hn). rewrite (E ltac:(by exists a)).
    split; [by apply prefix_app|]. split; [intros Ho; by rewrite E2|].
    split; [intros [_ Hr]%Forall_app; by apply Hr2|]. intros He [_ ->]%app_eq_nil. by apply Hn.
Qed.

Lemma traces_after {A B} (m : P A) (k : A -> P B) cs1 cs2 T :
  traces m (ran cs1) -> (forall a, traces (k a) (after cs2 T)) -> traces (m ≫= k) (after (cs1 ++ cs2) T).
Proof using.
  intros Hm Hk. eapply (traces_bind _ _ _ (fun _ => after cs2 T)); [exact Hm | exact Hk | |].
  - intros e l (Hp & _ & _ & Hn). left. split; [by exists e|]. split; [by apply prefix_app_r|].
    apply Hn. by exists e.
  - intros a o l1 l2 (_ & E & _) HT. rewrite (E ltac:(by exists a)).
    destruct HT as [(He & Hp & Hn)|(l3 & -> & HT)].
    + left. split; [done|]. split; [by apply prefix_app|]. by intros [_ ->]%app_eq_nil.
    + right. exists l3. by rewrite app_assoc.
Qed.

Lemma traces_now {A} (m : P A) T : traces m T -> traces m (after [] T).
Proof using. intros H. eapply traces_mono; [exact H|]. intros o l HT. right. by exists l. Qed.

Lemma traces_ran_ret {A} (a : A) : traces (mret a) (ran []).
Proof using. eapply traces_mono; [apply traces_ret|]. intros o l [-> ->]. apply ran_nil. Qed.

Lemma traces_calls cs : traces (calls cs) (ran cs).
Proof using.
  induction cs as [|c cs IH]; [apply traces_ran_ret|].
  apply (traces_seq (call c) _ [c] cs); [apply traces_call | intros []; exact IH].
Qed.

Lemma traces_when (b : bool) m cs : traces m (ran cs) -> traces (pwhen b m) (ran (if b then cs else [])).
Proof using. intros H. destruct b; [exact H | apply traces_ran_ret]. Qed.

End traces.

#[export] Hint Resolve traces_ret traces_throw traces_lift traces_coroutine traces_logging traces_call
  traces_calls traces_ran_ret : app.

(** A sequence of calls, by its list. *)
Ltac run_calls :=
  repeat match goal with
  | |- traces _ (call _) _ => apply traces_call
  | |- traces _ (calls _) _ => apply traces_calls
  | |- traces _ (pwhen _ _) _ => apply traces_when
  | |- traces _ (mret _) _ => apply traces_ran_ret
  | |- traces _ (_ ≫= _) (ran _ _) => eapply traces_seq; [|intros ?]
  | |- traces _ (_ ≫= _) (after _ _) => eapply traces_after; [|intros ?]
  end.

(** ** Openings *)

(** Calls that open what a process works with, before its [try]. *)
Inductive opening : Call -> Prop :=
| opening_engine url : opening (CCreateAsyncEngine url)
| opening_connect url : opening (CConnectRobust url)
| opening_pause d : 1 <= d <= STARTUP_RETRY_MAX_SECONDS -> opening (CSleep d)
| opening_redis url : opening (CRedisFromUrl url)
| opening_loop_handler sig : opening (CAddSignalHandler sig)
| opening_handler sig : opening (CSignal sig).

(** What a heartbeat or a delivery calls. *)
Inductive serving : Call -> Prop :=
| serving_ack body : serving (CAck body)
| serving_reject body : serving (CReject body)
| serving_mkdir path : serving (CMkdir path)
| serving_touch path : serving (CTouch path).

#[export] Hint Constructors opening serving : app.

Section only.
Context (answers : list Call -> Call -> option exn) (K : Call -> Prop).

(** All calls are of one kind. *)
Definition only {A} (m : P A) : Prop := traces answers m (fun _ l => Forall K l).

Lemma only_bind {A B} (m : P A) (k : A -> P B) : only m -> (forall a, only (k a)) -> only (m ≫= k).
Proof using.
  intros Hm Hk. apply (traces_bind _ _ _ (fun _ l => Forall K l) (fun _ _ l => Forall K l)); try done.
  intros. by apply Forall_app.
Qed.

Lemma only_try {A} (m : P A) : only m -> only (ptry m).
Proof using. intros H. by eapply traces_try. Qed.

Lemma only_call c : K c -> only (call c).
Proof using. intros H. eapply traces_mono; [apply traces_call|]. intros o l ([l' Hp] & _). assert (H1 : Forall K (l ++ l')) by (rewrite <- Hp; by constructor).
  by apply Forall_app in H1 as [? _]. Qed.

Lemma only_silent {A} (m : P A) T : traces answers m T -> (forall o l, T o l -> l = []) -> only m.
Proof using. intros H HT. eapply traces_mono; [exact H|]. intros o l Hl. by rewrite (HT _ _ Hl). Qed.

Lemma only_ret {A} (a : A) : only (mret a).
Proof using. eapply only_silent; [apply traces_ret | by intros o l [_ ->] ]. Qed.

Lemma only_throw {A} e : only (pthrow (A := A) e).
Proof using. eapply only_silent; [apply traces_throw | by intros o l [_ ->] ]. Qed.

Lemma only_lift {A} (o : outcome A) : only (plift o).
Proof using. eapply only_silent; [apply traces_lift | by intros o' l [_ ->] ]. Qed.

Lemma only_coroutine {A} (m : M A) : only (run_coroutine m).
Proof using. eapply only_silent; [apply traces_coroutine | by intros o l ->]. Qed.

Lemma only_logging level : only (set_up_logging level).
Proof using. eapply only_silent; [apply traces_logging | by intros o l [_ ->] ]. Qed.

End only.

#[export] Hint Resolve only_bind only_try only_call only_ret only_throw only_lift only_coroutine
  only_logging : app.

Lemma connect_only answers url : only answers opening (connect_with_retry url).
Proof.
  unfold connect_with_retry. generalize (Z.of_nat STARTUP_RETRY_ATTEMPTS) as n.
  generalize STARTUP_RETRY_ATTEMPTS as left. assert (H1 : 1 <= 1) by lia. revert H1.
  generalize 1 at 2 3 as k. intros k Hk left n. revert k Hk.
  induction left as [|left IH]; intros k Hk; cbn [connect_attempts]; [auto with app|].
  apply only_bind; [auto with app|]. intros [ []|e]; [auto with app|].
  destruct (k =? n); [auto with app|]. apply only_bind; [|intros _; apply IH; lia].
  apply only_call, opening_pause. unfold retry_delay, STARTUP_RETRY_BASE_SECONDS, STARTUP_RETRY_MAX_SECONDS.
  pose proof (Z.pow_pos_nonneg 2 (k - 1)). lia.
Qed.

Lemma handlers_only answers : only answers opening install_shutdown_handlers.
Proof.
  assert (H : forall sig, only answers opening (install_handler sig)).
  { intros sig. unfold install_handler. apply only_bind; [auto with app|].
    intros [ []|e]; [auto with app|]. destruct (is_not_implemented e); auto with app. }
  unfold install_shutdown_handlers. apply only_bind; [apply H | intros _; apply H].
Qed.

#[export] Hint Resolve connect_only handlers_only : app.

(** ** The heartbeat *)
Section heartbeat.
Context (interval_seconds stop : Z) (takes : nat -> Z) (bound : Z).
Hypothesis interval_pos : 1 <= interval_seconds.
Hypothesis takes_bound : forall i, 0 <= takes i <= bound.

#[local] Abbreviation beats fuel n t := (touch_heartbeat_forever fuel interval_seconds stop takes n t).

(** Rounds enough to reach the stop from [t]. *)
Definition rounds_to_stop (t : Z) : nat := Z.to_nat ((stop - t) / seconds interval_seconds + 1).

Lemma woken_later n t woken : t < stop ->
  woken = Z.max (t + takes n) (Z.min stop (t + takes n + seconds interval_seconds)) ->
  (t < woken <= t + bound + seconds interval_seconds) /\
  (woken < stop -> t + seconds interval_seconds <= woken).
Proof using interval_pos takes_bound. intros Ht. pose proof (takes_bound n). unfold seconds. lia. Qed.

Lemma beats_within fuel n t x : x ∈ beats fuel n t -> t <= x < stop + bound.
Proof using interval_pos takes_bound.
  revert n t; induction fuel as [|fuel IH]; intros n t; cbn [touch_heartbeat_forever];
    [by intros ?%not_elem_of_nil|].
  destruct (Z.leb_spec stop t); [by intros ?%not_elem_of_nil|].
  pose proof (takes_bound n). intros [->|Hx]%elem_of_cons; [lia|]. apply IH in Hx.
  pose proof (woken_later n t _ H eq_refl). lia.
Qed.

(** More rounds than enough change nothing: the loop has ended. *)
Lemma beats_enough fuel fuel' n t :
  (rounds_to_stop t <= fuel)%nat -> (rounds_to_stop t <= fuel')%nat -> beats fuel n t = beats fuel' n t.
Proof using interval_pos takes_bound.
  revert fuel' n t; induction fuel as [|fuel IH]; intros fuel' n t Hf Hf'.
  - destruct fuel' as [|fuel']; [done|]. cbn. destruct (Z.leb_spec stop t); [done|]. exfalso.
    unfold rounds_to_stop, seconds in Hf. pose proof (Z.div_pos (stop - t) (interval_seconds * 1000000)). lia.
  - cbn [touch_heartbeat_forever]. destruct (Z.leb_spec stop t) as [Hs|Hs].
    { destruct fuel' as [|fuel']; [done|]. cbn. by rewrite (proj2 (Z.leb_le stop t) Hs). }
    destruct fuel' as [|fuel'].
    { exfalso. unfold rounds_to_stop, seconds in Hf'.
      pose proof (Z.div_pos (stop - t) (interval_seconds * 1000000)). lia. }
    cbn [touch_heartbeat_forever]. rewrite (proj2 (Z.leb_gt stop t) Hs). f_equal.
    pose proof (woken_later n t _ Hs eq_refl) as Hw. set (w := Z.max _ _) in *.
    destruct (Z.le_gt_cases stop w) as [Hd|Hd].
    { destruct fuel, fuel'; cbn; by rewrite ?(proj2 (Z.leb_le stop w) Hd). }
    assert (Hr : (S (rounds_to_stop w) <= rounds_to_stop t)%nat).
    { unfold rounds_to_stop, seconds in *.
      pose proof (Z.div_pos (stop - w) (interval_seconds * 1000000) ltac:(lia) ltac:(lia)).
      assert ((stop - w) / (interval_seconds * 1000000) + 1 <= (stop - t) / (interval_seconds * 1000000)).
      { rewrite <- Z.div_add by lia. apply Z.div_le_mono; lia. }
      lia. }
    apply IH; lia.
Qed.

(** The last beat is never long ago. *)
Lemma beats_recent fuel n t x :
  (rounds_to_stop t <= fuel)%nat -> t + takes n <= x < stop ->
  exists b, b ∈ beats fuel n t /\ b <= x <= b + bound + seconds interval_seconds.
Proof using interval_pos takes_bound.
  revert n t; induction fuel as [|fuel IH]; intros n t Hf Hx.
  { exfalso. pose proof (takes_bound n). unfold rounds_to_stop, seconds in Hf.
    pose proof (Z.div_pos (stop - t) (interval_seconds * 1000000)). lia. }
  pose proof (takes_bound n) as Hn. pose proof (takes_bound (S n)) as HS.
  cbn [touch_heartbeat_forever]. rewrite (proj2 (Z.leb_gt stop t)) by lia.
  pose proof (woken_later n t _ ltac:(lia) eq_refl) as Hw.
  assert (Hw' : Z.max (t + takes n) (Z.min stop (t + takes n + seconds interval_seconds))
    = Z.min stop (t + takes n + seconds interval_seconds)) by (unfold seconds; lia).
  set (w := Z.max _ _) in *.
  destruct (Z.le_gt_cases (w + takes (S n)) x) as [Hd|Hd]; [|exists (t + takes n); split; [by left | lia] ].
  destruct (IH (S n) w) as (b & Hb & Hr).
  - unfold rounds_to_stop, seconds in *.
    assert ((stop - w) / (interval_seconds * 1000000) + 1 <= (stop - t) / (interval_seconds * 1000000)).
    { rewrite <- Z.div_add by lia. apply Z.div_le_mono; lia. }
    lia.
  - lia.
  - exists b. split; [by right | lia].
Qed.

End heartbeat.
