(* ===== verification/App.v ===== *)
(** * App: the application as [app/main.py] assembles it - [get_settings],
    [app/db/session.py], the state set in [lifespan], and the dependencies of
    [app/api/dependencies/] that read it. *)
From S2P Require Import Prelude Exceptions Domain Store Effects Config Text Repos PostCommit.
From S2P Require Import JobService ListJobs Redis RateLimiter ListCache Auth Http Logging Process Iso JsonText.

(** ** [get_settings] of [app/core/config.py] *)

(** An error of pydantic's [ValidationError]: the variable and the kind. *)
Record SettingsError := mkSettingsError { se_loc : string; se_type : string }.

(** What [Settings()] makes of the environment: settings, or the errors and the
    text of the exception. *)
Inductive SettingsResult :=
| SettingsRead (s : Settings)
| SettingsInvalid (errors : list SettingsError) (text : string).

Definition missing_fields (errors : list SettingsError) : list string :=
  se_loc <$> filter (fun e => se_type e = "missing") errors.

Definition sorted_names (names : list string) : list string := order_by String.leb names.

(** [get_settings] under [lru_cache]: [cache] is the value kept; a call that
    raises keeps nothing. *)
Definition get_settings (cache : option Settings) (result : SettingsResult)
    : outcome Settings * option Settings :=
  match cache with
  | Some s => (Ok s, Some s)
  | None =>
      match result with
      | SettingsRead s => (Ok s, Some s)
      | SettingsInvalid errors text =>
          let missing := missing_fields errors in
          if negb (bool_decide (missing = []))
          then (Exc (RuntimeErr ("Missing required environment settings: "
                                 +:+ join ", " (sorted_names missing))), None)
          else (Exc (RuntimeErr ("Invalid application settings: " +:+ text)), None)
      end
  end.

(** ** [app/db/session.py] *)

Record AsyncEngine := mkAsyncEngine { engine_url : string; pool_pre_ping : bool }.
Record SessionFactory := mkSessionFactory { sf_engine : AsyncEngine; expire_on_commit : bool }.
Record DatabaseRuntime := mkDatabaseRuntime { engine : AsyncEngine; session_factory : SessionFactory }.

Definition create_engine (settings : Settings) : AsyncEngine :=
  mkAsyncEngine (database_url settings) true.
Definition create_session_factory (engine : AsyncEngine) : SessionFactory :=
  mkSessionFactory engine false.
Definition create_database_runtime (settings : Settings) : DatabaseRuntime :=
  let engine := create_engine settings in
  mkDatabaseRuntime engine (create_session_factory engine).

(** [create_uow_factory]: each use enters a fresh Unit of Work on a session of the
    factory. *)
Record UnitOfWorkFactory := mkUnitOfWorkFactory { uf_sessions : SessionFactory }.
Definition create_uow_factory (session_factory : SessionFactory) : UnitOfWorkFactory :=
  mkUnitOfWorkFactory session_factory.
Definition new_session (factory : UnitOfWorkFactory) : Session := mkSession None false.

Record RedisClient := mkRedisClient { client_url : string }.

(** ** [app.state] *)
Record State := mkState {
  settings : Settings;
  is_ready : option bool;
  db_engine : option AsyncEngine;
  db_session_factory : option SessionFactory;
  uow_factory : option UnitOfWorkFactory;
  redis_client : option RedisClient;
  create_job_rate_limiter : option CreateJobRateLimiter;
  job_list_cache : option JobListCache;
  job_status_pubsub : option RedisClient;
  worker_post_commit_notifier : option WorkerPostCommitNotifier
}.

(** [create_app]: only the settings are set. *)
Definition create_app (s : Settings) : State :=
  mkState s None None None None None None None None None.

Definition set_is_ready (b : bool) (st : State) : State :=
  mkState (settings st) (Some b) (db_engine st) (db_session_factory st) (uow_factory st)
    (redis_client st) (create_job_rate_limiter st) (job_list_cache st) (job_status_pubsub st)
    (worker_post_commit_notifier st).

(** [app.state.name]: a [State] without the attribute raises. *)
Definition attribute {A} (name : string) (o : option A) : outcome A :=
  match o with
  | Some a => Ok a
  | None => Exc (OtherErr "AttributeError" ("'State' object has no attribute '" +:+ name +:+ "'"))
  end.

(** [app/api/dependencies/infrastructure.py]; the variants [..._from_request] read
    the state of the request's application. *)
Definition get_db_engine (app : State) := attribute "db_engine" (db_engine app).
Definition get_session_factory (app : State) := attribute "db_session_factory" (db_session_factory app).
Definition get_uow_factory (app : State) := attribute "uow_factory" (uow_factory app).
Definition get_redis_client (app : State) := attribute "redis_client" (redis_client app).
Definition get_create_job_rate_limiter (app : State) :=
  attribute "create_job_rate_limiter" (create_job_rate_limiter app).
Definition get_worker_post_commit_notifier (app : State) :=
  attribute "worker_post_commit_notifier" (worker_post_commit_notifier app).
Definition get_job_list_cache (app : State) := attribute "job_list_cache" (job_list_cache app).
Definition get_job_status_pubsub (app : State) := attribute "job_status_pubsub" (job_status_pubsub app).

Record Request := mkRequest { app : State }.

Definition get_session_factory_from_request (r : Request) := get_session_factory (app r).
Definition get_uow_factory_from_request (r : Request) := get_uow_factory (app r).
Definition get_redis_client_from_request (r : Request) := get_redis_client (app r).
Definition get_create_job_rate_limiter_from_request (r : Request) := get_create_job_rate_limiter (app r).
Definition get_worker_post_commit_notifier_from_request (r : Request) :=
  get_worker_post_commit_notifier (app r).
Definition get_job_list_cache_from_request (r : Request) := get_job_list_cache (app r).
Definition get_job_status_pubsub_from_request (r : Request) := get_job_status_pubsub (app r).

(** ** [app/api/dependencies/services.py] *)

Definition get_settings_from_request (r : Request) : Settings := settings (app r).

(** The objects [AuthService(...)] and [JobService(...)] by what they were made
    with. *)
Record AuthServiceObject := mkAuthServiceObject {
  as_uow_factory : UnitOfWorkFactory; as_settings : Settings }.
Record JobServiceObject := mkJobServiceObject {
  js_uow_factory : UnitOfWorkFactory;
  js_settings : Settings;
  js_rate_limiter : CreateJobRateLimiter;
  js_job_list_cache : JobListCache;
  js_post_commit_notifier : WorkerPostCommitNotifier
}.

Definition obind {A B} (o : outcome A) (k : A -> outcome B) : outcome B :=
  match o with Ok a => k a | Exc e => Exc e end.

Definition get_auth_service (r : Request) : outcome AuthServiceObject :=
  let s := get_settings_from_request r in
  obind (attribute "uow_factory" (uow_factory (app r))) (fun uow_factory =>
  Ok (mkAuthServiceObject uow_factory s)).

Definition get_job_service (r : Request) : outcome JobServiceObject :=
  let s := get_settings_from_request r in
  obind (attribute "uow_factory" (uow_factory (app r))) (fun uow_factory =>
  obind (attribute "create_job_rate_limiter" (create_job_rate_limiter (app r))) (fun rate_limiter =>
  obind (attribute "job_list_cache" (job_list_cache (app r))) (fun job_list_cache =>
  obind (attribute "worker_post_commit_notifier" (worker_post_commit_notifier (app r)))
    (fun post_commit_notifier =>
  Ok (mkJobServiceObject uow_factory s rate_limiter job_list_cache post_commit_notifier))))).

(** ** Calls on a service object *)
Section services.
Context `{PG : PgDriver} `{DC : DispatchCodec} `{JR : JsonReader} `{IR : IsoReader}.

Definition service_create_job (js : JobServiceObject) :=
  JobService.create_job (RL := js_rate_limiter js) (JC := js_job_list_cache js)
    (N := js_post_commit_notifier js) (js_settings js).
Definition service_cancel_job (js : JobServiceObject) :=
  JobService.cancel_job (JC := js_job_list_cache js) (N := js_post_commit_notifier js).
Definition service_list_jobs (js : JobServiceObject) :=
  list_jobs (JC := js_job_list_cache js).

End services.

(** ** [lifespan] *)
Section lifespan.
Context `{JR : JsonReader} `{IR : IsoReader} `{RS : RedisServer}.
Context `{RP : RedisPublish} `{EC : JobStatusEventCodec}.

(** What the state holds once everything was set. *)
Definition assemble (st : State) : State :=
  let s := settings st in
  let database_runtime := create_database_runtime s in
  let redis_client := mkRedisClient (redis_url s) in
  let cache := RedisJobListCache s in
  mkState s (Some true) (Some (engine database_runtime)) (Some (session_factory database_runtime))
    (Some (create_uow_factory (session_factory database_runtime))) (Some redis_client)
    (Some (RedisCreateJobRateLimiter s)) (Some cache) (Some redis_client)
    (Some (standard_notifier cache)).

(** Up to the [yield]. *)
Definition app_startup (st : State) : P State :=
  start_process (settings st);;
  let st := set_is_ready false st in
  call (CCreateAsyncEngine (database_url (settings st)));;
  call (CRedisFromUrl (redis_url (settings st)));;
  mret (assemble st).

(** The [finally]: what it sets, then what it closes. *)
Definition app_shutdown (st : State) : State * P unit :=
  (set_is_ready false st, call CRedisClose;; call CEngineDispose).

(** [lifespan] around the serving of requests. *)
Definition lifespan (st : State) (serving : State -> P unit) : P unit :=
  st ← app_startup st;
  finally (serving st) (snd (app_shutdown st)).

End lifespan.

(** ** [ready] of [app/api/routes/health.py] on the state *)

(** [_check_database(session_factory)] and [redis_client.ping()]: how they end. *)
Record Dependencies := mkDependencies { select_one : M unit; ping : M unit }.

Definition ready_route (dependencies : Dependencies) (app : State) : M Response :=
  if negb (default false (is_ready app)) then mret not_ready
  else
    _ ← lift (get_session_factory app);
    _ ← lift (get_redis_client app);
    ready true (select_one dependencies) (ping dependencies).
