(* ===== verification/Url.v ===== *)
(** * Url: what the program uses of [urllib.parse] - [urlsplit], and
    [SplitResult.geturl] - and of [str]: [replace(old, new, 1)], [partition]. *)
From S2P Require Import Prelude Exceptions TextSpec JsonText Iso.

(** The characters before the first that satisfies [p], and the rest from it on. *)
Fixpoint split_where (p : ascii -> bool) (s : string) : string * string :=
  match s with
  | EmptyString => (EmptyString, EmptyString)
  | String c s' =>
      if p c then (EmptyString, s)
      else let '(before, rest) := split_where p s' in (String c before, rest)
  end.

(** [s.split(c, 1)] when [c] occurs: what is before its first occurrence, and what
    is behind; [None] when it does not occur. *)
Definition partition (c : ascii) (s : string) : option (string * string) :=
  match split_where (Ascii.eqb c) s with
  | (_, EmptyString) => None
  | (before, String _ behind) => Some (before, behind)
  end.

Fixpoint drop_while (p : ascii -> bool) (s : string) : string :=
  match s with
  | EmptyString => EmptyString
  | String c s' => if p c then drop_while p s' else s
  end.

Fixpoint keep_if (p : ascii -> bool) (s : string) : string :=
  match s with
  | EmptyString => EmptyString
  | String c s' => if p c then String c (keep_if p s') else keep_if p s'
  end.

(** [s.removeprefix(old)] as an option. *)
Fixpoint without_prefix (old s : string) : option string :=
  match old, s with
  | EmptyString, _ => Some s
  | String a old', String b s' => if Ascii.eqb a b then without_prefix old' s' else None
  | String _ _, EmptyString => None
  end.

(** [s.replace(old, new, 1)]. *)
Fixpoint replace_first (old new s : string) : string :=
  match without_prefix old s with
  | Some rest => new +:+ rest
  | None => match s with EmptyString => EmptyString | String c s' => String c (replace_first old new s') end
  end.

(** ** Characters *)

Definition is_alpha (c : ascii) : bool :=
  let n := code_point c in ((65 <=? n) && (n <=? 90)) || ((97 <=? n) && (n <=? 122)).

(** [scheme_chars]. *)
Definition is_scheme_char (c : ascii) : bool :=
  let n := code_point c in
  is_alpha c || ((48 <=? n) && (n <=? 57)) || (n =? 43) || (n =? 45) || (n =? 46).

(** [_WHATWG_C0_CONTROL_OR_SPACE] and [_UNSAFE_URL_BYTES_TO_REMOVE]. *)
Definition is_control_or_space (c : ascii) : bool := code_point c <=? 32.
Definition is_unsafe (c : ascii) : bool :=
  let n := code_point c in (n =? 9) || (n =? 10) || (n =? 13).

Definition is_slash : ascii -> bool := Ascii.eqb "/".
Definition ends_netloc (c : ascii) : bool :=
  Ascii.eqb c "/" || Ascii.eqb c "?" || Ascii.eqb c "#".
Definition has_char (c : ascii) (s : string) : bool := negb (all_chars (fun d => negb (Ascii.eqb c d)) s).

(** ** Splitting *)

(** [SplitResult]. *)
Record SplitResult := mkSplitResult {
  scheme : string; netloc : string; path : string; query : string; fragment : string }.

(** [_check_bracketed_netloc], which reads an address of [ipaddress]. *)
Class IpLiteral := { bracketed_ok : string -> bool }.

Section urlsplit.
Context `{IP : IpLiteral}.

(** The scheme, if there is one, and what follows. *)
Definition split_scheme (url : string) : string * string :=
  match partition ":" url with
  | Some (String c s as before, behind) =>
      if is_alpha c && all_chars is_scheme_char before then (lower before, behind) else ("", url)
  | _ => ("", url)
  end.

(** The checks of brackets; addresses are code points below 256, of which none
    normalises to a delimiter ([_checknetloc]). *)
Definition netloc_ok (netloc : string) : bool :=
  match has_char "[" netloc, has_char "]" netloc with
  | false, false => true
  | true, true => bracketed_ok netloc
  | _, _ => false
  end.

Definition split_netloc (url : string) : outcome (string * string) :=
  match without_prefix "//" url with
  | Some rest =>
      let '(netloc, url) := split_where ends_netloc rest in
      if netloc_ok netloc then Ok (netloc, url) else Exc (ValueErr "Invalid IPv6 URL")
  | None => Ok ("", url)
  end.

(** [urlsplit]. *)
Definition urlsplit (url : string) : outcome SplitResult :=
  let url := keep_if (fun c => negb (is_unsafe c)) (drop_while is_control_or_space url) in
  let '(scheme, url) := split_scheme url in
  match split_netloc url with
  | Exc e => Exc e
  | Ok (netloc, url) =>
      let '(url, fragment) := default (url, "") (partition "#" url) in
      let '(url, query) := default (url, "") (partition "?" url) in
      Ok (mkSplitResult scheme netloc url query fragment)
  end.

(** [parsed._replace(path=...)]. *)
Definition with_path (path : string) (u : SplitResult) : SplitResult :=
  mkSplitResult (scheme u) (netloc u) path (query u) (fragment u).

(** [uses_netloc]. *)
Definition uses_netloc : list string := [
  ""; "ftp"; "http"; "gopher"; "nntp"; "telnet"; "imap"; "wais"; "file"; "mms"; "https"; "shttp"; "snews";
  "prospero"; "rtsp"; "rtspu"; "rsync"; "svn"; "svn+ssh"; "sftp"; "nfs"; "git"; "git+ssh"; "ws"; "wss"].

(** [geturl()]. *)
Definition geturl (u : SplitResult) : string :=
  let url := path u in
  let url :=
    if negb (String.eqb (netloc u) "") then
      "//" +:+ netloc u +:+
        (if negb (String.eqb url "") && negb (String.prefix "/" url) then "/" +:+ url else url)
    else if negb (String.eqb (scheme u) "") && bool_decide (scheme u ∈ uses_netloc)
      && negb (String.prefix "//" url)
    then "//" +:+ (if negb (String.eqb url "") && negb (String.prefix "/" url) then "/" +:+ url else url)
    else url in
  let url := if negb (String.eqb (scheme u) "") then scheme u +:+ ":" +:+ url else url in
  let url := if negb (String.eqb (query u) "") then url +:+ "?" +:+ query u else url in
  if negb (String.eqb (fragment u) "") then url +:+ "#" +:+ fragment u else url.

End urlsplit.

(** ** Facts *)

Lemma split_where_app p s t :
  all_chars (fun c => negb (p c)) s = true ->
  split_where p (s +:+ t) = (s +:+ fst (split_where p t), snd (split_where p t)).
Proof.
  induction s as [|c s IH]; [intros _; apply surjective_pairing|]. cbn [all_chars].
  intros [Hc Hs]%andb_true_iff. apply negb_true_iff in Hc.
  change (String c s +:+ t) with (String c (s +:+ t)). cbn [split_where]. by rewrite Hc, (IH Hs).
Qed.

Lemma split_where_none p s : all_chars (fun c => negb (p c)) s = true -> split_where p s = (s, "").
Proof.
  induction s as [|c s IH]; cbn; [done|]. intros [Hc Hs]%andb_true_iff. apply negb_true_iff in Hc.
  by rewrite Hc, (IH Hs).
Qed.

Lemma partition_none c s : has_char c s = false -> partition c s = None.
Proof.
  unfold has_char, partition. intros H%negb_false_iff. rewrite split_where_none; [done|].
  exact H.
Qed.

Lemma partition_app c s t : has_char c s = false -> partition c (s +:+ String c t) = Some (s, t).
Proof.
  unfold has_char, partition. intros H%negb_false_iff. rewrite split_where_app by exact H.
  cbn [split_where fst snd]. rewrite Ascii.eqb_refl. cbn [fst snd]. by rewrite JsonRoundTrip.app_empty_r.
Qed.

Lemma without_prefix_app s t : without_prefix s (s +:+ t) = Some t.
Proof.
  induction s as [|c s IH]; [done|]. change (String c s +:+ t) with (String c (s +:+ t)).
  cbn [without_prefix]. by rewrite Ascii.eqb_refl.
Qed.

Lemma replace_prefix old new s : replace_first old new (old +:+ s) = new +:+ s.
Proof. unfold replace_first. destruct (old +:+ s) eqn:E; rewrite <- E, without_prefix_app; done. Qed.

Lemma keep_all p s : all_chars p s = true -> keep_if p s = s.
Proof. induction s as [|c s IH]; cbn; [done|]. intros [-> Hs]%andb_true_iff. by rewrite IH. Qed.
