(* ===== verification/Schema.v ===== *)
(** * Schema: the tables as the models of [app/models/] declare them, with the
    names of [app/db/naming.py], and the migration
    [alembic/versions/0001_initial_schema.py], as data. *)
From S2P Require Import Prelude Exceptions Domain Text Url.

(** ** Columns, constraints, indexes *)

Inductive SqlType :=
| SqlUUID | SqlString (length : option Z) | SqlChar (length : Z) | SqlText | SqlJSONB
| SqlSmallInteger | SqlInteger | SqlBigInteger | SqlBoolean | SqlTimestamptz.

Record Column := mkColumn { col_name : string; col_type : SqlType; col_nullable : bool }.

Inductive ConstraintBody :=
| PrimaryKeyConstraint (columns : list string)
| UniqueConstraint (columns : list string)
| CheckConstraint (sqltext : string)
| ForeignKeyConstraint (columns : list string) (table : string) (referred : list string) (ondelete : string).

Record Constraint := mkConstraint { con_name : string; con_body : ConstraintBody }.
Record Table := mkTable { t_name : string; t_columns : list Column; t_constraints : list Constraint }.

(** An index: its keys and predicate as in CREATE INDEX. *)
Record Index := mkIndex {
  ix_name : string; ix_table : string; ix_keys : list string; ix_where : option string
}.

#[export] Instance SqlType_eq_dec : EqDecision SqlType. Proof. solve_decision. Defined.
#[export] Instance Column_eq_dec : EqDecision Column. Proof. solve_decision. Defined.
#[export] Instance ConstraintBody_eq_dec : EqDecision ConstraintBody. Proof. solve_decision. Defined.
#[export] Instance Constraint_eq_dec : EqDecision Constraint. Proof. solve_decision. Defined.
#[export] Instance Table_eq_dec : EqDecision Table. Proof. solve_decision. Defined.
#[export] Instance Index_eq_dec : EqDecision Index. Proof. solve_decision. Defined.

(** ** [NAMING_CONVENTION] *)

Definition NAMING_CONVENTION : list (string * string) := [
  ("ix", "ix_%(table_name)s_%(column_0_N_name)s");
  ("uq", "uq_%(table_name)s_%(column_0_N_name)s");
  ("ck", "ck_%(table_name)s_%(constraint_name)s");
  ("fk", "fk_%(table_name)s_%(column_0_N_name)s_%(referred_table_name)s");
  ("pk", "pk_%(table_name)s")].

Fixpoint lookup_name (key : string) (l : list (string * string)) : option string :=
  match l with
  | [] => None
  | (k, v) :: l' => if String.eqb k key then Some v else lookup_name key l'
  end.

(** [template % values], for [%(name)s] conversions; [name] is what was read of a
    conversion's name. *)
Fixpoint interpolate (values : list (string * string)) (name : option string) (template : string)
    : option string :=
  match template with
  | EmptyString => match name with None => Some "" | Some _ => None end
  | String c rest =>
      match name with
      | Some name =>
          match rest with
          | String "s" rest' =>
              if Ascii.eqb c ")" then
                value ← lookup_name name values; text ← interpolate values None rest'; Some (value +:+ text)
              else interpolate values (Some (name +:+ String c "")) rest
          | _ => interpolate values (Some (name +:+ String c "")) rest
          end
      | None =>
          match rest with
          | String "(" rest' =>
              if Ascii.eqb c "%" then interpolate values (Some "") rest'
              else String c <$> interpolate values None rest
          | _ => String c <$> interpolate values None rest
          end
      end
  end.

Definition conventional_name (kind : string) (values : list (string * string)) : string :=
  default "" (template ← lookup_name kind NAMING_CONVENTION; interpolate values None template).

(** ** Declarative models *)

(** [mapped_column(...)]. *)
Record MappedColumn := mkMappedColumn {
  mc_name : string;
  mc_type : SqlType;
  mc_nullable : bool;
  mc_primary_key : bool;
  mc_unique : bool;
  mc_foreign_key : option (string * string)      (* the column referred to, ondelete *)
}.

Definition mapped (name : string) (type : SqlType) (nullable : bool) : MappedColumn :=
  mkMappedColumn name type nullable false false None.

(** The keys of an [Index]: a column, or [desc(column)]. *)
Inductive IndexKey := AscKey (column : string) | DescKey (column : string).

Inductive TableArg :=
| ArgCheck (sqltext name : string)
| ArgUnique (columns : list string)
| ArgIndex (name : string) (keys : list IndexKey) (postgresql_where : option string).

Record Model := mkModel {
  tablename : string; mapped_columns : list MappedColumn; table_args : list TableArg
}.

Definition UUIDPrimaryKeyMixin : list MappedColumn :=
  [mkMappedColumn "id" SqlUUID false true false None].
Definition TimestampMixin : list MappedColumn :=
  [mapped "created_at" SqlTimestamptz false; mapped "updated_at" SqlTimestamptz false].

Definition user_model : Model := mkModel "users"
  (UUIDPrimaryKeyMixin ++ TimestampMixin ++
   [mkMappedColumn "email" (SqlString (Some 320)) false false true None;
    mapped "password_hash" (SqlString None) false;
    mapped "role" (SqlString (Some 16)) false;
    mapped "is_active" SqlBoolean false])
  [ArgCheck "role IN ('user', 'admin')" "users_role_valid"].

Definition job_model : Model := mkModel "jobs"
  (UUIDPrimaryKeyMixin ++ TimestampMixin ++
   [mkMappedColumn "owner_id" SqlUUID false false false (Some ("users.id", "RESTRICT"));
    mapped "type" (SqlString (Some 64)) false;
    mapped "payload" SqlJSONB false;
    mapped "status" (SqlString (Some 16)) false;
    mapped "idempotency_key" (SqlString (Some 128)) false;
    mapped "request_hash" (SqlChar 64) false;
    mapped "attempt_count" SqlSmallInteger false;
    mapped "max_retries" SqlSmallInteger false;
    mapped "cancel_requested_at" SqlTimestamptz true;
    mapped "worker_id" (SqlString (Some 128)) true;
    mapped "execution_token" SqlUUID true;
    mapped "lease_expires_at" SqlTimestamptz true;
    mapped "started_at" SqlTimestamptz true;
    mapped "finished_at" SqlTimestamptz true;
    mapped "last_error" SqlText true])
  [ArgCheck "status IN ('pending','queued','running','completed','failed','cancelled')" "jobs_status_valid";
   ArgCheck "attempt_count >= 0" "jobs_attempt_count_non_negative";
   ArgCheck "max_retries = 3" "jobs_max_retries_fixed";
   ArgUnique ["owner_id"; "idempotency_key"];
   ArgIndex "ix_jobs_owner_id_created_at_id" [AscKey "owner_id"; DescKey "created_at"; DescKey "id"] None;
   ArgIndex "ix_jobs_created_at_id" [DescKey "created_at"; DescKey "id"] None;
   ArgIndex "ix_jobs_owner_id_running" [AscKey "owner_id"] (Some "status = 'running'");
   ArgIndex "ix_jobs_lease_expires_at_running" [AscKey "lease_expires_at"] (Some "status = 'running'");
   ArgIndex "ix_jobs_status_created_at" [AscKey "status"; DescKey "created_at"] None].

Definition job_log_model : Model := mkModel "job_logs"
  [mkMappedColumn "id" SqlBigInteger false true false None;
   mkMappedColumn "job_id" SqlUUID false false false (Some ("jobs.id", "CASCADE"));
   mapped "attempt_number" SqlSmallInteger true;
   mapped "level" (SqlString (Some 16)) false;
   mapped "message" SqlText false;
   mapped "created_at" SqlTimestamptz false]
  [ArgIndex "ix_job_logs_job_id_created_at_id" [AscKey "job_id"; AscKey "created_at"; AscKey "id"] None].

Definition outbox_event_model : Model := mkModel "outbox_events"
  (UUIDPrimaryKeyMixin ++ TimestampMixin ++
   [mapped "aggregate_id" SqlUUID false;
    mapped "event_type" (SqlString (Some 64)) false;
    mapped "payload" SqlJSONB false;
    mapped "available_at" SqlTimestamptz false;
    mapped "publish_attempts" SqlInteger false;
    mapped "published_at" SqlTimestamptz true;
    mapped "last_error" SqlText true])
  [ArgIndex "ix_outbox_events_available_at_created_at_unpublished"
     [AscKey "available_at"; AscKey "created_at"] (Some "published_at IS NULL")].

(** [Base.metadata], once [app.models] is imported. *)
Definition base_metadata : list Model := [job_model; job_log_model; outbox_event_model; user_model].

(** ** The table of a model *)

Definition column_of (c : MappedColumn) : Column := mkColumn (mc_name c) (mc_type c) (mc_nullable c).

Definition key_columns (m : Model) : list string := mc_name <$> filter (fun c => mc_primary_key c = true) (mapped_columns m).

Definition table_name_is (m : Model) (columns : list string) : list (string * string) :=
  [("table_name", tablename m); ("column_0_N_name", join "_" columns)].

Definition foreign_key (m : Model) (c : MappedColumn) : option Constraint :=
  '(target, ondelete) ← mc_foreign_key c;
  '(table, column) ← partition "." target;
  Some (mkConstraint
    (conventional_name "fk" (("referred_table_name", table) :: table_name_is m [mc_name c]))
    (ForeignKeyConstraint [mc_name c] table [column] ondelete)).

Definition unique_column (m : Model) (c : MappedColumn) : option Constraint :=
  if mc_unique c
  then Some (mkConstraint (conventional_name "uq" (table_name_is m [mc_name c])) (UniqueConstraint [mc_name c]))
  else None.

Definition constraint_arg (m : Model) (a : TableArg) : option Constraint :=
  match a with
  | ArgCheck sqltext name => Some (mkConstraint
      (conventional_name "ck" (("constraint_name", name) :: table_name_is m [])) (CheckConstraint sqltext))
  | ArgUnique columns =>
      Some (mkConstraint (conventional_name "uq" (table_name_is m columns)) (UniqueConstraint columns))
  | ArgIndex _ _ _ => None
  end.

Definition table_of (m : Model) : Table := mkTable (tablename m) (column_of <$> mapped_columns m)
  (mkConstraint (conventional_name "pk" (table_name_is m (key_columns m))) (PrimaryKeyConstraint (key_columns m))
   :: omap (foreign_key m) (mapped_columns m) ++ omap (unique_column m) (mapped_columns m)
   ++ omap (constraint_arg m) (table_args m)).

Definition render_key (k : IndexKey) : string :=
  match k with AscKey c => c | DescKey c => c +:+ " DESC" end.

Definition indexes_of (m : Model) : list Index :=
  omap (fun a => match a with
    | ArgIndex name keys condition => Some (mkIndex name (tablename m) (render_key <$> keys) condition)
    | _ => None end) (table_args m).
