(* ===== verification/Migration.v ===== *)
(** * Migration: [alembic/versions/0001_initial_schema.py] as operations on a
    catalogue, and what PostgreSQL does with them. *)
From S2P Require Import Prelude Exceptions Domain Text Url Schema.

(** ** Operations *)

Inductive Operation :=
| create_table (table : Table)
| create_index (index : Index)
| drop_index (name : string) (table_name : string)
| drop_table (name : string).

Definition column (name : string) (type : SqlType) (nullable : bool) : Column := mkColumn name type nullable.

Definition upgrade : list Operation := [
  create_table (mkTable "users"
    [column "id" SqlUUID false;
     column "email" (SqlString (Some 320)) false;
     column "password_hash" (SqlString None) false;
     column "role" (SqlString (Some 16)) false;
     column "is_active" SqlBoolean false;
     column "created_at" SqlTimestamptz false;
     column "updated_at" SqlTimestamptz false]
    [mkConstraint "ck_users_users_role_valid" (CheckConstraint "role IN ('user', 'admin')");
     mkConstraint "pk_users" (PrimaryKeyConstraint ["id"]);
     mkConstraint "uq_users_email" (UniqueConstraint ["email"])]);
  create_table (mkTable "jobs"
    [column "id" SqlUUID false;
     column "owner_id" SqlUUID false;
     column "type" (SqlString (Some 64)) false;
     column "payload" SqlJSONB false;
     column "status" (SqlString (Some 16)) false;
     column "idempotency_key" (SqlString (Some 128)) false;
     column "request_hash" (SqlChar 64) false;
     column "attempt_count" SqlSmallInteger false;
     column "max_retries" SqlSmallInteger false;
     column "cancel_requested_at" SqlTimestamptz true;
     column "worker_id" (SqlString (Some 128)) true;
     column "execution_token" SqlUUID true;
     column "lease_expires_at" SqlTimestamptz true;
     column "started_at" SqlTimestamptz true;
     column "finished_at" SqlTimestamptz true;
     column "last_error" SqlText true;
     column "created_at" SqlTimestamptz false;
     column "updated_at" SqlTimestamptz false]
    [mkConstraint "ck_jobs_jobs_attempt_count_non_negative" (CheckConstraint "attempt_count >= 0");
     mkConstraint "ck_jobs_jobs_max_retries_fixed" (CheckConstraint "max_retries = 3");
     mkConstraint "ck_jobs_jobs_status_valid"
       (CheckConstraint "status IN ('pending','queued','running','completed','failed','cancelled')");
     mkConstraint "fk_jobs_owner_id_users" (ForeignKeyConstraint ["owner_id"] "users" ["id"] "RESTRICT");
     mkConstraint "pk_jobs" (PrimaryKeyConstraint ["id"]);
     mkConstraint "uq_jobs_owner_id_idempotency_key" (UniqueConstraint ["owner_id"; "idempotency_key"])]);
  create_index (mkIndex "ix_jobs_owner_id_created_at_id" "jobs" ["owner_id"; "created_at DESC"; "id DESC"] None);
  create_index (mkIndex "ix_jobs_created_at_id" "jobs" ["created_at DESC"; "id DESC"] None);
  create_index (mkIndex "ix_jobs_owner_id_running" "jobs" ["owner_id"] (Some "status = 'running'"));
  create_index (mkIndex "ix_jobs_lease_expires_at_running" "jobs" ["lease_expires_at"] (Some "status = 'running'"));
  create_index (mkIndex "ix_jobs_status_created_at" "jobs" ["status"; "created_at DESC"] None);
  create_table (mkTable "job_logs"
    [column "id" SqlBigInteger false;
     column "job_id" SqlUUID false;
     column "attempt_number" SqlSmallInteger true;
     column "level" (SqlString (Some 16)) false;
     column "message" SqlText false;
     column "created_at" SqlTimestamptz false]
    [mkConstraint "fk_job_logs_job_id_jobs" (ForeignKeyConstraint ["job_id"] "jobs" ["id"] "CASCADE");
     mkConstraint "pk_job_logs" (PrimaryKeyConstraint ["id"])]);
  create_index (mkIndex "ix_job_logs_job_id_created_at_id" "job_logs" ["job_id"; "created_at"; "id"] None);
  create_table (mkTable "outbox_events"
    [column "id" SqlUUID false;
     column "aggregate_id" SqlUUID false;
     column "event_type" (SqlString (Some 64)) false;
     column "payload" SqlJSONB false;
     column "available_at" SqlTimestamptz false;
     column "publish_attempts" SqlInteger false;
     column "published_at" SqlTimestamptz true;
     column "last_error" SqlText true;
     column "created_at" SqlTimestamptz false;
     column "updated_at" SqlTimestamptz false]
    [mkConstraint "pk_outbox_events" (PrimaryKeyConstraint ["id"])]);
  create_index (mkIndex "ix_outbox_events_available_at_created_at_unpublished" "outbox_events"
    ["available_at"; "created_at"] (Some "published_at IS NULL"))].

Definition downgrade : list Operation := [
  drop_index "ix_outbox_events_available_at_created_at_unpublished" "outbox_events";
  drop_table "outbox_events";
  drop_index "ix_job_logs_job_id_created_at_id" "job_logs";
  drop_table "job_logs";
  drop_index "ix_jobs_status_created_at" "jobs";
  drop_index "ix_jobs_lease_expires_at_running" "jobs";
  drop_index "ix_jobs_owner_id_running" "jobs";
  drop_index "ix_jobs_created_at_id" "jobs";
  drop_index "ix_jobs_owner_id_created_at_id" "jobs";
  drop_table "jobs";
  drop_table "users"].

(** ** The catalogue *)

Record Catalogue := mkCatalogue { tables : gmap string Table; indexes : gmap string Index }.
Definition empty_catalogue : Catalogue := mkCatalogue ∅ ∅.

Definition has_relation (name : string) (c : Catalogue) : bool :=
  bool_decide (is_Some (tables c !! name)) || bool_decide (is_Some (indexes c !! name)).

Definition has_columns (t : Table) (names : list string) : bool :=
  forallb (fun n => bool_decide (n ∈ col_name <$> t_columns t)) names.

(** A constraint names columns there are; a foreign key refers to a table there is,
    or to its own. *)
Definition constraint_ok (t : Table) (ts : gmap string Table) (k : Constraint) : bool :=
  match con_body k with
  | PrimaryKeyConstraint columns => has_columns t columns
  | UniqueConstraint columns => has_columns t columns
  | CheckConstraint _ => true
  | ForeignKeyConstraint columns target referred _ =>
      has_columns t columns &&
      match <[t_name t := t]> ts !! target with Some t' => has_columns t' referred | None => false end
  end.

Definition refers_to (name : string) (k : Constraint) : bool :=
  match con_body k with
  | ForeignKeyConstraint _ target _ _ => String.eqb target name
  | _ => false
  end.

(** Another table has a foreign key to [name]. *)
Definition referred (name : string) (ts : gmap string Table) : bool :=
  existsb (fun '(_, t) => existsb (refers_to name) (t_constraints t)) (map_to_list (delete name ts)).

(** The column a key of an index names: up to a blank. *)
Definition key_column (key : string) : string :=
  match partition " " key with Some (name, _) => name | None => key end.

(** One statement; [None] when PostgreSQL refuses it. *)
Definition apply (op : Operation) (c : Catalogue) : option Catalogue :=
  match op with
  | create_table t =>
      if has_relation (t_name t) c then None
      else if forallb (constraint_ok t (tables c)) (t_constraints t)
      then Some (mkCatalogue (<[t_name t := t]> (tables c)) (indexes c)) else None
  | create_index i =>
      if has_relation (ix_name i) c then None
      else
        t ← tables c !! ix_table i;
        if has_columns t (key_column <$> ix_keys i)
        then Some (mkCatalogue (tables c) (<[ix_name i := i]> (indexes c))) else None
  | drop_index name _ =>
      if bool_decide (is_Some (indexes c !! name))
      then Some (mkCatalogue (tables c) (delete name (indexes c))) else None
  | drop_table name =>
      if negb (bool_decide (is_Some (tables c !! name))) then None
      else if referred name (tables c) then None
      else Some (mkCatalogue (delete name (tables c)) (filter (fun '(_, i) => ix_table i <> name) (indexes c)))
  end.

(** A migration in its transaction: all of it, or nothing. *)
Fixpoint run (ops : list Operation) (c : Catalogue) : option Catalogue :=
  match ops with
  | [] => Some c
  | op :: ops' => c' ← apply op c; run ops' c'
  end.

(** ** A migration next to other tables *)
Section frame.
Context (N : list string).

(** Relations and references outside of [N]. *)
Record apart (c : Catalogue) : Prop := mkApart {
  ap_tables n : n ∈ N -> tables c !! n = None;
  ap_indexes n : n ∈ N -> indexes c !! n = None;
  ap_references k t n : tables c !! k = Some t -> n ∈ N -> existsb (refers_to n) (t_constraints t) = false;
  ap_indexed k i : indexes c !! k = Some i -> ix_table i ∉ N
}.

Record within (c : Catalogue) : Prop := mkWithin {
  wi_tables k t : tables c !! k = Some t -> k ∈ N;
  wi_indexes k i : indexes c !! k = Some i -> k ∈ N
}.

Definition concerns (op : Operation) : Prop :=
  match op with
  | create_table t => t_name t ∈ N
  | create_index i => ix_name i ∈ N /\ ix_table i ∈ N
  | drop_index name _ => name ∈ N
  | drop_table name => name ∈ N
  end.

Definition joined (c0 c : Catalogue) : Catalogue :=
  mkCatalogue (tables c0 ∪ tables c) (indexes c0 ∪ indexes c).

Lemma lookup_joined {A} (m0 m : gmap string A) n : m !! n = None -> (m0 ∪ m) !! n = m0 !! n.
Proof using. intros H. rewrite lookup_union, H. by destruct (m0 !! n). Qed.

Lemma has_relation_joined c0 c n : apart c -> n ∈ N -> has_relation n (joined c0 c) = has_relation n c0.
Proof using.
  intros Ha Hn. unfold has_relation, joined. cbn [tables indexes].
  by rewrite !lookup_joined by (by apply Ha).
Qed.

Lemma constraint_ok_joined t c0 c k :
  constraint_ok t (tables c0) k = true -> constraint_ok t (tables (joined c0 c)) k = true.
Proof using.
  unfold constraint_ok. destruct (con_body k) as [| | |columns target names ondelete]; try done.
  rewrite !andb_true_iff. intros [Hc H]. split; [exact Hc|]. cbn [tables joined].
  rewrite insert_union_l. destruct (<[t_name t:=t]> (tables c0) !! target) as [t'|] eqn:E; [|done].
  by rewrite (lookup_union_Some_l _ _ _ _ E).
Qed.

Lemma referred_false name ts :
  referred name ts = false <->
  forall k t, k <> name -> ts !! k = Some t -> existsb (refers_to name) (t_constraints t) = false.
Proof using.
  unfold referred. rewrite <- not_true_iff_false, existsb_exists. split.
  - intros H k t Hk Ht. apply not_true_iff_false. intros Hr. apply H. exists (k, t). split; [|done].
    apply list_elem_of_In, elem_of_map_to_list. by rewrite lookup_delete_ne.
  - intros H ((k, t) & Hin & Hr). apply list_elem_of_In, elem_of_map_to_list in Hin.
    apply lookup_delete_Some in Hin as [Hk Ht]. rewrite (H k t) in Hr; done.
Qed.

Lemma apply_frame op c0 c0' c :
  concerns op -> apart c -> within c0 -> apply op c0 = Some c0' ->
  apply op (joined c0 c) = Some (joined c0' c) /\ within c0'.
Proof using.
  intros Hop Ha Hw. destruct op as [t|i|name tn|name]; cbn [apply concerns] in *.
  - rewrite has_relation_joined by done. destruct (has_relation (t_name t) c0); [done|].
    destruct (forallb (constraint_ok t (tables c0)) (t_constraints t)) eqn:E; [|done]. intros [= <-].
    assert (E' : forallb (constraint_ok t (tables (joined c0 c))) (t_constraints t) = true).
    { rewrite forallb_forall in E |- *. intros k Hk. by apply constraint_ok_joined, E. }
    rewrite E'. split.
    + unfold joined. cbn [tables indexes]. by rewrite insert_union_l.
    + constructor; cbn [tables indexes]; [|apply Hw]. intros k t'. rewrite lookup_insert_Some.
      intros [[<- _]|[_ H]]; [done | by eapply wi_tables].
  - destruct Hop as [Hn Ht]. rewrite has_relation_joined by done.
    destruct (has_relation (ix_name i) c0); [done|].
    change (tables (joined c0 c)) with (tables c0 ∪ tables c).
    rewrite (lookup_joined (tables c0)) by (by apply Ha). destruct (tables c0 !! ix_table i) as [t|]; [|done].
    cbn [mbind option_bind]. destruct (has_columns t _); [|done]. intros [= <-]. split.
    + unfold joined. cbn [tables indexes]. by rewrite insert_union_l.
    + constructor; cbn [tables indexes]; [apply Hw|]. intros k i'. rewrite lookup_insert_Some.
      intros [[<- _]|[_ H]]; [done | by eapply wi_indexes].
  - cbn [indexes joined]. rewrite (lookup_joined (indexes c0)) by (by apply Ha).
    destruct (bool_decide _); [|done]. intros [= <-]. split.
    + unfold joined. cbn [tables indexes]. rewrite delete_union.
      by rewrite (delete_id (indexes c)) by (by apply Ha).
    + constructor; cbn [tables indexes]; [apply Hw|]. intros k i' [_ H]%lookup_delete_Some.
      by eapply wi_indexes.
  - cbn [tables joined]. rewrite (lookup_joined (tables c0)) by (by apply Ha).
    destruct (bool_decide (is_Some (tables c0 !! name))); [|done]. cbn [negb].
    destruct (referred name (tables c0)) eqn:E; [done|]. intros [= <-].
    assert (E' : referred name (tables c0 ∪ tables c) = false).
    { rewrite referred_false in E |- *. intros k t Hk [H|[_ H]]%lookup_union_Some_raw; [by apply (E k)|].
      by eapply ap_references. }
    rewrite E'. split.
    + unfold joined. cbn [tables indexes]. rewrite delete_union.
      rewrite (delete_id (tables c)) by (by apply Ha). repeat f_equal.
      rewrite map_filter_union.
      * f_equal. apply map_filter_id. intros k i Hi Hn. by apply (ap_indexed _ Ha k i Hi); rewrite Hn.
      * apply map_disjoint_spec. intros k i1 i2 H1 H2. apply (wi_indexes _ Hw) in H1.
        rewrite (ap_indexes _ Ha k H1) in H2. done.
    + constructor; cbn [tables indexes].
      * intros k t [_ H]%lookup_delete_Some. by eapply wi_tables.
      * intros k i [H _]%map_lookup_filter_Some. by eapply wi_indexes.
Qed.

Lemma run_frame ops c0 c0' c :
  Forall concerns ops -> apart c -> within c0 -> run ops c0 = Some c0' ->
  run ops (joined c0 c) = Some (joined c0' c) /\ within c0'.
Proof using.
  intros Hops Ha. revert c0. induction Hops as [|op ops Hop _ IH]; intros c0 Hw; cbn [run].
  - intros [= <-]. done.
  - destruct (apply op c0) as [c1|] eqn:E; [|done]. cbn [mbind option_bind]. intros Hr.
    destruct (apply_frame op c0 c1 c Hop Ha Hw E) as [-> Hw1]. cbn [mbind option_bind]. by apply IH.
Qed.

Lemma within_empty : within empty_catalogue.
Proof using. constructor; intros k x Hx; by apply (lookup_empty_Some k x) in Hx. Qed.

End frame.

(** The relations of the migration. *)
Definition relation_of (op : Operation) : list string :=
  match op with
  | create_table t => [t_name t]
  | create_index i => [ix_name i]
  | _ => []
  end.
Definition migration_relations : list string := mjoin (relation_of <$> upgrade).

Lemma upgrade_concerns : Forall (concerns migration_relations) upgrade.
Proof.
  repeat (apply Forall_cons_2; [cbn [concerns t_name ix_name ix_table];
    repeat split; apply list_elem_of_In; vm_compute; tauto|]). apply Forall_nil_2.
Qed.

Lemma downgrade_concerns : Forall (concerns migration_relations) downgrade.
Proof.
  repeat (apply Forall_cons_2; [cbn [concerns]; apply list_elem_of_In; vm_compute; tauto|]).
  apply Forall_nil_2.
Qed.
