(* ===== verification/MigrationEnv.v ===== *)
(** * MigrationEnv: [alembic/env.py], which runs the migrations on the database of
    the settings, with the interpolation of [configparser] it goes through. *)
From S2P Require Import Prelude Exceptions Domain Text Url Schema Migration.

(** ** [configparser.BasicInterpolation] *)

Definition percent : ascii := "%".

(** [value.replace('%%', '')]. *)
Fixpoint remove_doubled (s : string) : string :=
  match s with
  | String c ((String c' rest') as rest) =>
      if Ascii.eqb c percent && Ascii.eqb c' percent then remove_doubled rest'
      else String c (remove_doubled rest)
  | _ => s
  end.

(** The text after a match of [\(([^)]+)\)s] at the start; [some] when a character of
    the key has been read. *)
Fixpoint after_key (some : bool) (s : string) : option string :=
  match s with
  | EmptyString => None
  | String c rest =>
      if Ascii.eqb c ")" then
        match rest with
        | String d rest' => if some && Ascii.eqb d "s" then Some rest' else None
        | EmptyString => None
        end
      else after_key true rest
  end.

(** [_KEYCRE.sub('', value)], [_KEYCRE] being [%\(([^)]+)\)s]; started with the
    length of the text. *)
Fixpoint remove_keys (fuel : nat) (s : string) : string :=
  match fuel, s with
  | S fuel, String c rest =>
      match rest with
      | String d inside =>
          match (if Ascii.eqb c percent && Ascii.eqb d "(" then after_key false inside else None) with
          | Some rest' => remove_keys fuel rest'
          | None => String c (remove_keys fuel rest)
          end
      | EmptyString => s
      end
  | _, _ => s
  end.

Definition ValueError_percent : exn := ValueErr "invalid interpolation syntax".

(** [before_set]. *)
Definition before_set (value : string) : outcome string :=
  let tmp_value := remove_doubled value in
  let tmp_value := remove_keys (String.length tmp_value) tmp_value in
  if has_char percent tmp_value then Exc ValueError_percent else Ok value.

(** Where [_interpolate_some] is: in the text, after a [%], inside a key, after its
    closing bracket. *)
Inductive Scan := InText | AfterPercent | InKey (key : string) | AfterBracket (key : string).

Definition InterpolationSyntaxError : exn := OtherErr "InterpolationSyntaxError" "'%' must be followed by '%' or '('".
Definition InterpolationMissingOptionError : exn := OtherErr "InterpolationMissingOptionError" "bad value substitution".
Definition InterpolationDepthError : exn := OtherErr "InterpolationDepthError" "recursion limit exceeded".

Definition prepend (s : string) (o : outcome string) : outcome string :=
  match o with Ok r => Ok (s +:+ r) | Exc e => Exc e end.

Fixpoint scan (resolve : string -> outcome string) (state : Scan) (s : string) : outcome string :=
  match s with
  | EmptyString => match state with InText => Ok "" | _ => Exc InterpolationSyntaxError end
  | String c rest =>
      match state with
      | InText =>
          if Ascii.eqb c percent then scan resolve AfterPercent rest
          else prepend (String c "") (scan resolve InText rest)
      | AfterPercent =>
          if Ascii.eqb c percent then prepend "%" (scan resolve InText rest)
          else if Ascii.eqb c "(" then scan resolve (InKey "") rest
          else Exc InterpolationSyntaxError
      | InKey key =>
          if Ascii.eqb c ")" then
            if String.eqb key "" then Exc InterpolationSyntaxError else scan resolve (AfterBracket key) rest
          else scan resolve (InKey (key +:+ String c "")) rest
      | AfterBracket key =>
          if Ascii.eqb c "s" then
            match resolve key with
            | Ok value => prepend value (scan resolve InText rest)
            | Exc e => Exc e
            end
          else Exc InterpolationSyntaxError
      end
  end.

Definition MAX_INTERPOLATION_DEPTH : nat := 10.

(** [before_get] of a value; [left] levels may still be entered. *)
Fixpoint interpolate (left : nat) (options : gmap string string) (value : string) : outcome string :=
  match left with
  | O => Exc InterpolationDepthError
  | S left' =>
      scan (fun key =>
        match options !! lower key with
        | None => Exc InterpolationMissingOptionError
        | Some value => if has_char percent value then interpolate left' options value else Ok value
        end) InText value
  end.

(** ** The script *)

Inductive PoolClass := NullPool.

(** The arguments of [context.configure]. *)
Record Configuration := mkConfiguration {
  cf_url : option string; cf_connection : option string; cf_target_metadata : list Model;
  cf_literal_binds : bool; cf_paramstyle : option string; cf_compare_type : bool
}.

Inductive EnvCall :=
| FileConfig (config_file_name : string)             (* logging.config.fileConfig *)
| EngineFromConfig (url : string) (poolclass : PoolClass)
| Connect (url : string) | Disconnect | Dispose
| Configure (configuration : Configuration)
| BeginTransaction | RunMigrations | CommitTransaction | RollbackTransaction.

(** The options of the main section, the catalogue of each database, that of the
    transaction under way, how calls end after those made before, and the calls. *)
Record Env := mkEnv {
  en_options : gmap string string;
  en_catalogues : gmap string Catalogue;
  en_working : option (string * Catalogue);
  en_answers : list EnvCall -> EnvCall -> option exn;
  en_calls : list EnvCall
}.

Definition V (A : Type) : Type := Env -> outcome A * Env.

#[export] Instance V_ret : MRet V := fun A a s => (Ok a, s).
#[export] Instance V_bind : MBind V := fun A B k m s =>
  match m s with
  | (Ok a, s') => k a s'
  | (Exc e, s') => (Exc e, s')
  end.

Definition vlift {A} (o : outcome A) : V A := fun s => (o, s).

(** A call: it fails as the answers say, or has its effect. *)
Definition vcall (c : EnvCall) (effect : Env -> outcome unit * Env) : V unit := fun s =>
  let s1 := mkEnv (en_options s) (en_catalogues s) (en_working s) (en_answers s) (en_calls s ++ [c]) in
  match en_answers s (en_calls s) c with
  | Some e => (Exc e, s1)
  | None => effect s1
  end.

Definition no_effect : Env -> outcome unit * Env := fun s => (Ok tt, s).

Definition set_working (x : option (string * Catalogue)) (s : Env) : Env :=
  mkEnv (en_options s) (en_catalogues s) x (en_answers s) (en_calls s).
Definition set_catalogues (m : gmap string Catalogue) (s : Env) : Env :=
  mkEnv (en_options s) m (en_working s) (en_answers s) (en_calls s).

Definition catalogue_of (url : string) (s : Env) : Catalogue := default empty_catalogue (en_catalogues s !! url).

(** [config.set_main_option]. *)
Definition set_main_option (name value : string) : V unit := fun s =>
  match before_set value with
  | Ok value =>
      (Ok tt, mkEnv (<[name := value]> (en_options s)) (en_catalogues s) (en_working s) (en_answers s) (en_calls s))
  | Exc e => (Exc e, s)
  end.

(** [config.get_main_option], [None] for an option there is not. *)
Definition get_main_option (name : string) : V (option string) := fun s =>
  match en_options s !! name with
  | None => (Ok None, s)
  | Some value =>
      match interpolate MAX_INTERPOLATION_DEPTH (en_options s) value with
      | Ok v => (Ok (Some v), s)
      | Exc e => (Exc e, s)
      end
  end.

Fixpoint interpolate_items (options : gmap string string) (items : list (string * string))
    : outcome (list (string * string)) :=
  match items with
  | [] => Ok []
  | (k, value) :: rest =>
      match interpolate MAX_INTERPOLATION_DEPTH options value with
      | Exc e => Exc e
      | Ok v => match interpolate_items options rest with Ok l => Ok ((k, v) :: l) | Exc e => Exc e end
      end
  end.

(** [config.get_section(config.config_ini_section, {})]: every option of it. *)
Definition get_section : V (gmap string string) := fun s =>
  (match interpolate_items (en_options s) (map_to_list (en_options s)) with
   | Ok l => Ok (list_to_map l)
   | Exc e => Exc e
   end, s).

Section script.
(** What the command has Alembic run: the operations of the scripts between the
    revision of the database and the one asked for; for the first [alembic upgrade
    head] those of [upgrade()]. *)
Context (script : list Operation).

(** [context.run_migrations()] on a connection. *)
Definition run_script (url : string) : V unit := vcall RunMigrations (fun s =>
  match en_working s with
  | Some (u, c) =>
      match run script c with
      | Some c' => (Ok tt, set_working (Some (u, c')) s)
      | None => (Exc (InfraErr "migration failed"), s)
      end
  | None => (Exc (InfraErr "no transaction"), s)
  end).

(** [with context.begin_transaction(): context.run_migrations()] on a connection to
    [url]: committed, or rolled back when something is raised. *)
Definition in_transaction (url : string) : V unit := fun s =>
  match vcall BeginTransaction (fun s => (Ok tt, set_working (Some (url, catalogue_of url s)) s)) s with
  | (Exc e, s1) => (Exc e, s1)
  | (Ok _, s1) =>
      match run_script url s1 with
      | (Ok _, s2) =>
          vcall CommitTransaction (fun s => (Ok tt,
            match en_working s with
            | Some (u, c) => set_working None (set_catalogues (<[u := c]> (en_catalogues s)) s)
            | None => s
            end)) s2
      | (Exc e, s2) => (Exc e, snd (vcall RollbackTransaction (fun s => (Ok tt, set_working None s)) s2))
      end
  end.

(** [run_migrations_offline]: the statements are written out, not executed. *)
Definition run_migrations_offline : V unit :=
  url ← get_main_option "sqlalchemy.url";
  vcall (Configure (mkConfiguration url None base_metadata true (Some "named") true)) no_effect;;
  vcall BeginTransaction no_effect;;
  vcall RunMigrations no_effect;;
  vcall CommitTransaction no_effect.

(** [do_run_migrations], on the connection to [url]. *)
Definition do_run_migrations (url : string) : V unit :=
  vcall (Configure (mkConfiguration None (Some url) base_metadata false None true)) no_effect;;
  in_transaction url.

(** [async with connectable.connect() as connection]: closed on every way out. *)
Definition connected (url : string) (body : V unit) : V unit := fun s =>
  match vcall (Connect url) no_effect s with
  | (Exc e, s1) => (Exc e, s1)
  | (Ok _, s1) =>
      let '(o, s2) := body s1 in
      match vcall Disconnect no_effect s2 with
      | (Ok _, s3) => (o, s3)
      | (Exc e, s3) => (Exc e, s3)
      end
  end.

Definition run_async_migrations (url : string) : V unit :=
  connected url (do_run_migrations url);;
  vcall Dispose no_effect.

(** [run_migrations_online]. *)
Definition run_migrations_online : V unit :=
  section ← get_section;
  match section !! "sqlalchemy.url" with
  | None => vlift (Exc (KeyErr "url"))
  | Some url => vcall (EngineFromConfig url NullPool) no_effect;; run_async_migrations url
  end.

(** The script from top to bottom: [Settings()] gives the URL of the database, or
    the error of a setting; [is_offline_mode] is [alembic --sql]. *)
Definition env_py (config_file_name : option string) (Settings_database_url : outcome string)
    (is_offline_mode : bool) : V unit :=
  match config_file_name with Some name => vcall (FileConfig name) no_effect | None => mret tt end;;
  database_url ← vlift Settings_database_url;
  set_main_option "sqlalchemy.url" database_url;;
  if is_offline_mode then run_migrations_offline else run_migrations_online.

End script.
