(* ===== verification/Freshness.v ===== *)
(** * Freshness: which keys of Redis the limiter and the cache write, when no
    page can be found, and what creating and cancelling jobs leave of the cached
    lists. *)
From S2P Require Import Prelude Exceptions Domain Store Effects Tables Text Config JsonText Iso JobRepo Repos.
From S2P Require Import PostCommit Invariants Steps JobService ServiceSpec ListJobs ListSpec.
From S2P Require Import Redis RateLimiter ListCache ListCacheSpec.

(** ** Scripts that touch one key *)

Definition only_key (key : string) {A} (f : Script A) : Prop :=
  forall t r k', k' <> key -> snd (f t r) !! k' = r !! k'.

Lemma only_key_bind key {A B} (f : Script A) (g : A -> Script B) :
  only_key key f -> (forall a, only_key key (g a)) -> only_key key (f ≫= g).
Proof.
  intros Hf Hg t r k' Hk. unfold mbind, Script_bind. specialize (Hf t r k' Hk).
  destruct (f t r) as [ [a|e] r']; cbn in *; [|done]. rewrite <- Hf. by apply Hg.
Qed.

Lemma only_key_ret key {A} (a : A) : only_key key (mret a).
Proof. by intros t r k' _. Qed.

Lemma only_key_get key key' : only_key key (GET key').
Proof. by intros t r k' _. Qed.

Lemma only_key_ttl key key' : only_key key (TTL key').
Proof. by intros t r k' _. Qed.

Lemma only_key_incrby key n : only_key key (INCRBY key n).
Proof.
  intros t r k' Hk. unfold INCRBY. destruct (live t r key) as [e|]; [|by cbn; rewrite lookup_insert_ne].
  destruct (redis_int (re_value e)); [|done]. destruct (in_int64 _); [|done].
  cbn. by rewrite lookup_insert_ne.
Qed.

Lemma only_key_expire key n : only_key key (EXPIRE key n).
Proof.
  intros t r k' Hk. unfold EXPIRE. destruct (live t r key); [|done]. cbn. by rewrite lookup_insert_ne.
Qed.

Lemma only_key_del key : only_key key (DEL key).
Proof. intros t r k' Hk. cbn. by rewrite lookup_delete_ne. Qed.

#[export] Hint Resolve only_key_bind only_key_ret only_key_get only_key_ttl only_key_incrby
  only_key_expire only_key_del : app.

Lemma only_key_create_script key ex : only_key key (CREATE_JOB_RATE_LIMIT_SCRIPT key ex).
Proof.
  unfold CREATE_JOB_RATE_LIMIT_SCRIPT, INCR. apply only_key_bind; [auto with app|]. intros n.
  apply only_key_bind; [destruct (n =? 1); auto with app | auto with app].
Qed.

Lemma only_key_release_script key : only_key key (RELEASE_CREATE_JOB_RATE_LIMIT_SCRIPT key).
Proof.
  unfold RELEASE_CREATE_JOB_RATE_LIMIT_SCRIPT, DECR. apply only_key_bind; [auto with app|].
  intros [s|]; [|auto with app]. destruct (redis_int s) as [n|]; [|by intros t r k' _].
  destruct (n <=? 1); auto with app.
Qed.

(** ** The keys of the cache *)

(** [r'] has the pages and versions of [r]. *)
Record same_lists (r r' : gmap string RedisEntry) : Prop := mkSameLists {
  sl_version o : r' !! version_key o = r !! version_key o;
  sl_page o v c l : r' !! _cache_key o v c l = r !! _cache_key o v c l
}.

#[export] Instance same_lists_refl : Reflexive same_lists.
Proof. intros r. by constructor. Qed.

#[export] Instance same_lists_trans : Transitive same_lists.
Proof. intros r1 r2 r3 [H1 H2] [H3 H4]. constructor; intros; [by rewrite H3, H1 | by rewrite H4, H2]. Qed.

Lemma window_key_not_list u n o : window_key u n <> version_key o.
Proof. destruct o; intros H; unfold window_key, version_key in H; discriminate H. Qed.

Lemma window_key_not_page u n o v c l : window_key u n <> _cache_key o v c l.
Proof. destruct o; intros H; unfold window_key, _cache_key in H; discriminate H. Qed.

Lemma only_window_key {A} (f : Script A) u n t r :
  only_key (window_key u n) f -> same_lists r (snd (f t r)).
Proof.
  intros Hf. constructor; intros; apply Hf; intros E; symmetry in E;
    first [by apply window_key_not_list in E | by apply window_key_not_page in E].
Qed.

Section redis.
Context `{RS : RedisServer}.

Lemma redis_call_lists {A} (f : Script A) w :
  (forall t r, same_lists r (snd (f t r))) -> same_lists (w_redis w) (w_redis (snd (redis_call f w))).
Proof using.
  intros Hf. specialize (Hf (redis_time w) (w_redis w)). unfold redis_call.
  destruct (f _ _) as [o r]. by destruct (redis_answer w).
Qed.

Lemma attempt_lists {A} (m : M A) w :
  same_lists (w_redis w) (w_redis (snd (m w))) -> same_lists (w_redis w) (w_redis (snd (attempt m w))).
Proof using. unfold attempt. by destruct (m w). Qed.

(** Reserving and releasing leave the lists alone, whatever Redis answers. *)
Lemma reserve_lists settings u w :
  same_lists (w_redis w) (w_redis (snd (limiter_reserve settings u w))).
Proof using.
  unfold limiter_reserve, mbind at 1, M_bind at 1, now. cbn [_build_window_key].
  set (s := window_start _ _). unfold mbind, M_bind.
  pose proof (attempt_lists (redis_call (CREATE_JOB_RATE_LIMIT_SCRIPT (window_key u s)
    (create_job_rate_window_seconds settings + KEY_EXPIRY_MARGIN_SECONDS))) (tick w)) as H.
  destruct (attempt _ (tick w)) as [ [ [ [used ttl]|e]|e] w1]; cbn [snd] in H |- *;
    change (w_redis w) with (w_redis (tick w)); [destruct (_ <? _)|..]; apply H, redis_call_lists; intros; apply (only_window_key _ u s), only_key_create_script.
Qed.

Lemma release_lists reservation u n w :
  rl_key reservation = window_key u n ->
  same_lists (w_redis w) (w_redis (snd (limiter_release reservation w))).
Proof using.
  intros Hk. unfold limiter_release, mbind, M_bind. rewrite Hk.
  pose proof (attempt_lists (redis_call (RELEASE_CREATE_JOB_RATE_LIMIT_SCRIPT (window_key u n))) w) as H.
  destruct (attempt _ w) as [ [o|e] w1]; cbn [snd] in H |- *;
    apply H, redis_call_lists; intros; apply (only_window_key _ u n), only_key_release_script.
Qed.

End redis.

(** ** Scopes without pages *)
Section window.
Context `{JR : JsonReader} `{IR : IsoReader} `{RS : RedisServer} (T : datetime).

(** The times at which what an invalidation at [T] or later wrote is still
    there. *)
Definition in_time (t : datetime) : Prop := T <= t < T + seconds VERSION_TTL_SECONDS.

(** In that time the scope has a version, which [k] more invalidations can
    increase, and no page can be found [d] versions later or above. *)
Definition clear (d k : Z) (o : option uuid) (r : gmap string RedisEntry) : Prop :=
  exists v, - 2 ^ 63 <= v /\ v + k < 2 ^ 63 /\
  (forall t, in_time t -> read_version t r o = Some v) /\
  (forall t v' c l, in_time t -> v + d <= v' -> live t r (_cache_key o v' c l) = None).

(** No page of a version to come; and after an invalidation for [u]. *)
Definition tidy (k : Z) (r : gmap string RedisEntry) : Prop := forall o, scope_ok o -> clear 1 k o r.
Definition cleared (k : Z) (u : uuid) (r : gmap string RedisEntry) : Prop :=
  tidy k r /\ clear 0 k (Some u) r /\ clear 0 k None r.

Lemma clear_mono d d' k k' o r : d <= d' -> k' <= k -> clear d k o r -> clear d' k' o r.
Proof using.
  intros Hd Hk (v & H1 & H2 & H3 & H4). exists v. split; [done|]. split; [lia|]. split; [done|].
  intros t v' c l Ht Hv. apply H4; [done | lia].
Qed.

Lemma tidy_mono k k' r : k' <= k -> tidy k r -> tidy k' r.
Proof using. intros Hk H o Ho. apply (clear_mono 1 1 k k'); [done | done | by apply H]. Qed.

Lemma cleared_tidy k u r : cleared k u r -> tidy k r.
Proof using. by intros [H _]. Qed.

Lemma live_lookup t r r' k : r' !! k = r !! k -> live t r' k = live t r k.
Proof using. unfold live. by intros ->. Qed.

Lemma same_lists_clear d k o r r' : same_lists r r' -> clear d k o r -> clear d k o r'.
Proof using.
  intros [Sv Sp] (v & H1 & H2 & H3 & H4). exists v. split; [done|]. split; [done|].
  split; [intros t Ht | intros t v' c l Ht Hv].
  - unfold read_version. rewrite (live_lookup t r) by done. by apply H3.
  - rewrite (live_lookup t r) by done. by apply H4.
Qed.

Lemma same_lists_tidy k r r' : same_lists r r' -> tidy k r -> tidy k r'.
Proof using. intros HS H o Ho. eapply same_lists_clear; [exact HS | by apply H]. Qed.

(** A version written in that time stays for it. *)
Lemma read_written t t' r o n :
  in_time t -> in_time t' -> in_int64 n = true ->
  read_version t' (<[version_key o := version_written t n]> r) o = Some n.
Proof using.
  intros Ht Ht' Hn. unfold read_version. rewrite live_insert; [by apply redis_int_str|].
  cbn. intros x [= <-]. unfold in_time in *. lia.
Qed.

Lemma clear_bump k o r v t :
  in_time t -> scope_ok o -> clear 1 (k + 1) o r -> 0 <= k -> read_version t r o = Some v ->
  clear 0 k o (<[version_key o := version_written t (v + 1)]> r) /\ in_int64 (v + 1) = true.
Proof using.
  intros Ht Ho (v0 & H1 & H2 & H3 & H4) Hk Hv. rewrite H3 in Hv by done. injection Hv as ->.
  assert (Hi : in_int64 (v + 1) = true)
    by (unfold in_int64; rewrite andb_true_iff, Z.leb_le, Z.ltb_lt; lia).
  split; [|exact Hi]. exists (v + 1). split; [lia|]. split; [lia|]. split.
  - intros t' Ht'. by apply read_written.
  - intros t' v' c l Ht' Hv'. rewrite live_insert_ne by (intros E; by apply (cache_key_not_version o o v' c l)).
    apply H4; [done | lia].
Qed.

Lemma clear_bump_other d k o o' r e :
  scope_ok o -> scope_ok o' -> o <> o' -> clear d k o' r -> clear d k o' (<[version_key o := e]> r).
Proof using.
  intros Ho Ho' Hne (v & H1 & H2 & H3 & H4). exists v. split; [done|]. split; [done|]. split.
  - intros t Ht. rewrite read_version_other by done. by apply H3.
  - intros t v' c l Ht Hv. rewrite live_insert_ne by (intros E; by apply (cache_key_not_version o' o v' c l)).
    by apply H4.
Qed.

(** Invalidating clears the lists of the owner and of the administrators. *)
Lemma invalidate_clears k u w :
  redis_answer w = RedisOk -> in_time (redis_time w) -> uuid_ok u -> 0 <= k ->
  tidy (k + 1) (w_redis w) -> cleared k u (w_redis (snd (cache_invalidate_owner u w))).
Proof using.
  intros Hup Ht Hu Hk HT. set (t := redis_time w) in *. set (r := w_redis w) in *.
  pose proof (HT (Some u) Hu) as Cu. pose proof (HT None I) as Ca.
  destruct Cu as (v & Cv). pose proof (proj1 (proj2 (proj2 Cv)) t Ht) as Hv.
  assert (Cu : clear 1 (k + 1) (Some u) r) by (by exists v). clear Cv.
  destruct Ca as (va & Cv). pose proof (proj1 (proj2 (proj2 Cv)) t Ht) as Hva.
  assert (Ca : clear 1 (k + 1) None r) by (by exists va). clear Cv.
  destruct (clear_bump k (Some u) r v t Ht Hu Cu Hk Hv) as [Bu Hi].
  set (r1 := <[version_key (Some u) := version_written t (v + 1)]> r) in *.
  assert (Hva1 : read_version t r1 None = Some va)
    by (unfold r1; by rewrite read_version_other by done).
  assert (Ca1 : clear 1 (k + 1) None r1) by (by apply clear_bump_other).
  destruct (clear_bump k None r1 va t Ht I Ca1 Hk Hva1) as [Ba Hia].
  rewrite (invalidate_up w u v va) by done. cbn [snd w_redis set_redis]. fold r. fold r1.
  assert (Bu' : clear 0 k (Some u) (<[version_key None := version_written t (va + 1)]> r1))
    by (by apply clear_bump_other).
  split; [|done]. intros o Ho. destruct (decide (o = None)) as [->|Hn].
  { by apply (clear_mono 0 1 k k). }
  destruct (decide (o = Some u)) as [->|Hnu]; [by apply (clear_mono 0 1 k k)|].
  apply clear_bump_other; [done | done | congruence|]. apply clear_bump_other; [done | done | congruence|].
  apply (clear_mono 1 1 (k + 1) k); [done | lia | by apply HT].
Qed.

(** A cleared scope has no page to find. *)
Lemma clear_misses k o c l w :
  redis_answer w = RedisOk -> in_time (redis_time w) -> clear 0 k o (w_redis w) ->
  cache_get_page o c l w = (Ok None, w).
Proof using.
  intros Hup Ht (v & _ & _ & Hv & Hp). rewrite get_page_up by done. unfold page_entry.
  rewrite Hv by done. cbn [mbind option_bind]. by rewrite Hp by (done || lia).
Qed.

End window.

(** ** The job service on Redis *)
Section services.
Context `{DC : DispatchCodec} `{PG : PgDriver} `{JR : JsonReader} `{IR : IsoReader} `{RS : RedisServer}.
Context `{RP : RedisPublish} `{EC : JobStatusEventCodec}.
Context (settings : Settings) (T : datetime).

(** Redis answers, in the time of the versions; PUBLISH does not write keys. *)
Hypothesis up : forall w, redis_answer w = RedisOk.
Hypothesis timely : forall w, in_time T (redis_time w).
Hypothesis publish_keeps : forall c p w, w_redis (snd (redis_publish c p w)) = w_redis w.

#[local] Abbreviation cache := (RedisJobListCache settings).
#[local] Abbreviation notifier := (standard_notifier cache).

Lemma invalidate_framed_clears k u w :
  uuid_ok u -> 0 <= k -> tidy T (k + 1) (w_redis w) ->
  frame w (snd (cache_invalidate_owner u w)) /\ fst (cache_invalidate_owner u w) = Ok tt /\
  cleared T k u (w_redis (snd (cache_invalidate_owner u w))).
Proof using settings JR IR up timely.
  intros Hu Hk HT. split; [|split].
  - apply (invalidate_framed (JC := cache) u w).
  - apply (invalidate_total (JC := cache) u w).
  - by apply (invalidate_clears T).
Qed.

Lemma wp_invalidate_redis k u Q w work c :
  uuid_ok u -> 0 <= k -> tidy T (k + 1) (w_redis w) ->
  (forall w', frame w w' -> cleared T k u (w_redis w') -> Q (Ok tt) (in_tx w' work c)) ->
  wp (invalidate_owner (JobListCache := cache) u) Q (in_tx w work c).
Proof using settings JR IR up timely.
  intros Hu Hk HT HQ. unfold wp.
  destruct (invalidate_framed_clears k u (in_tx w work c) Hu Hk HT) as (F & Ho & HC).
  apply frame_in_tx in F as (w2 & E & F). cbn [invalidate_owner RedisJobListCache].
  rewrite Ho, E. apply HQ; [exact F|]. by rewrite E in HC.
Qed.

Lemma wp_notify_redis k n Q w work c :
  uuid_ok (pn_owner_id n) -> 0 <= k -> tidy T (k + 1) (w_redis w) ->
  (forall w', frame w w' -> cleared T k (pn_owner_id n) (w_redis w') -> Q (Ok tt) (in_tx w' work c)) ->
  wp (_notify_post_commit (N := notifier) n) Q (in_tx w work c).
Proof using settings JR IR up timely publish_keeps.
  intros Hu Hk HT HQ. unfold wp.
  destruct (invalidate_framed_clears k _ (in_tx w work c) Hu Hk HT) as (_ & _ & HC).
  pose proof (notify_post_commit_framed (N := notifier) n (in_tx w work c)) as F.
  pose proof (notify_post_commit_total (N := notifier) n (in_tx w work c)) as Ho.
  assert (HR : w_redis (snd (_notify_post_commit (N := notifier) n (in_tx w work c)))
    = w_redis (snd (cache_invalidate_owner (pn_owner_id n) (in_tx w work c)))).
  { unfold _notify_post_commit, mbind, M_bind, attempt. cbn [notify_job_state_changed standard_notifier
      CompositeWorkerPostCommitNotifier notify_all CacheInvalidatingWorkerPostCommitNotifier
      RedisPublishingWorkerPostCommitNotifier invalidate_owner RedisJobListCache].
    unfold mbind, M_bind, attempt, uuid4. destruct (cache_invalidate_owner _ _) as [o w1]. cbn [snd].
    unfold publish_event. cbn [se_job_id].
    match goal with |- context [redis_publish ?ch ?e ?wx] => set (pub := redis_publish ch e wx);
      assert (Hp : w_redis (snd pub) = w_redis w1) by (etrans; [apply publish_keeps | reflexivity]) end.
    destruct pub as [o2 w2]. exact Hp. }
  rewrite <- HR in HC. destruct (_notify_post_commit n (in_tx w work c)) as [o w1]. cbn [fst snd] in *.
  subst o. apply frame_in_tx in F as (w2 & -> & F). by apply HQ.
Qed.

(** Creating a job clears the lists it appears in. *)
Lemma insert_rows_redis u key ty payload hash Q w work0 c0 :
  (forall o w' work c, w_redis w' = w_redis w -> (forall sj, o = Ok sj -> sj_owner_id sj = cu_id u) ->
     Q o (in_tx w' work c)) ->
  wp (JobService.insert_job_rows settings u key ty payload hash) Q (in_tx w work0 c0).
Proof using.
  intros HQ. unfold JobService.insert_job_rows. autounfold with repo.
  unfold SqlAlchemyOutboxRepository.create_dispatch_event. wp_run.
  destruct (insert_job _ _) as [d|v]; wp_run.
  - destruct (default CommitOk _); wp_run; apply HQ; try done. by intros sj [= <-].
  - destruct (is_duplicate_job_idempotency_key_error _); wp_run; apply HQ; done.
Qed.

Lemma create_job_clears u key ty payload w :
  uuid_ok (cu_id u) -> tidy T 2 (w_redis w) ->
  wp (JobService.create_job (RL := RedisCreateJobRateLimiter settings) (JC := cache) (N := notifier)
        settings u key ty payload)
    (fun o w' => forall r, o = Ok r -> jc_created r = true -> cleared T 0 (cu_id u) (w_redis w')) w.
Proof using settings JR IR up timely publish_keeps.
  intros Hu HT. unfold JobService.create_job. autounfold with repo. wp_run.
  destruct (scalar _) as [j|]; cbn [fmap option_fmap option_map]; wp_run.
  { destruct (_validate_existing_job _ _); wp_run; [by intros r [= <-] | by intros r]. }
  unfold wp at 1.
  pose proof (reserve_lists settings (cu_id u) (in_tx (env_step (env_step w)) None false)) as HS.
  pose proof (reserve_framed (RL := RedisCreateJobRateLimiter settings) (cu_id u)
    (in_tx (env_step (env_step w)) None false)) as F.
  cbn [reserve RedisCreateJobRateLimiter] in *.
  destruct (limiter_reserve settings (cu_id u) _) as [o w1]. cbn [fst snd] in *.
  apply frame_in_tx in F as (w2 & -> & F).
  assert (HT2 : tidy T 2 (w_redis w2)) by (eapply same_lists_tidy; [exact HS | exact HT]).
  destruct o as [reservation|e]; wp_run; [|by intros r].
  apply insert_rows_redis. intros o w3 work c HR Ho. wp_run.
  destruct o as [sj|e]; wp_run.
  - apply (wp_invalidate_redis 1); [done | lia | by rewrite HR |]. intros w4 F4 H4. wp_run.
    apply (wp_notify_redis 0); [cbn; by rewrite (Ho sj) | done | by eapply cleared_tidy |].
    intros w5 F5 H5. wp_run. intros r [= <-] _. cbn in H5. by rewrite (Ho sj) in H5.
  - assert (Hrel : forall Q' w' k c', (forall w'', Q' (Ok tt) (in_tx w'' k c')) ->
      wp (JobService.release_if_reserved (RL := RedisCreateJobRateLimiter settings) reservation) Q'
        (in_tx w' k c')) by (intros; apply wp_release_if_in_tx; auto).
    destruct (is_duplicate_key_error e); wp_run; apply Hrel; intros w4; wp_run; [|by intros r].
    unfold JobService._load_existing_job. autounfold with repo. wp_run.
    destruct (scalar _) as [j|]; cbn [fmap option_fmap option_map]; wp_run; [|by intros r].
    destruct (_validate_existing_job _ _); wp_run; [by intros r [= <-] | by intros r].
Qed.

(** Cancelling a job clears the lists it appears in, or changed nothing. *)
Lemma commit_cancellation_clears j j' message Q w d :
  w_env w = [] -> db_jobs d !! j_id j = Some j' -> j_owner_id j' = j_owner_id j -> uuid_ok (j_owner_id j) ->
  tidy T 2 (w_redis w) ->
  (forall o w' c, (forall p, o = Ok p -> cleared T 0 (jp_owner_id p) (w_redis w')) -> Q o (in_tx w' None c)) ->
  wp (JobService.commit_cancellation (JC := cache) (N := notifier) (_to_stored_job_dto j) message) Q
    (in_tx w (Some d) false).
Proof using settings JR IR up timely publish_keeps.
  intros He Hj Ho Hu HT HQ. unfold JobService.commit_cancellation, JobService._load_existing_job_by_id.
  autounfold with repo. wp_run. destruct (default CommitOk _); wp_run; [|by apply HQ..].
  apply (wp_invalidate_redis 1); [done | lia | exact HT |]. intros w1 F1 H1. wp_run.
  rewrite (env_step_nil w1) by (rewrite (frame_env _ _ F1); exact He).
  change (seen (in_tx w1 None true) None) with (w_db w1). rewrite (frame_db _ _ F1).
  cbn [w_db set_db db_jobs insert_log]. rewrite Hj. cbn [fmap option_fmap option_map]. wp_run.
  apply (wp_notify_redis 0); [cbn; by rewrite Ho | done | by eapply cleared_tidy |].
  intros w2 F2 H2. wp_run. apply HQ. by intros p [= <-].
Qed.

Lemma cancel_job_clears limit u k n w :
  db_ok limit n (w_db w) -> w_env w = [] -> tidy T 2 (w_redis w) ->
  (forall j, db_jobs (w_db w) !! k = Some j -> uuid_ok (j_owner_id j)) ->
  wp (JobService.cancel_job (JC := cache) (N := notifier) u k) (fun o w' =>
    forall p, o = Ok p -> w_db w' = w_db w \/ cleared T 0 (jp_owner_id p) (w_redis w')) w.
Proof using settings JR IR up timely publish_keeps.
  intros H He HT Hu. unfold JobService.cancel_job. wp_run. no_env.
  apply (wp_load_authorized limit u k true _ n); [done|]. cbn [seen]. world_simp.
  destruct (db_jobs (w_db w) !! k) as [j|] eqn:Hj; [|by wp_run].
  destruct (visible u j); [|by wp_run]. autounfold with repo. wp_run.
  assert (Hid : j_id j = k) by (by eapply db_ok_id).
  assert (Hrun : forall v message r, j_owner_id (job_values v j) = j_owner_id j ->
    r = Some (set_jobs (<[k := job_values v j]> (db_jobs (w_db w))) (w_db w)) ->
    wp (JobService.commit_cancellation (JC := cache) (N := notifier) (_to_stored_job_dto j) message)
      (fun o w' => forall p, o = Ok p ->
         w_db (uow_aexit match o with Ok _ => false | Exc _ => true end w') = w_db w \/
         cleared T 0 (jp_owner_id p)
           (w_redis (uow_aexit match o with Ok _ => false | Exc _ => true end w')))
      (in_tx (tick w) r false)).
  { intros v message r Ho ->. apply (commit_cancellation_clears j (job_values v j)).
    - done.
    - cbn. rewrite Hid. apply lookup_insert_eq.
    - exact Ho.
    - by apply Hu.
    - exact HT.
    - intros o w' c Hc p Hp. right. destruct w'. by apply Hc. }
  destruct (j_status j) eqn:Hs; wp_run;
    rewrite ?(update_job_spec limit n), ?Hid, ?Hj by done; unfold has_status; rewrite ?Hs;
    repeat first [rewrite bool_decide_eq_true_2 by done | rewrite (bool_decide_eq_false_2 (_ = PENDING)) by done];
    cbn [orb andb fst snd]; 
    [by eapply Hrun; [|reflexivity] | by eapply Hrun; [|reflexivity] | | by intros p | by intros p | by left].
  destruct (bool_decide (j_cancel_requested_at j = None)); cbn [fst snd]; [by eapply Hrun; [|reflexivity]|].
  wp_run. by left.
Qed.

End services.
