(* ===== verification/Staleness.v ===== *)
(** * Staleness: runs of list requests and other operations on one Redis, and
    where the pages in it come from. *)
From S2P Require Import Prelude Exceptions Domain Store Effects Tables Text TextSpec Config JsonText Iso JobRepo Repos.
From S2P Require Import PostCommit Invariants Steps JobService ServiceSpec ListJobs ListSpec.
From S2P Require Import Redis RateLimiter ListCache ListCacheSpec Freshness.

(** ** A list request in two parts *)
Section parts.
Context `{JR : JsonReader} `{IR : IsoReader}.

(** [list_jobs] between the cache miss and [set_page]. *)
Definition read_listing (u : CurrentUserDTO) (cursor : option string) (n : Z) : M JobListPageDTO :=
  decoded_cursor ← match cursor with
    | Some cursor => c ← lift (_decode_cursor cursor); mret (Some c)
    | None => mret None
    end;
  jobs ← with_uow (
    if bool_decide (cu_role u = ADMIN)
    then SqlAlchemyJobRepository.list_all_keyset decoded_cursor (n + 1)
    else SqlAlchemyJobRepository.list_for_owner_keyset (cu_id u) decoded_cursor (n + 1));
  mret (_build_job_list_page jobs n).

Lemma list_jobs_parts `{JC : JobListCache} u cur lim w w1 :
  let n := _normalize_limit lim in
  get_page (cache_owner u) cur n w = (Ok None, w1) ->
  list_jobs u cur lim w =
  (page ← read_listing u cur n; set_page (cache_owner u) cur n page;; mret page) w1.
Proof using.
  intros n Hg. unfold list_jobs, read_listing, mbind, M_bind. fold n. rewrite Hg.
  destruct cur as [s|]; [unfold lift; destruct (_decode_cursor s) as [c|e]; [|done]|];
    unfold mret, M_ret; cbn beta iota; match goal with |- context [with_uow ?body w1] => by destruct (with_uow body w1) as [ [jobs|e] w2] end.
Qed.

Lemma read_listing_redis u cur n :
  forall w, w_redis (snd (read_listing u cur n w)) = w_redis w.
Proof using.
  intros w. change (wp (read_listing u cur n) (fun _ w' => w_redis w' = w_redis w) w).
  unfold read_listing. rewrite wp_bind.
  assert (Hc : forall (Q : outcome (option JobListCursor) -> World -> Prop), (forall o, Q o w) ->
    wp (match cur with Some s => c ← lift (_decode_cursor s); mret (Some c) | None => mret None end) Q w).
  { intros Q HQ. destruct cur as [s|]; wp_run; [|apply HQ]. destruct (_decode_cursor s); wp_run; apply HQ. }
  apply Hc. clear Hc. intros [c|e]; [|done]. autounfold with repo. wp_run.
  by destruct (bool_decide _); wp_run.
Qed.

(** What it reads, for a cursor it accepts; the others it refuses. *)
Lemma read_listing_page u cur c n w :
  1 <= n <= 100 -> cursor_text cur c -> listable (w_db (env_step w)) ->
  fst (read_listing u cur n w) = Ok (page_of (rest_after u c (w_db (env_step w))) n).
Proof using.
  intros Hn Hc Hd.
  assert (Hl : _normalize_limit (Some n) = n) by (unfold _normalize_limit, MAX_LIST_LIMIT; lia).
  pose proof (list_jobs_page (JC := NoOpJobListCache) u cur c (Some n) w eq_refl Hc Hd) as [HP _].
  rewrite Hl in HP. rewrite <- HP. rewrite (list_jobs_parts (JC := NoOpJobListCache) u cur (Some n) w w) by done.
  rewrite Hl. unfold mbind, M_bind. by destruct (read_listing u cur n w) as [ [p|e] w1].
Qed.

Lemma read_listing_cursor u cur n w page :
  fst (read_listing u cur n w) = Ok page -> exists c, cursor_text cur c.
Proof using.
  unfold read_listing, mbind, M_bind. destruct cur as [s|]; [|intros _; exists None; constructor].
  unfold lift, _decode_cursor. destruct (read_cursor s) as [c|] eqn:Hs; [|done].
  intros _. exists (Some c). by constructor.
Qed.

End parts.

(** ** Listings by scope *)

(** Users with the same cache scope see the same jobs. *)
Lemma rest_after_scope u u' c d :
  cache_owner u = cache_owner u' -> rest_after u c d = rest_after u' c d.
Proof.
  intros H. unfold rest_after, listing. do 2 f_equal. unfold select_where.
  apply list_filter_iff. intros j. unfold cache_owner, visible in *.
  destruct (bool_decide (cu_role u = ADMIN)), (bool_decide (cu_role u' = ADMIN)); try done.
  by injection H as ->.
Qed.

(** The key of a page tells scope, version, the digest of the cursor and the
    limit. *)
Lemma cache_key_tells o o' v v' c c' l l' :
  scope_ok o -> scope_ok o' -> _cache_key o v c l = _cache_key o' v' c' l' ->
  o = o' /\ v = v' /\ sha256_hexdigest (default "" c) = sha256_hexdigest (default "" c') /\ l = l'.
Proof.
  intros Ho Ho' H. destruct (cache_key_inj _ _ _ _ _ _ _ _ Ho Ho' H) as [<- <-].
  split; [done|]. split; [done|].
  assert (E : sha256_hexdigest (default "" c) +:+ ":limit:" +:+ str_of_int l
    = sha256_hexdigest (default "" c') +:+ ":limit:" +:+ str_of_int l').
  { unfold _cache_key in H. destruct o as [u|];
      repeat (apply (app_inj_length _ _ _ _ eq_refl) in H as [_ H]); exact H. }
  apply app_inj_length in E as [-> E].
  - split; [done|]. apply (app_inj_length _ _ _ _ eq_refl) in E as [_ E].
    pose proof (JsonRoundTrip.number_str_of_int l "" I) as H1.
    pose proof (JsonRoundTrip.number_str_of_int l' "" I) as H2. rewrite E, H2 in H1. congruence.
  - by rewrite (proj1 (sha256_shape (default "" c))), (proj1 (sha256_shape (default "" c'))).
Qed.

(** ** Operations that store no page *)

(** [r'] has no page that [r] does not have. *)
Definition no_new_page (r r' : gmap string RedisEntry) : Prop :=
  forall o v c l, r' !! _cache_key o v c l = r !! _cache_key o v c l \/ r' !! _cache_key o v c l = None.

#[export] Instance no_new_page_refl : Reflexive no_new_page.
Proof. intros r o v c l. by left. Qed.

#[export] Instance no_new_page_trans : Transitive no_new_page.
Proof.
  intros r1 r2 r3 H1 H2 o v c l. destruct (H2 o v c l) as [->|H]; [apply H1 | by right].
Qed.

Definition stores_none {A} (m : M A) : Prop := forall w, no_new_page (w_redis w) (w_redis (snd (m w))).

Lemma stores_none_same {A} (m : M A) : (forall w, w_redis (snd (m w)) = w_redis w) -> stores_none m.
Proof. intros H w. by rewrite H. Qed.

Lemma stores_none_bind {A B} (m : M A) (k : A -> M B) :
  stores_none m -> (forall a, stores_none (k a)) -> stores_none (m ≫= k).
Proof.
  intros Hm Hk w. unfold mbind, M_bind. specialize (Hm w). destruct (m w) as [ [a|e] w1]; [|exact Hm].
  etrans; [exact Hm | apply Hk].
Qed.

Lemma stores_none_attempt {A} (m : M A) : stores_none m -> stores_none (attempt m).
Proof. intros Hm w. specialize (Hm w). unfold attempt. by destruct (m w). Qed.

Lemma stores_none_uow {A} (m : M A) : stores_none m -> stores_none (with_uow m).
Proof.
  intros Hm w. specialize (Hm (uow_aenter w)). unfold with_uow. destruct (m (uow_aenter w)) as [o w1].
  cbn [snd] in *. unfold uow_aexit. by destruct (w_sessions w1).
Qed.

Lemma stores_none_await {A} (m : M A) : stores_none m -> stores_none (await_io m).
Proof. intros Hm w. exact (Hm (env_step w)). Qed.

Lemma stores_none_ret {A} (a : A) : stores_none (mret a).
Proof. by apply stores_none_same. Qed.
Lemma stores_none_raise {A} e : stores_none (raise (A := A) e).
Proof. by apply stores_none_same. Qed.
Lemma stores_none_lift {A} (o : outcome A) : stores_none (lift o).
Proof. by apply stores_none_same. Qed.
Lemma stores_none_now : stores_none now.
Proof. by apply stores_none_same. Qed.
Lemma stores_none_uuid4 : stores_none uuid4.
Proof. by apply stores_none_same. Qed.
Lemma stores_none_query {A} (q : DB -> A) : stores_none (db_query q).
Proof. apply stores_none_same. intros w. unfold db_query. by destruct (w_sessions w). Qed.
Lemma stores_none_exec {A} (f : DB -> DB * A) : stores_none (db_exec f).
Proof.
  apply stores_none_same. intros w. unfold db_exec. destruct (w_sessions w); [done|].
  by destruct (f _).
Qed.
Lemma stores_none_insert `{PgDriver} f : stores_none (db_insert f).
Proof.
  apply stores_none_same. intros w. unfold db_insert. destruct (w_sessions w); [done|].
  by destruct (f _).
Qed.
Lemma stores_none_commit : stores_none uow_commit.
Proof.
  apply stores_none_same. intros w. unfold uow_commit. destruct (w_sessions w); [done|].
  by destruct (default CommitOk _).
Qed.
Lemma stores_none_rollback : stores_none uow_rollback.
Proof. apply stores_none_same. intros w. unfold uow_rollback. by destruct (w_sessions w). Qed.

Create HintDb pages.
#[export] Hint Resolve stores_none_bind stores_none_attempt stores_none_uow stores_none_await stores_none_ret
  stores_none_raise stores_none_lift stores_none_now stores_none_uuid4 stores_none_query stores_none_exec
  stores_none_insert stores_none_commit stores_none_rollback : pages.

(** Go through an operation, case by case. *)
Ltac stores_none_tac :=
  repeat first
    [ progress intros | progress cbv beta zeta
    | match goal with
      | |- stores_none (_ ≫= _) => apply stores_none_bind
      | |- stores_none (with_uow _) => apply stores_none_uow
      | |- stores_none (attempt _) => apply stores_none_attempt
      | |- stores_none (await_io _) => apply stores_none_await
      | |- stores_none (match ?x with _ => _ end) => destruct x
      end
    | solve [auto with pages] ].

Section redis.
Context `{RS : RedisServer}.

Lemma same_lists_no_new r r' : same_lists r r' -> no_new_page r r'.
Proof using. intros [_ H] o v c l. left. apply H. Qed.

Lemma stores_none_reserve settings u : stores_none (limiter_reserve settings u).
Proof using. intros w. apply same_lists_no_new, reserve_lists. Qed.

Lemma stores_none_call {A} (f : Script A) :
  (forall t r, no_new_page r (snd (f t r))) -> stores_none (redis_call f).
Proof using.
  intros Hf w. specialize (Hf (redis_time w) (w_redis w)). unfold redis_call.
  destruct (f _ _) as [o r]. by destruct (redis_answer w).
Qed.

Lemma only_version_key {A} (f : Script A) o t r : only_key (version_key o) f -> no_new_page r (snd (f t r)).
Proof using. intros Hf o' v c l. left. apply Hf, cache_key_not_version. Qed.

Lemma script_bind_no_new {A B} (f : Script A) (g : A -> Script B) t r :
  no_new_page r (snd (f t r)) -> (forall a r', no_new_page r' (snd (g a t r'))) ->
  no_new_page r (snd ((f ≫= g) t r)).
Proof using.
  intros Hf Hg. unfold mbind, Script_bind. destruct (f t r) as [ [a|e] r']; [|done].
  etrans; [exact Hf | apply Hg].
Qed.

Lemma stores_none_invalidate u : stores_none (cache_invalidate_owner u).
Proof using.
  unfold cache_invalidate_owner. apply stores_none_bind; [|auto with pages].
  apply stores_none_attempt, stores_none_call. intros t r. unfold invalidation, INCR. cbv zeta.
  repeat (apply script_bind_no_new;
    [first [apply (only_version_key _ (Some u)); solve [auto with app]
           | apply (only_version_key _ None); solve [auto with app] ] | intros _ ?]).
  done.
Qed.

End redis.

Section services.
Context `{DC : DispatchCodec} `{PG : PgDriver} `{JR : JsonReader} `{IR : IsoReader} `{RS : RedisServer}.
Context `{RP : RedisPublish} `{EC : JobStatusEventCodec}.
Context (settings : Settings).
Hypothesis publish_keeps : forall c p w, w_redis (snd (redis_publish c p w)) = w_redis w.

#[local] Abbreviation cache := (RedisJobListCache settings).
#[local] Abbreviation notifier := (standard_notifier cache).

(** After every COMMIT, in the services, the worker and the recovery. *)
Lemma stores_none_notify n : stores_none (_notify_post_commit (N := notifier) n).
Proof using publish_keeps.
  unfold _notify_post_commit. apply stores_none_bind; [|auto with pages]. apply stores_none_attempt.
  cbn [notify_job_state_changed standard_notifier CompositeWorkerPostCommitNotifier notify_all].
  apply stores_none_bind; [apply stores_none_attempt, stores_none_invalidate|]. intros _.
  apply stores_none_bind; [|auto with pages]. apply stores_none_attempt.
  cbn [notify_job_state_changed RedisPublishingWorkerPostCommitNotifier].
  apply stores_none_bind; [auto with pages|]. intros i. apply stores_none_same. intros w. apply publish_keeps.
Qed.

Lemma stores_none_load u k lock : stores_none (JobService._load_authorized_job_for_update u k lock).
Proof using. unfold JobService._load_authorized_job_for_update. autounfold with repo. stores_none_tac. Qed.

Lemma stores_none_cancel u k :
  stores_none (JobService.cancel_job (JC := cache) (N := notifier) u k).
Proof using publish_keeps.
  assert (Hc : forall j m, stores_none (JobService.commit_cancellation (JC := cache) (N := notifier) j m)).
  { intros j m. unfold JobService.commit_cancellation, JobService._load_existing_job_by_id.
    cbn [invalidate_owner RedisJobListCache]. autounfold with repo.
    pose proof stores_none_invalidate. pose proof stores_none_notify. stores_none_tac. }
  unfold JobService.cancel_job. autounfold with repo. pose proof stores_none_load.
  stores_none_tac.
Qed.

(** The reservations made have the key of a window. *)
Definition of_window (u : uuid) (r : option CreateJobRateLimitReservationDTO) : Prop :=
  match r with Some r => exists n, rl_key r = window_key u n | None => True end.

Lemma reserve_of_window u w r : fst (limiter_reserve settings u w) = Ok r -> of_window u r.
Proof using.
  unfold limiter_reserve, mbind at 1, M_bind at 1, now. cbn [_build_window_key]. unfold mbind, M_bind.
  destruct (attempt _ (tick w)) as [ [ [ [used ttl]|e]|e] w1]; [|by intros [= <-] | done].
  destruct (_ <? _); [done|]. intros [= <-]. by eexists.
Qed.

Lemma stores_none_reserve_bind {B} u (k : option CreateJobRateLimitReservationDTO -> M B) :
  (forall r, of_window u r -> stores_none (k r)) ->
  stores_none (await_io (reserve (CreateJobRateLimiter := RedisCreateJobRateLimiter settings) u) ≫= k).
Proof using.
  intros Hk w. unfold mbind, M_bind, await_io. cbn [reserve RedisCreateJobRateLimiter].
  pose proof (stores_none_reserve settings u (env_step w)) as Hm.
  pose proof (reserve_of_window u (env_step w)) as Hr.
  destruct (limiter_reserve settings u (env_step w)) as [ [r|e] w1]; [|exact Hm].
  etrans; [exact Hm | by apply Hk, Hr].
Qed.

Lemma stores_none_release u r :
  of_window u r ->
  stores_none (JobService.release_if_reserved (RL := RedisCreateJobRateLimiter settings) r).
Proof using.
  destruct r as [r|]; [intros [n Hn] | intros _; apply stores_none_ret].
  intros w. by eapply same_lists_no_new, release_lists.
Qed.

Lemma stores_none_create u key ty payload :
  stores_none (JobService.create_job (RL := RedisCreateJobRateLimiter settings) (JC := cache) (N := notifier)
    settings u key ty payload).
Proof using publish_keeps.
  assert (Hi : forall hash, stores_none (JobService.insert_job_rows settings u key ty payload hash)).
  { intros hash. unfold JobService.insert_job_rows. autounfold with repo.
    unfold SqlAlchemyOutboxRepository.create_dispatch_event. stores_none_tac. }
  pose proof stores_none_invalidate. pose proof stores_none_notify.
  unfold JobService.create_job, JobService._load_existing_job. autounfold with repo. cbv zeta.
  apply stores_none_bind; [|stores_none_tac]. apply stores_none_uow.
  apply stores_none_bind; [stores_none_tac|]. intros [job|]; [stores_none_tac|].
  apply stores_none_reserve_bind. intros r Hr. pose proof (stores_none_release _ r Hr).
  cbn [invalidate_owner RedisJobListCache]. stores_none_tac.
Qed.

End services.

(** ** Runs *)
Section runs.
Context `{JR : JsonReader} `{IR : IsoReader} `{RS : RedisServer}.
Context (settings : Settings).

(** A list request that has read its page and not stored it yet: who asked,
    for what, and the database it read. *)
Record Reading := mkReading {
  rd_user : CurrentUserDTO;
  rd_cursor : option string;
  rd_position : option JobListCursor;
  rd_limit : Z;
  rd_db : DB
}.

Definition rd_page (x : Reading) : JobListPageDTO :=
  page_of (rest_after (rd_user x) (rd_position x) (rd_db x)) (rd_limit x).

(** The world, the requests that have read, and the pages stored so far with the
    time of Redis when they were. *)
Record Run := mkRun {
  run_world : World;
  run_reading : list Reading;
  run_stored : list (datetime * Reading)
}.

(** A database that can be listed, with rows that survive the cache. *)
Definition pageable (d : DB) : Prop :=
  listable d /\ forall k j, db_jobs d !! k = Some j -> item_ok (public j).

Inductive run_step : Run -> Run -> Prop :=
| step_read u cur c lim w rs st :
    uuid_ok (cu_id u) -> cursor_text cur c -> pageable (w_db (env_step w)) ->
    run_step (mkRun w rs st)
      (mkRun (snd (read_listing u cur (_normalize_limit lim) w))
         (mkReading u cur c (_normalize_limit lim) (w_db (env_step w)) :: rs) st)
| step_store rs1 x rs2 w st :
    run_step (mkRun w (rs1 ++ x :: rs2) st)
      (mkRun (snd (cache_set_page settings (cache_owner (rd_user x)) (rd_cursor x) (rd_limit x) (rd_page x) w))
         (rs1 ++ rs2) ((redis_time w, x) :: st))
| step_operation {A} (m : M A) w rs st :
    stores_none m -> run_step (mkRun w rs st) (mkRun (snd (m w)) rs st)
| step_outside w w' rs st :
    w_redis w' = w_redis w -> run_step (mkRun w rs st) (mkRun w' rs st).

(** The requests that read did read what they say. *)
Record reading_ok (x : Reading) : Prop := mkReadingOk {
  ro_user : uuid_ok (cu_id (rd_user x));
  ro_cursor : cursor_text (rd_cursor x) (rd_position x);
  ro_db : pageable (rd_db x)
}.

(** Every page in Redis was stored by one of them. *)
Definition pages_stored (st : list (datetime * Reading)) (r : gmap string RedisEntry) : Prop :=
  forall o v c l e, scope_ok o -> r !! _cache_key o v c l = Some e ->
  exists s x, (s, x) ∈ st /\ cache_owner (rd_user x) = o /\ rd_limit x = l /\
    sha256_hexdigest (default "" (rd_cursor x)) = sha256_hexdigest (default "" c) /\
    e = page_written settings s (rd_page x).

Record run_ok (x : Run) : Prop := mkRunOk {
  rk_reading : Forall reading_ok (run_reading x);
  rk_stored : Forall (fun p => reading_ok (snd p)) (run_stored x);
  rk_pages : pages_stored (run_stored x) (w_redis (run_world x))
}.

Lemma pages_stored_fewer st r r' : no_new_page r r' -> pages_stored st r -> pages_stored st r'.
Proof using.
  intros Hn H o v c l e Ho He. destruct (Hn o v c l) as [E|E]; rewrite E in He; [|done].
  by apply (H o v c l).
Qed.

Lemma pages_stored_more st s x r : pages_stored st r -> pages_stored ((s, x) :: st) r.
Proof using.
  intros H o v c l e Ho He. destruct (H o v c l e Ho He) as (s' & x' & Hin & Hr).
  exists s', x'. split; [by right | exact Hr].
Qed.

(** Storing a page keeps the pages and adds this one. *)
Lemma set_page_stored st x w :
  uuid_ok (cu_id (rd_user x)) -> pages_stored st (w_redis w) ->
  pages_stored ((redis_time w, x) :: st)
    (w_redis (snd (cache_set_page settings (cache_owner (rd_user x)) (rd_cursor x) (rd_limit x) (rd_page x) w))).
Proof using.
  intros Hu H. set (o := cache_owner (rd_user x)).
  assert (Ho : scope_ok o) by (unfold o, cache_owner; by destruct (bool_decide _)).
  assert (Hins : forall v, pages_stored ((redis_time w, x) :: st)
    (<[_cache_key o v (rd_cursor x) (rd_limit x) := page_written settings (redis_time w) (rd_page x)]> (w_redis w))).
  { intros v o' v' c' l' e Ho' He. rewrite lookup_insert in He. case_decide as Hk.
    - injection He as <-. apply cache_key_tells in Hk as (<- & <- & Hc & <-); [|done..].
      exists (redis_time w), x. split; [by left|]. done.
    - by apply (pages_stored_more _ _ _ _ H o' v' c' l'). }
  pose proof (pages_stored_more st (redis_time w) x _ H) as H'.
  unfold cache_set_page, _get_version, mbind, M_bind, attempt, redis_call, GET, SET_EX.
  rewrite ?set_redis_same. 
  destruct (redis_answer w) eqn:Ha; cbn [fst snd]; rewrite ?set_redis_same; try exact H'.
  destruct (live _ _ _) as [e|]; cbn; [destruct (redis_int _)|]; cbn; rewrite ?Ha; cbn; first [exact H' | apply Hins].
Qed.

Lemma run_step_ok x y : run_step x y -> run_ok x -> run_ok y.
Proof using.
  destruct 1 as [u cur c lim w rs st Hu Hc Hd|rs1 x rs2 w st|A m w rs st Hm|w w' rs st Hw];
    intros [Hr Hs Hp]; constructor; cbn [run_world run_reading run_stored] in *; try done.
  - by constructor.
  - by rewrite read_listing_redis.
  - apply Forall_app in Hr as [Hr1 Hr2]. apply Forall_app. split; [done|].
    by apply Forall_cons in Hr2 as [_ Hr2].
  - apply Forall_app in Hr as [_ Hr]. apply Forall_cons in Hr as [Hx _]. by constructor.
  - apply Forall_app in Hr as [_ Hr]. apply Forall_cons in Hr as [Hx _]. apply set_page_stored; [apply Hx | exact Hp].
  - eapply pages_stored_fewer; [apply Hm | exact Hp].
  - by rewrite Hw.
Qed.

(** A list request is a reading and a storing, when it does not find a page. *)
Lemma list_jobs_steps u cur c lim w rs st :
  fst (cache_get_page (cache_owner u) cur (_normalize_limit lim) w) = Ok None ->
  uuid_ok (cu_id u) -> cursor_text cur c -> pageable (w_db (env_step w)) -> redis_answer w = RedisOk ->
  exists st', rtc run_step (mkRun w rs st)
    (mkRun (snd (list_jobs (JC := RedisJobListCache settings) u cur lim w)) rs st').
Proof using.
  intros Hg Hu Hc Hd Hup.
  assert (Hg' : cache_get_page (cache_owner u) cur (_normalize_limit lim) w = (Ok None, w)).
  { rewrite get_page_up in Hg |- * by done. cbn [fst] in Hg. destruct (page_entry _ _ _ _ _) as [e|]; [|done].
    by destruct (_decode_page _). }
  rewrite (list_jobs_parts (JC := RedisJobListCache settings) u cur lim w w Hg').
  pose proof (read_listing_page u cur c (_normalize_limit lim) w (normalized_limit_range lim) Hc (proj1 Hd)) as Hpage.
  set (x := mkReading u cur c (_normalize_limit lim) (w_db (env_step w))).
  exists ((redis_time (snd (read_listing u cur (_normalize_limit lim) w)), x) :: st).
  eapply rtc_l; [by apply (step_read u cur c lim)|].
  eapply rtc_l; [apply (step_store [])|]. fold x. cbn [app].
  change (rd_user x) with u. change (rd_cursor x) with cur. change (rd_limit x) with (_normalize_limit lim).
  unfold mbind, M_bind. destruct (read_listing u cur _ w) as [o w1]. cbn [fst snd] in *. subst o.
  cbn [set_page RedisJobListCache].
  change (rd_page x) with (page_of (rest_after u c (w_db (env_step w))) (_normalize_limit lim)).
  set (p := page_of _ _).
  destruct (cache_set_page settings (cache_owner u) cur (_normalize_limit lim) p w1) as [ [ []|e] w2] eqn:E;
    [reflexivity|].
  pose proof (set_page_total (JC := RedisJobListCache settings) (cache_owner u) cur (_normalize_limit lim) p w1) as Ht.
  cbn [set_page RedisJobListCache] in Ht. by rewrite E in Ht.
Qed.

End runs.
