(* ===== verification/AuthSpec.v ===== *)
(** * AuthSpec: the transactions of [AuthService] and of the administrator
    command on the table of users, as a relation between databases. *)
From S2P Require Import Prelude Exceptions Domain Store Effects Tables Text Config JobRepo Repos.
From S2P Require Import PostCommit Invariants Steps Auth.

(** ** Users by e-mail address *)

Definition user_named (email : string) (d : DB) : option User :=
  scalar (select_where (fun u => String.eqb (u_email u) email) (db_users d)).

Definition emails_unique (d : DB) : Prop :=
  forall k1 k2 u1 u2, db_users d !! k1 = Some u1 -> db_users d !! k2 = Some u2 ->
  u_email u1 = u_email u2 -> k1 = k2.

Lemma email_taken_named email d : email_taken email d = bool_decide (is_Some (user_named email d)).
Proof.
  unfold email_taken, user_named, scalar. destruct (select_where _ _) as [|u l]; [done|].
  cbn [head]. by rewrite (bool_decide_eq_true_2 (is_Some _)) by by eexists.
Qed.

Lemma user_named_spec email d u :
  user_named email d = Some u -> u_email u = email /\ exists k, db_users d !! k = Some u.
Proof.
  unfold user_named, scalar. intros H. apply head_Some_elem_of in H.
  apply elem_of_select in H as [H Hk]. by apply String.eqb_eq in H.
Qed.

Lemma email_free email d k u :
  email_taken email d = false -> db_users d !! k = Some u -> u_email u <> email.
Proof.
  rewrite email_taken_named, bool_decide_eq_false. intros Hn Hk He. apply Hn.
  unfold user_named, scalar. rewrite head_is_Some. intros Hnil.
  assert (u ∈ select_where (fun v => String.eqb (u_email v) email) (db_users d)) as Hin.
  { apply elem_of_select. rewrite He, String.eqb_refl. eauto. }
  rewrite Hnil in Hin. by apply not_elem_of_nil in Hin.
Qed.

Lemma emails_unique_insert d user :
  emails_unique d -> (forall k u, k <> u_id user -> db_users d !! k = Some u -> u_email u <> u_email user) ->
  emails_unique (set_users (<[u_id user := user]> (db_users d)) d).
Proof.
  intros Hu Hfree k1 k2 u1 u2. cbn. rewrite !lookup_insert. repeat case_decide; try congruence.
  - intros [= <-] H2 He. symmetry in He. by destruct (Hfree k2 u2).
  - intros H1 [= <-] He. by destruct (Hfree k1 u1).
  - intros H1 H2 He. by apply (Hu k1 k2 u1 u2).
Qed.

(** ** The transactions *)

(** [d'] is [d], or has one more user, under an identifier drawn from [lo] to
    [n] and an address nobody had, or a user rewritten under the address and the
    identifier it had. *)
Inductive user_tx (lo n : Z) (d : DB) : DB -> Prop :=
| user_untouched : user_tx lo n d d
| user_added user :
    lo <= u_id user < n -> email_taken (u_email user) d = false ->
    user_tx lo n d (set_users (<[u_id user := user]> (db_users d)) d)
| user_rewritten old user :
    db_users d !! u_id user = Some old -> u_email user = u_email old ->
    user_tx lo n d (set_users (<[u_id user := user]> (db_users d)) d).

Lemma user_tx_mono lo n n' d d' : n <= n' -> user_tx lo n d d' -> user_tx lo n' d d'.
Proof. destruct 2; [constructor | by apply user_added; [lia|] | by eapply user_rewritten]. Qed.

Lemma user_tx_jobs lo n d d' : user_tx lo n d d' -> db_jobs d' = db_jobs d.
Proof. by destruct 1. Qed.

Lemma user_tx_outbox lo n d d' : user_tx lo n d d' -> db_outbox d' = db_outbox d.
Proof. by destruct 1. Qed.

Section preserved.
Context `{DC : DispatchCodec} (limit : Z).

Lemma db_ok_put_user n d user :
  db_ok limit n d -> u_id user < n ->
  (forall k u, k <> u_id user -> db_users d !! k = Some u -> u_email u <> u_email user) ->
  db_ok limit n (set_users (<[u_id user := user]> (db_users d)) d).
Proof using.
  intros H Hn Hf. pose proof (emails_unique_insert d user (ok_emails _ _ _ H) Hf) as He.
  constructor; try exact He; try apply H; cbn [db_users db_jobs set_users].
  - intros k j Hj. rewrite lookup_insert. case_decide; [done|]. by apply (ok_owner _ _ _ H k).
  - intros k u. rewrite lookup_insert. case_decide; [by intros [= <-] | apply H].
  - intros k. rewrite lookup_insert. case_decide; [by intros _; subst | apply H].
Qed.

Lemma user_tx_ok lo n d d' : user_tx lo n d d' -> db_ok limit lo d -> lo <= n -> db_ok limit n d'.
Proof using.
  intros HT H Hle. pose proof (db_ok_mono _ _ _ _ Hle H) as H'.
  destruct HT as [|user Hid Hf|old user Hold He]; [done| |].
  - apply db_ok_put_user; [done | lia |]. intros k u _. by apply email_free.
  - apply db_ok_put_user; [done | by apply (ok_user_ids _ _ _ H'); eexists |].
    intros k u Hk Hu Hem. apply Hk, (ok_emails _ _ _ H k _ u old); [done | done | congruence].
Qed.

End preserved.

(** ** The operations *)
Section operations.
Context `{PG : PgDriver} `{PH : PasswordHash}.

(** An operation that did one such transaction. *)
Definition changes_users (w w' : World) : Prop :=
  quiet w w' /\ user_tx (w_next_uuid w) (w_next_uuid w') (w_db w) (w_db w').

Lemma hash_runs password Q w :
  wp (hash_password password) Q w = Q (Ok (pw_hash (w_next_uuid w) password)) (bump_uuid w).
Proof using. reflexivity. Qed.

(** The INSERT of a user, refused or done. *)
Lemma insert_user_cases user lo n d :
  lo <= u_id user < n ->
  match insert_user user d with inl d' => user_tx lo n d d' | inr _ => True end.
Proof using.
  intros Hid. unfold insert_user. case_bool_decide; [done|].
  destruct (email_taken _ _) eqn:E; [done|]. by apply user_added.
Qed.

Lemma register_changes email password w :
  w_env w = [] -> wp (register_user email password) (fun _ w' => changes_users w w') w.
Proof using.
  intros He. unfold register_user. autounfold with repo. rewrite wp_bind, hash_runs. wp_run. no_env.
  destruct (scalar _) as [u|]; wp_run.
  { split; [quiet_tac | constructor]. }
  no_env. cbn [w_db bump_uuid tick w_next_uuid w_clock w_ticks].
  set (user := mkUser _ _ _ _ _ _ _).
  pose proof (insert_user_cases user (w_next_uuid w) (w_next_uuid w + 2) (w_db w) ltac:(cbn; lia)) as HI.
  destruct (insert_user user (w_db w)) as [d'|v].
  - wp_run. destruct (default CommitOk _); wp_run; (split; [quiet_tac|]); world_simp; try constructor;
      (eapply user_tx_mono; [|exact HI]; lia).
  - destruct (is_duplicate_email_integrity_error _); wp_run; (split; [quiet_tac | constructor]).
Qed.

Lemma admin_changes email password w :
  w_env w = [] -> keyed u_id (db_users (w_db w)) ->
  wp (create_or_update_admin email password) (fun _ w' => changes_users w w') w.
Proof using.
  intros He Hkey. unfold create_or_update_admin. autounfold with repo. rewrite wp_bind, hash_runs. wp_run. no_env.
  change (w_db (bump_uuid w)) with (w_db w).
  change (scalar _) with (user_named (normalize_email email) (w_db w)).
  destruct (user_named (normalize_email email) (w_db w)) as [old|] eqn:Hu.
  - apply user_named_spec in Hu as (_ & k & Hk). pose proof (Hkey _ _ Hk) as <-.
    unfold SqlAlchemyUserRepository.flush_admin. destruct (String.eqb _ _ && _ && _); wp_run.
    + destruct (default CommitOk _); wp_run; (split; [quiet_tac | constructor]).
    + destruct (default CommitOk _); wp_run; (split; [quiet_tac|]); world_simp;
        try apply user_untouched;
        match goal with |- context [<[_ := ?user]> _] => by apply (user_rewritten _ _ _ old user) end.
  - wp_run. cbn [w_db bump_uuid tick w_next_uuid w_clock w_ticks].
    set (user := mkUser _ _ _ _ _ _ _).
    pose proof (insert_user_cases user (w_next_uuid w) (w_next_uuid w + 2) (w_db w) ltac:(cbn; lia)) as HI.
    destruct (insert_user user (w_db w)) as [d'|v]; wp_run.
    + destruct (default CommitOk _); wp_run; (split; [quiet_tac|]); world_simp; try constructor;
        (eapply user_tx_mono; [|exact HI]; lia).
    + split; [quiet_tac | constructor].
Qed.

End operations.
