(* ===== verification/System.v ===== *)
(** * System: the service as a whole - API requests, the administrator command,
    the outbox publisher, any number of workers and the recovery process share
    the database and the queue; processes crash, commits and publications fail. *)
From S2P Require Import Prelude Exceptions Domain Store Effects Tables Text Config JobRepo Repos.
From S2P Require Import PostCommit Invariants Steps JobService Rabbit Publisher Worker Recovery.
From S2P Require Import WorkerSpec RecoverySpec PublisherSpec ServiceSpec Auth AuthSpec.

(** The world, and the executions under way with the messages that started
    them (unacknowledged deliveries). *)
Record Sys := mkSys {
  sys_world : World;
  sys_claims : list (ExecutionClaim * BrokerMessage)
}.

Section system.
Context `{DC : DispatchCodec} `{PG : PgDriver}.
Context `{RL : CreateJobRateLimiter} `{RLL : !RateLimiterLaws RL}.
Context `{JC : JobListCache} `{JCL : !JobListCacheLaws JC}.
Context `{N : WorkerPostCommitNotifier} `{NL : !NotifierLaws N}.
Context `{PH : PasswordHash} (settings : Settings).

(** What is outside the processes and their statements that only read: time,
    identifiers drawn, faults to come, locks, Redis. *)
Record elsewhere (w w' : World) : Prop := mkElsewhere {
  el_db : w_db w' = w_db w;
  el_broker : w_broker w' = w_broker w;
  el_uuid : w_next_uuid w <= w_next_uuid w';
  el_env : w_env w' = w_env w
}.

Inductive step : Sys -> Sys -> Prop :=
| step_create u key ty payload o w w' cs :
    JobService.create_job settings u key ty payload w = (o, w') -> step (mkSys w cs) (mkSys w' cs)
| step_cancel u k o w w' cs :
    JobService.cancel_job u k w = (o, w') -> step (mkSys w cs) (mkSys w' cs)
| step_register email password o w w' cs :
    register_user email password w = (o, w') -> step (mkSys w cs) (mkSys w' cs)
| step_admin email password o w w' cs :
    create_or_update_admin email password w = (o, w') -> step (mkSys w cs) (mkSys w' cs)
| step_publish i o w w' cs :
    OutboxPublisher._process_claimed_event_once i w = (o, w') ->
    step (mkSys w cs) (mkSys w' cs)
| step_recover o w w' cs :
    StaleRunningRecovery.recover_due_batch_once settings w = (o, w') ->
    step (mkSys w cs) (mkSys w' cs)
| step_reject m q1 q2 w cs :
    w_broker w = q1 ++ m :: q2 -> model_validate_json (bm_body m) = None ->
    step (mkSys w cs) (mkSys (set_broker (q1 ++ q2) w) cs)
| step_ignore worker_id m dm q1 q2 w w' cs :
    w_broker w = q1 ++ m :: q2 -> model_validate_json (bm_body m) = Some dm ->
    JobWorker._claim_execution settings worker_id dm w = (Ok None, w') ->
    step (mkSys w cs) (mkSys (set_broker (q1 ++ q2) w') cs)
| step_start worker_id m dm q1 q2 c w w' cs :
    w_broker w = q1 ++ m :: q2 -> model_validate_json (bm_body m) = Some dm ->
    JobWorker._claim_execution settings worker_id dm w = (Ok (Some c), w') ->
    step (mkSys w cs) (mkSys (set_broker (q1 ++ q2) w') ((c, m) :: cs))
| step_claim_failed worker_id m dm e w w' cs :
    m ∈ w_broker w -> model_validate_json (bm_body m) = Some dm ->
    JobWorker._claim_execution settings worker_id dm w = (Exc e, w') ->
    step (mkSys w cs) (mkSys w' cs)
| step_settle c m o w w' cs1 cs2 :
    JobWorker.settle c o w = (Ok tt, w') ->
    step (mkSys w (cs1 ++ (c, m) :: cs2)) (mkSys w' (cs1 ++ cs2))
| step_settle_failed c m o e w w' cs1 cs2 :
    JobWorker.settle c o w = (Exc e, w') ->
    step (mkSys w (cs1 ++ (c, m) :: cs2)) (mkSys (set_broker (w_broker w' ++ [m]) w') (cs1 ++ cs2))
| step_crash c m w cs1 cs2 :
    step (mkSys w (cs1 ++ (c, m) :: cs2)) (mkSys (set_broker (w_broker w ++ [m]) w) (cs1 ++ cs2))
| step_elsewhere w w' cs : elsewhere w w' -> step (mkSys w cs) (mkSys w' cs).

Definition steps : Sys -> Sys -> Prop := rtc step.

#[local] Abbreviation limit := (job_max_running_per_user settings).

(** ** The invariant *)

(** An execution under way: an attempt that may still run, under a token
    handed out before; while the token is in the table, the row is at that
    attempt. *)
Record claim_inv (w : World) (c : ExecutionClaim) : Prop := mkClaimInv {
  ci_ok : claim_ok c;
  ci_token : ec_execution_token c < w_next_uuid w;
  ci_attempt : forall j, holder (je_id (ec_job c)) (ec_execution_token c) (w_db w) = Some j ->
    j_attempt_count j = ec_attempt_number c
}.

Record sys_inv (s : Sys) : Prop := mkSysInv {
  inv_db : db_ok limit (w_next_uuid (sys_world s)) (w_db (sys_world s));
  inv_covered : covered (w_db (sys_world s)) (w_broker (sys_world s));
  inv_env : w_env (sys_world s) = [];
  inv_claims : forall c m, (c, m) ∈ sys_claims s -> claim_inv (sys_world s) c;
  inv_tokens : NoDup (ec_execution_token ∘ fst <$> sys_claims s)
}.

(** What every operation of a process does to the database. *)
Record good (w w' : World) : Prop := mkGood {
  gd_db : db_ok limit (w_next_uuid w') (w_db w');
  gd_evolves : evolves (w_db w) (w_db w');
  gd_tokens : tokens_from (w_next_uuid w) (w_db w) (w_db w');
  gd_uuid : w_next_uuid w <= w_next_uuid w';
  gd_env : w_env w' = []
}.

Lemma good_refl w : db_ok limit (w_next_uuid w) (w_db w) -> w_env w = [] -> good w w.
Proof using. intros. constructor; try done. by apply tokens_from_same. Qed.

Lemma good_claim w w' c :
  db_ok limit (w_next_uuid w) (w_db w) -> good w w' -> claim_inv w c -> claim_inv w' c.
Proof using.
  intros H [G1 G2 G3 G4 G5] [C1 C2 C3]. constructor; [done | lia |].
  intros j' (Hj' & Hs' & Ht')%holder_running.
  destruct (G3 _ j' _ Hj' Ht') as [|(j & Hj & Ht & Ha)]; [lia|].
  rewrite Ha. apply C3. apply holder_intro; [done | | done].
  pose proof (ok_lease _ _ (ok_jobs _ _ _ H _ j Hj)) as Hl. case_bool_decide; [done|].
  destruct Hl as (_ & Hn & _). congruence.
Qed.

(** ** The operations *)

Lemma create_good u key ty payload o w w' :
  db_ok limit (w_next_uuid w) (w_db w) -> w_env w = [] ->
  JobService.create_job settings u key ty payload w = (o, w') ->
  good w w' /\ w_broker w' = w_broker w /\
  forall q, covered (w_db w) q -> covered (w_db w') q.
Proof using All.
  intros H He Hrun. pose proof (wp_run_elim _ _ _ _ _ (create_job_refines settings limit u key ty
    payload w H (env_ok_nil limit w He)) Hrun) as (Q1 & d & lo & [_ Hd] & Hlo & Hle & H1 & HT).
  rewrite (Hd He) in *. clear Hd d.
  pose proof (st_env _ _ (q_steady _ _ Q1) He) as He'.
  pose proof (db_ok_mono limit _ _ _ Hle H1) as H2.
  assert (Hsame : w_db w' = w_db w ->
    good w w' /\ w_broker w' = w_broker w /\ forall q, covered (w_db w) q -> covered (w_db w') q).
  { intros Hd. split; [|split; [apply Q1|by intros; rewrite Hd]].
    constructor; rewrite ?Hd; [done | done | by apply tokens_from_same | lia | done]. }
  assert (Hins : forall j, inserted (cu_id u) key ty payload (_build_request_hash ty payload) lo
      (w_next_uuid w') (w_db w) (w_db w') j ->
    good w w' /\ w_broker w' = w_broker w /\ forall q, covered (w_db w) q -> covered (w_db w') q).
  { intros j HI. split; [|split; [apply Q1|intros; by eapply inserted_covered]].
    constructor; [by eapply inserted_ok | by eapply inserted_evolves | by eapply inserted_tokens | lia | done]. }
  destruct HT; first [by apply Hsame | by eapply Hins].
Qed.

Lemma cancel_good u k o w w' :
  db_ok limit (w_next_uuid w) (w_db w) -> w_env w = [] ->
  JobService.cancel_job u k w = (o, w') ->
  good w w' /\ w_broker w' = w_broker w /\
  forall q, covered (w_db w) q -> covered (w_db w') q.
Proof using JCL NL.
  intros H He Hrun.
  pose proof (wp_run_elim _ _ _ _ _ (cancel_job_refines limit u k _ w H He) Hrun) as (Q1 & HT).
  pose proof (st_uuid _ _ (q_steady _ _ Q1)) as Hle.
  split; [|split; [apply Q1|intros; by eapply cancel_tx_covered]].
  constructor; [| by eapply cancel_tx_evolves | by eapply cancel_tx_tokens | done |
    by apply (st_env _ _ (q_steady _ _ Q1))].
  eapply cancel_tx_ok; [done|]. by eapply db_ok_mono.
Qed.

(** The table of users is apart from the jobs. *)
Lemma changes_users_good w w' :
  db_ok limit (w_next_uuid w) (w_db w) -> w_env w = [] -> changes_users w w' ->
  good w w' /\ w_broker w' = w_broker w /\
  forall q, covered (w_db w) q -> covered (w_db w') q.
Proof using.
  intros H He [Q HT]. pose proof (st_uuid _ _ (q_steady _ _ Q)) as Hle.
  pose proof (user_tx_jobs _ _ _ _ HT) as Hj. pose proof (user_tx_outbox _ _ _ _ HT) as Ho.
  split; [|split; [apply Q|] ].
  - constructor; [by eapply user_tx_ok | by apply evolves_same_jobs | by apply tokens_from_same | done |
      by apply (st_env _ _ (q_steady _ _ Q))].
  - intros q Hc k j. rewrite Hj. intros Hk. specialize (Hc k j Hk). unfold has_pending_event in *.
    by rewrite Ho.
Qed.

Lemma register_good email password o w w' :
  db_ok limit (w_next_uuid w) (w_db w) -> w_env w = [] -> register_user email password w = (o, w') ->
  good w w' /\ w_broker w' = w_broker w /\
  forall q, covered (w_db w) q -> covered (w_db w') q.
Proof using.
  intros H He Hrun. apply changes_users_good; [done | done |].
  exact (wp_run_elim _ _ _ _ _ (register_changes email password w He) Hrun).
Qed.

Lemma admin_good email password o w w' :
  db_ok limit (w_next_uuid w) (w_db w) -> w_env w = [] -> create_or_update_admin email password w = (o, w') ->
  good w w' /\ w_broker w' = w_broker w /\
  forall q, covered (w_db w) q -> covered (w_db w') q.
Proof using.
  intros H He Hrun. apply changes_users_good; [done | done |].
  exact (wp_run_elim _ _ _ _ _ (admin_changes email password w He (ok_users _ _ _ H)) Hrun).
Qed.

Lemma publish_good i o w w' :
  db_ok limit (w_next_uuid w) (w_db w) -> w_env w = [] ->
  OutboxPublisher._process_claimed_event_once i w = (o, w') ->
  good w w' /\ (covered (w_db w) (w_broker w) -> covered (w_db w') (w_broker w')).
Proof using.
  intros H He Hrun.
  pose proof (wp_run_elim _ _ _ _ _ (process_event_refines limit i _ w H He) Hrun) as (S1 & HT).
  pose proof (st_uuid _ _ S1) as Hle. split; [|by eapply publish_tx_covered].
  constructor; [| by eapply publish_tx_evolves | by eapply publish_tx_tokens | done |
    by apply (st_env _ _ S1)].
  eapply publish_tx_ok; [done|]. by eapply db_ok_mono.
Qed.

Lemma recover_good o w w' :
  db_ok limit (w_next_uuid w) (w_db w) -> w_env w = [] ->
  StaleRunningRecovery.recover_due_batch_once settings w = (o, w') ->
  good w w' /\ w_broker w' = w_broker w /\
  forall q, covered (w_db w) q -> covered (w_db w') q.
Proof using NL.
  intros H He Hrun.
  pose proof (wp_run_elim _ _ _ _ _ (recover_due_batch_refines limit settings w H He) Hrun)
    as (Q1 & _ & HT).
  pose proof (st_uuid _ _ (q_steady _ _ Q1)) as Hle.
  pose proof (st_env _ _ (q_steady _ _ Q1) He) as He'.
  assert (Hcase : w_db w' = w_db w \/ recover_batch (w_clock w (w_ticks w))
      (due settings (w_clock w (w_ticks w)) (w_locked w) (w_db w)) (w_next_uuid w) (w_db w)
      (w_next_uuid w') (w_db w')).
  { destruct o as [a|e]; [by right; apply HT|]. destruct HT as [->|[a [_ HT] ] ]; auto. }
  pose proof (due_stale limit _ settings (w_clock w (w_ticks w)) (w_locked w) _ H) as Hst.
  destruct Hcase as [Hd|HB].
  - split; [|split; [apply Q1|by rewrite Hd]].
    constructor; rewrite ?Hd; [by eapply db_ok_mono | done | by apply tokens_from_same | lia | done].
  - split; [|split; [apply Q1|intros; by eapply recover_batch_covered]].
    constructor; [by eapply recover_batch_ok | by eapply recover_batch_evolves |
      by eapply recover_batch_tokens | lia | done].
Qed.

(** The claim: any result [r] of the transaction. *)
Lemma claim_good worker_id dm o w w' :
  db_ok limit (w_next_uuid w) (w_db w) -> w_env w = [] ->
  JobWorker._claim_execution settings worker_id dm w = (o, w') ->
  good w w' /\ w_broker w' = w_broker w /\
  (forall q, covered (w_db w) q -> covered (w_db w') q) /\
  (forall r, o = Ok r -> 
     claim_tx settings worker_id (dm_job_id dm) (w_clock w (w_ticks w)) (w_next_uuid w) (w_db w)
       (w_next_uuid w') (w_db w') r).
Proof using NL.
  intros H He Hrun.
  pose proof (wp_run_elim _ _ _ _ _ (claim_execution_refines settings worker_id limit _ w dm H He) Hrun)
    as (Q1 & _ & HT).
  pose proof (st_uuid _ _ (q_steady _ _ Q1)) as Hle.
  pose proof (st_env _ _ (q_steady _ _ Q1) He) as He'.
  assert (Hany : forall r, claim_tx settings worker_id (dm_job_id dm) (w_clock w (w_ticks w))
      (w_next_uuid w) (w_db w) (w_next_uuid w') (w_db w') r ->
    good w w' /\ forall q q', covered (w_db w) q ->
      (forall k m, k <> dm_job_id dm -> m ∈ q -> targets k m -> m ∈ q') -> covered (w_db w') q').
  { intros r HC.
    assert (H1 : db_ok limit (w_next_uuid w + 1) (w_db w)) by (eapply db_ok_mono; [|done]; lia).
    split; [|intros q q' Hc Hq; eapply claim_tx_covered; [done | exact H1 | lia | done | done] ].
    constructor; [by eapply claim_tx_ok | by eapply claim_tx_evolves | by eapply claim_tx_tokens
      | done | done]. }
  split; [|split; [apply Q1|split; [|intros r ->; exact HT] ] ].
  - destruct o as [r|e]; [by apply (Hany r)|]. destruct HT as [Hd|[r HT] ]; [|by apply (Hany r)].
    constructor; rewrite ?Hd; [by eapply db_ok_mono | done | by apply tokens_from_same | done | done].
  - destruct o as [r|e]; [intros q Hc; by apply (Hany r HT) with (q := q)|].
    destruct HT as [Hd|[r HT] ]; [by rewrite Hd | intros q Hc; by apply (Hany r HT) with (q := q)].
Qed.

(** Once the claim returned, the message it consumed may go. *)
Lemma claim_consumes worker_id dm r w w' q q' :
  db_ok limit (w_next_uuid w) (w_db w) -> 
  claim_tx settings worker_id (dm_job_id dm) (w_clock w (w_ticks w)) (w_next_uuid w) (w_db w)
    (w_next_uuid w') (w_db w') r ->
  covered (w_db w) q -> (forall k m, k <> dm_job_id dm -> m ∈ q -> targets k m -> m ∈ q') ->
  covered (w_db w') q'.
Proof using.
  intros H HC Hc Hq.
  assert (H1 : db_ok limit (w_next_uuid w + 1) (w_db w)) by (eapply db_ok_mono; [|done]; lia).
  eapply claim_tx_covered; [done | exact H1 | lia | done | done].
Qed.

(** A claim starts an execution with a fresh token. *)
Lemma claim_starts worker_id dm c w w' :
  good w w' -> db_ok limit (w_next_uuid w) (w_db w) -> 
  claim_tx settings worker_id (dm_job_id dm) (w_clock w (w_ticks w)) (w_next_uuid w) (w_db w)
    (w_next_uuid w') (w_db w') (Some c) ->
  claim_inv w' c /\ ec_execution_token c = w_next_uuid w.
Proof using.
  intros G H HC. pose proof (claim_tx_lt _ _ _ _ _ _ _ _ _ HC) as Hlt.
  inversion HC as [| | |j at_ Hn Hj Hs Ha Hr Hd]; subst. split; [|done].
  pose proof (ok_jobs _ _ _ H _ _ Hj) as Hok. constructor; cbn.
  - split; cbn; [apply Hok|]. pose proof (ok_queued _ _ Hok Hs). pose proof (ok_attempts _ _ Hok). lia.
  - done.
  - intros j' (Hj' & _ & _)%holder_running. revert Hj'. rewrite <- Hd. cbn.
    rewrite (db_ok_id _ _ _ _ _ H Hj), lookup_insert_eq. by intros [= <-].
Qed.

(** Ending an execution. *)
Lemma settle_good c h o w w' :
  db_ok limit (w_next_uuid w) (w_db w) -> w_env w = [] -> claim_inv w c ->
  JobWorker.settle c h w = (o, w') ->
  good w w' /\ w_broker w' = w_broker w /\
  forall q, covered (w_db w) q -> covered (w_db w') q.
Proof using NL.
  intros H He [Hc Ht Ha] Hrun.
  pose proof (wp_run_elim _ _ _ _ _ (settle_refines limit _ w c H He h Hc) Hrun) as (Q1 & _ & HT).
  pose proof (st_uuid _ _ (q_steady _ _ Q1)) as Hle.
  pose proof (st_env _ _ (q_steady _ _ Q1) He) as He'.
  assert (Hcase : w_db w' = w_db w \/ exists u, settle_tx (je_id (ec_job c)) (ec_execution_token c)
      (ec_attempt_number c)
      (verdict_of (JobWorker._max_total_attempts (ec_job c)) (ec_attempt_number c) h)
      (w_clock w (w_ticks w)) (w_next_uuid w) (w_db w) (w_next_uuid w') (w_db w') u).
  { destruct o as [a|e]; [right; by exists a | exact HT]. }
  destruct Hcase as [Hd|[u HS] ].
  - split; [|split; [apply Q1|by rewrite Hd] ].
    constructor; rewrite ?Hd; [by eapply db_ok_mono | done | by apply tokens_from_same | done | done].
  - split; [|split; [apply Q1|intros; by eapply settle_tx_covered] ].
    constructor; [| by eapply settle_tx_evolves | by eapply settle_tx_tokens | done | done].
    eapply settle_tx_ok; [done | done | done |].
    intros j Hj [error Hv]. rewrite (Ha j Hj). rewrite (max_attempts_ok c Hc) in Hv.
    apply verdict_retry in Hv. lia.
Qed.

(** ** The invariant holds in every reachable state *)

Lemma rebuild_inv w w' cs q cs' :
  sys_inv (mkSys w cs) -> good w w' -> covered (w_db w') q -> 
  (forall x, x ∈ cs' -> x ∈ cs) -> NoDup (ec_execution_token ∘ fst <$> cs') ->
  w_broker w' = q -> sys_inv (mkSys w' cs').
Proof using.
  intros [I1 I2 I3 I4 I5] G Hc Hcs Hnd <-. constructor; cbn in *;
    [apply G | done | apply G | | done].
  intros c m Hm. eapply good_claim; [exact I1 | done |]. eapply I4, Hcs, Hm.
Qed.

Lemma broker_only w w' q : good w w' -> good w (set_broker q w').
Proof using. intros []. by constructor. Qed.

Lemma sublist_claims (cs1 cs2 : list (ExecutionClaim * BrokerMessage)) x y :
  y ∈ cs1 ++ cs2 -> y ∈ cs1 ++ x :: cs2.
Proof using. rewrite !elem_of_app, elem_of_cons. tauto. Qed.

Lemma nodup_claims (cs1 cs2 : list (ExecutionClaim * BrokerMessage)) x :
  NoDup (ec_execution_token ∘ fst <$> cs1 ++ x :: cs2) ->
  NoDup (ec_execution_token ∘ fst <$> cs1 ++ cs2).
Proof using.
  intros H. eapply sublist_NoDup; [exact H|]. apply sublist_map, sublist_app; [done|].
  by apply sublist_cons.
Qed.

Lemma other_targets k m q1 q2 :
  (forall k', targets k' m -> k' = k) ->
  forall k' m', k' <> k -> m' ∈ q1 ++ m :: q2 -> targets k' m' -> m' ∈ q1 ++ q2.
Proof using.
  intros Hm k' m' Hk. rewrite !elem_of_app, elem_of_cons. intros [?|[->|?] ] Ht; auto.
  by destruct Hk; apply Hm.
Qed.

Lemma targets_decoded m dm k : model_validate_json (bm_body m) = Some dm -> targets k m -> k = dm_job_id dm.
Proof using. intros Hm (dm' & Hm' & <-). congruence. Qed.

Lemma covered_more d q q' : (forall m, m ∈ q -> m ∈ q') -> covered d q -> covered d q'.
Proof using.
  intros Hq Hc. apply (covered_mono d _ q); [done|]. intros k j' Hj' _. right; right.
  exists j'. auto.
Qed.

Lemma in_flight w c (m : BrokerMessage) cs1 cs2 :
  (forall c' m', (c', m') ∈ cs1 ++ (c, m) :: cs2 -> claim_inv w c') -> claim_inv w c.
Proof using. intros H. apply (H c m). apply elem_of_app; right; left. Qed.

Lemma elsewhere_good w w' :
  db_ok limit (w_next_uuid w) (w_db w) -> w_env w = [] -> elsewhere w w' -> good w w'.
Proof using.
  intros H He [E1 E2 E3 E4]. constructor; rewrite ?E1, ?E4; try done;
    [by eapply db_ok_mono | by apply tokens_from_same].
Qed.

Lemma step_inv s s' : step s s' -> sys_inv s -> sys_inv s'.
Proof using All.
  intros HS I. pose proof I as [I1 I2 I3 I4 I5].
  destruct HS as [u key ty pl o w w' cs Hr|u k o w w' cs Hr|em pw o w w' cs Hr|em pw o w w' cs Hr
    |i o w w' cs Hr|o w w' cs Hr
    |m q1 q2 w cs Hq Hm|wid m dm q1 q2 w w' cs Hq Hm Hr|wid m dm q1 q2 c w w' cs Hq Hm Hr
    |wid m dm e w w' cs Hq Hm Hr|c m h w w' cs1 cs2 Hr|c m h e w w' cs1 cs2 Hr|c m w cs1 cs2
    |w w' cs He]; cbn [sys_world sys_claims] in *.
  - destruct (create_good _ _ _ _ _ _ _ I1 I3 Hr) as (G & Hb & Hc).
    eapply rebuild_inv; eauto.
  - destruct (cancel_good _ _ _ _ _ I1 I3 Hr) as (G & Hb & Hc).
    eapply rebuild_inv; eauto.
  - destruct (register_good _ _ _ _ _ I1 I3 Hr) as (G & Hb & Hc). eapply rebuild_inv; eauto.
  - destruct (admin_good _ _ _ _ _ I1 I3 Hr) as (G & Hb & Hc). eapply rebuild_inv; eauto.
  - destruct (publish_good _ _ _ _ I1 I3 Hr) as (G & Hc). eapply rebuild_inv; eauto.
  - destruct (recover_good _ _ _ I1 I3 Hr) as (G & Hb & Hc).
    eapply rebuild_inv; eauto.
  - refine (rebuild_inv w (set_broker (q1 ++ q2) w) cs (q1 ++ q2) cs I _ _ _ I5 eq_refl);
      [by apply broker_only, good_refl | | done]. cbn.
    apply (covered_mono (w_db w) _ (w_broker w)); [done|]. intros k j' Hj' _. right; right.
    exists j'. repeat split; try done. rewrite Hq. intros m' Hm' (dm & Hdm & _).
    revert Hm'. rewrite !elem_of_app, elem_of_cons. intros [?|[->|?] ]; [by left | congruence | by right].
  - destruct (claim_good _ _ _ _ _ I1 I3 Hr) as (G & Hb & _ & HC).
    refine (rebuild_inv w (set_broker (q1 ++ q2) w') cs (q1 ++ q2) cs I _ _ _ I5 eq_refl);
      [by destruct G | | done]. cbn.
    eapply claim_consumes; [exact I1 | by apply HC | exact I2|]. rewrite Hq.
    apply other_targets. intros k. by apply targets_decoded.
  - destruct (claim_good _ _ _ _ _ I1 I3 Hr) as (G & Hb & _ & HC). specialize (HC _ eq_refl).
    destruct (claim_starts _ _ _ _ _ G I1 HC) as [Hci Htok].
    assert (I' : sys_inv (mkSys (set_broker (q1 ++ q2) w') cs)).
    { refine (rebuild_inv w (set_broker (q1 ++ q2) w') cs (q1 ++ q2) cs I _ _ _ I5 eq_refl);
      [by destruct G | | done]. cbn.
      eapply claim_consumes; [exact I1 | exact HC | exact I2|]. rewrite Hq.
      apply other_targets. intros k. by apply targets_decoded. }
    destruct I' as [J1 J2 J3 J4 J5]. constructor; cbn [sys_world sys_claims] in *; try done.
    + intros c' m' [ [= -> ->]|Hin]%elem_of_cons; [by destruct Hci | by eapply J4].
    + rewrite fmap_cons. apply NoDup_cons. split; [|done]. cbn. rewrite Htok.
      intros ([c' m'] & Heq & Hin)%list_elem_of_fmap. cbn in Heq.
      pose proof (ci_token _ _ (I4 _ _ Hin)). lia.
  - destruct (claim_good _ _ _ _ _ I1 I3 Hr) as (G & Hb & Hc & _). eapply rebuild_inv; eauto.
  - destruct (settle_good c h _ _ _ I1 I3 (in_flight _ _ _ _ _ I4) Hr) as (G & Hb & Hc).
    eapply rebuild_inv; eauto using sublist_claims, nodup_claims.
  - destruct (settle_good c h _ _ _ I1 I3 (in_flight _ _ _ _ _ I4) Hr) as (G & Hb & Hc).
    refine (rebuild_inv w (set_broker (w_broker w' ++ [m]) w') _ (w_broker w' ++ [m]) (cs1 ++ cs2) I _ _ _ _ eq_refl);
      [by destruct G | | by intros; apply sublist_claims | by eapply nodup_claims].
    cbn. rewrite Hb. eapply covered_more; [|by apply Hc]. intros ? ?. apply elem_of_app. by left.
  - refine (rebuild_inv w (set_broker (w_broker w ++ [m]) w) _ (w_broker w ++ [m]) (cs1 ++ cs2) I _ _ _ _ eq_refl);
      [by apply broker_only, good_refl | | by intros; apply sublist_claims | by eapply nodup_claims].
    cbn. eapply covered_more; [|done]. intros ? ?. apply elem_of_app. by left.
  - refine (rebuild_inv w w' cs (w_broker w) cs I _ _ _ I5 (el_broker _ _ He)); [| | done].
    + by apply elsewhere_good.
    + by rewrite (el_db _ _ He).
Qed.

Lemma steps_inv s s' : steps s s' -> sys_inv s -> sys_inv s'.
Proof using All. induction 1; [done|]. intros I. by apply IHrtc, (step_inv x). Qed.

Lemma step_good s s' : step s s' -> sys_inv s -> good (sys_world s) (sys_world s').
Proof using All.
  intros HS I. pose proof I as [I1 I2 I3 I4 I5].
  destruct HS as [u key ty pl o w w' cs Hr|u k o w w' cs Hr|em pw o w w' cs Hr|em pw o w w' cs Hr
    |i o w w' cs Hr|o w w' cs Hr
    |m q1 q2 w cs Hq Hm|wid m dm q1 q2 w w' cs Hq Hm Hr|wid m dm q1 q2 c w w' cs Hq Hm Hr
    |wid m dm e w w' cs Hq Hm Hr|c m h w w' cs1 cs2 Hr|c m h e w w' cs1 cs2 Hr|c m w cs1 cs2
    |w w' cs He]; cbn [sys_world sys_claims] in *; try apply broker_only; try by apply good_refl.
  - eapply create_good; eauto.
  - eapply cancel_good; eauto.
  - eapply register_good; eauto.
  - eapply admin_good; eauto.
  - eapply publish_good; eauto.
  - eapply recover_good; eauto.
  - by destruct (claim_good _ _ _ _ _ I1 I3 Hr).
  - by destruct (claim_good _ _ _ _ _ I1 I3 Hr).
  - by destruct (claim_good _ _ _ _ _ I1 I3 Hr).
  - by destruct (settle_good c h _ _ _ I1 I3 (in_flight _ _ _ _ _ I4) Hr).
  - by destruct (settle_good c h _ _ _ I1 I3 (in_flight _ _ _ _ _ I4) Hr).
  - by apply elsewhere_good.
Qed.

Lemma step_evolves s s' : step s s' -> sys_inv s -> evolves (w_db (sys_world s)) (w_db (sys_world s')).
Proof using All. intros HS I. by apply gd_evolves, step_good. Qed.

Lemma steps_evolves s s' : steps s s' -> sys_inv s -> evolves (w_db (sys_world s)) (w_db (sys_world s')).
Proof using All.
  induction 1 as [|x y z Hxy _ IH]; intros I; [done|].
  etrans; [by apply step_evolves|]. by apply IH, (step_inv x).
Qed.

(** ** Tokens over a run *)

Lemma step_uuid s s' : step s s' -> sys_inv s ->
  w_next_uuid (sys_world s) <= w_next_uuid (sys_world s') /\
  tokens_from (w_next_uuid (sys_world s)) (w_db (sys_world s)) (w_db (sys_world s')).
Proof using All. intros HS I. by destruct (step_good _ _ HS I). Qed.

Lemma steps_tokens s s' : steps s s' -> sys_inv s ->
  w_next_uuid (sys_world s) <= w_next_uuid (sys_world s') /\
  tokens_from (w_next_uuid (sys_world s)) (w_db (sys_world s)) (w_db (sys_world s')).
Proof using All.
  induction 1 as [|x y z Hxy _ IH]; intros I; [split; [reflexivity | by apply tokens_from_same]|].
  destruct (step_uuid _ _ Hxy I) as [Hu Ht]. destruct (IH (step_inv _ _ Hxy I)) as [Hu' Ht'].
  split; [lia|]. by eapply tokens_from_trans.
Qed.

(** ** Initial states *)

(** A deployment before its first job: users may be registered, anything may
    lie in the queue. *)
Record initial (s : Sys) : Prop := mkInitial {
  in_settings : fields_in_range settings = true;
  in_jobs : db_jobs (w_db (sys_world s)) = ∅;
  in_outbox : db_outbox (w_db (sys_world s)) = ∅;
  in_logs : db_logs (w_db (sys_world s)) = ∅;
  in_users : keyed u_id (db_users (w_db (sys_world s)));
  in_emails : forall k1 k2 u1 u2, db_users (w_db (sys_world s)) !! k1 = Some u1 ->
    db_users (w_db (sys_world s)) !! k2 = Some u2 -> u_email u1 = u_email u2 -> k1 = k2;
  in_ids : forall k, is_Some (db_users (w_db (sys_world s)) !! k) -> k < w_next_uuid (sys_world s);
  in_env : w_env (sys_world s) = [];
  in_claims : sys_claims s = []
}.

Definition reachable (s : Sys) : Prop := exists s0, initial s0 /\ steps s0 s.

Lemma initial_inv s : initial s -> sys_inv s.
Proof using.
  intros [Hs Hj Ho Hl Hu He Hids Henv Hc]. constructor; try done.
  - constructor; rewrite ?Hj, ?Ho, ?Hl; try done.
    + intros owner. unfold running_count. rewrite Hj, select_nil by done. cbn.
      pose proof (fields_in_range_limit _ Hs). lia.
    + by intros k [].
    + by intros k [].
  - intros k j. by rewrite Hj.
  - intros c m Hm. rewrite Hc in Hm. by apply not_elem_of_nil in Hm.
  - rewrite Hc. constructor.
Qed.

Lemma reachable_inv s : reachable s -> sys_inv s.
Proof using All. intros (s0 & H0 & HS). by eapply steps_inv, initial_inv. Qed.

End system.
