(* ===== verification/Requests.v ===== *)
(** * Requests: the requests of the HTTP API as steps of the system - whatever a
    request does, from the middleware to the last statement, is a sequence of
    operations of [System] and of reads. *)
From S2P Require Import Prelude Exceptions Domain Store Effects Tables Text Config JsonText Iso JobRepo Repos.
From S2P Require Import PostCommit Invariants Steps JobService ListJobs Rabbit Publisher Worker Recovery.
From S2P Require Import WorkerSpec RecoverySpec PublisherSpec ServiceSpec EventStream Auth AuthSpec Http System.

(** ** Operations that only read *)

#[export] Instance elsewhere_refl : Reflexive elsewhere.
Proof. intros w. by constructor. Qed.

#[export] Instance elsewhere_trans : Transitive elsewhere.
Proof. intros w1 w2 w3 [] []. constructor; (congruence || lia). Qed.

Lemma elsewhere_frame w w' : frame w w' -> elsewhere w w'.
Proof. intros []. by constructor. Qed.

Lemma elsewhere_set_sessions s w w' : elsewhere (set_sessions s w) w' -> elsewhere w w'.
Proof. intros []. by constructor. Qed.

(** Whatever it returns, it writes nothing: outside a Unit of Work, and inside
    one that wrote nothing yet. *)
Definition aside {A} (m : M A) : Prop := forall w, w_env w = [] -> elsewhere w (snd (m w)).

Definition reading {A} (m : M A) : Prop := forall w c, w_env w = [] ->
  exists w', snd (m (in_tx w None c)) = in_tx w' None c /\ elsewhere w w'.

Section reads.
Context {A B : Type}.

Lemma aside_ret (a : A) : aside (mret a).
Proof using. intros w _. reflexivity. Qed.

Lemma aside_raise e : aside (raise (A := A) e).
Proof using. intros w _. reflexivity. Qed.

Lemma aside_lift (o : outcome A) : aside (lift o).
Proof using. intros w _. reflexivity. Qed.

Lemma aside_bind (m : M A) (k : A -> M B) : aside m -> (forall a, aside (k a)) -> aside (m ≫= k).
Proof using.
  intros Hm Hk w He. specialize (Hm w He). unfold mbind, M_bind. destruct (m w) as [ [a|e] w1]; [|done].
  cbn [snd] in Hm. etrans; [exact Hm|]. apply Hk. by rewrite (el_env _ _ Hm).
Qed.

Lemma aside_attempt (m : M A) : aside m -> aside (attempt m).
Proof using. intros Hm w He. specialize (Hm w He). unfold attempt. by destruct (m w). Qed.

Lemma aside_framed (m : M A) : framed m -> aside m.
Proof using. intros Hm w _. apply elsewhere_frame, Hm. Qed.

Lemma reading_ret (a : A) : reading (mret a).
Proof using. intros w c _. by exists w. Qed.

Lemma reading_raise e : reading (raise (A := A) e).
Proof using. intros w c _. by exists w. Qed.

Lemma reading_lift (o : outcome A) : reading (lift o).
Proof using. intros w c _. by exists w. Qed.

Lemma reading_query (q : DB -> A) : reading (db_query q).
Proof using. intros w c _. by exists w. Qed.

Lemma reading_bind (m : M A) (k : A -> M B) :
  reading m -> (forall a, reading (k a)) -> reading (m ≫= k).
Proof using.
  intros Hm Hk w c He. destruct (Hm w c He) as (w1 & E & H1). unfold mbind, M_bind.
  destruct (m (in_tx w None c)) as [ [a|e] w2]; cbn [snd] in E; subst w2; [|by exists w1].
  destruct (Hk a w1 c) as (w2 & E & H2); [by rewrite (el_env _ _ H1)|]. exists w2.
  split; [exact E | by etrans].
Qed.

(** A Unit of Work that only reads. *)
Lemma aside_uow (m : M A) : reading m -> aside (with_uow m).
Proof using.
  intros Hm w He. change (wp (with_uow m) (fun _ w' => elsewhere w w') w). rewrite wp_uow, (env_step_nil w He).
  unfold wp. destruct (Hm w false He) as (w1 & -> & H1). by rewrite aexit_in_tx.
Qed.

End reads.

Lemma aside_now : aside now.
Proof. apply aside_framed, framed_now. Qed.

Lemma aside_uuid4 : aside uuid4.
Proof. apply aside_framed, framed_uuid4. Qed.

(** The structure of a coroutine that only reads. *)
Create HintDb reads.
Create HintDb acts.
#[export] Hint Resolve aside_ret aside_raise aside_lift aside_now aside_uuid4 reading_ret reading_raise
  reading_lift reading_query aside_attempt aside_uow : reads.

Ltac reads_tac :=
  repeat first
    [ progress intros
    | match goal with
      | |- aside (mbind _ _) => apply aside_bind
      | |- reading (mbind _ _) => apply reading_bind
      end
    | solve [auto with reads]
    | apply aside_uow | apply aside_attempt
    | progress autounfold with repo
    | case_match ].

(** ** The reads of the services *)
Section services.
Context `{LI : LaxInt} `{EV : EmailValidator} `{DT : DatetimeText} `{EC : JobStatusEventCodec}.
Context `{PH : PasswordHash} `{PJ : PyJWT} `{FT : FloatTime} `{PG : PgDriver} `{DC : DispatchCodec}.
Context `{RL : CreateJobRateLimiter} `{RLL : !RateLimiterLaws RL}.
Context `{JC : JobListCache} `{JCL : !JobListCacheLaws JC}.
Context `{N : WorkerPostCommitNotifier} `{NL : !NotifierLaws N}.
Context `{JR : JsonReader} `{IR : IsoReader} (settings : Settings).

Lemma aside_read_payload payload : aside (read_payload payload).
Proof using.
  unfold read_payload, item, uuid_of_json, role_of_json, fromtimestamp, timestamp. reads_tac.
Qed.

Lemma aside_decode token : aside (decode_access_token settings token).
Proof using. pose proof aside_read_payload. unfold decode_access_token. reads_tac. Qed.

Lemma aside_current_user credentials : aside (current_user_dep settings credentials).
Proof using.
  pose proof aside_decode. unfold current_user_dep, get_current_user. reads_tac.
Qed.

Lemma aside_login email password : aside (login_user settings email password).
Proof using. unfold login_user, create_access_token. reads_tac. Qed.

Lemma reading_load_authorized u k : reading (JobService._load_authorized_job_for_update u k false).
Proof using. unfold JobService._load_authorized_job_for_update. reads_tac. Qed.

Lemma aside_job_detail u k : aside (JobService.get_job_detail u k).
Proof using.
  pose proof reading_load_authorized. unfold JobService.get_job_detail, JobService._load_authorized_job.
  reads_tac.
Qed.

Lemma aside_job_logs u k : aside (JobService.list_job_logs u k).
Proof using.
  pose proof reading_load_authorized. unfold JobService.list_job_logs, JobService._load_authorized_job.
  reads_tac.
Qed.

Lemma aside_list_jobs u cursor limit : aside (list_jobs u cursor limit).
Proof using JCL.
  pose proof (fun o c l => aside_framed _ (get_page_framed o c l)).
  pose proof (fun o c l p => aside_framed _ (set_page_framed o c l p)).
  unfold list_jobs. cbv zeta. reads_tac.
Qed.

Lemma aside_stream u k polls gone : aside (stream_job_events u k polls gone).
Proof using. pose proof aside_job_detail. unfold stream_job_events. reads_tac. Qed.

Lemma aside_request_id header : aside (choose_request_id header).
Proof using. unfold choose_request_id. reads_tac. Qed.

Lemma aside_idempotency_key key : aside (get_idempotency_key key).
Proof using. unfold get_idempotency_key. reads_tac. Qed.

(** ** Requests as steps *)

(** Whatever it returns, it took the system along steps of [System]. *)
Definition acts {A} (m : M A) : Prop := forall w cs,
  sys_inv settings (mkSys w cs) -> steps settings (mkSys w cs) (mkSys (snd (m w)) cs).

Lemma acts_step {A} (m : M A) :
  (forall w cs, step settings (mkSys w cs) (mkSys (snd (m w)) cs)) -> acts m.
Proof using. intros H w cs _. by apply rtc_once. Qed.

Lemma acts_aside {A} (m : M A) : aside m -> acts m.
Proof using.
  intros Hm w cs I. apply rtc_once, step_elsewhere, Hm. exact (inv_env _ _ I).
Qed.

Lemma acts_bind {A B} (m : M A) (k : A -> M B) : acts m -> (forall a, acts (k a)) -> acts (m ≫= k).
Proof using All.
  intros Hm Hk w cs I. specialize (Hm w cs I). unfold mbind, M_bind.
  destruct (m w) as [ [a|e] w1]; [|exact Hm]. cbn [snd] in Hm.
  etrans; [exact Hm|]. by apply Hk, (steps_inv _ _ _ Hm).
Qed.

Lemma acts_attempt {A} (m : M A) : acts m -> acts (attempt m).
Proof using. intros Hm w cs I. specialize (Hm w cs I). unfold attempt. by destruct (m w). Qed.

Lemma acts_create u key ty payload : acts (JobService.create_job settings u key ty payload).
Proof using.
  apply acts_step. intros w cs. destruct (JobService.create_job _ _ _ _ _ w) as [o w'] eqn:E.
  by apply (step_create settings u key ty payload o).
Qed.

Lemma acts_cancel u k : acts (JobService.cancel_job u k).
Proof using.
  apply acts_step. intros w cs. destruct (JobService.cancel_job u k w) as [o w'] eqn:E.
  by apply (step_cancel settings u k o).
Qed.

Lemma acts_register email password : acts (register_user email password).
Proof using.
  apply acts_step. intros w cs. destruct (register_user email password w) as [o w'] eqn:E.
  by apply (step_register settings email password o).
Qed.

#[local] Hint Resolve aside_current_user aside_login aside_job_detail aside_job_logs aside_list_jobs
  aside_stream aside_request_id aside_idempotency_key : reads.
#[local] Hint Resolve acts_create acts_cancel acts_register acts_attempt : acts.
#[local] Hint Resolve acts_aside : acts.

Ltac acts_tac :=
  repeat first
    [ progress intros
    | solve [apply acts_aside; auto with reads]
    | match goal with |- acts (mbind _ _) => apply acts_bind end
    | solve [auto with acts reads]
    | case_match ].

(** Whatever the middleware is wrapped around. *)
Lemma acts_serve header route : acts route -> acts (serve header route).
Proof using All.
  intros Hr. unfold serve. acts_tac.
Qed.

Lemma acts_post_jobs credentials key body : acts (post_jobs settings credentials key body).
Proof using All. unfold post_jobs, create_job_route. acts_tac. Qed.

Lemma acts_get_job credentials k : acts (get_job settings credentials k).
Proof using All. unfold get_job. acts_tac. Qed.

Lemma acts_get_jobs credentials cursor limit : acts (get_jobs settings credentials cursor limit).
Proof using All. unfold get_jobs. acts_tac. Qed.

Lemma acts_get_job_logs credentials k : acts (get_job_logs settings credentials k).
Proof using All. unfold get_job_logs. acts_tac. Qed.

Lemma acts_post_cancel credentials k : acts (post_cancel settings credentials k).
Proof using All. unfold post_cancel. acts_tac. Qed.

Lemma acts_post_register body : acts (post_register body).
Proof using All. unfold post_register. acts_tac. Qed.

Lemma acts_post_login body : acts (post_login settings body).
Proof using All. unfold post_login. acts_tac. Qed.

(** What a successful [POST /jobs] did. *)
Lemma post_jobs_submits credentials key body w r w' :
  w_env w = [] -> post_jobs settings credentials key body w = (Ok r, w') ->
  exists b u w1 k ty p,
    body = Some b /\ current_user_dep settings credentials w = (Ok u, w1) /\ elsewhere w w1 /\
    key = Some k /\ JobCreateRequest b = Some (ty, p) /\
    create_job_route settings u k ty p w1 = (Ok r, w').
Proof using.
  intros He. unfold post_jobs. destruct body as [b|]; [|done]. unfold mbind at 1, M_bind at 1.
  pose proof (aside_current_user credentials w He) as H1.
  destruct (current_user_dep settings credentials w) as [ [u|e] w1]; [|done]. cbn [snd] in H1.
  unfold mbind, M_bind, get_idempotency_key. destruct key as [k|].
  2: { unfold mret, M_ret. by destruct (JobCreateRequest b) as [ [ty p]|]. }
  destruct (String.eqb k "").
  { unfold mret, M_ret. by destruct (JobCreateRequest b) as [ [ty p]|]. }
  unfold mbind, M_bind, lift. destruct (validate_idempotency_key k) as [k'|e] eqn:Hk; [|done].
  assert (k' = k) as ->.
  { revert Hk. unfold validate_idempotency_key. repeat case_match; congruence. }
  unfold mret, M_ret. destruct (JobCreateRequest b) as [ [ty p]|] eqn:E; [|done].
  intros H. by exists b, u, w1, k, ty, p.
Qed.

End services.
