(* ===== verification/Liveness.v ===== *)
(** * Liveness: no reachable state is a dead end - whatever failed before,
    once the faults stop every job can still be brought to its end. *)
From S2P Require Import Prelude Exceptions Domain Store Effects Tables Text Config JobRepo Repos.
From S2P Require Import PostCommit Invariants Steps JobService Rabbit Publisher Worker Recovery.
From S2P Require Import WorkerSpec RecoverySpec PublisherSpec ServiceSpec Auth System.

(** A moment without faults: the COMMITs and publications to come succeed,
    the rows [locked] are held by others, the clock shows [t]. *)
Definition calm_at (locked : gset uuid) (t : datetime) (w : World) : World :=
  mkWorld (w_db w) (w_sessions w) (fun _ => t) (w_ticks w) (w_next_uuid w) [] [] (w_env w) locked
    (w_broker w) (w_redis w) (w_pubsub w).

Section liveness.
Context `{DC : DispatchCodec} `{PG : PgDriver}.
Context `{RL : CreateJobRateLimiter} `{RLL : !RateLimiterLaws RL}.
Context `{JC : JobListCache} `{JCL : !JobListCacheLaws JC}.
Context `{N : WorkerPostCommitNotifier} `{NL : !NotifierLaws N}.
Context `{PH : PasswordHash} (settings : Settings).

#[local] Abbreviation limit := (job_max_running_per_user settings).
#[local] Abbreviation db s := (w_db (sys_world s)).

Lemma step_calm locked t w cs : step settings (mkSys w cs) (mkSys (calm_at locked t w) cs).
Proof using. by apply step_elsewhere. Qed.

(** One operation in a calm moment. *)
Lemma calm_then locked t w cs s' :
  step settings (mkSys (calm_at locked t w) cs) s' -> steps settings (mkSys w cs) s'.
Proof using. intros HS. eapply rtc_l; [apply step_calm | by apply rtc_once]. Qed.

Lemma elem_of_queue (q : list BrokerMessage) m : m ∈ q -> exists q1 q2, q = q1 ++ m :: q2.
Proof using. apply list_elem_of_split. Qed.

(** A job with a pending event can be sent to the queue. *)
Lemma can_dispatch s k j :
  sys_inv settings s -> db_jobs (db s) !! k = Some j -> dispatchable (j_status j) = true ->
  has_pending_event k (db s) ->
  exists s' j', steps settings s s' /\ db_jobs (db s') = <[k := j']> (db_jobs (db s)) /\
    j_status j' = QUEUED /\ j_owner_id j' = j_owner_id j /\
    exists m, m ∈ w_broker (sys_world s') /\ targets k m.
Proof using All.
  destruct s as [w cs]. cbn [sys_world]. intros I Hj Hd (e & [i Hi] & Hp).
  pose proof (inv_db _ _ I) as H. cbn [sys_world] in H.
  unfold pending_dispatch in Hp. rewrite !andb_true_iff, Z.eqb_eq in Hp. destruct Hp as [ [Hk _] Hu].
  destruct (ok_event_payload _ _ (ok_events _ _ _ H i e Hi)) as (m & Hm & Ht & _).
  subst k. assert (D : dispatches i e j m (w_db w)) by done.
  set (w1 := calm_at ∅ 0 w).
  destruct (OutboxPublisher._process_claimed_event_once i w1) as [o w'] eqn:Hrun.
  destruct (wp_run_elim _ _ _ _ _ (process_event_sends limit i e j m _ w1 H (inv_env _ _ I) D
    (not_elem_of_empty i) eq_refl eq_refl) Hrun) as (_ & -> & Hb & t & t' & Hdb).
  pose proof (db_ok_id limit _ _ _ _ H Hj) as Hid.
  exists (mkSys w' cs), (if bool_decide (j_status j = PENDING)
    then job_values [status_is QUEUED; updated_at_is t] j else j).
  split; [eapply calm_then, step_publish, Hrun|]. cbn [sys_world]. rewrite Hdb, Hb.
  split; [|split; [|split] ].
  - unfold queued_row. cbn. case_bool_decide; cbn; [by rewrite Hid|]. by rewrite insert_id.
  - apply bool_decide_eq_true in Hd. case_bool_decide as Hs; [done|].
    apply elem_of_cons in Hd as [|Hd%list_elem_of_singleton]; done.
  - by case_bool_decide.
  - exists (dispatch_message e m). split; [set_solver|].
    exists m. split; [apply model_validate_dump_json | congruence].
Qed.

(** A queued job with a message can run and complete, if its owner has a free
    slot. *)
Lemma can_run s k j m :
  sys_inv settings s -> db_jobs (db s) !! k = Some j -> j_status j = QUEUED ->
  running_count (j_owner_id j) (db s) < limit -> m ∈ w_broker (sys_world s) -> targets k m ->
  exists s' c m', steps settings s s' /\ (c, m') ∈ sys_claims s' /\ je_id (ec_job c) = k /\
    is_Some (holder k (ec_execution_token c) (db s')).
Proof using All.
  destruct s as [w cs]. cbn [sys_world]. intros I Hj Hs Hr Hm (dm & Hdm & <-).
  pose proof (inv_db _ _ I) as H. cbn [sys_world] in H.
  apply elem_of_queue in Hm as (q1 & q2 & Hq).
  set (w1 := calm_at ∅ 0 w).
  destruct (JobWorker._claim_execution settings EmptyString dm w1) as [o w'] eqn:Hrun.
  destruct (wp_run_elim _ _ _ _ _ (claim_execution_refines settings EmptyString limit _ w1 dm H
    (inv_env _ _ I)) Hrun) as (_ & Hok & HT).
  destruct (Hok eq_refl) as [r ->]. cbn [atomic] in HT.
  pose proof (attempts_left_queued _ _ (ok_jobs _ _ _ H _ _ Hj) Hs) as Ha.
  remember (w_db w') as d' eqn:Hd'.
  destruct HT as [Hn Hno|j0 at_ Hn Hj0 Hs0 Ha0|j0 d1 e at_ Hj0 Hs0 Ha0 Hc He|j0 at_ Hn Hj0 Hs0 Ha0 Hc];
    [by destruct (Hno j Hj)| | |].
  all: change (w_db w1) with (w_db w) in *; rewrite Hj in Hj0; injection Hj0 as <-;
    try (exfalso; congruence || lia).
  eexists (mkSys (set_broker (q1 ++ q2) w') _), _, m. split; [|split; [|split] ].
  - eapply calm_then. eapply (step_start settings EmptyString m dm q1 q2); [exact Hq | exact Hdm | exact Hrun].
  - left.
  - cbn. by eapply db_ok_id.
  - cbn [sys_world w_db set_broker ec_execution_token]. rewrite <- Hd'.
    eexists. apply holder_intro; cbn; [by rewrite lookup_insert_eq | done | done].
Qed.

(** An execution that holds its row can complete it. *)
Lemma can_complete s k c m :
  sys_inv settings s -> (c, m) ∈ sys_claims s -> je_id (ec_job c) = k ->
  is_Some (holder k (ec_execution_token c) (db s)) ->
  exists s' j', steps settings s s' /\ db_jobs (db s') !! k = Some j' /\ j_status j' = COMPLETED.
Proof using All.
  destruct s as [w cs]. cbn [sys_world sys_claims]. intros I Hc <- [j Hh].
  pose proof (inv_db _ _ I) as H. cbn [sys_world] in H.
  pose proof (ci_ok _ _ (inv_claims _ _ I c m Hc)) as Hcok.
  apply list_elem_of_split in Hc as (cs1 & cs2 & ->).
  set (w1 := calm_at ∅ 0 w).
  destruct (JobWorker.settle c (Ok tt) w1) as [o w'] eqn:Hrun.
  destruct (wp_run_elim _ _ _ _ _ (settle_refines limit _ w1 c H (inv_env _ _ I) (Ok tt) Hcok) Hrun)
    as (_ & Hok & HT).
  destruct (Hok eq_refl) as [ [] ->]. cbn [atomic] in HT.
  exists (mkSys w' (cs1 ++ cs2)). cbn [sys_world].
  remember (w_db w') as d' eqn:Hd'.
  destruct HT as [Hn|j0 at_ Hj0 Hv|j0 error d1 e at_ Hj0 Hv He]; [|clear Hv|done];
    change (w_db w1) with (w_db w) in *; [congruence|].
  eexists. split; [|split; [cbn; apply lookup_insert_eq | done] ].
  eapply calm_then, step_settle, Hrun.
Qed.

(** A running job whose lease ran out is recovered, if the other rows are
    locked by others. *)
Lemma due_only d n k j t :
  1 <= recovery_batch_size settings ->
  db_ok limit n d -> db_jobs d !! k = Some j -> j_status j = RUNNING ->
  (forall lease, j_lease_expires_at j = Some lease -> lease < t) ->
  due settings t (dom (db_jobs d) ∖ {[k]}) d = [j].
Proof using.
  intros Hb H Hj Hs Hl. unfold due. set (p := fun j0 => _ && _).
  assert (Hp : p j = true).
  { pose proof (ok_lease _ _ (ok_jobs _ _ _ H k j Hj)) as Hh.
    rewrite Hs in Hh. destruct Hh as (_ & _ & [lease Hle]).
    unfold p, lease_expired, has_status.
    rewrite (db_ok_id _ _ _ _ _ H Hj), Hs, Hle, (proj2 (Z.ltb_lt _ _) (Hl lease Hle)).
    by rewrite !bool_decide_eq_true_2 by
      (done || by apply not_elem_of_difference; right; apply elem_of_singleton). }
  assert (Honly : forall x, x ∈ select_where p (db_jobs d) -> j_id x = k).
  { intros x (Hx & k' & Hk')%elem_of_select. apply andb_true_iff in Hx as [_ Hx%bool_decide_eq_true].
    rewrite (db_ok_id _ _ _ _ _ H Hk') in Hx |- *.
    apply dec_stable. intros Hne. apply Hx, elem_of_difference.
    split; [by eapply elem_of_dom_2 | by rewrite elem_of_singleton]. }
  pose proof (keyed_nodup j_id (db_jobs d) p (db_ok_keyed _ _ _ H)) as Hnd.
  assert (Hin : j ∈ select_where p (db_jobs d)) by (apply elem_of_select; eauto).
  destruct (select_where p (db_jobs d)) as [|x [|y l] ].
  - by apply not_elem_of_nil in Hin.
  - apply list_elem_of_singleton in Hin as ->. rewrite limit_all; cbn; [done | lia].
  - exfalso. rewrite !fmap_cons, (Honly x ltac:(left)), (Honly y ltac:(right; left)) in Hnd.
    apply NoDup_cons in Hnd as [Hnd _]. apply Hnd. left.
Qed.

Lemma can_recover s k j :
  1 <= recovery_batch_size settings ->
  sys_inv settings s -> db_jobs (db s) !! k = Some j -> j_status j = RUNNING ->
  exists s' t, steps settings s s' /\
    db_jobs (db s') = <[k := recovered_row t j]> (db_jobs (db s)).
Proof using All.
  destruct s as [w cs]. cbn [sys_world]. intros Hb I Hj Hs.
  pose proof (inv_db _ _ I) as H. cbn [sys_world] in H.
  set (t := default 0 (j_lease_expires_at j) + 1).
  set (w1 := calm_at (dom (db_jobs (w_db w)) ∖ {[k]}) t w).
  destruct (StaleRunningRecovery.recover_due_batch_once settings w1) as [o w'] eqn:Hrun.
  destruct (wp_run_elim _ _ _ _ _ (recover_due_batch_refines limit settings w1 H (inv_env _ _ I)) Hrun)
    as (_ & Hok & HT).
  destruct (Hok eq_refl) as [r ->]. cbn [atomic] in HT. destruct HT as [_ HB].
  change (due _ _ _ _) with (due settings t (dom (db_jobs (w_db w)) ∖ {[k]}) (w_db w)) in HB.
  rewrite (due_only _ _ k j t Hb H Hj Hs) in HB.
  2: { intros lease Hl. unfold t. rewrite Hl. cbn. lia. }
  exists (mkSys w' cs), t. split; [eapply calm_then, step_recover, Hrun|]. cbn [sys_world].
  inversion HB as [|? ? ? ? ? ? d1 ? HT HB']; subst. inversion HB'; subst.
  apply recover_tx_jobs in HT. by rewrite (db_ok_id _ _ _ _ _ H Hj) in HT.
Qed.

(** ** Composition *)

Lemma running_one d k j owner :
  db_jobs d !! k = Some j -> SqlAlchemyJobRepository.running_of owner j = true ->
  forall j', SqlAlchemyJobRepository.running_of owner j' = false ->
  running_count owner (set_jobs (<[k := j']> (db_jobs d)) d) = running_count owner d - 1.
Proof using. intros Hj Hr j' Hr'. rewrite (running_count_update d k j j' owner Hj), Hr, Hr'. lia. Qed.

Lemma running_count_jobs d d' owner :
  db_jobs d' = db_jobs d -> running_count owner d' = running_count owner d.
Proof using. intros Hd. unfold running_count. by rewrite Hd. Qed.

Lemma running_of_owner j : j_status j = RUNNING ->
  SqlAlchemyJobRepository.running_of (j_owner_id j) j = true.
Proof using. intros Hs. unfold SqlAlchemyJobRepository.running_of, has_status. by rewrite Z.eqb_refl, Hs. Qed.

Lemma not_running owner j : j_status j <> RUNNING -> SqlAlchemyJobRepository.running_of owner j = false.
Proof using.
  intros Hs. unfold SqlAlchemyJobRepository.running_of, has_status.
  by rewrite bool_decide_eq_false_2, andb_false_r.
Qed.

(** After a recovery the owner has a free slot. *)
Lemma recovered_count d d' k j t :
  db_jobs d !! k = Some j -> j_status j = RUNNING ->
  db_jobs d' = <[k := recovered_row t j]> (db_jobs d) ->
  running_count (j_owner_id j) d' = running_count (j_owner_id j) d - 1.
Proof using.
  intros Hj Hs Hd. rewrite <- (running_one d k j _ Hj (running_of_owner j Hs) (recovered_row t j)).
  - by apply running_count_jobs.
  - apply not_running. rewrite recovered_row_status. by destruct (_ <? _).
Qed.

Lemma finish_waiting s k j :
  sys_inv settings s -> db_jobs (db s) !! k = Some j -> dispatchable (j_status j) = true ->
  running_count (j_owner_id j) (db s) < limit ->
  exists s' j', steps settings s s' /\ db_jobs (db s') !! k = Some j' /\ j_status j' = COMPLETED.
Proof using All.
  intros I Hj Hd Hr.
  assert (HQ : forall s1 j1 m, steps settings s s1 -> db_jobs (db s1) !! k = Some j1 ->
    j_status j1 = QUEUED -> running_count (j_owner_id j1) (db s1) < limit ->
    m ∈ w_broker (sys_world s1) -> targets k m ->
    exists s' j', steps settings s s' /\ db_jobs (db s') !! k = Some j' /\ j_status j' = COMPLETED).
  { intros s1 j1 m HS Hj1 Hs1 Hr1 Hm Ht. pose proof (steps_inv _ _ _ HS I) as I1.
    destruct (can_run s1 k j1 m I1 Hj1 Hs1 Hr1 Hm Ht) as (s2 & c & m' & HS2 & Hc & Hk & Hh).
    destruct (can_complete s2 k c m' (steps_inv _ _ _ HS2 I1) Hc Hk Hh) as (s3 & j3 & HS3 & H3).
    exists s3, j3. split; [|done]. etrans; [exact HS|]. by etrans. }
  assert (HE : has_pending_event k (db s) ->
    exists s' j', steps settings s s' /\ db_jobs (db s') !! k = Some j' /\ j_status j' = COMPLETED).
  { intros He. destruct (can_dispatch s k j I Hj Hd He) as (s1 & j1 & HS & Hd1 & Hs1 & Ho1 & m & Hm & Ht).
    apply (HQ s1 j1 m); try done; [by rewrite Hd1, lookup_insert_eq|]. rewrite Ho1.
    rewrite (running_count_jobs (set_jobs (<[k := j1]> (db_jobs (db s))) (db s))) by done.
    rewrite (running_count_update _ _ j _ _ Hj), (not_running _ j1) by congruence.
    destruct (SqlAlchemyJobRepository.running_of _ j); lia. }
  pose proof (inv_covered _ _ I k j Hj) as Hc. apply bool_decide_eq_true in Hd.
  apply elem_of_cons in Hd as [Hs|Hs%list_elem_of_singleton]; rewrite Hs in Hc; [by apply HE|].
  destruct Hc as [He|(m & Hm & Ht)]; [by apply HE|].
  by apply (HQ s j m).
Qed.

(** If the owner is at the limit, one of the running jobs can be recovered. *)
Lemma make_room s k j :
  1 <= limit -> 1 <= recovery_batch_size settings ->
  sys_inv settings s -> db_jobs (db s) !! k = Some j -> j_status j <> RUNNING ->
  exists s', steps settings s s' /\ db_jobs (db s') !! k = Some j /\
    running_count (j_owner_id j) (db s') < limit.
Proof using All.
  intros Hl Hb I Hj Hs.
  pose proof (ok_running_limit _ _ _ (inv_db _ _ I) (j_owner_id j)) as Hmax.
  destruct (Z_lt_le_dec (running_count (j_owner_id j) (db s)) limit); [by exists s; split|].
  assert (Hone : exists k2 j2, db_jobs (db s) !! k2 = Some j2 /\ j_status j2 = RUNNING /\
    j_owner_id j2 = j_owner_id j).
  { assert (Hpos : 0 < running_count (j_owner_id j) (db s)) by lia. unfold running_count in Hpos.
    destruct (select_where _ (db_jobs (db s))) as [|j2 js] eqn:E; [cbn in Hpos; lia|].
    assert (H2 : j2 ∈ j2 :: js) by left. rewrite <- E in H2.
    apply elem_of_select in H2 as (H2 & k2 & Hk2). exists k2, j2. split; [done|].
    apply andb_true_iff in H2 as [Ho%Z.eqb_eq Hr%bool_decide_eq_true]. done. }
  destruct Hone as (k2 & j2 & Hk2 & Hs2 & Ho2).
  destruct (can_recover s k2 j2 Hb I Hk2 Hs2) as (s' & t & HS & Hd).
  exists s'. split; [done|]. rewrite <- Ho2, (recovered_count _ _ _ _ t Hk2 Hs2 Hd). split; [|rewrite Ho2; lia].
  rewrite Hd, lookup_insert_ne; [done|]. intros ->. congruence.
Qed.

Lemma finish_any s k j :
  1 <= limit -> 1 <= recovery_batch_size settings ->
  sys_inv settings s -> db_jobs (db s) !! k = Some j -> is_terminal_status (j_status j) = false ->
  exists s' j', steps settings s s' /\ db_jobs (db s') !! k = Some j' /\
    (j_status j' = COMPLETED \/ (j_status j' = FAILED /\ j_status j = RUNNING /\ 4 <= j_attempt_count j)).
Proof using All.
  intros Hl Hb I Hj Ht. destruct (decide (j_status j = RUNNING)) as [Hs|Hs].
  - destruct (can_recover s k j Hb I Hj Hs) as (s1 & t & HS & Hd).
    pose proof (steps_inv _ _ _ HS I) as I1.
    pose proof (ok_running_limit _ _ _ (inv_db _ _ I) (j_owner_id j)) as Hmax.
    pose proof (recovered_count _ _ _ _ t Hj Hs Hd) as Hcount.
    assert (Hk : db_jobs (db s1) !! k = Some (recovered_row t j)) by (by rewrite Hd, lookup_insert_eq).
    pose proof (recovered_row_status t j) as Hst.
    destruct (Z.ltb_spec (j_attempt_count j) 4) as [Ha|Ha].
    + assert (Ho : j_owner_id (recovered_row t j) = j_owner_id j) by (apply job_values_owner).
      destruct (finish_waiting s1 k (recovered_row t j) I1 Hk) as (s2 & j2 & HS2 & Hj2 & Hs2);
        [by rewrite Hst | rewrite Ho; lia |].
      exists s2, j2. split; [by etrans|]. split; [done | by left].
    + exists s1, (recovered_row t j). split; [done|]. split; [done|]. by right.
  - destruct (make_room s k j Hl Hb I Hj Hs) as (s1 & HS & Hj1 & Hr).
    destruct (finish_waiting s1 k j (steps_inv _ _ _ HS I) Hj1) as (s2 & j2 & HS2 & Hj2 & Hs2);
      [by destruct (j_status j) | done |].
    exists s2, j2. split; [by etrans|]. split; [done | by left].
Qed.

End liveness.
