(* ===== verification/Samples.v ===== *)
(** * Samples: concrete instances of the interfaces and a concrete state, on
    which the theorems of the development are evaluated. *)
From S2P Require Import Prelude Exceptions Domain Store Effects Tables Text Config JobRepo Repos.
From S2P Require Import PostCommit Invariants Steps JobService Rabbit Publisher Worker Recovery.
From S2P Require Import Auth System.

(** ** A codec for dispatch messages *)

Fixpoint bits_of_positive (p : positive) : string :=
  match p with
  | xH => EmptyString
  | xO p => String "0" (bits_of_positive p)
  | xI p => String "1" (bits_of_positive p)
  end.

Fixpoint positive_of_bits (s : string) : positive :=
  match s with
  | EmptyString => xH
  | String c s' => if Ascii.eqb c "0" then xO (positive_of_bits s') else xI (positive_of_bits s')
  end.

Lemma positive_of_bits_of p : positive_of_bits (bits_of_positive p) = p.
Proof. induction p; cbn; congruence. Qed.

Definition message_fields (m : DispatchOutboxMessage) : Z * Z * Z :=
  (dm_event_id m, dm_job_id m, dm_created_at m).

Definition sample_dump (m : DispatchOutboxMessage) : json :=
  JObj [("kind", JStr "dispatch"); ("event_id", JNum (dm_event_id m));
        ("job_id", JNum (dm_job_id m)); ("created_at", JNum (dm_created_at m))].

Definition sample_validate (v : json) : option DispatchOutboxMessage :=
  match v with
  | JObj [(_, JStr _); (_, JNum e); (_, JNum j); (_, JNum c)] => Some (mkDispatchOutboxMessage e j c)
  | _ => None
  end.

Definition sample_dump_json (m : DispatchOutboxMessage) : string :=
  bits_of_positive (encode (message_fields m)).

Definition sample_validate_json (s : string) : option DispatchOutboxMessage :=
  match decode (positive_of_bits s) with
  | Some (e, j, c) => Some (mkDispatchOutboxMessage e j c)
  | None => None
  end.

#[export] Instance sample_codec : DispatchCodec.
Proof.
  refine {| model_dump := sample_dump; model_validate := sample_validate;
            model_dump_json := sample_dump_json; model_validate_json := sample_validate_json |}.
  - by intros [].
  - intros [e j c]. unfold sample_validate_json, sample_dump_json.
    by rewrite positive_of_bits_of, decode_encode.
Defined.

(** ** Collaborators: no rate limit, no cache, no notifier *)

#[export] Instance sample_limiter : CreateJobRateLimiter :=
  {| reserve _ := mret None; release _ := mret tt |}.

#[export] Instance sample_limiter_laws : RateLimiterLaws sample_limiter.
Proof. split; intros; apply framed_ret || reflexivity. Qed.

#[export] Existing Instance NoOpJobListCache.
#[export] Existing Instance NoOpWorkerPostCommitNotifier.

(** ** A broker and a Redis client *)

Definition sample_route (calls : list channel_call) (exchange routing_key : string) : list string :=
  omap (fun c => match c with
    | BindQueue q x k => if bool_decide (x = exchange /\ k = routing_key) then Some q else None
    | _ => None end) calls.

(** The arguments a queue was declared with. *)
Fixpoint declared_arguments (calls : list channel_call) (queue : string)
    : option (list (string * string)) :=
  match calls with
  | [] => None
  | DeclareQueue q _ args :: rest => if String.eqb q queue then Some args else declared_arguments rest queue
  | _ :: rest => declared_arguments rest queue
  end.

Definition sample_dead_letter (calls : list channel_call) (queue : string) : list string :=
  match declared_arguments calls queue with
  | Some [(k1, x); (k2, k)] => sample_route calls x k
  | _ => []
  end.

Lemma declared_arguments_only calls queue durable args :
  DeclareQueue queue durable args ∈ calls ->
  (forall durable' args', DeclareQueue queue durable' args' ∈ calls -> args' = args) ->
  declared_arguments calls queue = Some args.
Proof.
  induction calls as [|c calls IH]; [by intros ?%not_elem_of_nil|]. intros Hin Hall.
  assert (Htail : DeclareQueue queue durable args ∈ calls -> declared_arguments calls queue = Some args).
  { intros Hin'. apply IH; [done|]. intros durable' args' H. apply (Hall durable'). by right. }
  destruct c as [x d|q d a|q x k]; cbn [declared_arguments].
  - apply Htail. by apply elem_of_cons in Hin as [ [=]|?].
  - destruct (String.eqb_spec q queue) as [->|Hne].
    + by rewrite (Hall d a ltac:(left)).
    + apply Htail. apply elem_of_cons in Hin as [ [=]|?]; congruence.
  - apply Htail. by apply elem_of_cons in Hin as [ [=]|?].
Qed.

#[export] Instance sample_routing : BrokerRouting.
Proof.
  refine {| deliver := sample_route; dead_letter := sample_dead_letter |}.
  - intros calls x k q. unfold sample_route. rewrite list_elem_of_omap. split.
    + intros (c & Hc & Hq). destruct c as [? ?|? ? ?|q' x' k']; try done.
      case_bool_decide as Hx; [|done]. destruct Hx as [-> ->]. by injection Hq as ->.
    + intros Hc. exists (BindQueue q x k). by rewrite bool_decide_eq_true_2.
  - intros calls queue args durable x k -> Hin Hall. unfold sample_dead_letter.
    by rewrite (declared_arguments_only calls queue durable _ Hin Hall).
Defined.

(** Job status events as texts. *)
Definition sample_event_text (e : JobStatusEvent) : string :=
  bits_of_positive (encode (se_event_id e, se_job_id e, job_status_value (se_status e),
    se_attempt_count e, se_occurred_at e, se_cancel_requested_at e)).

Definition sample_event_of (s : string) : option JobStatusEvent :=
  match decode (positive_of_bits s) with
  | Some (i, j, st, n, t, c) =>
      match parse_job_status st with
      | Ok status => Some (mkJobStatusEvent i j status n t c)
      | Exc _ => None
      end
  | None => None
  end.

#[export] Instance sample_event_codec : JobStatusEventCodec.
Proof.
  refine {| event_dump_json := sample_event_text; event_validate_json := sample_event_of |}.
  intros [i j st n t c]. unfold sample_event_of, sample_event_text.
  rewrite positive_of_bits_of, decode_encode. cbn [se_status]. by rewrite parse_job_status_value.
Defined.

#[export] Instance sample_redis : RedisPublish.
Proof.
  refine {| redis_publish c p := fun w => (Ok tt, set_pubsub ((c, p) :: w_pubsub w) w) |}.
  intros c p w. apply frame_set_pubsub.
Defined.

(** ** A state: one user, no jobs *)

Definition sample_settings : Settings :=
  with_defaults TEST "INFO" "postgresql+asyncpg://db/app" "redis://cache" "amqp://broker" "not-a-secret".

Definition sample_user : User := mkUser 1 "ada@example.org" "hash" USER true 0 0.
Definition sample_current_user : CurrentUserDTO := mkCurrentUserDTO 1 "ada@example.org" USER true.

Definition sample_db : DB := set_users {[1 := sample_user]} empty_db.

(** A clock that advances by a second at each reading. *)
Definition sample_world_on (d : DB) (next : uuid) : World :=
  mkWorld d [] (fun n => 1000000 * Z.of_nat n) 0 next [] [] [] ∅ [] ∅ [].

Definition sample_world : World := sample_world_on sample_db 100.

Lemma sample_initial : initial sample_settings (mkSys sample_world []).
Proof.
  constructor; cbn; try done.
  - intros k u. rewrite lookup_singleton. case_decide; [by intros [= <-]; subst | done].
  - intros k1 k2 u1 u2. rewrite !lookup_singleton. repeat case_decide; naive_solver.
  - intros k. rewrite lookup_singleton. case_decide; [lia | by intros [] ].
Qed.

(** Passwords in the clear. *)
#[export] Instance sample_hasher : PasswordHash :=
  {| pw_hash salt password := "plain:" +:+ password;
     pw_verify password password_hash := Ok (String.eqb ("plain:" +:+ password) password_hash);
     pw_verify_hash salt password := f_equal Ok (String.eqb_refl ("plain:" +:+ password)) |}.

(** ** A run: job 100 is created, dispatched by event 101, and started *)

Definition sample_created : outcome JobCreateResultDTO * World :=
  JobService.create_job sample_settings sample_current_user "key-1" SLEEP
    (JObj [("duration_seconds", JNum 1)]) sample_world.

Definition sample_world1 : World := Eval vm_compute in
  snd sample_created.
Definition sample_world2 : World := Eval vm_compute in
  snd (OutboxPublisher._process_claimed_event_once 101 sample_world1).

Definition sample_dispatch : DispatchOutboxMessage := mkDispatchOutboxMessage 101 100 4000000.
Definition sample_message : BrokerMessage :=
  Rabbit.dispatch_message (fresh_event 101 100 4000000 3000000) sample_dispatch.

Definition sample_claim : ExecutionClaim := {|
  ec_job := {|
    je_id := 100; je_owner_id := 1; je_type := SLEEP;
    je_payload := JObj [("duration_seconds", JNum 1)]; je_status := QUEUED;
    je_attempt_count := 0; je_max_retries := 3; je_worker_id := None;
    je_execution_token := None; je_lease_expires_at := None; je_started_at := None;
    je_finished_at := None; je_cancel_requested_at := None; je_last_error := None |};
  ec_execution_token := 102; ec_attempt_number := 1 |}.

Definition sample_world3 : World := Eval vm_compute in
  set_broker [] (snd (JobWorker._claim_execution sample_settings "worker-1" sample_dispatch sample_world2)).

Definition sample_sys1 : Sys := mkSys sample_world1 [].
Definition sample_sys2 : Sys := mkSys sample_world2 [].
Definition sample_sys3 : Sys := mkSys sample_world3 [(sample_claim, sample_message)].

(** The worker dies; its lease runs out; recovery queues the job again. *)
Definition sample_world4 : World := Eval vm_compute in
  set_broker [sample_message] sample_world3.
Definition later (readings : nat) (w : World) : World :=
  mkWorld (w_db w) (w_sessions w) (w_clock w) (readings + w_ticks w) (w_next_uuid w)
    (w_commit_plan w) (w_publish_plan w) (w_env w) (w_locked w) (w_broker w) (w_redis w) (w_pubsub w).
Definition sample_world5 : World := Eval vm_compute in
  later 100 sample_world4.
Definition sample_world6 : World := Eval vm_compute in
  snd (StaleRunningRecovery.recover_due_batch_once sample_settings sample_world5).
Definition sample_sys6 : Sys := mkSys sample_world6 [].

(** Steps are replayed by evaluation. *)
Ltac replay := vm_compute; reflexivity.

Lemma sample_step1 : step sample_settings (mkSys sample_world []) sample_sys1.
Proof.
  apply (step_create sample_settings sample_current_user "key-1" SLEEP
    (JObj [("duration_seconds", JNum 1)]) (fst sample_created)). replay.
Qed.

Lemma sample_step2 : step sample_settings sample_sys1 sample_sys2.
Proof. apply (step_publish sample_settings 101 (Ok true)). replay. Qed.

Lemma sample_step3 : step sample_settings sample_sys2 sample_sys3.
Proof.
  refine (step_start sample_settings "worker-1" sample_message sample_dispatch [] []
    sample_claim sample_world2
    (snd (JobWorker._claim_execution sample_settings "worker-1" sample_dispatch sample_world2))
    [] _ _ _); replay.
Qed.

Lemma sample_crash : step sample_settings sample_sys3 (mkSys sample_world4 []).
Proof. exact (step_crash sample_settings sample_claim sample_message sample_world3 [] []). Qed.

Lemma sample_later : step sample_settings (mkSys sample_world4 []) (mkSys sample_world5 []).
Proof. apply step_elsewhere. split; reflexivity. Qed.

Lemma sample_recovery : step sample_settings (mkSys sample_world5 []) sample_sys6.
Proof. apply (step_recover sample_settings (Ok 1)). replay. Qed.

Lemma sample_steps36 : steps sample_settings sample_sys3 sample_sys6.
Proof.
  eapply rtc_l; [apply sample_crash|]. eapply rtc_l; [apply sample_later|].
  apply rtc_once, sample_recovery.
Qed.

Lemma sample_reachable1 : reachable sample_settings sample_sys1.
Proof.
  exists (mkSys sample_world []). split; [apply sample_initial|]. apply rtc_once, sample_step1.
Qed.

Lemma sample_reachable2 : reachable sample_settings sample_sys2.
Proof.
  exists (mkSys sample_world []). split; [apply sample_initial|].
  eapply rtc_l; [apply sample_step1|]. apply rtc_once, sample_step2.
Qed.

Lemma sample_reachable3 : reachable sample_settings sample_sys3.
Proof.
  destruct sample_reachable2 as (s0 & H0 & HS). exists s0. split; [done|].
  by eapply rtc_r; [|apply sample_step3].
Qed.

Lemma sample_reachable6 : reachable sample_settings sample_sys6.
Proof.
  destruct sample_reachable3 as (s0 & H0 & HS). exists s0. split; [done|].
  etrans; [exact HS | apply sample_steps36].
Qed.

Definition sample_job (w : World) : Job :=
  default (ServiceSpec.new_job 0 0 SLEEP JNull "" "" 0 0) (db_jobs (w_db w) !! 100).

Lemma sample_db_ok : db_ok 3 100 sample_db.
Proof. exact (inv_db _ _ (initial_inv _ _ sample_initial)). Qed.

Lemma sample_ok5 : db_ok 3 (w_next_uuid sample_world5) (w_db sample_world5).
Proof. exact (inv_db _ _ (reachable_inv _ _ sample_reachable3)). Qed.
