(* ===== verification/UowContracts.v ===== *)
(** * UowContracts: what the Unit of Work promises to the services, for any body
    made of repository calls. *)
From S2P Require Import Prelude Exceptions Domain Store Effects JobRepo Repos PostCommit Samples Protocols.

(** ** Transactional bodies *)

(** A coroutine that uses the session it runs in and leaves it open: it may write
    in the transaction and call best-effort services, and it neither commits nor
    closes. *)
Class Transactional {A} (m : M A) : Prop :=
  transactional w work c : exists o w2 work', m (in_tx w work c) = (o, in_tx w2 work' c) /\ frame w w2.

Section closure.
Context {A B : Type}.

#[export] Instance tx_framed (m : M A) : framed m -> Transactional m.
Proof.
  intros Hm w work c. pose proof (Hm (in_tx w work c)) as F. destruct (m _) as [o w1].  cbn [snd] in F.
  apply frame_in_tx in F as (w2 & -> & F). by exists o, w2, work.
Qed.

#[export] Instance tx_bind (m : M A) (k : A -> M B) :
  Transactional m -> (forall a, Transactional (k a)) -> Transactional (m ≫= k).
Proof.
  intros Hm Hk w work c. destruct (Hm w work c) as (o & w1 & k1 & E & F).
  unfold mbind, M_bind. rewrite E. destruct o as [a|e]; [|by eexists _, _, _].
  destruct (Hk a w1 k1 c) as (o2 & w2 & k2 & E2 & F2). rewrite E2.
  eexists _, _, _. split; [done | by etrans].
Qed.

#[export] Instance tx_attempt (m : M A) : Transactional m -> Transactional (attempt m).
Proof.
  intros Hm w work c. destruct (Hm w work c) as (o & w1 & k1 & E & F).
  unfold attempt. rewrite E. by eexists _, _, _.
Qed.

#[export] Instance tx_query (q : DB -> A) : Transactional (db_query q).
Proof. intros w work c. by eexists _, _, _. Qed.

#[export] Instance tx_query_unlocked (q : gset uuid -> DB -> A) : Transactional (db_query_unlocked q).
Proof. intros w work c. by eexists _, _, _. Qed.

#[export] Instance tx_exec (f : DB -> DB * A) : Transactional (db_exec f).
Proof.
  intros w work c. unfold db_exec, in_tx. cbn. destruct (f _) as [d a].
  exists (Ok a), w, (Some d). done.
Qed.

#[export] Instance tx_insert `{PgDriver} (f : DB -> DB + violation) : Transactional (db_insert f).
Proof.
  intros w work c. unfold db_insert, in_tx. cbn. destruct (f _) as [d|v].
  - exists (Ok tt), w, (Some d). done.
  - eexists _, w, work. done.
Qed.

End closure.

#[export] Hint Extern 1 (framed _) => solve [auto with app] : typeclass_instances.
#[export] Hint Extern 1 (Transactional (match ?x with _ => _ end)) => destruct x : typeclass_instances.

(** Every method of the repositories is one: by its definition. *)
Ltac solve_transactional := intros; autounfold with repo; cbn beta iota zeta; apply _.

Section repositories.
Context `{PG : PgDriver} `{DC : DispatchCodec}.

#[export] Instance tx_create_user e p r a : Transactional (SqlAlchemyUserRepository.create_user e p r a).
Proof. solve_transactional. Qed.
#[export] Instance tx_flush_admin u p : Transactional (SqlAlchemyUserRepository.flush_admin u p).
Proof. unfold SqlAlchemyUserRepository.flush_admin. solve_transactional. Qed.
#[export] Instance tx_create_or_update_admin e p :
  Transactional (SqlAlchemyUserRepository.create_or_update_admin e p).
Proof. solve_transactional. Qed.
#[export] Instance tx_create_pending_job o t p k h r :
  Transactional (SqlAlchemyJobRepository.create_pending_job o t p k h r).
Proof. solve_transactional. Qed.
#[export] Instance tx_create_job_created_log j :
  Transactional (SqlAlchemyJobLogRepository.create_job_created_log j).
Proof. solve_transactional. Qed.
#[export] Instance tx_create_system_log j l m :
  Transactional (SqlAlchemyJobLogRepository.create_system_log j l m).
Proof. solve_transactional. Qed.
#[export] Instance tx_create_dispatch_event j t :
  Transactional (SqlAlchemyOutboxRepository.create_dispatch_event j t).
Proof. solve_transactional. Qed.
#[export] Instance tx_create_dispatch_event_if_absent j t :
  Transactional (SqlAlchemyOutboxRepository.create_dispatch_event_if_absent j t).
Proof. unfold SqlAlchemyOutboxRepository.create_dispatch_event_if_absent. solve_transactional. Qed.

End repositories.

(** ** The contract *)

(** The committed rows with what the innermost transaction has written. *)
Definition transaction_rows (w : World) : DB :=
  match w_sessions w with s :: _ => view s w | [] => w_db w end.

Section contract.
Context `{PG : PgDriver} `{DC : DispatchCodec} {A B : Type}.

#[local] Abbreviation uow := (create_uow_factory tt).

(** A body and what follows it, in the three ways a service can use them. *)
Definition left_uncommitted (body : UnitOfWork -> M A) : M A := async_with uow body.
Definition rolled_back (body : UnitOfWork -> M A) (rest : UnitOfWork -> A -> M B) : M B :=
  async_with uow (fun uow => a ← body uow; rollback;; rest uow a).
Definition committed (body : UnitOfWork -> M A) (rest : UnitOfWork -> A -> M B) : M B :=
  async_with uow (fun uow => a ← body uow; commit;; rest uow a).

(** How the next COMMIT ends. *)
Definition next_commit (w : World) : CommitOutcome := default CommitOk (head (w_commit_plan w)).

Lemma next_commit_frame w w' : frame (env_step w) w' -> next_commit w' = next_commit w.
Proof using. intros F. unfold next_commit. by rewrite (frame_commit _ _ F). Qed.

Lemma wp_transactional {C} (m : M C) `{!Transactional m} Q w work c :
  (forall o w2 k, m (in_tx w work c) = (o, in_tx w2 k c) -> frame w w2 -> Q o (in_tx w2 k c)) ->
  wp m Q (in_tx w work c).
Proof using.
  intros HQ. destruct (transactional (m := m) w work c) as (o & w2 & k & E & F).
  unfold wp. rewrite E. by apply HQ.
Qed.

(** C11. The Unit of Work is atomic, for every body made of repository calls: what
    it wrote is dropped when the block is left without COMMIT, by whatever way, or
    after a rollback, whatever follows that; after a successful COMMIT the database
    has all of it and nothing that the block did later, whether or not that raised;
    after a failed COMMIT the exception leaves the block, and all of it or none was
    stored. The block closes its session, and outside of one COMMIT and rollback
    are refused. *)
Theorem unit_of_work_contract (body : UnitOfWork -> M A) (rest : UnitOfWork -> A -> M B) (w : World) :
  Transactional (body uow) -> (forall a, Transactional (rest uow a)) ->
  let '(o, wt) := body uow (aenter (UnitOfWork := uow) w) in
  let drop := left_uncommitted body w in
  let undo := rolled_back body rest w in
  let keep := committed body rest w in
  (fst drop = o /\ w_db (snd drop) = w_db (env_step w) /\ w_sessions (snd drop) = w_sessions w) /\
  (w_db (snd undo) = w_db (env_step w) /\ w_sessions (snd undo) = w_sessions w) /\
  (w_sessions (snd keep) = w_sessions w /\
   match o with
   | Exc e => fst keep = Exc e /\ w_db (snd keep) = w_db (env_step w)
   | Ok a =>
       match next_commit w with
       | CommitOk =>
           (exists wc, transaction_rows wc = transaction_rows wt /\ w_db wc = transaction_rows wt /\
              fst keep = fst (rest uow a wc)) /\
           w_db (snd keep) = transaction_rows wt
       | CommitLost m => fst keep = Exc (InfraErr m) /\ w_db (snd keep) = w_db (env_step w)
       | CommitUnacknowledged m =>
           fst keep = Exc (InfraErr m) /\ w_db (snd keep) = transaction_rows wt
       end
   end) /\
  (w_sessions w = [] ->
   commit (UnitOfWork := uow) w = (Exc not_active, w) /\ rollback (UnitOfWork := uow) w = (Exc not_active, w)).
Proof using.
  intros Hbody Hrest.
  assert (Hout : w_sessions w = [] -> uow_commit w = (Exc not_active, w) /\ uow_rollback w = (Exc not_active, w)).
  { intros H. unfold uow_commit, uow_rollback. by rewrite H. }
  change (aenter w) with (in_tx (env_step w) None false).
  destruct (transactional (m := body uow) (env_step w) None false) as (o & w2 & work & E & F). rewrite E.
  pose proof (next_commit_frame _ _ F) as Hnext. pose proof (frame_db _ _ F) as Hdb.
  pose proof (frame_sessions _ _ F) as Hss. change (w_sessions (env_step w)) with (w_sessions w) in Hss.
  change (transaction_rows (in_tx w2 work false)) with (seen w2 work).
  cbv zeta. unfold left_uncommitted, rolled_back, committed. rewrite !async_with_sqlalchemy.
  change SqlAlchemyUnitOfWork with uow.
  change (commit (UnitOfWork := uow)) with uow_commit. change (rollback (UnitOfWork := uow)) with uow_rollback.
  assert (HE : forall Q, wp (body uow) Q (in_tx (env_step w) None false) = Q o (in_tx w2 work false))
    by (intros Q; unfold wp; by rewrite E).
  split; [|split; [|split; [|exact Hout] ] ].
  - match goal with |- context [with_uow ?m] =>
      change (wp (with_uow m) (fun o' w' => o' = o /\ w_db w' = w_db (env_step w) /\ w_sessions w' = w_sessions w) w) end.
    autorewrite with wp. rewrite HE. by autorewrite with wp.
  - match goal with |- context [with_uow ?m] =>
      change (wp (with_uow m) (fun o' w' => w_db w' = w_db (env_step w) /\ w_sessions w' = w_sessions w) w) end.
    autorewrite with wp. rewrite HE. destruct o as [a|e]; wp_run; [|done].
    apply wp_transactional; [done|]. intros o w3 k _ F3. wp_run. rewrite <- Hdb, <- Hss. split; apply F3.
  - assert (HQ : wp (with_uow (a ← body uow; uow_commit;; rest uow a)) (fun o' w' =>
      w_sessions w' = w_sessions w /\
      match o with
      | Exc e => o' = Exc e /\ w_db w' = w_db (env_step w)
      | Ok a =>
          match next_commit w with
          | CommitOk =>
              (exists wc, transaction_rows wc = seen w2 work /\ w_db wc = seen w2 work /\
                 o' = fst (rest uow a wc)) /\ w_db w' = seen w2 work
          | CommitLost m => o' = Exc (InfraErr m) /\ w_db w' = w_db (env_step w)
          | CommitUnacknowledged m => o' = Exc (InfraErr m) /\ w_db w' = seen w2 work
          end
      end) w); [|exact HQ].
    autorewrite with wp. rewrite HE. destruct o as [a|e]; wp_run; [|done].
    unfold next_commit in Hnext. rewrite Hnext. destruct (next_commit w) eqn:Ec; unfold next_commit in Ec; rewrite ?Ec; wp_run; [|done..].
    apply wp_transactional; [done|]. intros o w3 k Er F3. wp_run.
    destruct F3 as [Fd Fs]. rewrite Fd, Fs. world_simp. split; [exact Hss|]. split; [|done].
    eexists. rewrite Er. split; [|split; [|done] ]; done.
Qed.

End contract.

(** ** On a concrete block *)

(** A job is created and committed; a log line and an exception follow. *)
Definition sample_body (uow : UnitOfWork) : M StoredJobDTO :=
  Jobs.create_pending_job (JobRepository := jobs) 1 SUCCESS (JObj []) "key-1" "hash" 3.

Definition sample_rest (uow : UnitOfWork) (job : StoredJobDTO) : M unit :=
  JobLogs.create_system_log (JobLogRepository := job_logs) (sj_id job) "info" "Late";;
  raise (RuntimeErr "late").

Lemma unit_of_work_contract_witness :
  let keep := snd (committed sample_body sample_rest sample_world) in
  let undo := snd (rolled_back sample_body sample_rest sample_world) in
  j_status <$> db_jobs (w_db keep) !! 100 = Some PENDING /\
  map_to_list (db_logs (w_db keep)) = [] /\
  w_db undo = w_db sample_world.
Proof.
  split; [vm_compute; reflexivity|]. split; [vm_compute; reflexivity|].
  exact (proj1 (proj1 (proj2 (unit_of_work_contract sample_body sample_rest sample_world _ _)))).
Defined.
