(* ===== verification/JobWrites.v ===== *)
(** * JobWrites: the guarded UPDATEs of the job repository as one family, and what
    they promise: compare-and-set on one row along [JobStatePolicy]. *)
From S2P Require Import Prelude Exceptions Domain Store Effects Tables JobRepo Repos Invariants Protocols Samples.

(** ** The writes *)



(** ** Their abstract description *)









(** ** The UPDATE statements are of this kind *)



Lemma in_policy s t : JobStatePolicy.can_transition s t = true -> is_terminal_status s = false.
Proof. by destruct s, t. Qed.


(** ** The contract *)

Section contract.
Context `{PG : PgDriver}.



End contract.

(** ** Two workers claim the same queued job *)


