(* ===== verification/ClaimRaces.v ===== *)
(** * ClaimRaces: the claims of any number of workers, interleaved statement by
    statement under the row locks they take. *)
From S2P Require Import Prelude Exceptions Domain Store Effects Tables Config JobRepo Repos PostCommit Invariants.
From S2P Require Import Steps Worker WorkerSpec CreationSteps ClaimSteps Samples Protocols JobWrites.

Section races.
Context `{DC : DispatchCodec} `{PG : PgDriver} `{N : WorkerPostCommitNotifier} `{NL : !NotifierLaws N}.
Context (settings : Settings).

#[local] Abbreviation Claims := (gmap Z Claiming).
#[local] Abbreviation allowed := (job_max_running_per_user settings).
#[local] Abbreviation advance := (advance_claim settings).

(** ** The interleaving *)






(** ** What is known of a claim *)












(** ** Changes of the rows, and what they leave of it *)










(** ** One step of one claim, but for the COMMIT *)














(** ** The COMMIT *)





(** ** The whole *)










End races.

(** ** Two workers, two queued jobs of one user, who may run one at a time *)

Definition one_at_a_time : Settings :=
  mkSettings TEST "INFO" "postgresql+asyncpg://db/app" "redis://cache" "amqp://broker" "not-a-secret"
    30 1 3 60 1 50 5 50 30 2 60.

Definition queued_job (k : uuid) (key : string) : Job := {|
  j_id := k; j_owner_id := 1; j_type := SUCCESS; j_payload := JObj []; j_status := QUEUED;
  j_idempotency_key := key; j_request_hash := "hash"; j_attempt_count := 0; j_max_retries := 3;
  j_cancel_requested_at := None; j_worker_id := None; j_execution_token := None;
  j_lease_expires_at := None; j_started_at := None; j_finished_at := None; j_last_error := None;
  j_created_at := 0; j_updated_at := 0 |}.

Definition two_queued : World :=
  sample_world_on (set_jobs {[100 := queued_job 100 "key-1"; 200 := queued_job 200 "key-2"]} sample_db) 300.


Definition can_step (t : gmap Z Claiming) (i : Z) (c : Claiming) : bool :=
  match cl_phase c with
  | LockOwner o => bool_decide (map_Forall (fun i' c' => i' <> i -> holds_owner c' <> Some o) t)
  | LockJob _ => bool_decide (map_Forall (fun i' c' => i' <> i -> holds_job c' <> Some (cl_job c)) t)
  | _ => true
  end.


(** Claim [i] takes its next step, when it can; [waits] is whether locks count. *)
Definition claim_turn (waits : bool) (x : gmap Z Claiming * World) (i : Z) : gmap Z Claiming * World :=
  match fst x !! i with
  | Some c =>
      if negb waits || can_step (fst x) i c
      then let '(c', w') := advance_claim one_at_a_time c (snd x) in (<[i := c']> (fst x), w')
      else x
  | None => x
  end.


Definition two_claims : gmap Z Claiming :=
  <[2 := claim_entered (mkDispatchOutboxMessage 301 200 0) "worker-2" 5000000 402]>
    (<[1 := claim_entered (mkDispatchOutboxMessage 300 100 0) "worker-1" 5000000 401]> ∅).

(** Both look at every turn. *)
Definition turns : list Z := [1; 2; 1; 2; 1; 2; 1; 2; 1; 2; 1; 2; 1; 2; 1; 2; 2; 2; 2; 2; 2; 2; 2].


(** Without the lock on the owner's row both count none, and both start. *)
Lemma claims_race_without_locks :
  let end_ := foldl (claim_turn false) (two_claims, two_queued) turns in
  running_count 1 (w_db (snd end_)) = 2.
Proof. vm_compute. reflexivity. Qed.
