(* ===== verification/ClaimProgress.v ===== *)
(** * ClaimProgress: claims that wait for each other's row locks never deadlock, and
    every schedule of them comes to an end. *)
From S2P Require Import Prelude Exceptions Domain Store Effects Tables Config JobRepo Repos PostCommit Invariants.
From S2P Require Import Steps Worker WorkerSpec CreationSteps ClaimSteps Samples Protocols JobWrites ClaimRaces.

Section progress.
Context `{DC : DispatchCodec} `{N : WorkerPostCommitNotifier} (settings : Settings).

#[local] Abbreviation Claims := (gmap Z Claiming).
#[local] Abbreviation advance := (advance_claim settings).

Definition unfinished (c : Claiming) : Prop :=
  match cl_phase c with Claimed _ => False | _ => True end.

#[export] Instance unfinished_dec c : Decision (unfinished c).
Proof. unfold unfinished. destruct (cl_phase c); apply _. Defined.














End progress.

(** ** The two workers of [ClaimRaces] *)



