(* ===== verification/SystemSafety.v ===== *)
(** * SystemSafety: what holds in every state the system can reach, whatever
    crashes, lost commits and refused publications happen on the way. *)
From S2P Require Import Prelude Exceptions Domain Store Effects Tables Text Config JobRepo Repos.
From S2P Require Import PostCommit Invariants Steps JobService Rabbit Publisher Worker Recovery.
From S2P Require Import WorkerSpec RecoverySpec PublisherSpec ServiceSpec Auth System Liveness Samples.

Section safety.
Context `{DC : DispatchCodec} `{PG : PgDriver}.
Context `{RL : CreateJobRateLimiter} `{RLL : !RateLimiterLaws RL}.
Context `{JC : JobListCache} `{JCL : !JobListCacheLaws JC}.
Context `{N : WorkerPostCommitNotifier} `{NL : !NotifierLaws N}.
Context `{PH : PasswordHash} (settings : Settings).

#[local] Abbreviation db s := (w_db (sys_world s)).

(** C1. No accepted job is lost: in every reachable state a pending job has an
    unpublished dispatch event, and a queued job has one or a message that
    names it waits in the queue - across crashes of workers, lost COMMITs,
    refused or unconfirmed publications and redeliveries. *)
Theorem accepted_jobs_never_lost s k j :
  reachable settings s -> db_jobs (db s) !! k = Some j ->
  match j_status j with
  | PENDING => has_pending_event k (db s)
  | QUEUED => has_pending_event k (db s) \/
      exists m, m ∈ w_broker (sys_world s) /\ targets k m
  | RUNNING | COMPLETED | FAILED | CANCELLED => True
  end.
Proof using All.
  intros HR Hj. pose proof (inv_covered _ _ (reachable_inv _ _ HR) k j Hj) as H.
  by destruct (j_status j).
Qed.

(** C8. The history of a job: in any run its row is never deleted, keeps its
    identifier, owner, idempotency key, request hash, type and payload, its
    attempt count never decreases, and its status follows transitions of
    [JobStatePolicy]; once it is completed, failed or cancelled its status
    never changes again. *)
Theorem job_history_follows_policy s s' k j :
  reachable settings s -> steps settings s s' -> db_jobs (db s) !! k = Some j ->
  exists j', db_jobs (db s') !! k = Some j' /\ job_evolves j j' /\
    (is_terminal_status (j_status j) = true -> j_status j' = j_status j).
Proof using All.
  intros HR HS Hj.
  destruct (steps_evolves _ _ _ HS (reachable_inv _ _ HR) k j Hj) as (j' & Hj' & E).
  exists j'. split; [done|]. split; [done|]. by apply evolves_terminal.
Qed.

(** C4. The limit of running jobs per user holds in every reachable state,
    for any number of workers. *)
Theorem running_limit_respected s owner :
  reachable settings s -> running_count owner (db s) <= job_max_running_per_user settings.
Proof using All. intros HR. apply (ok_running_limit _ _ _ (inv_db _ _ (reachable_inv _ _ HR))). Qed.

(** C9. Every row is well formed in every reachable state: at most four
    attempts, none while pending, one at least while running and at most three
    while queued (so [mark_failed_without_execution] is never needed); the
    lease columns are set exactly while the job runs and [finished_at] exactly
    once it is over. *)
Theorem rows_well_formed s k j :
  reachable settings s -> db_jobs (db s) !! k = Some j -> job_ok k j.
Proof using All. intros HR. apply (ok_jobs _ _ _ (inv_db _ _ (reachable_inv _ _ HR))). Qed.

(** C10. At most one job per owner and idempotency key, in every reachable
    state. *)
Theorem one_job_per_key s k1 k2 j1 j2 :
  reachable settings s -> db_jobs (db s) !! k1 = Some j1 -> db_jobs (db s) !! k2 = Some j2 ->
  j_owner_id j1 = j_owner_id j2 -> j_idempotency_key j1 = j_idempotency_key j2 -> k1 = k2.
Proof using All. intros HR. apply (ok_unique _ _ _ (inv_db _ _ (reachable_inv _ _ HR))). Qed.

(** C7. Fencing: once the row no longer carries the token of an execution
    (recovered, cancelled, finished or claimed again), that execution never
    writes to the database any more, however late it ends, whatever its
    handler did and whatever happened meanwhile. *)
Theorem stale_execution_never_writes s s' c h o w'' :
  reachable settings s -> steps settings s s' ->
  claim_inv (sys_world s) c ->
  holder (je_id (ec_job c)) (ec_execution_token c) (db s) = None ->
  JobWorker.settle c h (sys_world s') = (o, w'') -> w_db w'' = db s'.
Proof using All.
  intros HR HS [Hc Ht _] Hh Hrun. pose proof (reachable_inv _ _ HR) as I.
  pose proof (steps_inv _ _ _ HS I) as [I1 _ I3 _ _].
  destruct (steps_tokens _ _ _ HS I) as [_ HT].
  assert (Hh' : holder (je_id (ec_job c)) (ec_execution_token c) (db s') = None).
  { eapply holder_gone; [exact HT | apply (ok_jobs _ _ _ (inv_db _ _ I)) | done | done]. }
  destruct (wp_run_elim _ _ _ _ _ (settle_refines _ _ _ c I1 I3 h Hc) Hrun) as (_ & _ & HA).
  by apply (settle_fenced_db _ _ _ _ _ _ _ _ _ _ Hh' HA).
Qed.

(** An execution ends at most once: after a finalization that returned,
    the row no longer carries its token (so by fencing nothing it does later
    is written). *)
Theorem settled_execution_is_over c h w w' :
  db_ok (job_max_running_per_user settings) (w_next_uuid w) (w_db w) -> w_env w = [] ->
  claim_inv w c -> JobWorker.settle c h w = (Ok tt, w') ->
  holder (je_id (ec_job c)) (ec_execution_token c) (w_db w') = None.
Proof using NL.
  intros H He [Hc Ht Ha] Hrun.
  destruct (wp_run_elim _ _ _ _ _ (settle_refines _ _ _ c H He h Hc) Hrun) as (_ & _ & HT).
  by apply (settle_tx_over _ _ _ _ _ _ _ _ _ _ HT).
Qed.

(** At most one live execution per job: of all the executions under way, on
    any number of workers, the row of a job is held by at most one - the one
    whose token it carries. *)
Theorem one_live_execution s c1 c2 m1 m2 :
  reachable settings s -> (c1, m1) ∈ sys_claims s -> (c2, m2) ∈ sys_claims s ->
  je_id (ec_job c1) = je_id (ec_job c2) ->
  is_Some (holder (je_id (ec_job c1)) (ec_execution_token c1) (db s)) ->
  is_Some (holder (je_id (ec_job c2)) (ec_execution_token c2) (db s)) -> (c1, m1) = (c2, m2).
Proof using All.
  intros HR H1 H2 Hk [j1 Hj1] [j2 Hj2]. rewrite Hk in Hj1.
  apply holder_running in Hj1 as (Hj1 & _ & Ht1). apply holder_running in Hj2 as (Hj2 & _ & Ht2).
  apply (nodup_key_unique (ec_execution_token ∘ fst) (sys_claims s)); [|done | done | cbn; congruence].
  apply (inv_tokens _ _ (reachable_inv _ _ HR)).
Qed.


End safety.

(** ** The theorems on a run with a crash and a recovery *)

Lemma accepted_jobs_never_lost_witness :
  j_status (sample_job sample_world6) = QUEUED /\
  (has_pending_event 100 (w_db sample_world6) \/
   exists m, m ∈ w_broker sample_world6 /\ targets 100 m).
Proof.
  split; [vm_compute; reflexivity|].
  exact (accepted_jobs_never_lost sample_settings sample_sys6 100 (sample_job sample_world6)
    sample_reachable6 ltac:(vm_compute; reflexivity)).
Defined.

Lemma job_history_follows_policy_witness :
  exists j', db_jobs (w_db sample_world6) !! 100 = Some j' /\
    job_evolves (sample_job sample_world3) j' /\
    (is_terminal_status RUNNING = true -> j_status j' = RUNNING).
Proof.
  exact (job_history_follows_policy sample_settings sample_sys3 sample_sys6 100
    (sample_job sample_world3) sample_reachable3 sample_steps36 ltac:(vm_compute; reflexivity)).
Defined.

Lemma running_limit_respected_witness :
  running_count 1 (w_db sample_world3) = 1 /\ running_count 1 (w_db sample_world3) <= 3.
Proof.
  split; [vm_compute; reflexivity|].
  exact (running_limit_respected sample_settings sample_sys3 1 sample_reachable3).
Defined.

Lemma rows_well_formed_witness :
  j_status (sample_job sample_world3) = RUNNING /\ job_ok 100 (sample_job sample_world3).
Proof.
  split; [vm_compute; reflexivity|].
  exact (rows_well_formed sample_settings sample_sys3 100 _ sample_reachable3
    ltac:(vm_compute; reflexivity)).
Defined.

Lemma one_job_per_key_witness : 100 = 100.
Proof.
  exact (one_job_per_key sample_settings sample_sys3 100 100 (sample_job sample_world3)
    (sample_job sample_world3) sample_reachable3 ltac:(vm_compute; reflexivity)
    ltac:(vm_compute; reflexivity) eq_refl eq_refl).
Defined.

Lemma sample_claim_inv6 : claim_inv sample_world6 sample_claim.
Proof. by constructor; [split; cbn; lia | cbn; lia | vm_compute]. Qed.

(** The crashed worker comes back after the recovery and reports success. *)
Lemma stale_execution_never_writes_witness :
  w_db (snd (JobWorker.settle sample_claim (Ok tt) sample_world6)) = w_db sample_world6.
Proof.
  exact (stale_execution_never_writes sample_settings sample_sys6 sample_sys6 sample_claim (Ok tt)
    (fst (JobWorker.settle sample_claim (Ok tt) sample_world6)) _ sample_reachable6 (rtc_refl _ _)
    sample_claim_inv6 ltac:(vm_compute; reflexivity) (surjective_pairing _)).
Defined.

Lemma settled_execution_is_over_witness :
  j_status (sample_job (snd (JobWorker.settle sample_claim (Ok tt) sample_world3))) = COMPLETED /\
  holder 100 102 (w_db (snd (JobWorker.settle sample_claim (Ok tt) sample_world3))) = None.
Proof.
  split; [vm_compute; reflexivity|].
  refine (settled_execution_is_over sample_settings sample_claim (Ok tt) sample_world3 _ _ _ _ _).
  - exact (inv_db _ _ (reachable_inv _ _ sample_reachable3)).
  - reflexivity.
  - exact (inv_claims _ _ (reachable_inv _ _ sample_reachable3) sample_claim sample_message
      ltac:(left)).
  - vm_compute. reflexivity.
Defined.

Lemma one_live_execution_witness :
  is_Some (holder 100 102 (w_db sample_world3)) /\
  (sample_claim, sample_message) = (sample_claim, sample_message).
Proof.
  assert (Hh : is_Some (holder 100 102 (w_db sample_world3))) by (vm_compute; eauto).
  split; [exact Hh|].
  exact (one_live_execution sample_settings sample_sys3 sample_claim sample_claim sample_message
    sample_message sample_reachable3 ltac:(left) ltac:(left) eq_refl Hh Hh).
Defined.

