(* ===== verification/ServiceContracts.v ===== *)
(** * ServiceContracts: what the callers of [JobService] may rely on. *)
From S2P Require Import Prelude Exceptions Domain Store Effects Tables Text TextSpec Config JobRepo.
From S2P Require Import Repos PostCommit Invariants Steps JobService System ServiceSpec Samples.

Section creation.
Context `{DC : DispatchCodec} `{PG : PgDriver}.
Context `{RL : CreateJobRateLimiter} `{RLL : !RateLimiterLaws RL}.
Context `{JC : JobListCache} `{JCL : !JobListCacheLaws JC}.
Context `{N : WorkerPostCommitNotifier} `{NL : !NotifierLaws N}.
Context (settings : Settings) (limit : Z).

(** C15. Creation is idempotent and atomic whatever other requests commit in
    between: the database stays well formed (so one job per owner and key),
    existing jobs only evolve; a successful call returns the one job that has
    the caller's key, with the hash of this very request - a fresh pending job
    with a dispatch event when [created] is true, and then nobody had the key
    before; a failed call left the database as the others made it, or
    (acknowledgement of the COMMIT lost) inserted all three rows. *)
Theorem create_job_idempotent u key ty payload w o w' :
  db_ok limit (w_next_uuid w) (w_db w) -> env_ok limit w ->
  JobService.create_job settings u key ty payload w = (o, w') ->
  db_ok limit (w_next_uuid w') (w_db w') /\ evolves (w_db w) (w_db w') /\
  match o with
  | Ok r => create_result_ok u key ty payload (w_db w) (w_db w') r
  | Exc _ => exists d, interfered w d /\
      (w_db w' = d \/ exists lo j,
         inserted (cu_id u) key ty payload (_build_request_hash ty payload) lo (w_next_uuid w') d
           (w_db w') j)
  end.
Proof using All. apply create_job_outcome. Qed.

(** A repeated request: if the caller's key is taken, [create_job] returns
    the job stored under it when the request hashes agree and raises
    [IdempotencyConflictError] when they differ; in both cases nothing changes
    in the world - no reservation, no identifier, no row. *)
Theorem create_job_replay u key ty payload w k j :
  db_ok limit (w_next_uuid w) (w_db w) -> w_env w = [] ->
  db_jobs (w_db w) !! k = Some j -> j_owner_id j = cu_id u -> j_idempotency_key j = key ->
  JobService.create_job settings u key ty payload w =
  (if String.eqb (j_request_hash j) (_build_request_hash ty payload)
   then Ok (mkJobCreateResultDTO (public j) false)
   else Exc (app_err IdempotencyConflictError), w).
Proof using. apply create_job_taken. Qed.

(** The retry setting: with [JOB_MAX_RETRIES] other than 3 - which
    [Settings] accepts - no job can be created: every request with a new key
    raises and leaves the database as it was, because the table demands
    [max_retries = 3]. *)
Theorem other_retry_setting_breaks_creation u key ty payload w o w' :
  db_ok limit (w_next_uuid w) (w_db w) -> w_env w = [] ->
  job_max_retries settings <> 3 -> key_taken (cu_id u) key (w_db w) = false ->
  JobService.create_job settings u key ty payload w = (o, w') ->
  w_db w' = w_db w /\ exists e, o = Exc e.
Proof using All.
  intros H He Hm Ht Hrun.
  destruct (wp_run_elim _ _ _ _ _ (create_job_refines settings limit u key ty payload w H
    (env_ok_nil _ _ He)) Hrun) as (_ & d & lo & [_ Hd] & _ & _ & _ & HT).
  rewrite (Hd He) in HT. destruct HT as [k j Hk Ho Hkey Hh|k j Hk Ho Hkey Hh|j d' ?|e|j d' e ?];
    try done; try (split; [done | by eexists]).
  exfalso. assert (key_taken (cu_id u) key (w_db w) = true) by (apply key_taken_true; eauto).
  congruence.
Qed.

End creation.

(** The request hash identifies a request up to the order of the members
    of its JSON objects: equal requests of the same type have equal hashes,
    however their payloads are written; and every hash is 64 hexadecimal digits,
    the width of the [request_hash] column. *)
Theorem request_hash_canonical ty p1 p2 :
  slen (_build_request_hash ty p1) = 64 /\
  all_chars is_hex (_build_request_hash ty p1) = true /\
  (json_same p1 p2 -> _build_request_hash ty p1 = _build_request_hash ty p2).
Proof.
  unfold _build_request_hash. destruct (sha256_shape (dumps (JObj
    [("type", JStr (job_type_value ty)); ("payload", p1)]))) as [Hl Hc].
  split; [exact Hl|]. split; [exact Hc|]. apply request_hash_same.
Qed.

(** ** Reading and cancelling *)
Section access.
Context `{DC : DispatchCodec} `{JC : JobListCache} `{JCL : !JobListCacheLaws JC}.
Context `{N : WorkerPostCommitNotifier} `{NL : !NotifierLaws N}.
Context (limit : Z).

Definition not_found : exn := app_err_msg ResourceNotFoundError "Job not found".

(** C18. Cancelling, branch by branch ([cancel_tx]): a job the user may not
    see is reported as missing; a finished one is refused; a cancelled one, or
    a running one already asked to stop, is returned unchanged; a waiting one
    becomes CANCELLED with its lease cleared; a running one only gets
    [cancel_requested_at].  The job returned is the row as committed, and an
    error leaves all of it or nothing of it in the database. *)
Theorem cancel_job_contract u k n w o w' :
  db_ok limit n (w_db w) -> w_env w = [] -> JobService.cancel_job u k w = (o, w') ->
  cancel_tx u k (w_clock w (w_ticks w)) (w_db w) (w_db w') o /\
  w_broker w' = w_broker w /\
  (forall p, o = Ok p -> exists j, db_jobs (w_db w') !! k = Some j /\ p = public j /\ visible u j = true).
Proof using JCL NL.
  intros H He Hrun.
  destruct (wp_run_elim _ _ _ _ _ (cancel_job_refines limit u k n w H He) Hrun) as (Q1 & HT).
  split; [done|]. split; [apply Q1|]. intros p ->. remember (w_db w') as d' eqn:Hd. clear Hd.
  inversion HT as [| |j Hj Hv Hs|j at_ Hj Hv Hs|j at_ Hj Hv Hs Hc| |]; subst;
    eexists; (split; [first [exact Hj | cbn; apply lookup_insert_eq]|]); (split; [reflexivity|]); done.
Qed.

(** Reading a job: exactly the jobs the user may see (their own, or all
    for an administrator); any other identifier is reported as missing, and
    the world is not changed. *)
Theorem job_detail_access u k n w :
  db_ok limit n (w_db w) -> w_env w = [] ->
  JobService.get_job_detail u k w =
  (match db_jobs (w_db w) !! k with
   | Some j => if visible u j then Ok (public j) else Exc not_found
   | None => Exc not_found
   end, w).
Proof using.
  intros H He. apply wp_exactly.
  unfold JobService.get_job_detail, JobService._load_authorized_job. wp_run. no_env.
  apply (wp_load_authorized limit u k false _ n); [done|]. cbn [seen].
  destruct (db_jobs (w_db w) !! k) as [j|]; [destruct (visible u j)|]; by wp_run.
Qed.

(** Reading the log of a job: the same access rule; the entries are the
    rows of that job only, oldest first, at most 500 of them and all of them
    when there are no more than 500. *)
Theorem job_logs_access u k n w :
  db_ok limit n (w_db w) -> w_env w = [] ->
  exists o, JobService.list_job_logs u k w = (o, w) /\
  match db_jobs (w_db w) !! k with
  | Some j =>
      if visible u j then
        exists l, o = Ok (_to_job_log_entry_dto <$> l) /\
          StronglySorted (fun a b => log_order a b = true) l /\
          Z.of_nat (List.length l) <= 500 /\
          (forall x, x ∈ l -> l_job_id x = k /\ db_logs (w_db w) !! l_id x = Some x) /\
          (Z.of_nat (List.length (select_where (fun x => l_job_id x =? k) (db_logs (w_db w)))) <= 500 ->
           forall x, x ∈ l <-> l_job_id x = k /\ db_logs (w_db w) !! l_id x = Some x)
      else o = Exc not_found
  | None => o = Exc not_found
  end.
Proof using.
  intros H He.
  set (l := Store.limit 500 (order_by log_order
    (select_where (fun x => l_job_id x =? k) (db_logs (w_db w))))).
  exists (match db_jobs (w_db w) !! k with
    | Some j => if visible u j then Ok (_to_job_log_entry_dto <$> l) else Exc not_found
    | None => Exc not_found end). split.
  - apply wp_exactly. unfold JobService.list_job_logs, JobService._load_authorized_job. wp_run. no_env.
    apply (wp_load_authorized limit u k false _ n); [done|]. cbn [seen].
    destruct (db_jobs (w_db w) !! k) as [j|]; [destruct (visible u j)|]; wp_run; try done.
    no_env. autounfold with repo. by wp_run.
  - destruct (db_jobs (w_db w) !! k) as [j|]; [|done]. destruct (visible u j); [|done].
    exists l. split; [done|]. apply (log_page_spec limit n); done.
Qed.

End access.

(** ** The contracts on concrete requests *)

Definition sample_payload : json := JObj [("duration_seconds", JNum 1)].

(** Another request commits the same key while this one reserves its slot. *)
Definition rival_job : Job :=
  new_job 50 1 SLEEP sample_payload "key-1" (_build_request_hash SLEEP sample_payload) 5 5.

Definition rival (d : DB) : DB :=
  if bool_decide (db_jobs d !! 50 = None) && negb (key_taken 1 "key-1" d)
     && bool_decide (is_Some (db_users d !! 1)) && bool_decide (db_outbox d !! 51 = None)
  then created_db rival_job 51 5 5 5 d else d.

Definition with_rival (w : World) : World :=
  mkWorld (w_db w) (w_sessions w) (w_clock w) (w_ticks w) (w_next_uuid w) (w_commit_plan w)
    (w_publish_plan w) [id; rival] (w_locked w) (w_broker w) (w_redis w) (w_pubsub w).

Lemma rival_ok n d : 51 < n -> db_ok 3 n d -> db_ok 3 n (rival d) /\ evolves d (rival d).
Proof.
  intros Hn H. unfold rival. destruct (_ && _) eqn:E; [|done].
  rewrite !andb_true_iff, negb_true_iff, !bool_decide_eq_true in E.
  destruct E as [ [ [Hj Hk] Hu] He]. split; [|by apply (evolves_insert_job d rival_job)].
  apply (db_ok_add_event _ n); [|reflexivity | lia].
  apply db_ok_insert_log; [|cbn; by rewrite lookup_insert_eq; eexists].
  apply (db_ok_insert_job 3 n d rival_job); try done; cbn; [|lia].
  constructor; cbn; done || lia.
Qed.

Lemma with_rival_ok : env_ok 3 (with_rival sample_world).
Proof.
  apply Forall_cons_2; [|apply Forall_cons_2; [|by apply Forall_nil_2] ]; intros n d Hn H; [done|].
  apply rival_ok; [cbn in Hn; lia | done].
Qed.

Lemma create_job_idempotent_witness :
  let run := JobService.create_job sample_settings sample_current_user "key-1" SLEEP sample_payload
    (with_rival sample_world) in
  (exists r, fst run = Ok r /\ jc_created r = false /\ jp_id (jc_job r) = 50) /\
  db_ok 3 (w_next_uuid (snd run)) (w_db (snd run)).
Proof.
  split.
  - eexists. split; [vm_compute; reflexivity|]. split; reflexivity.
  - refine (proj1 (create_job_idempotent sample_settings 3 sample_current_user "key-1" SLEEP
      sample_payload (with_rival sample_world) _ _ _ _ (surjective_pairing _))).
    + exact sample_db_ok.
    + exact with_rival_ok.
Defined.

Lemma create_job_replay_witness :
  JobService.create_job sample_settings sample_current_user "key-1" FAILURE sample_payload sample_world1
  = (Exc (app_err IdempotencyConflictError), sample_world1).
Proof.
  refine (create_job_replay sample_settings 3 sample_current_user "key-1" FAILURE sample_payload
    sample_world1 100 (sample_job sample_world1) _ _ _ _ _).
  - exact (inv_db _ _ (reachable_inv _ _ sample_reachable1)).
  - reflexivity.
  - vm_compute. reflexivity.
  - reflexivity.
  - reflexivity.
Defined.

Definition retry_settings (n : Z) : Settings := mkSettings TEST "INFO" "db" "redis" "rabbit" "secret"
  30 3 n 60 1 50 5 50 30 10 60.

Lemma other_retry_setting_breaks_creation_witness :
  let w' := snd (JobService.create_job (retry_settings 5) sample_current_user "key-1" SLEEP
    sample_payload sample_world) in
  validate_settings (retry_settings 5) = Ok (retry_settings 5) /\
  w_db w' = w_db sample_world /\ exists e, fst (JobService.create_job (retry_settings 5)
    sample_current_user "key-1" SLEEP sample_payload sample_world) = Exc e.
Proof.
  split; [vm_compute; reflexivity|].
  refine (other_retry_setting_breaks_creation (retry_settings 5) 3 sample_current_user "key-1" SLEEP
    sample_payload sample_world _ _ _ _ _ _ (surjective_pairing _)).
  - exact sample_db_ok.
  - reflexivity.
  - discriminate.
  - vm_compute. reflexivity.
Defined.

Lemma cancel_job_contract_witness :
  let run := JobService.cancel_job sample_current_user 100 sample_world3 in
  (exists p, fst run = Ok p /\ jp_status p = RUNNING /\ jp_cancel_requested_at p <> None) /\
  cancel_tx sample_current_user 100 (w_clock sample_world3 (w_ticks sample_world3))
    (w_db sample_world3) (w_db (snd run)) (fst run).
Proof.
  split.
  - eexists. split; [vm_compute; reflexivity|]. split; [reflexivity | discriminate].
  - refine (proj1 (cancel_job_contract 3 sample_current_user 100 _ sample_world3 _ _ _ _
      (surjective_pairing _))).
    + exact (inv_db _ _ (reachable_inv _ _ sample_reachable3)).
    + reflexivity.
Defined.

Definition stranger : CurrentUserDTO := mkCurrentUserDTO 2 "eve@example.org" USER true.

Lemma job_detail_access_witness :
  JobService.get_job_detail stranger 100 sample_world3 = (Exc not_found, sample_world3).
Proof.
  refine (job_detail_access 3 stranger 100 _ sample_world3 _ _).
  - exact (inv_db _ _ (reachable_inv _ _ sample_reachable3)).
  - reflexivity.
Defined.

Lemma job_logs_access_witness :
  exists o, JobService.list_job_logs sample_current_user 100 sample_world3 = (o, sample_world3) /\
    exists l, o = Ok (_to_job_log_entry_dto <$> l) /\
      StronglySorted (fun a b => log_order a b = true) l.
Proof.
  destruct (job_logs_access 3 sample_current_user 100 _ sample_world3
    (inv_db _ _ (reachable_inv _ _ sample_reachable3)) eq_refl) as (o & Hrun & HT).
  exists o. split; [exact Hrun|]. destruct HT as (l & Hl & Hs & _). by exists l.
Defined.

(** Two spellings of one request. *)
Lemma request_hash_canonical_witness :
  _build_request_hash SLEEP (JObj [("duration_seconds", JNum 1); ("note", JStr "a")]) =
  _build_request_hash SLEEP (JObj [("note", JStr "a"); ("duration_seconds", JNum 1)]).
Proof.
  apply (request_hash_canonical SLEEP _ (JObj [("note", JStr "a"); ("duration_seconds", JNum 1)])).
  eapply same_obj; [|repeat constructor | apply Permutation_swap].
  apply NoDup_cons; split; [|apply NoDup_singleton]. by rewrite list_elem_of_singleton.
Defined.
