(* ===== verification/WorkerContracts.v ===== *)
(** * WorkerContracts: what the worker does with a delivery, from the queue to
    the end of the execution, and what the handlers and their helpers
    guarantee. *)
From S2P Require Import Prelude Exceptions Domain Store Effects Tables Config JobRepo Repos.
From S2P Require Import PostCommit Handlers Invariants Steps Worker WorkerSpec System Samples.

(** ** The handlers as functions of the payload *)

(** The message a failure job fails with. *)
Definition failure_message (payload : json) : string :=
  match payload with
  | JObj fields =>
      match json_get "message" fields with
      | Some (JStr m) => if String.eqb m "" then DEFAULT_FAILURE_MESSAGE else m
      | _ => DEFAULT_FAILURE_MESSAGE
      end
  | _ => DEFAULT_FAILURE_MESSAGE
  end.

(** What running a job of type [t] comes to when [cancel] answers the
    handler's question whether to stop. *)
Definition handler_outcome (t : JobType) (payload : json) (cancel : bool) : outcome unit :=
  match t with
  | SUCCESS => Ok tt
  | FAILURE => Exc (JobExecutionErr (failure_message payload))
  | SLEEP =>
      match subscript payload "duration_seconds" with
      | Exc e => Exc e
      | Ok duration =>
          match float_quarters duration with
          | Exc e => Exc e
          | Ok remaining =>
              if (0 <? remaining) && cancel
              then Exc (JobCancellationRequestedErr "Job cancellation requested") else Ok tt
          end
      end
  end.

(** The execution [c] is to stop: its row is gone or no longer its own, or its
    cancellation was requested. *)
Definition must_stop (c : ExecutionClaim) (d : DB) : bool :=
  match db_jobs d !! je_id (ec_job c) with
  | None => true
  | Some j =>
      negb (bool_decide (j_execution_token j = Some (ec_execution_token c)))
      || negb (bool_decide (j_cancel_requested_at j = None))
  end.

Section handlers.
Implicit Types (w : World).

Lemma cancellation_check limit n c w `{DispatchCodec} :
  db_ok limit n (w_db w) -> w_env w = [] ->
  JobWorker._is_cancellation_requested c w = (Ok (must_stop c (w_db w)), w).
Proof.
  intros Hd He. apply wp_exactly. unfold JobWorker._is_cancellation_requested, must_stop.
  autounfold with repo. wp_run. no_env. wp_run. rewrite (scalar_job limit n) by done.
  destruct (db_jobs (w_db w) !! je_id (ec_job c)) as [j|]; cbn [fmap option_fmap option_map];
    wp_run; [|done].
  destruct (bool_decide (j_execution_token j = _)); cbn [negb orb]; by wp_run.
Qed.

(** The sleep loop when the answer to its question does not change. *)
Lemma sleep_loop_constant (ask : M bool) b fuel remaining w :
  ask w = (Ok b, w) -> w_env w = [] -> remaining <= Z.of_nat fuel ->
  sleep_loop fuel remaining (Some ask) w =
  (if (0 <? remaining) && b then Exc (JobCancellationRequestedErr "Job cancellation requested")
   else Ok tt, w).
Proof.
  intros Ha He. revert remaining; induction fuel as [|fuel IH]; intros remaining Hf.
  - cbn. by rewrite (proj2 (Z.ltb_ge 0 remaining)) by lia.
  - cbn [sleep_loop]. destruct (Z.ltb_spec 0 remaining) as [Hr|Hr]; cbn [negb andb]; [|done].
    unfold mbind, M_bind at 1. rewrite Ha. destruct b; [done|].
    unfold asyncio_sleep, await_io, mret, M_ret, M_bind. rewrite (env_step_nil w He).
    rewrite IH by (unfold SLEEP_CHUNK_QUARTERS; lia). by rewrite andb_false_r.
Qed.

(** Every type of job has a handler, and it does what [handler_outcome] says. *)
Lemma run_handler t payload (ask : M bool) b w :
  ask w = (Ok b, w) -> w_env w = [] ->
  attempt (handler ← lift (registry_get build_job_handler_registry t);
           execute handler payload (Some ask)) w =
  (Ok (handler_outcome t payload b), w).
Proof.
  intros Ha He.
  destruct t; unfold attempt, mbind, M_bind, lift.
  - change (registry_get build_job_handler_registry SLEEP) with (Ok SleepJobHandler).
    cbn [execute SleepJobHandler]. unfold handler_outcome, mbind, M_bind, lift.
    destruct (subscript payload "duration_seconds") as [v|e]; [|done].
    destruct (float_quarters v) as [r|e]; [|done].
    rewrite (sleep_loop_constant ask b) by (done || lia). done.
  - change (registry_get build_job_handler_registry SUCCESS) with (Ok SuccessJobHandler). done.
  - change (registry_get build_job_handler_registry FAILURE) with (Ok FailureJobHandler).
    cbn [execute FailureJobHandler handler_outcome]. unfold failure_message.
    destruct payload as [| | | | | |fields]; try done.
    destruct (json_get "message" fields) as [ [| | | |m| |]|]; try done. by destruct (String.eqb m "").
Qed.

End handlers.

(** ** Deliveries *)

Section deliveries.
Context `{DC : DispatchCodec} `{N : WorkerPostCommitNotifier} `{NL : !NotifierLaws N}.
Context (settings : Settings) (worker_id : string) (limit : Z).

#[local] Abbreviation claims msg w n' d' r :=
  (claim_tx settings worker_id (dm_job_id msg) (w_clock w (w_ticks w)) (w_next_uuid w) (w_db w)
     n' d' r).

(** The transaction that ends the execution [c], whose handler came to [h], from
    the rows [d1] and with identifiers from [lo]. *)
Definition settled (c : ExecutionClaim) (h : outcome unit) (t : datetime) (lo : Z) (d1 : DB) (n : Z)
    (d' : DB) : Prop :=
  settle_tx (je_id (ec_job c)) (ec_execution_token c) (ec_attempt_number c)
    (verdict_of 4 (ec_attempt_number c) h) t lo d1 n d' tt.

(** What one delivery of the message [msg] does to the database. *)
Inductive handled (msg : DispatchOutboxMessage) (w : World) (n : Z) (d' : DB)
  : outcome Disposition -> Prop :=
| handled_ignored : claims msg w n d' None -> handled msg w n d' (Ok Acked)
| handled_run c d1 t lo :
    claims msg w lo d1 (Some c) ->
    settled c (handler_outcome (je_type (ec_job c)) (je_payload (ec_job c)) (must_stop c d1))
      t lo d1 n d' ->
    handled msg w n d' (Ok Acked)
| handled_not_claimed e : d' = w_db w -> handled msg w n d' (Exc e)
| handled_claim_unacknowledged r e : claims msg w n d' r -> handled msg w n d' (Exc e)
| handled_not_settled c lo e : claims msg w lo d' (Some c) -> lo <= n -> handled msg w n d' (Exc e)
| handled_settle_unacknowledged c d1 t lo e :
    claims msg w lo d1 (Some c) ->
    settled c (handler_outcome (je_type (ec_job c)) (je_payload (ec_job c)) (must_stop c d1))
      t lo d1 n d' ->
    handled msg w n d' (Exc e).

Lemma handle_message_refines msg body w :
  job_max_running_per_user settings <= limit ->
  db_ok limit (w_next_uuid w) (w_db w) -> w_env w = [] ->
  model_validate_json body = Some msg ->
  wp (JobWorker.handle_message build_job_handler_registry settings worker_id body)
    (fun o w' => quiet w w' /\ (w_commit_plan w = [] -> o = Ok Acked) /\
       handled msg w (w_next_uuid w') (w_db w') o) w.
Proof using NL.
  intros Hl H He Hm. unfold JobWorker.handle_message. rewrite Hm, wp_bind.
  eapply wp_mono; [|apply (claim_execution_refines settings worker_id limit (w_next_uuid w)); done].
  intros [ [c|]|e] w1 (Q1 & Hc1 & HT); cbn [atomic] in HT.
  2: { rewrite wp_ret. split; [done|]. split; [done|]. by constructor. }
  2: { split; [done|]. split; [intros Hp; by destruct (Hc1 Hp)|].
       destruct HT as [Hd|[r HT] ]; [by apply handled_not_claimed | by eapply handled_claim_unacknowledged]. }
  assert (He1 : w_env w1 = []) by (by apply (st_env _ _ (q_steady _ _ Q1))).
  assert (H0 : db_ok limit (w_next_uuid w + 1) (w_db w)) by (eapply db_ok_mono; [|done]; lia).
  assert (H1 : db_ok limit (w_next_uuid w1) (w_db w1)) by (by eapply claim_tx_ok).
  assert (Hok : claim_ok c).
  { inversion HT as [| | |j at_ Hn Hj Hs Ha Hr Hd]; subst.
    pose proof (ok_jobs _ _ _ H _ _ Hj) as Hjob. split; cbn; [apply Hjob|].
    pose proof (ok_queued _ _ Hjob Hs). pose proof (ok_attempts _ _ Hjob). lia. }
  unfold JobWorker._execute_claim. rewrite !wp_bind. unfold wp at 1.
  rewrite (run_handler _ _ _ _ _ (cancellation_check limit _ c w1 H1 He1) He1). cbn [fst snd].
  set (h := handler_outcome _ _ _).
  eapply wp_mono; [|apply (settle_refines limit _ w1 c H1 He1 h Hok)].
  rewrite (max_attempts_ok c Hok).
  intros [ []|e] w2 (Q2 & Hc2 & HT2); cbn [atomic] in HT2.
  - rewrite wp_ret. split; [by etrans|]. split; [done|]. by eapply handled_run.
  - split; [by etrans|]. split.
    + intros Hp. destruct Hc2 as [? ?]; [by apply (st_commits _ _ (q_steady _ _ Q1)) | done].
    + destruct HT2 as [-> |[ [] HT2] ]; [|by eapply handled_settle_unacknowledged].
      eapply handled_not_settled; [done | apply (st_uuid _ _ (q_steady _ _ Q2))].
Qed.

(** A message whose job is not queued. *)
Lemma claim_not_queued msg n w :
  db_ok limit n (w_db w) -> w_env w = [] ->
  (forall j, db_jobs (w_db w) !! dm_job_id msg = Some j -> j_status j <> QUEUED) ->
  JobWorker._claim_execution settings worker_id msg w = (Ok None, bump_uuid (tick w)).
Proof using.
  intros H He Hn. apply wp_exactly. unfold JobWorker._claim_execution. autounfold with repo.
  wp_run. no_env. wp_run. rewrite (scalar_job limit n) by done.
  destruct (db_jobs (w_db w) !! dm_job_id msg) as [j|] eqn:Hj;
    cbn [fmap option_fmap option_map]; wp_run; [|done].
  destruct (scalar_owner limit n _ _ j H Hj) as [u ->].
  wp_run. rewrite (scalar_job limit n), Hj by done. cbn [fmap option_fmap option_map]. wp_run.
  specialize (Hn j eq_refl). by destruct (j_status j); wp_run.
Qed.

(** C19. Claiming: a delivery for a queued job whose owner runs fewer jobs than
    allowed starts it under a fresh token; at the limit it leaves a dispatch
    event a few seconds ahead; any other delivery changes nothing
    ([claim_tx]).  The queue is not touched, and without a failing COMMIT
    claiming cannot fail. *)
Theorem claim_execution_contract msg n w o w' :
  db_ok limit n (w_db w) -> w_env w = [] ->
  JobWorker._claim_execution settings worker_id msg w = (o, w') ->
  w_broker w' = w_broker w /\
  atomic (w_db w) (fun d' r => claims msg w (w_next_uuid w') d' r) o (w_db w') /\
  (w_commit_plan w = [] -> exists r, o = Ok r).
Proof using NL.
  intros H He Hrun. destruct (wp_run_elim _ _ _ _ _ (claim_execution_refines settings worker_id
    limit n w msg H He) Hrun) as (Q & Hc & HT). by split; [apply Q|].
Qed.

(** C20. Ending an execution, whatever its handler came to: completed, cancelled,
    failed for good (no handler, or the last of four attempts), or queued again
    with a dispatch event 5, 15 or 30 seconds ahead; all of it in one
    transaction, and nothing at all when the token was lost ([settle_tx]). *)
Theorem settle_contract c h w o w' :
  db_ok limit (w_next_uuid w) (w_db w) -> w_env w = [] -> claim_ok c ->
  JobWorker.settle c h w = (o, w') ->
  w_broker w' = w_broker w /\
  atomic (w_db w) (settle_tx (je_id (ec_job c)) (ec_execution_token c) (ec_attempt_number c)
    (verdict_of 4 (ec_attempt_number c) h) (w_clock w (w_ticks w)) (w_next_uuid w) (w_db w)
    (w_next_uuid w')) o (w_db w') /\
  (w_commit_plan w = [] -> o = Ok tt).
Proof using NL.
  intros H He Hc Hrun. destruct (wp_run_elim _ _ _ _ _ (settle_refines limit _ w c H He h Hc) Hrun)
    as (Q & Hok & HT). rewrite (max_attempts_ok c Hc) in HT.
  split; [apply Q|]. split; [done|]. intros Hp. by destruct (Hok Hp) as [ [] ->].
Qed.

(** C21. A delivery from end to end: an unreadable message is rejected to the
    dead-letter queue and changes nothing; a readable one is acknowledged only
    after its job was claimed, run by the handler of its type and settled, or
    found not to be runnable; after a failed COMMIT it stays unacknowledged,
    with the claim or the settlement done in full or not at all ([handled]). *)
Theorem handle_message_contract body w o w' :
  job_max_running_per_user settings <= limit ->
  db_ok limit (w_next_uuid w) (w_db w) -> w_env w = [] ->
  JobWorker.handle_message build_job_handler_registry settings worker_id body w = (o, w') ->
  match model_validate_json body with
  | None => o = Ok RejectedWithoutRequeue /\ w' = w
  | Some msg =>
      w_broker w' = w_broker w /\ (w_commit_plan w = [] -> o = Ok Acked) /\
      handled msg w (w_next_uuid w') (w_db w') o
  end.
Proof using NL.
  intros Hl H He Hrun. destruct (model_validate_json body) as [msg|] eqn:Hm.
  - destruct (wp_run_elim _ _ _ _ _ (handle_message_refines msg body w Hl H He Hm) Hrun) as (Q & HT).
    split; [apply Q | exact HT].
  - unfold JobWorker.handle_message in Hrun. rewrite Hm in Hrun. by injection Hrun as <- <-.
Qed.

(** Redelivery is harmless: a message whose job is pending, running, over
    or unknown is acknowledged at once, and neither the database nor the queue
    nor any other service sees anything of it. *)
Theorem duplicate_delivery_ignored registry msg body n w :
  db_ok limit n (w_db w) -> w_env w = [] -> model_validate_json body = Some msg ->
  (forall j, db_jobs (w_db w) !! dm_job_id msg = Some j -> j_status j <> QUEUED) ->
  JobWorker.handle_message registry settings worker_id body w = (Ok Acked, bump_uuid (tick w)).
Proof using.
  intros H He Hm Hn. unfold JobWorker.handle_message. rewrite Hm. unfold mbind, M_bind.
  by rewrite (claim_not_queued msg n).
Qed.

(** The question a handler asks between two chunks of work is answered
    with yes exactly when the row of the execution is gone, carries another
    token, or has its cancellation requested; asking changes nothing. *)
Theorem cancellation_check_contract c n w :
  db_ok limit n (w_db w) -> w_env w = [] ->
  exists b, JobWorker._is_cancellation_requested c w = (Ok b, w) /\
    (b = false <-> exists j, db_jobs (w_db w) !! je_id (ec_job c) = Some j /\
       j_execution_token j = Some (ec_execution_token c) /\ j_cancel_requested_at j = None).
Proof using.
  intros H He. exists (must_stop c (w_db w)). split; [by eapply cancellation_check|].
  unfold must_stop. destruct (db_jobs (w_db w) !! _) as [j|]; [|split; [done | by intros (? & ? & _)]].
  rewrite orb_false_iff, !negb_false_iff, !bool_decide_eq_true.
  split; [intros []; by exists j | by intros (j' & [= <-] & ? & ?)].
Qed.

End deliveries.

(** ** Handlers and helpers *)

(** The registry the worker is started with has a handler for every job
    type, stored under the value of that type, and looking one up cannot fail;
    any other registry raises [MissingJobHandlerError] for what it lacks. *)
Theorem registry_contract registry t :
  (exists h, registry_get build_job_handler_registry t = Ok h /\ job_type h = job_type_value t) /\
  match registry !! job_type_value t with
  | Some h => registry_get registry t = Ok h
  | None => exists m, registry_get registry t = Exc (MissingJobHandlerErr m)
  end.
Proof.
  split.
  - destruct t; eexists; (split; [vm_compute; reflexivity | reflexivity]).
  - unfold registry_get. destruct (registry !! job_type_value t); eauto.
Qed.

Lemma sleep_loop_asks (ask : M bool) k fuel remaining w o w' :
  remaining <= Z.of_nat fuel ->
  (forall i, (i < k)%nat -> ask (Nat.iter i env_step w) = (Ok false, Nat.iter i env_step w)) ->
  Z.of_nat k < remaining -> ask (Nat.iter k env_step w) = (o, w') -> o <> Ok false ->
  sleep_loop fuel remaining (Some ask) w =
  (match o with
   | Ok _ => Exc (JobCancellationRequestedErr "Job cancellation requested")
   | Exc e => Exc e end, w').
Proof.
  revert fuel remaining w. induction k as [|k IH]; intros fuel remaining w Hf Hno Hk Ha Ho;
    (destruct fuel as [|fuel]; [lia|]); cbn [sleep_loop];
    rewrite (proj2 (Z.ltb_lt 0 remaining)) by lia; cbn [negb]; unfold mbind, M_bind at 1.
  - cbn in Ha. rewrite Ha. by destruct o as [ [] |e].
  - pose proof (Hno 0%nat ltac:(lia)) as H0. cbn in H0. rewrite H0.
    unfold asyncio_sleep, await_io, mret, M_ret, M_bind.
    apply IH; [unfold SLEEP_CHUNK_QUARTERS; lia | | unfold SLEEP_CHUNK_QUARTERS; lia | | done].
    + intros i Hi. rewrite <- !Nat.iter_succ_r. apply Hno. lia.
    + by rewrite <- Nat.iter_succ_r.
Qed.

Lemma sleep_loop_never (ask : M bool) k fuel w :
  (k <= fuel)%nat ->
  (forall i, (i < k)%nat -> ask (Nat.iter i env_step w) = (Ok false, Nat.iter i env_step w)) ->
  sleep_loop fuel (Z.of_nat k) (Some ask) w = (Ok tt, Nat.iter k env_step w).
Proof.
  revert fuel w. induction k as [|k IH]; intros fuel w Hf Hno; [by destruct fuel|].
  destruct fuel as [|fuel]; [lia|]. cbn [sleep_loop].
  rewrite (proj2 (Z.ltb_lt 0 _)) by lia. cbn [negb]. unfold mbind, M_bind at 1.
  pose proof (Hno 0%nat ltac:(lia)) as H0. cbn in H0. rewrite H0.
  unfold asyncio_sleep, await_io, mret, M_ret, M_bind. rewrite Nat.iter_succ_r.
  replace (Z.of_nat (S k) - _) with (Z.of_nat k) by (unfold SLEEP_CHUNK_QUARTERS; lia).
  apply IH; [lia|]. intros i Hi. rewrite <- !Nat.iter_succ_r. apply Hno. lia.
Qed.

(** A sleep job of [n] seconds waits exactly 4 n quarters of a second and
    ends normally when it is never asked to stop; when it is asked before the
    quarter number [k], it stops there with [JobCancellationRequestedError],
    having waited only [k] quarters (other processes run in each of them). *)
Theorem sleep_job_contract payload n (ask : M bool) k w w' :
  subscript payload "duration_seconds" = Ok (JNum (Z.of_nat n)) ->
  (k <= 4 * n)%nat ->
  (forall i, (i < k)%nat -> ask (Nat.iter i env_step w) = (Ok false, Nat.iter i env_step w)) ->
  (k < 4 * n -> ask (Nat.iter k env_step w) = (Ok true, w'))%nat ->
  execute SleepJobHandler payload (Some ask) w =
  (if decide (k = 4 * n)%nat then (Ok tt, Nat.iter k env_step w)
   else (Exc (JobCancellationRequestedErr "Job cancellation requested"), w')).
Proof.
  intros Hp Hk Hno Hyes. cbn [execute SleepJobHandler]. rewrite Hp. unfold mbind, M_bind, lift.
  cbn [float_quarters]. case_decide as Hd.
  - replace (4 * Z.of_nat n) with (Z.of_nat k) by lia. by apply sleep_loop_never; [lia|].
  - apply (sleep_loop_asks ask k _ _ w (Ok true)); [lia | done | lia | apply Hyes; lia | done].
Qed.

(** The delay before a retry is defined for the attempts that can be
    retried, and grows with them: 5, 15 and 30 seconds; the dict has no other
    key. *)
Theorem retry_backoff_contract attempt :
  (1 <= attempt <= 3 ->
    JobWorker._retry_backoff_seconds attempt = Ok (retry_delay_after attempt) /\
    5 <= retry_delay_after attempt <= 30) /\
  (attempt < 1 \/ 3 < attempt -> exists key, JobWorker._retry_backoff_seconds attempt = Exc (KeyErr key)).
Proof.
  split.
  - intros H. split; [by apply backoff_total|]. unfold retry_delay_after. repeat case_match; lia.
  - intros H. unfold JobWorker._retry_backoff_seconds. eexists.
    replace (list_find _ _) with (@None (nat * (Z * Z))); [done|]. symmetry. apply list_find_None.
    repeat constructor; cbn; lia.
Qed.

(** Error texts are stored whole up to 1000 characters; longer ones keep
    their first 997 characters followed by three dots, so the stored text is
    never longer than 1000. *)
Theorem truncate_error_contract error :
  slen (JobWorker._truncate_error error) <= 1000 /\
  (slen error <= 1000 -> JobWorker._truncate_error error = error) /\
  (1000 < slen error -> exists prefix, JobWorker._truncate_error error = prefix +:+ "..." /\
     slen prefix = 997 /\ String.prefix prefix error = true).
Proof.
  unfold JobWorker._truncate_error, MAX_JOB_ERROR_LENGTH.
  destruct (Z.leb_spec (slen error) 1000) as [Hs|Hs].
  - split; [done|]. split; [done | lia].
  - assert (Hl : slen (slice_to error (1000 - 3)) = 997) by (rewrite slen_slice_to; lia).
    rewrite slen_app, Hl. change (slen "...") with 3. split; [lia|]. split; [lia|]. intros _.
    exists (slice_to error (1000 - 3)). split; [done|]. split; [done|]. apply prefix_substring0.
Qed.

(** ** The contracts on concrete deliveries *)

Definition sample_ok2 : db_ok 3 (w_next_uuid sample_world2) (w_db sample_world2) :=
  inv_db _ _ (reachable_inv _ _ sample_reachable2).
Definition sample_ok3 : db_ok 3 (w_next_uuid sample_world3) (w_db sample_world3) :=
  inv_db _ _ (reachable_inv _ _ sample_reachable3).

Lemma claim_execution_contract_witness :
  let run := JobWorker._claim_execution sample_settings "worker-1" sample_dispatch sample_world2 in
  fst run = Ok (Some sample_claim) /\
  atomic (w_db sample_world2) (fun d' r => claim_tx sample_settings "worker-1" 100
    (w_clock sample_world2 (w_ticks sample_world2)) (w_next_uuid sample_world2) (w_db sample_world2)
    (w_next_uuid (snd run)) d' r) (fst run) (w_db (snd run)).
Proof.
  split; [vm_compute; reflexivity|].
  refine (proj1 (proj2 (claim_execution_contract sample_settings "worker-1" 3 sample_dispatch _
    sample_world2 _ _ sample_ok2 _ (surjective_pairing _)))). reflexivity.
Defined.

(** The first attempt fails: the job waits for its retry. *)
Lemma settle_contract_witness :
  let run := JobWorker.settle sample_claim (Exc (JobExecutionErr "boom")) sample_world3 in
  fst run = Ok tt /\ j_status (sample_job (snd run)) = QUEUED /\
  w_broker (snd run) = w_broker sample_world3.
Proof.
  split; [vm_compute; reflexivity|]. split; [vm_compute; reflexivity|].
  refine (proj1 (settle_contract 3 sample_claim (Exc (JobExecutionErr "boom")) sample_world3 _ _
    sample_ok3 _ _ (surjective_pairing _))); [reflexivity | by split; cbn; lia].
Defined.

Lemma handle_message_contract_witness :
  let run := JobWorker.handle_message build_job_handler_registry sample_settings "worker-1"
    (model_dump_json sample_dispatch) sample_world2 in
  j_status (sample_job (snd run)) = COMPLETED /\ fst run = Ok Acked /\
  handled sample_settings "worker-1" sample_dispatch sample_world2 (w_next_uuid (snd run))
    (w_db (snd run)) (fst run).
Proof.
  intros run. split; [vm_compute; reflexivity|].
  pose proof (handle_message_contract sample_settings "worker-1" 3 (model_dump_json sample_dispatch)
    sample_world2 (fst run) (snd run) (Z.le_refl 3) sample_ok2 eq_refl (surjective_pairing run)) as HT.
  rewrite (model_validate_dump_json sample_dispatch) in HT. destruct HT as (_ & Ha & Hh).
  split; [exact (Ha eq_refl) | exact Hh].
Defined.

(** The job is already running: the second delivery is dropped. *)
Lemma sample_running3 :
  forall j, db_jobs (w_db sample_world3) !! dm_job_id sample_dispatch = Some j -> j_status j <> QUEUED.
Proof.
  intros j Hj.
  assert (Hs : (j_status <$> db_jobs (w_db sample_world3) !! dm_job_id sample_dispatch) = Some RUNNING)
    by (vm_compute; reflexivity).
  rewrite Hj in Hs. injection Hs as ->. discriminate.
Qed.

Lemma duplicate_delivery_ignored_witness :
  JobWorker.handle_message build_job_handler_registry sample_settings "worker-2"
    (model_dump_json sample_dispatch) sample_world3 = (Ok Acked, bump_uuid (tick sample_world3)).
Proof.
  exact (duplicate_delivery_ignored sample_settings "worker-2" 3 build_job_handler_registry
    sample_dispatch _ _ sample_world3 sample_ok3 eq_refl
    (model_validate_dump_json sample_dispatch) sample_running3).
Defined.

Lemma cancellation_check_contract_witness :
  exists b, JobWorker._is_cancellation_requested sample_claim sample_world3 = (Ok b, sample_world3) /\
    (b = false <-> exists j, db_jobs (w_db sample_world3) !! 100 = Some j /\
       j_execution_token j = Some 102 /\ j_cancel_requested_at j = None).
Proof.
  exact (cancellation_check_contract 3 sample_claim _ sample_world3 sample_ok3 eq_refl).
Defined.

(** A cancellation that arrives in the third quarter of the first second. *)
Definition ask_when_last : M bool := fun w => (Ok (Nat.eqb (List.length (w_env w)) 1), w).
Definition three_rounds : World :=
  mkWorld sample_db [] (fun _ => 0) 0 100 [] [] [id; id; id] ∅ [] ∅ [].

Lemma sleep_job_contract_witness :
  execute SleepJobHandler (JObj [("duration_seconds", JNum 1)]) (Some ask_when_last) three_rounds =
  (Exc (JobCancellationRequestedErr "Job cancellation requested"), Nat.iter 2 env_step three_rounds).
Proof.
  refine (sleep_job_contract (JObj [("duration_seconds", JNum 1)]) 1 ask_when_last 2 three_rounds
    (Nat.iter 2 env_step three_rounds) eq_refl ltac:(lia) _ (fun _ => eq_refl)).
  intros i Hi. destruct i as [|[|i] ]; [reflexivity | reflexivity | lia].
Defined.

Lemma retry_backoff_contract_witness :
  JobWorker._retry_backoff_seconds 2 = Ok 15 /\
  exists key, JobWorker._retry_backoff_seconds 4 = Exc (KeyErr key).
Proof.
  split; [exact (proj1 (proj1 (retry_backoff_contract 2) ltac:(lia)))
    | exact (proj2 (retry_backoff_contract 4) ltac:(lia))].
Defined.

Lemma truncate_error_contract_witness : JobWorker._truncate_error "boom" = "boom".
Proof. apply (truncate_error_contract "boom"). vm_compute. discriminate. Defined.
