(* ===== verification/DeliveryContracts.v ===== *)
(** * DeliveryContracts: the outbox publisher, the recovery of stale jobs, the
    RabbitMQ topology and connection, and the post-commit notifiers. *)
From S2P Require Import Prelude Exceptions Domain Store Effects Tables Config JobRepo Repos.
From S2P Require Import PostCommit Invariants Steps Rabbit Publisher Recovery PublisherSpec.
From S2P Require Import RecoverySpec System Samples.

(** ** Batches: ORDER BY ... LIMIT on a selection *)
Section batches.
Context {R : Type} (le : R -> R -> bool).
Hypothesis le_total : forall a b, le a b = true \/ le b a = true.
Hypothesis le_trans : forall a b c, le a b = true -> le b c = true -> le a c = true.

(** The batch [l] of at most [n] rows of [t] that satisfy [p], the first ones in
    the order [le]. *)
Record batch_of (n : Z) (p : R -> bool) (t : gmap Z R) (l : list R) : Prop := mkBatch {
  bt_sorted : StronglySorted (sorted_by le) l;
  bt_length : Z.of_nat (List.length l) <= n;
  bt_rows : forall r, r ∈ l -> p r = true /\ exists k, t !! k = Some r;
  bt_first : forall r k x, t !! k = Some r -> p r = true -> r ∉ l -> x ∈ l -> le x r = true;
  bt_full : forall r k, t !! k = Some r -> p r = true -> r ∉ l -> Z.of_nat (List.length l) = n
}.

Lemma select_batch n p t :
  0 <= n -> batch_of n p t (limit n (order_by le (select_where p t))).
Proof using le_total le_trans.
  intros Hn. set (l := order_by le (select_where p t)).
  assert (Hs : StronglySorted (sorted_by le) l) by (by apply order_by_sorted).
  assert (Hl : forall r, r ∈ l <-> p r = true /\ exists k, t !! k = Some r)
    by (intros r; unfold l; rewrite (order_by_perm le); apply elem_of_select).
  assert (Hsplit : l = limit n l ++ drop (Z.to_nat n) l) by (symmetry; apply take_drop).
  assert (Hrest : forall r k, t !! k = Some r -> p r = true -> r ∉ limit n l -> r ∈ drop (Z.to_nat n) l).
  { intros r k Hk Hp Hr. assert (Hin : r ∈ l) by (apply Hl; eauto).
    rewrite Hsplit in Hin. by apply elem_of_app in Hin as [?|?]. }
  constructor.
  - by apply limit_sorted.
  - by apply length_limit.
  - intros r Hr. apply Hl. by eapply elem_of_limit.
  - intros r k x Hk Hp Hr Hx. specialize (Hrest r k Hk Hp Hr). rewrite Hsplit in Hs.
    change (sorted_by le x r). by eapply StronglySorted_app_1_elem_of.
  - intros r k Hk Hp Hr. specialize (Hrest r k Hk Hp Hr).
    unfold limit. rewrite length_take. apply list_elem_of_lookup in Hrest as [i Hi].
    apply lookup_lt_Some in Hi. rewrite length_drop in Hi. lia.
Qed.
End batches.

Lemma due_order_total a b : due_order a b = true \/ due_order b a = true.
Proof. unfold due_order. rewrite !orb_true_iff, !andb_true_iff, !Z.ltb_lt, !Z.eqb_eq, !Z.leb_le. lia. Qed.

Lemma due_order_trans a b c : due_order a b = true -> due_order b c = true -> due_order a c = true.
Proof. unfold due_order. rewrite !orb_true_iff, !andb_true_iff, !Z.ltb_lt, !Z.eqb_eq, !Z.leb_le. lia. Qed.

Lemma oldest_lease_total a b : oldest_lease_first a b = true \/ oldest_lease_first b a = true.
Proof.
  unfold oldest_lease_first.
  rewrite !orb_true_iff, !andb_true_iff, !orb_true_iff, !andb_true_iff, !Z.ltb_lt, !Z.eqb_eq, !Z.leb_le. lia.
Qed.

Lemma oldest_lease_trans a b c :
  oldest_lease_first a b = true -> oldest_lease_first b c = true -> oldest_lease_first a c = true.
Proof.
  unfold oldest_lease_first.
  rewrite !orb_true_iff, !andb_true_iff, !orb_true_iff, !andb_true_iff, !Z.ltb_lt, !Z.eqb_eq, !Z.leb_le. lia.
Qed.

(** ** The outbox publisher *)
Section outbox.
Context `{DC : DispatchCodec} (limit : Z).

(** C22. Handling one outbox event ([publish_tx]): an event published or locked
    meanwhile is skipped; one whose job is gone or no longer waiting is
    discarded; otherwise the job is marked as queued, the message goes to the
    queue and the event is marked as published in one transaction.  A failed
    publication leaves the job as it was and puts the event off; the only way
    to send a message without recording it is to lose the COMMIT afterwards, and
    then the event stays pending.  Without faults the message is sent. *)
Theorem publish_event_contract i n w o w' :
  db_ok limit n (w_db w) -> w_env w = [] ->
  OutboxPublisher._process_claimed_event_once i w = (o, w') ->
  publish_tx i (w_locked w) (w_db w) (w_broker w) (w_db w') (w_broker w') o /\
  (forall e j m, dispatches i e j m (w_db w) -> i ∉ w_locked w ->
     w_commit_plan w = [] -> w_publish_plan w = [] ->
     o = Ok true /\ w_broker w' = w_broker w ++ [dispatch_message e m] /\
     exists t t', w_db w' = event_done i e t' (queued_row j t (w_db w))).
Proof using.
  intros H He Hrun. split.
  - by destruct (wp_run_elim _ _ _ _ _ (process_event_refines limit i n w H He) Hrun).
  - intros e j m D Hl Hc Hp.
    by destruct (wp_run_elim _ _ _ _ _ (process_event_sends limit i e j m n w H He D Hl Hc Hp) Hrun).
Qed.

(** The events [claim_due_batch] may take at time [t]. *)
Definition takeable (t : datetime) (locked : gset uuid) (e : OutboxEvent) : bool :=
  unpublished e && (e_available_at e <=? t) && bool_decide (e_id e ∉ locked).

Lemma process_claimed_count ids w n w' :
  OutboxPublisher.process_claimed ids w = (Ok n, w') -> 0 <= n <= Z.of_nat (List.length ids).
Proof using.
  revert w n w'. induction ids as [|i ids IH]; intros w n w'; cbn [OutboxPublisher.process_claimed].
  - intros [= <- _]. cbn. lia.
  - unfold mbind, M_bind. destruct (OutboxPublisher._process_claimed_event_once i w) as [ [b|e] w1]; [|done].
    destruct (OutboxPublisher.process_claimed ids w1) as [ [m|e] w2] eqn:E; [|done].
    intros [= <- _]. specialize (IH _ _ _ E). destruct b; cbn [List.length]; lia.
Qed.

(** C23. One round of the publisher takes the unpublished events that are due,
    oldest first and at most [outbox_batch_size] of them, passing over none
    that is due earlier than one it takes, and handles them one by one in that
    order; the count it returns is at most the number it took. *)
Theorem publish_round_contract settings w :
  fields_in_range settings = true -> w_env w = [] ->
  exists l, batch_of due_order (outbox_batch_size settings)
      (takeable (w_clock w (w_ticks w)) (w_locked w)) (db_outbox (w_db w)) l /\
    OutboxPublisher.publish_due_batch_once settings w =
      OutboxPublisher.process_claimed (e_id <$> l) (tick w) /\
    forall n w', OutboxPublisher.publish_due_batch_once settings w = (Ok n, w') ->
      0 <= n <= Z.of_nat (List.length l).
Proof using.
  intros Hs He. pose proof (proj1 (fields_in_range_batches _ Hs)) as Hb.
  set (l := Store.limit (outbox_batch_size settings) (order_by due_order
    (select_where (takeable (w_clock w (w_ticks w)) (w_locked w)) (db_outbox (w_db w))))).
  assert (Heq : OutboxPublisher.publish_due_batch_once settings w =
    OutboxPublisher.process_claimed (e_id <$> l) (tick w)).
  { assert (Hq : with_uow (
        claimed_events ← SqlAlchemyOutboxRepository.claim_due_batch (w_clock w (w_ticks w))
          (outbox_batch_size settings);
        mret (e_id <$> claimed_events)) (tick w) = (Ok (e_id <$> l), tick w)).
    { apply wp_exactly. autounfold with repo. wp_run. no_env. by wp_run. }
    unfold OutboxPublisher.publish_due_batch_once. unfold mbind at 1 2, M_bind at 1 2, now.
    by rewrite Hq. }
  exists l. split; [|split; [done|] ].
  - apply select_batch; [apply due_order_total | apply due_order_trans | lia].
  - intros n w' Hrun. rewrite Heq in Hrun. apply process_claimed_count in Hrun.
    by rewrite length_fmap in Hrun.
Qed.

End outbox.

(** The delay before the next attempt to publish an event: 1 second after
    the first failure, doubled after each further one, never more than 300
    seconds, and never shorter than after an earlier failure. *)
Theorem publish_backoff_contract n m :
  1 <= OutboxPublisher._compute_retry_delay_seconds n <= 300 /\
  (n <= m -> OutboxPublisher._compute_retry_delay_seconds n <= OutboxPublisher._compute_retry_delay_seconds m) /\
  (1 <= n <= 9 -> OutboxPublisher._compute_retry_delay_seconds n = 2 ^ (n - 1)) /\
  (10 <= n -> OutboxPublisher._compute_retry_delay_seconds n = 300).
Proof.
  unfold OutboxPublisher._compute_retry_delay_seconds, MAX_OUTBOX_BACKOFF_SECONDS.
  assert (Hmono : forall a b, 0 <= a <= b -> 2 ^ a <= 2 ^ b) by (intros; apply Z.pow_le_mono_r; lia).
  pose proof (Hmono 0 (Z.max (n - 1) 0) ltac:(lia)) as H0. rewrite Z.pow_0_r in H0.
  split; [lia|]. split; [|split].
  - intros Hnm. pose proof (Hmono (Z.max (n - 1) 0) (Z.max (m - 1) 0) ltac:(lia)). lia.
  - intros Hn. rewrite Z.max_l by lia. pose proof (Hmono (n - 1) 8 ltac:(lia)) as H8.
    change (2 ^ 8) with 256 in H8. lia.
  - intros Hn. pose proof (Hmono 9 (Z.max (n - 1) 0) ltac:(lia)) as H9.
    change (2 ^ 9) with 512 in H9. lia.
Qed.

(** ** The recovery of stale jobs *)
Section recovery.
Context `{DC : DispatchCodec} `{N : WorkerPostCommitNotifier} `{NL : !NotifierLaws N} (limit : Z).

(** The jobs whose lease ran out before [t] and that nobody has locked. *)
Definition abandoned (t : datetime) (locked : gset uuid) (j : Job) : bool :=
  lease_expired t j && bool_decide (j_id j ∉ locked).

(** The batch [l] was recovered at time [t]. *)
Record recovered (t : datetime) (l : list Job) (d d' : DB) : Prop := mkRecovered {
  rc_rows : forall j, j ∈ l -> db_jobs d' !! j_id j = Some (recovered_row t j);
  rc_others : forall k, k ∉ j_id <$> l -> db_jobs d' !! k = db_jobs d !! k;
  rc_events : forall j, j ∈ l -> j_attempt_count j < 4 -> has_pending_event (j_id j) d'
}.

(** C24. One round of the recovery takes the running jobs whose lease expired,
    longest expired first and at most [recovery_batch_size] of them, and in one
    transaction queues each again - with its lease cleared and a dispatch event
    pending - or, after four attempts, fails it; every other row stays as it
    is.  It returns how many it recovered. *)
Theorem recovery_round_contract settings w o w' :
  fields_in_range settings = true ->
  db_ok limit (w_next_uuid w) (w_db w) -> w_env w = [] ->
  StaleRunningRecovery.recover_due_batch_once settings w = (o, w') ->
  let t := w_clock w (w_ticks w) in
  w_broker w' = w_broker w /\
  exists l, batch_of oldest_lease_first (recovery_batch_size settings) (abandoned t (w_locked w))
      (db_jobs (w_db w)) l /\
    atomic (w_db w) (fun d' n => n = Z.of_nat (List.length l) /\ recovered t l (w_db w) d') o (w_db w').
Proof using NL.
  intros Hs H He Hrun t. pose proof (proj2 (fields_in_range_batches _ Hs)) as Hb.
  destruct (wp_run_elim _ _ _ _ _ (recover_due_batch_refines limit settings w H He) Hrun)
    as (Q & _ & HT). fold t in HT. set (l := due settings t (w_locked w) (w_db w)) in HT.
  split; [apply Q|]. exists l.
  pose proof (due_stale limit _ settings t (w_locked w) _ H) as Hst. fold l in Hst.
  assert (HR : forall d', recover_batch t l (w_next_uuid w) (w_db w) (w_next_uuid w') d' ->
    recovered t l (w_db w) d').
  { intros d' HB. constructor.
    - intros j Hj. by eapply recover_batch_recovered.
    - intros k Hk. by eapply recover_batch_rows.
    - intros j Hj Ha. by eapply recover_batch_events. }
  split; [apply select_batch; [apply oldest_lease_total | apply oldest_lease_trans | lia] |].
  destruct o as [n|e]; cbn [atomic] in *.
  - destruct HT as [-> HB]. auto.
  - destruct HT as [?|(n & -> & HB)]; [by left | right; eauto].
Qed.

End recovery.

(** ** RabbitMQ *)

Ltac names_tac :=
  unfold declare_topology, execute_queue_arguments, JOBS_DIRECT_EXCHANGE_NAME,
    JOBS_EXECUTE_QUEUE_NAME, JOBS_EXECUTE_ROUTING_KEY, JOBS_DLX_EXCHANGE_NAME,
    JOBS_DEAD_QUEUE_NAME, JOBS_DEAD_ROUTING_KEY;
  rewrite ?elem_of_cons, ?elem_of_nil; intuition (congruence || discriminate).

(** The topology [RabbitMQTopology.declare] sets up: a dispatch message
    published to the jobs exchange is delivered to the execution queue and to no
    other, a message rejected there goes to the dead-letter queue and to no
    other; messages, queues and exchanges survive a restart of the broker; and
    every binding names an exchange and a queue declared before it. *)
Theorem topology_contract `{BR : BrokerRouting} `{DC : DispatchCodec} e m q :
  (q ∈ deliver declare_topology JOBS_DIRECT_EXCHANGE_NAME (bm_routing_key (dispatch_message e m)) <->
     q = JOBS_EXECUTE_QUEUE_NAME) /\
  (q ∈ dead_letter declare_topology JOBS_EXECUTE_QUEUE_NAME <-> q = JOBS_DEAD_QUEUE_NAME) /\
  bm_persistent (dispatch_message e m) = true /\
  Forall (fun c => match c with
    | DeclareExchange _ durable | DeclareQueue _ durable _ => durable = true
    | BindQueue _ _ _ => True end) declare_topology /\
  (forall before after queue exchange key,
     declare_topology = before ++ BindQueue queue exchange key :: after ->
     DeclareExchange exchange true ∈ before /\ exists args, DeclareQueue queue true args ∈ before).
Proof.
  assert (Hb : forall x k, BindQueue q x k ∈ declare_topology <->
    (q = JOBS_EXECUTE_QUEUE_NAME /\ x = JOBS_DIRECT_EXCHANGE_NAME /\ k = JOBS_EXECUTE_ROUTING_KEY) \/
    (q = JOBS_DEAD_QUEUE_NAME /\ x = JOBS_DLX_EXCHANGE_NAME /\ k = JOBS_DEAD_ROUTING_KEY)).
  { intros x k. names_tac. }
  split; [|split; [|split; [done|split] ] ].
  - cbn [bm_routing_key dispatch_message]. rewrite deliver_direct, Hb. names_tac.
  - rewrite (dead_letter_queue _ _ execute_queue_arguments true JOBS_DLX_EXCHANGE_NAME JOBS_DEAD_ROUTING_KEY).
    + rewrite deliver_direct, Hb. names_tac.
    + reflexivity.
    + unfold declare_topology. do 2 right. left.
    + intros durable' args'. names_tac.
  - by repeat constructor.
  - intros before after queue exchange key. unfold declare_topology.
    do 4 (destruct before as [|? before]; [done|cbn [app]; intros [= <- Heq]; revert Heq]).
    destruct before as [|? before]; cbn [app].
    { intros [=]; subst. split; [|exists execute_queue_arguments]; rewrite !elem_of_cons; auto 10. }
    intros [= <- Heq]; revert Heq. destruct before as [|? before]; cbn [app]; [|by destruct before].
    intros [=]; subst. split; [|exists []]; rewrite !elem_of_cons; auto 10.
Qed.

(** The delays before the attempts number 2 to [k]. *)
Definition delays (from : Z) (k : nat) : list Z := retry_delay <$> seqZ from (Z.of_nat k).

Lemma delays_cons from k : delays from (S k) = retry_delay from :: delays (from + 1) k.
Proof.
  unfold delays. rewrite (seqZ_cons from) by lia. rewrite fmap_cons.
  by replace (Z.pred (Z.of_nat (S k))) with (Z.of_nat k) by lia.
Qed.

Lemma connect_loop_succeeds {C} (connect : Z -> outcome C) attempts k c left from last :
  (k < left)%nat -> attempts = from + Z.of_nat left - 1 ->
  (forall i, from <= i < from + Z.of_nat k -> exists e, connect i = Exc e) ->
  connect (from + Z.of_nat k) = Ok c ->
  connect_loop connect attempts from left last = (delays from k, Ok c).
Proof.
  revert left from last. induction k as [|k IH]; intros left from last Hk Ha Hf Hc;
    (destruct left as [|left]; [lia|]); cbn [connect_loop].
  - rewrite Z.add_0_r in Hc. by rewrite Hc.
  - destruct (Hf from ltac:(lia)) as [e ->]. rewrite (proj2 (Z.eqb_neq _ _)) by lia.
    rewrite (IH left (from + 1)); [| lia | lia | intros i Hi; apply Hf; lia |
      by replace (from + 1 + Z.of_nat k) with (from + Z.of_nat (S k)) by lia].
    by rewrite delays_cons.
Qed.

Lemma connect_loop_fails {C} (connect : Z -> outcome C) attempts left from last :
  attempts = from + Z.of_nat left ->
  (forall i, from <= i <= attempts -> exists e, connect i = Exc e) ->
  exists e, connect attempts = Exc e /\
    connect_loop connect attempts from (S left) last = (delays from left, Exc e).
Proof.
  revert from last. induction left as [|left IH]; intros from last Ha Hf;
    (destruct (Hf from ltac:(lia)) as [e He]); cbn [connect_loop]; rewrite He.
  - rewrite (proj2 (Z.eqb_eq _ _)) by lia. exists e. by replace attempts with from by lia.
  - rewrite (proj2 (Z.eqb_neq _ _)) by lia.
    destruct (IH (from + 1) (Some e) ltac:(lia) ltac:(intros; apply Hf; lia)) as (e' & He' & Hl).
    exists e'. split; [done|]. cbn [connect_loop] in Hl. rewrite Hl.
    by rewrite delays_cons.
Qed.

(** Connecting at startup: the connection of the first attempt that
    succeeds is returned at once; after each failure but the last the process
    sleeps 1, 2, 4, ... seconds, at most 30; when every attempt fails, the last
    error is raised, after one sleep fewer than attempts. *)
Theorem connect_retry_contract {C} (connect : Z -> outcome C) attempts k c :
  (0 < attempts)%nat -> (k <= attempts)%nat ->
  (forall i, 1 <= i <= Z.of_nat k -> exists e, connect i = Exc e) ->
  ((k < attempts)%nat -> connect (Z.of_nat k + 1) = Ok c) ->
  (if decide (k = attempts) then exists e, connect (Z.of_nat attempts) = Exc e /\
     connect_robust_with_retry connect attempts = (delays 1 (attempts - 1), Exc e)
   else connect_robust_with_retry connect attempts = (delays 1 k, Ok c)) /\
  Forall (fun s => 1 <= s <= 30) (delays 1 k).
Proof.
  intros Hpos Hk Hf Hc. split.
  - unfold connect_robust_with_retry. case_decide as Hd.
    + subst k. destruct attempts as [|left]; [lia|]. rewrite Nat.sub_succ, Nat.sub_0_r.
      apply connect_loop_fails; [lia|]. intros i Hi. apply Hf. lia.
    + apply connect_loop_succeeds; [lia | lia | intros i Hi; apply Hf; lia |].
      rewrite Z.add_comm. apply Hc. lia.
  - apply Forall_fmap, Forall_forall. intros i Hi%elem_of_seqZ. cbn. unfold retry_delay,
      STARTUP_RETRY_BASE_SECONDS, STARTUP_RETRY_MAX_SECONDS.
    pose proof (Z.pow_pos_nonneg 2 (i - 1) ltac:(lia) ltac:(lia)). lia.
Qed.

(** ** Notifications after a COMMIT *)

(** A composite notifier calls every one of its notifiers, in order, with
    the notification, and returns normally whatever they raise. *)
Theorem composite_notifies_all notifiers notification w :
  @notify_job_state_changed (CompositeWorkerPostCommitNotifier notifiers) notification w =
  (Ok tt, foldl (fun w' n => snd (@notify_job_state_changed n notification w')) w notifiers).
Proof.
  cbn. revert w. induction notifiers as [|x notifiers IH]; intros w; [done|].
  cbn [notify_all foldl]. unfold mbind, M_bind, attempt.
  by destruct (notify_job_state_changed notification w) as [o w'] eqn:E; cbn [snd].
Qed.

(** What the API, the worker and the recovery process do after a COMMIT
    that changed a job: drop the cached lists of its owner, then publish on the
    channel of the job an event that decodes to the committed status, attempt
    count and times - and never raise. *)
Theorem standard_notifier_contract `{RP : RedisPublish} `{EC : JobStatusEventCodec}
    (C : JobListCache) notification w :
  let w1 := snd (@invalidate_owner C (pn_owner_id notification) w) in
  let event := mkJobStatusEvent (w_next_uuid w1) (pn_job_id notification) (pn_status notification)
    (pn_attempt_count notification) (pn_committed_at notification)
    (pn_cancel_requested_at notification) in
  @notify_job_state_changed (standard_notifier C) notification w =
    (Ok tt, snd (redis_publish ("jobs:events:" +:+ str_of_uuid (pn_job_id notification))
                   (event_dump_json event) (bump_uuid w1))) /\
  event_validate_json (event_dump_json event) = Some event.
Proof.
  intros w1 event. split; [|apply event_validate_dump].
  cbn. unfold mbind, M_bind, attempt, uuid4. fold w1.
  destruct (invalidate_owner (pn_owner_id notification) w) as [o w'] eqn:E. cbn [snd] in w1.
  unfold publish_event, channel_name. subst event w1.
  change (JOB_STATUS_CHANNEL_PREFIX +:+ ":" +:+ ?s) with ("jobs:events:" +:+ s).
  by destruct (redis_publish _ _ _).
Qed.

(** ** The contracts on concrete states *)

Definition sample_event : OutboxEvent := fresh_event 101 100 4000000 3000000.

(** The first event of the sample run is sent. *)
Lemma publish_event_contract_witness :
  let run := OutboxPublisher._process_claimed_event_once 101 sample_world1 in
  fst run = Ok true /\ List.length (w_broker (snd run)) = 1%nat /\
  publish_tx 101 ∅ (w_db sample_world1) [] (w_db (snd run)) (w_broker (snd run)) (fst run).
Proof.
  intros run. split; [vm_compute; reflexivity|]. split; [vm_compute; reflexivity|].
  exact (proj1 (publish_event_contract 3 101 _ sample_world1 (fst run) (snd run)
    (inv_db _ _ (reachable_inv _ _ sample_reachable1)) eq_refl (surjective_pairing run))).
Defined.

Lemma publish_round_contract_witness :
  exists l, OutboxPublisher.publish_due_batch_once sample_settings sample_world1 =
    OutboxPublisher.process_claimed (e_id <$> l) (tick sample_world1) /\
    Z.of_nat (List.length l) <= 50.
Proof.
  destruct (publish_round_contract sample_settings sample_world1 eq_refl eq_refl) as (l & Hb & Hr & _).
  exists l. split; [exact Hr | exact (bt_length _ _ _ _ _ Hb)].
Defined.

Lemma publish_backoff_contract_witness :
  OutboxPublisher._compute_retry_delay_seconds 3 = 4 /\
  OutboxPublisher._compute_retry_delay_seconds 40 = 300.
Proof.
  split; [exact (proj1 (proj2 (proj2 (publish_backoff_contract 3 3))) ltac:(lia))
    | exact (proj2 (proj2 (proj2 (publish_backoff_contract 40 40))) ltac:(lia))].
Defined.

(** The lease of the crashed worker has run out: its job is queued again. *)
Lemma recovery_round_contract_witness :
  let run := StaleRunningRecovery.recover_due_batch_once sample_settings sample_world5 in
  fst run = Ok 1 /\ j_status (sample_job (snd run)) = QUEUED /\
  w_broker (snd run) = w_broker sample_world5.
Proof.
  intros run. split; [vm_compute; reflexivity|]. split; [vm_compute; reflexivity|].
  exact (proj1 (recovery_round_contract 3 sample_settings sample_world5 (fst run) (snd run) eq_refl
    sample_ok5 eq_refl (surjective_pairing run))).
Defined.

Lemma topology_contract_witness :
  deliver declare_topology "jobs.direct" "jobs.execute" = ["jobs.execute"] /\
  ("jobs.dead" ∈ dead_letter declare_topology "jobs.execute").
Proof.
  split; [vm_compute; reflexivity|].
  exact (proj2 (proj1 (proj2 (topology_contract sample_event sample_dispatch "jobs.dead"))) eq_refl).
Defined.

(** The third of five attempts succeeds, after sleeping 1 and 2 seconds. *)
Definition third_time (i : Z) : outcome string := if i <? 3 then Exc (InfraErr "refused") else Ok "connection".

Lemma connect_retry_contract_witness :
  connect_robust_with_retry third_time STARTUP_RETRY_ATTEMPTS = ([1; 2], Ok "connection").
Proof.
  refine (proj1 (connect_retry_contract third_time STARTUP_RETRY_ATTEMPTS 2 "connection" _ _ _ _)).
  - apply Nat.ltb_lt. reflexivity.
  - apply Nat.leb_le. reflexivity.
  - intros i Hi. exists (InfraErr "refused"). unfold third_time.
    change (Z.of_nat 2) with 2 in Hi. by rewrite (proj2 (Z.ltb_lt i 3)) by lia.
  - intros _. reflexivity.
Defined.
