(* ===== verification/CoreContracts.v ===== *)
(** * CoreContracts: the state policy of jobs and the validation of the
    settings. *)
From S2P Require Import Prelude Exceptions Domain Config.

(** ** [JobStatePolicy] *)

(** The state policy: [ensure_transition] accepts exactly the transitions
    [next_states] lists and raises [JobStateTransitionError] for the others;
    exactly the final statuses have no successor, no transition leads back to
    PENDING, and every status can be reached from PENDING. *)
Theorem job_state_policy_contract s t :
  (JobStatePolicy.ensure_transition s t = Ok tt <-> t ∈ JobStatePolicy.next_states s) /\
  (t ∉ JobStatePolicy.next_states s ->
     exists m, JobStatePolicy.ensure_transition s t = Exc (StateTransitionErr m)) /\
  (is_terminal_status s = true <-> JobStatePolicy.next_states s = []) /\
  (forall l, policy_path s l -> PENDING ∉ l) /\
  (exists l, policy_path PENDING l /\ last (PENDING :: l) = Some s).
Proof.
  unfold JobStatePolicy.ensure_transition, JobStatePolicy.can_transition.
  split; [|split; [|split; [apply terminal_iff_no_next|split; [apply policy_no_return_to_pending|] ] ] ].
  - unfold JobStatePolicy.next_states. by case_bool_decide.
  - intros Hn. rewrite bool_decide_eq_false_2 by done. by eexists.
  - assert (Hp : forall l, foldr (fun t r s => JobStatePolicy.can_transition s t && r t)
      (fun _ => true) l PENDING = true -> policy_path PENDING l).
    { intros l. generalize PENDING. induction l as [|x l IH]; intros s0; [constructor|].
      cbn. intros [H1 H2]%andb_true_iff. constructor; auto. }
    destruct s; [exists [] | exists [QUEUED] | exists [QUEUED; RUNNING]
      | exists [QUEUED; RUNNING; COMPLETED] | exists [QUEUED; RUNNING; FAILED] | exists [CANCELLED] ];
      (split; [by apply Hp | reflexivity]).
Qed.

(** ** [Settings] *)

Lemma lstrip_shape s :
  lstrip s = EmptyString \/ exists c s', lstrip s = String c s' /\ is_space c = false.
Proof.
  induction s as [|c s IH]; [by left|]. cbn. destruct (is_space c) eqn:Hc; [done|].
  right. by exists c, s.
Qed.

Lemma rstrip_idem s : rstrip (rstrip s) = rstrip s.
Proof.
  induction s as [|c s IH]; [done|]. cbn. destruct (rstrip s) as [|c' s'] eqn:E.
  - destruct (is_space c) eqn:Hc; cbn; by rewrite ?Hc.
  - change (rstrip (String c (String c' s'))) with
      (match rstrip (String c' s') with
       | EmptyString => if is_space c then EmptyString else String c EmptyString
       | t => String c t end). by rewrite IH.
Qed.

Lemma strip_idem s : strip (strip s) = strip s.
Proof.
  unfold strip. destruct (lstrip_shape s) as [->|(c & s' & -> & Hc)]; [done|].
  rewrite <- (rstrip_idem (String c s')) at 2. f_equal. cbn.
  destruct (rstrip s') as [|c' t]; [rewrite Hc|]; cbn; by rewrite Hc.
Qed.

Lemma strip_non_empty_spec value v :
  strip_non_empty value = Ok v -> v <> EmptyString /\ strip_non_empty v = Ok v.
Proof.
  unfold strip_non_empty. destruct (String.eqb_spec (strip value) EmptyString) as [|Hne]; [done|].
  intros [= <-]. split; [done|]. rewrite strip_idem. by destruct (String.eqb_spec (strip value) "").
Qed.

Lemma validate_log_level_spec value v :
  validate_log_level value = Ok v -> v ∈ allowed_log_levels /\ validate_log_level v = Ok v.
Proof.
  unfold validate_log_level. case_bool_decide as Hin; [|done]. intros [= <-]. split; [done|].
  unfold allowed_log_levels in Hin. rewrite !elem_of_cons, elem_of_nil in Hin.
  destruct Hin as [->|[->|[->|[->|[->|[] ] ] ] ] ]; reflexivity.
Qed.

Lemma non_empty_length s : s <> EmptyString -> 1 <= slen s.
Proof. destruct s; [done|]. intros _. unfold slen. cbn [String.length]. lia. Qed.

(** Settings that were accepted are usable: every number is within its
    bound, the log level is one of the five names in upper case, no URL nor the
    secret is blank, and validating them again changes nothing. *)
Theorem validate_settings_contract raw s :
  validate_settings raw = Ok s ->
  fields_in_range s = true /\ log_level s ∈ allowed_log_levels /\
  database_url s <> EmptyString /\ redis_url s <> EmptyString /\ rabbitmq_url s <> EmptyString /\
  jwt_secret s <> EmptyString /\ validate_settings s = Ok s.
Proof.
  unfold validate_settings at 1. destruct (fields_in_range raw && _) eqn:Hr; [|done].
  apply andb_true_iff in Hr as [Hr _]. cbn [negb].
  destruct (validate_log_level _) as [l|] eqn:Hl; [|done].
  destruct (strip_non_empty (database_url _)) as [d|] eqn:Hd; [|done].
  destruct (strip_non_empty (redis_url _)) as [r|] eqn:Hre; [|done].
  destruct (strip_non_empty (rabbitmq_url _)) as [q|] eqn:Hq; [|done].
  destruct (strip_non_empty (jwt_secret _)) as [j|] eqn:Hj; [|done].
  intros [= <-].
  apply validate_log_level_spec in Hl as [Hl1 Hl2]. apply strip_non_empty_spec in Hd as [Hd1 Hd2].
  apply strip_non_empty_spec in Hre as [Hr1 Hr2]. apply strip_non_empty_spec in Hq as [Hq1 Hq2].
  apply strip_non_empty_spec in Hj as [Hj1 Hj2].
  cbn [log_level database_url redis_url rabbitmq_url jwt_secret].
  do 6 (split; [done|]). unfold validate_settings.
  cbn [log_level database_url redis_url rabbitmq_url jwt_secret].
  rewrite Hl2, Hd2, Hr2, Hq2, Hj2, (proj2 (Z.leb_le _ _) (non_empty_length _ Hj1)), andb_true_r.
  change (fields_in_range (mkSettings _ _ _ _ _ _ _ _ _ _ _ _ _ _ _ _ _)) with (fields_in_range raw).
  by rewrite Hr.
Qed.

(** The production check refuses exactly the production settings whose
    secret is a known placeholder (in any case) or shorter than 32 characters,
    and accepts everything outside production. *)
Theorem validate_runtime_contract s :
  (validate_runtime s = Ok tt <->
    (app_env s = PRODUCTION ->
      (lower (jwt_secret s) ∉ placeholder_secrets) /\ 32 <= slen (jwt_secret s))) /\
  (validate_runtime s = Ok tt \/ exists m, validate_runtime s = Exc (ProductionSettingsErr m)).
Proof.
  unfold validate_runtime. case_bool_decide as He; cbn [negb].
  - case_bool_decide as Hp; [split; [split; [done | intros H; by destruct (H He)] | by right; eexists]|].
    destruct (Z.ltb_spec (slen (jwt_secret s)) 32).
    + split; [split; [done | intros Hx; destruct (Hx He); lia] | by right; eexists].
    + split; [split; [done | done] | by left].
  - split; [split; [done | done] | by left].
Qed.

(** ** On concrete settings *)

Definition raw_settings : Settings :=
  with_defaults PRODUCTION "info" " postgresql+asyncpg://db/app " "redis://cache" "amqp://broker"
    "Change-Me-To-A-Long-Random-Secret".

Lemma validate_settings_contract_witness :
  exists s, validate_settings raw_settings = Ok s /\ log_level s = "INFO" /\
    database_url s <> EmptyString.
Proof.
  eexists. split; [vm_compute; reflexivity|]. split; [reflexivity|].
  apply (validate_settings_contract raw_settings). vm_compute. reflexivity.
Defined.

Lemma validate_runtime_contract_witness :
  exists m, validate_runtime raw_settings = Exc (ProductionSettingsErr m).
Proof.
  destruct (proj2 (validate_runtime_contract raw_settings)) as [H|H]; [|exact H].
  exfalso. vm_compute in H. discriminate.
Defined.

Lemma job_state_policy_contract_witness :
  exists m, JobStatePolicy.ensure_transition QUEUED COMPLETED = Exc (StateTransitionErr m).
Proof.
  apply (job_state_policy_contract QUEUED COMPLETED).
  apply (bool_decide_eq_false_1 _). reflexivity.
Defined.
