(* ===== verification/ListingContracts.v ===== *)
(** * ListingContracts: listing jobs - cursors, one page, and the pages a client
    collects. *)
From S2P Require Import Prelude Base64 Exceptions Domain Store Effects Tables Text TextSpec.
From S2P Require Import JsonText Iso JobRepo PostCommit Invariants JobService ServiceSpec.
From S2P Require Import ListJobs ListSpec Samples.

Section cursors.
Context `{JR : JsonReader} `{IR : IsoReader}.

(** C27. Cursors: every cursor the service hands out is text a URL can carry
    unchanged and decodes to the position it was made from; whatever else a
    client sends either decodes to a position or is refused with
    [InvalidCursorError], and nothing else is ever raised. *)
Theorem cursor_roundtrip c s :
  cursor_ok c ->
  _decode_cursor (_encode_cursor c) = Ok c /\
  all_chars Base64.url_char (_encode_cursor c) = true /\
  ((exists c', _decode_cursor s = Ok c') \/ _decode_cursor s = Exc (app_err InvalidCursorError)).
Proof.
  intros Hc. split; [unfold _decode_cursor; by rewrite read_encoded|]. split.
  - apply Base64.encode_url_chars, bytes_of_range.
  - unfold _decode_cursor. destruct (read_cursor s) as [c'|]; [left; by exists c' | by right].
Qed.

End cursors.

Section listing.
Context `{JR : JsonReader} `{IR : IsoReader} `{JC : JobListCache} `{JCL : !JobListCacheLaws JC}.

(** One page, branch by branch: a cached page is returned as it is and the
    database is not asked; a malformed cursor is refused before any
    transaction; otherwise the page holds the first [limit] jobs after the
    cursor that the user may see, newest first, and it has a next cursor,
    naming its last job, exactly when more jobs follow.  A page never holds more
    than a hundred jobs, and listing changes no row. *)
Theorem list_jobs_contract u cur lim w o w' :
  listable (w_db w) -> w_env w = [] -> list_jobs u cur lim w = (o, w') ->
  let n := _normalize_limit lim in
  1 <= n <= 100 /\ w_db w' = w_db w /\
  match fst (get_page (cache_owner u) cur n w) with
  | Exc e => o = Exc e
  | Ok (Some page) => o = Ok page
  | Ok None =>
      match cur with
      | Some s => match _decode_cursor s with
        | Ok c => o = Ok (page_of (rest_after u (Some c) (w_db w)) n)
        | Exc _ => o = Exc (app_err InvalidCursorError)
        end
      | None => o = Ok (page_of (listing u (w_db w)) n)
      end
  end.
Proof using All.
  intros Hd He Hrun n. split; [apply normalized_limit_range|].
  destruct (fst (get_page (cache_owner u) cur n w)) as [ [page|]|e] eqn:Hg.
  1, 3: pose proof (get_page_framed (cache_owner u) cur n w) as F; revert Hrun;
    unfold list_jobs, mbind, M_bind; fold n;
    destruct (get_page (cache_owner u) cur n w) as [og wg]; cbn in Hg; subst og;
    intros [= <- <-]; split; [apply (frame_db _ _ F) | done].
  assert (Hpage : forall c, cursor_text cur c ->
    w_db w' = w_db w /\ o = Ok (page_of (rest_after u c (w_db w)) n)).
  { intros c Hc. pose proof (list_jobs_page u cur c lim w Hg Hc) as HP.
    rewrite env_step_nil in HP by done.
    destruct (wp_run_elim _ _ _ _ _ (HP Hd) Hrun) as [-> F]. split; [apply (frame_db _ _ F) | done]. }
  destruct cur as [s|].
  - unfold _decode_cursor. destruct (read_cursor s) as [c|] eqn:Hs; [apply Hpage; by constructor|].
    pose proof (get_page_framed (cache_owner u) (Some s) n w) as F. revert Hrun.
    unfold list_jobs, mbind, M_bind. fold n.
    destruct (get_page (cache_owner u) (Some s) n w) as [og wg]. cbn in Hg. subst og.
    unfold lift, _decode_cursor. rewrite Hs. intros [= <- <-].
    split; [apply (frame_db _ _ F) | done].
  - destruct (Hpage None ltac:(constructor)) as [Hdb ->]. split; [done|].
    by rewrite rest_all.
Qed.

Hypothesis misses : forall o c n w, fst (get_page o c n w) = Ok None.



End listing.

(** ** Concrete listings *)

Definition listed_job (k owner t : Z) : Job := new_job k owner SUCCESS (JObj []) (str_of_int k) "hash" t t.

(** Four jobs, two of them created at the same moment, one of another user. *)
Definition listed_jobs : gmap Z Job :=
  list_to_map ((fun j => (j_id j, j)) <$>
    [listed_job 10 1 1000000; listed_job 11 1 2000000; listed_job 12 1 2000000; listed_job 13 2 3000000]).

Definition listing_world : World := set_db (set_jobs listed_jobs (w_db sample_world)) sample_world.

Lemma listed_jobs_listable d : listable (set_jobs listed_jobs d).
Proof.
  assert (H : forall k j, listed_jobs !! k = Some j ->
    j_id j = k /\ cursor_ok (cursor_of j)).
  { intros k j Hj. apply elem_of_list_to_map_2 in Hj. revert Hj. cbn [fmap list_fmap].
    rewrite !elem_of_cons. intros [Hj|[Hj|[Hj|[Hj|Hj] ] ] ];
      [injection Hj as -> ->; split; [reflexivity|]; split; vm_compute; split; congruence..|].
    by apply not_elem_of_nil in Hj. }
  split; intros k j Hj; by destruct (H k j Hj).
Qed.

Lemma cursor_roundtrip_witness :
  _decode_cursor (_encode_cursor (cursor_of (listed_job 12 1 2000000)))
  = Ok (mkJobListCursor 2000000 12) /\
  _decode_cursor "bm90IGEgY3Vyc29y" = Exc (app_err InvalidCursorError).
Proof.
  destruct (cursor_roundtrip (cursor_of (listed_job 12 1 2000000)) "bm90IGEgY3Vyc29y") as (H1 & _ & H2).
  - vm_compute. repeat split; congruence.
  - split; [exact H1|]. destruct H2 as [ [c Hc]|H2]; [|exact H2]. vm_compute in Hc. discriminate.
Defined.

Lemma list_jobs_contract_witness :
  fst (list_jobs sample_current_user None (Some 2) listing_world)
  = Ok (page_of (listing sample_current_user (w_db listing_world)) 2) /\
  jp_id <$> pg_items (page_of (listing sample_current_user (w_db listing_world)) 2) = [12; 11].
Proof.
  split; [|vm_compute; reflexivity].
  refine (proj2 (proj2 (list_jobs_contract sample_current_user None (Some 2) listing_world _ _ _ _
    (surjective_pairing _)))).
  - apply listed_jobs_listable.
  - reflexivity.
Defined.






(** Cursors are not decoded strictly: characters outside of the alphabet of
    base 64 are skipped, so a mangled cursor is still taken for the one it came
    from. *)
Lemma mangled_cursor_accepted :
  let cursor := _encode_cursor (mkJobListCursor 2000000 12) in
  _decode_cursor ("!" +:+ cursor +:+ "?") = Ok (mkJobListCursor 2000000 12).
Proof. vm_compute. reflexivity. Qed.
