(* ===== verification/RedisContracts.v ===== *)
(** * RedisContracts: the rate limiter and the list cache on Redis. *)
From S2P Require Import Prelude Exceptions Domain Store Effects Tables Config Text TextSpec JsonText Iso.
From S2P Require Import JobRepo PostCommit Invariants JobService ServiceSpec ListJobs ListSpec.
From S2P Require Import Redis RateLimiter ListCache ListCacheSpec Samples ListingContracts.

(** ** The rate limiter *)
Section limiter.
Context `{RS : RedisServer} (settings : Settings).
Hypothesis in_range : fields_in_range settings = true.

#[local] Abbreviation window := (create_job_rate_window_seconds settings).
#[local] Abbreviation max_jobs := (create_job_rate_limit settings).

Lemma window_pos : 1 <= window /\ 1 <= max_jobs.
Proof using in_range.
  unfold fields_in_range in in_range. rewrite !andb_true_iff, !Z.leb_le in in_range. tauto.
Qed.

(** The answer to the request that finds [n] requests before it in its window. *)
Definition reservation_of (u : uuid) (t : datetime) (n : Z) : CreateJobRateLimitReservationDTO :=
  let start := window_start settings t in
  mkCreateJobRateLimitReservationDTO (window_key u start) max_jobs (n + 1) (max_jobs - (n + 1))
    (start + window - epoch_seconds t) (start + window).

Definition answer_to (u : uuid) (t : datetime) (n : Z) : outcome (option CreateJobRateLimitReservationDTO) :=
  if n <? max_jobs then Ok (Some (reservation_of u t n))
  else Exc (rate_limit_exceeded max_jobs (window_start settings t + window - epoch_seconds t)
              (window_start settings t + window)).

(** The time left in a window. *)
Lemma retry_after_range t :
  1 <= window_start settings t + window - epoch_seconds t <= window.
Proof using in_range.
  pose proof window_pos. unfold window_start.
  pose proof (Z.mod_pos_bound (epoch_seconds t) window). lia.
Qed.

Lemma reserve_up u w n :
  let t := w_clock w (w_ticks w) in
  let key := window_key u (window_start settings t) in
  redis_answer (tick w) = RedisOk -> 0 <= n -> n + 1 < 2 ^ 63 ->
  counter (redis_time (tick w)) (w_redis w) key n ->
  exists until, limiter_reserve settings u w =
    (answer_to u t n, set_redis (<[key := mkRedisEntry (str_of_int (n + 1)) until]> (w_redis w)) (tick w)) /\
    match live (redis_time (tick w)) (w_redis w) key with
    | None => until = Some (redis_time (tick w) + seconds (window + KEY_EXPIRY_MARGIN_SECONDS))
    | Some e => until = re_expires_at e
    end.
Proof using in_range.
  intros t key Hup Hn H63 Hc. pose proof window_pos as [Hw Hm]. pose proof (retry_after_range t) as Hr.
  destruct (create_script_spec (redis_time (tick w)) (w_redis w) key
    (window + KEY_EXPIRY_MARGIN_SECONDS) n Hc H63) as (until & ttl & E & Hu);
    [unfold KEY_EXPIRY_MARGIN_SECONDS; lia|].
  exists until. split; [|exact Hu].
  unfold limiter_reserve, mbind at 1, M_bind at 1, now. fold t. cbn [_build_window_key].
  fold key. unfold mbind, M_bind. rewrite attempt_redis_ok by done.
  change (w_redis (tick w)) with (w_redis w). rewrite E. cbn [fst snd rl_limit rl_retry_after_seconds rl_reset_epoch].
  rewrite Z.max_l by lia. unfold answer_to, reservation_of. fold t key.
  destruct (Z.ltb_spec n max_jobs) as [Hlt|Hge].
  - rewrite (proj2 (Z.ltb_ge max_jobs (n + 1))) by lia. by rewrite Z.max_l by lia.
  - by rewrite (proj2 (Z.ltb_lt max_jobs (n + 1))) by lia.
Qed.

(** One reservation: when Redis answers, the request that finds [n] requests
    of its user in the current window is granted exactly when [n] is below
    CREATE_JOB_RATE_LIMIT, with the count, what remains and the time to the end of
    the window (between one second and the window), and is refused with those
    times otherwise; the counter of the window has one more.  Releasing takes
    one back.  When Redis does not answer the request is let through. *)
Theorem reserve_contract u w n r w2 :
  let t := w_clock w (w_ticks w) in
  let key := window_key u (window_start settings t) in
  0 <= n -> n + 1 < 2 ^ 63 -> counter (redis_time (tick w)) (w_redis w) key n ->
  let run := limiter_reserve settings u w in
  1 <= window_start settings t + window - epoch_seconds t <= window /\
  (redis_answer (tick w) = RedisOk ->
    fst run = answer_to u t n /\
    counter (redis_time (tick w)) (w_redis (snd run)) key (n + 1)) /\
  (redis_answer (tick w) <> RedisOk -> fst run = Ok None) /\
  (redis_answer w2 = RedisOk -> counter (redis_time w2) (w_redis w2) (rl_key r) n ->
    fst (limiter_release r w2) = Ok tt /\
    counter (redis_time w2) (w_redis (snd (limiter_release r w2))) (rl_key r) (Z.max (n - 1) 0)).
Proof using in_range.
  intros t key Hn H63 Hc run. split; [apply retry_after_range|]. split; [|split].
  - intros Hup. destruct (reserve_up u w n Hup Hn H63 Hc) as (until & E & Hu).
    unfold run. rewrite E. split; [done|]. cbn [snd w_redis set_redis]. fold t key in Hu |- *.
    unfold counter. rewrite live_insert; [split; [done | lia]|].
    cbn. intros x ->. unfold counter, live in Hc, Hu. pose proof window_pos.
    destruct (w_redis w !! key) as [e|] eqn:Ee.
    2: { injection Hu as ->. unfold seconds, KEY_EXPIRY_MARGIN_SECONDS. lia. }
    destruct (re_expires_at e) as [y|] eqn:Ey; [|congruence].
    destruct (Z.ltb_spec (redis_time (tick w)) y); [congruence|].
    injection Hu as ->. unfold seconds, KEY_EXPIRY_MARGIN_SECONDS. lia.
  - intros Hdown. unfold run, limiter_reserve, mbind at 1, M_bind at 1, now. cbn [_build_window_key].
    unfold mbind, M_bind.
    destruct (attempt_redis_failed (CREATE_JOB_RATE_LIMIT_SCRIPT
      (window_key u (window_start settings (w_clock w (w_ticks w))))
      (window + KEY_EXPIRY_MARGIN_SECONDS)) (tick w) Hdown) as (m & r' & ->). done.
  - intros Hup Hc2. unfold limiter_release, mbind, M_bind. rewrite attempt_redis_ok by done.
    cbn [fst snd w_redis set_redis].
    destruct (release_script_spec _ _ _ n Hc2 ltac:(lia)) as (r' & E & Hr & _). rewrite E. done.
Qed.

(** *** A run of requests in one window *)

(** The requests of [users], one after the other. *)
Fixpoint serve (users : list uuid) : M (list (outcome (option CreateJobRateLimitReservationDTO))) :=
  match users with
  | [] => mret []
  | u :: rest =>
      o ← attempt (limiter_reserve settings u);
      os ← serve rest;
      mret (o :: os)
  end.

(** The requests of [u] among the first [i]. *)
Definition earlier (users : list uuid) (i : nat) (u : uuid) : Z :=
  Z.of_nat (List.length (filter (fun v => v = u) (take i users))).

(** The next [n] readings of the clock are in the window that starts at [start],
    those of Redis' clock in the life of its counters; Redis answers. *)
Record in_window (start : Z) (T : datetime) (n : nat) (w : World) : Prop := mkInWindow {
  iw_clock i : (w_ticks w <= i < w_ticks w + n)%nat -> window_start settings (w_clock w i) = start;
  iw_redis w' : redis_answer w' = RedisOk;
  iw_time w' : T <= redis_time w' < T + seconds (window + KEY_EXPIRY_MARGIN_SECONDS)
}.

(** [f] counts the requests so far. *)
Definition counted (start : Z) (T : datetime) (f : uuid -> Z) (users : list uuid)
    (r : gmap string RedisEntry) : Prop :=
  forall u, u ∈ users -> uuid_ok u /\ 0 <= f u /\
  if f u =? 0 then r !! window_key u start = None
  else exists x, r !! window_key u start = Some (mkRedisEntry (str_of_int (f u)) (Some x)) /\
    T + seconds (window + KEY_EXPIRY_MARGIN_SECONDS) <= x.

Lemma window_key_inj u v start :
  uuid_ok u -> uuid_ok v -> window_key u start = window_key v start -> u = v.
Proof using. intros Hu Hv H. by apply owner_prefix_inj in H as [-> _]. Qed.

Lemma counted_live start T f users r u t :
  counted start T f users r -> u ∈ users -> T <= t < T + seconds (window + KEY_EXPIRY_MARGIN_SECONDS) ->
  live t r (window_key u start) = r !! window_key u start /\ counter t r (window_key u start) (f u).
Proof using.
  intros Hc Hu Ht. destruct (Hc u Hu) as (_ & Hf & H). unfold counter, live.
  destruct (Z.eqb_spec (f u) 0) as [E|E].
  - by rewrite H.
  - destruct H as (x & Hx & Hle). rewrite Hx. cbn [re_expires_at].
    rewrite (proj2 (Z.ltb_lt t x)) by lia. split; [done|]. split; [done | lia].
Qed.

Definition bump (f : uuid -> Z) (u : uuid) : uuid -> Z := fun v => if decide (v = u) then f v + 1 else f v.

Lemma counted_bump start T f u users r until t :
  counted start T f (u :: users) r -> T <= t ->
  match r !! window_key u start with
  | None => until = Some (t + seconds (window + KEY_EXPIRY_MARGIN_SECONDS))
  | Some e => until = re_expires_at e
  end ->
  counted start T (bump f u) users
    (<[window_key u start := mkRedisEntry (str_of_int (f u + 1)) until]> r).
Proof using.
  intros Hc Ht Hx v Hv. destruct (Hc u ltac:(left)) as (Hu & Hf & Hcu).
  destruct (Hc v ltac:(by right)) as (Hv' & Hfv & Hcv). split; [done|]. unfold bump.
  destruct (decide (v = u)) as [->|Hne].
  - split; [lia|]. rewrite (proj2 (Z.eqb_neq (f u + 1) 0)) by lia. rewrite lookup_insert_eq.
    destruct (Z.eqb_spec (f u) 0) as [E|E].
    + rewrite Hcu in Hx. subst until. eexists. split; [done | lia].
    + destruct Hcu as (x & Hcu & Hle). rewrite Hcu in Hx. subst until. by exists x.
  - split; [done|]. rewrite lookup_insert_ne by (intros E; by apply Hne, (window_key_inj v u start)).
    exact Hcv.
Qed.

Lemma earlier_cons u users i v :
  earlier (u :: users) (S i) v = (if decide (v = u) then 1 else 0) + earlier users i v.
Proof using.
  unfold earlier. cbn [take]. rewrite filter_cons. repeat case_decide; cbn [List.length]; (congruence || lia).
Qed.

Lemma serve_counts start T f users w :
  in_window start T (List.length users) w -> counted start T f users (w_redis w) ->
  (forall u, u ∈ users -> f u + Z.of_nat (List.length users) < 2 ^ 63) ->
  exists os w', serve users w = (Ok os, w') /\
  forall i u, users !! i = Some u -> exists o t, os !! i = Some o /\
    window_start settings t = start /\ o = answer_to u t (f u + earlier users i u).
Proof using in_range.
  revert f w; induction users as [|u users IH]; intros f w Hw Hc H63.
  - exists [], w. split; [done|]. by intros [|i] u.
  - pose proof (iw_clock _ _ _ _ Hw (w_ticks w) ltac:(cbn; lia)) as Hs.
    destruct (counted_live start T f (u :: users) (w_redis w) u (redis_time (tick w)) Hc ltac:(left)
      (iw_time _ _ _ _ Hw _)) as [Hl Hcu].
    destruct (Hc u ltac:(left)) as (_ & Hf & _).
    destruct (reserve_up u w (f u)) as (until & E & Hu).
    + apply (iw_redis _ _ _ _ Hw).
    + exact Hf.
    + specialize (H63 u ltac:(left)). cbn [List.length] in H63. lia.
    + by rewrite Hs.
    + rewrite Hs in E, Hu. rewrite Hl in Hu.
      set (w1 := set_redis (<[window_key u start := mkRedisEntry (str_of_int (f u + 1)) until]>
        (w_redis w)) (tick w)) in *.
      destruct (IH (bump f u) w1) as (os & w' & E2 & H2).
      * constructor; [|apply Hw..]. intros i Hi. apply (iw_clock _ _ _ _ Hw). cbn in Hi |- *. lia.
      * eapply counted_bump; [exact Hc | apply (iw_time _ _ _ _ Hw (tick w)) | exact Hu].
      * intros v Hv. specialize (H63 v ltac:(by right)). cbn [List.length] in H63. unfold bump.
        destruct (decide (v = u)); lia.
      * exists (answer_to u (w_clock w (w_ticks w)) (f u) :: os), w'. split.
        { cbn [serve]. unfold mbind, M_bind, attempt. rewrite E, E2. done. }
        intros [|i] v Hv; cbn in Hv |- *.
        -- injection Hv as <-. eexists _, _. split; [done|]. split; [exact Hs|].
           f_equal. unfold earlier. cbn. lia.
        -- destruct (H2 i v Hv) as (o & t & Ho & Ht & ->). eexists _, t. split; [exact Ho|].
           split; [exact Ht|]. f_equal. rewrite earlier_cons. unfold bump. destruct (decide (v = u)); lia.
Qed.

(** The limit itself: of the requests made within one window, in any order
    and by any users, exactly the first CREATE_JOB_RATE_LIMIT of each user are
    granted; every later one is refused with RATE_LIMIT_EXCEEDED. *)
Theorem rate_limit_exact users start T w :
  in_window start T (List.length users) w -> (forall u, u ∈ users -> uuid_ok u) ->
  (forall u, u ∈ users -> w_redis w !! window_key u start = None) ->
  Z.of_nat (List.length users) < 2 ^ 63 ->
  exists os w', serve users w = (Ok os, w') /\
  forall i u, users !! i = Some u -> exists o, os !! i = Some o /\
    if earlier users i u <? max_jobs
    then exists r, o = Ok (Some r) /\ rl_used r = earlier users i u + 1 /\
      rl_remaining r = max_jobs - (earlier users i u + 1)
    else exists retry reset, o = Exc (rate_limit_exceeded max_jobs retry reset) /\ 1 <= retry <= window.
Proof using in_range.
  intros Hw Hu Hr H63.
  destruct (serve_counts start T (fun _ => 0) users w Hw) as (os & w' & E & H).
  - intros u Hin. split; [by apply Hu|]. split; [done|]. by apply Hr.
  - intros u _. lia.
  - exists os, w'. split; [done|]. intros i u Hi. destruct (H i u Hi) as (o & t & Ho & Ht & ->).
    exists (answer_to u t (0 + earlier users i u)). split; [exact Ho|]. rewrite Z.add_0_l.
    unfold answer_to. destruct (_ <? _); [by eexists|].
    eexists _, _. split; [done|]. apply retry_after_range.
Qed.

End limiter.

(** ** The list cache *)
Section cache.
Context `{JR : JsonReader} `{IR : IsoReader} `{RS : RedisServer} (settings : Settings).

(** A page survives the cache: what [set_page] stored is what [get_page]
    returns for the same scope, cursor and limit - the same jobs and the same
    next cursor, payloads equal as Python compares them, attempt counts
    forgotten - until it expires or the version of the scope changes. *)
Theorem page_cache_roundtrip o c l page v w w2 :
  page_ok page -> redis_answer w = RedisOk -> redis_answer w2 = RedisOk ->
  read_version (redis_time w) (w_redis w) o = Some v ->
  let w1 := snd (cache_set_page settings o c l page w) in
  w_redis w2 = w_redis w1 -> redis_time w2 < redis_time w + seconds (cache_ttl_seconds settings) ->
  read_version (redis_time w2) (w_redis w2) o = Some v ->
  cache_get_page o c l w2 = (Ok (Some (as_cached page)), w2) /\
  Forall2 (fun p q => jp_id q = jp_id p /\ jp_status q = jp_status p /\
    json_same (jp_payload p) (jp_payload q)) (pg_items page) (pg_items (as_cached page)).
Proof.
  intros Hp H1 H2 Hv w1 Hr Ht Hv2. split.
  - rewrite get_page_up by done. unfold page_entry. rewrite Hv2. cbn [mbind option_bind].
    rewrite Hr. unfold w1. rewrite set_page_up, Hv by done. cbn [snd w_redis set_redis].
    rewrite live_insert.
    + cbn [re_value page_written]. by rewrite decode_encode_page.
    + cbn. intros x [= <-]. exact Ht.
  - unfold page_ok in Hp. cbn. induction Hp as [|p ps Hp _ IH]; cbn; constructor; [|exact IH].
    split; [done|]. split; [done|]. apply canon_same, Hp.
Qed.

(** Invalidation: once [invalidate_owner] is done, no page of that owner and
    no page of the administrators' listing is found any more, whatever cursor
    and limit it was stored under, while the pages of other owners stay; and
    no page is stored under a version still to come, which is what makes the
    next invalidation work as well.  The same holds after a page is stored. *)
Theorem cache_invalidation_contract u v va w w2 :
  let t := redis_time w in
  redis_answer w = RedisOk -> redis_answer w2 = RedisOk -> uuid_ok u ->
  no_newer t (w_redis w) ->
  read_version t (w_redis w) (Some u) = Some v -> read_version t (w_redis w) None = Some va ->
  in_int64 (v + 1) = true -> in_int64 (va + 1) = true ->
  let w1 := snd (cache_invalidate_owner u w) in
  w_redis w2 = w_redis w1 -> t <= redis_time w2 < t + seconds VERSION_TTL_SECONDS ->
  (forall o c l, o = None \/ o = Some u -> cache_get_page o c l w2 = (Ok None, w2)) /\
  (forall u' c l, uuid_ok u' -> u' <> u ->
    page_entry (redis_time w2) (w_redis w2) (Some u') c l
    = page_entry (redis_time w2) (w_redis w) (Some u') c l) /\
  no_newer t (w_redis w1) /\
  (forall o c l page, scope_ok o -> no_newer t (w_redis (snd (cache_set_page settings o c l page w)))).
Proof.
  intros t H1 H2 Hu Hn Hv Hva Hi Hia w1 Hr Ht.
  assert (E : w_redis w1 = <[version_key None := version_written t (va + 1)]>
    (<[version_key (Some u) := version_written t (v + 1)]> (w_redis w))).
  { unfold w1. by rewrite (invalidate_up w u v va). }
  assert (Hne : version_key (Some u) <> version_key None) by (by intros [=]%version_key_inj).
  assert (Hw : forall o n r, in_int64 n = true -> read_version (redis_time w2)
    (<[version_key o := version_written t n]> r) o = Some n).
  { intros o n r Hn'. unfold read_version. rewrite live_insert; [by apply redis_int_str|].
    cbn. intros x [= <-]. lia. }
  assert (Hpage : forall o m c l, live (redis_time w2) (w_redis w1) (_cache_key o m c l)
    = live (redis_time w2) (w_redis w) (_cache_key o m c l)).
  { intros o m c l. rewrite E. rewrite !live_insert_ne; [done|..]; intros Hk; symmetry in Hk;
      by apply cache_key_not_version in Hk. }
  split; [|split; [|split] ].
  - intros o c l Ho. rewrite get_page_up by done. unfold page_entry. rewrite Hr.
    assert (exists m m', read_version t (w_redis w) o = Some m /\ m < m' /\
      read_version (redis_time w2) (w_redis w1) o = Some m' /\ scope_ok o)
      as (m & m' & Hm & Hlt & -> & Hok).
    { destruct Ho as [->| ->]; rewrite E.
      - exists va, (va + 1). rewrite Hw by done. split; [done|]. split; [lia|]. done.
      - exists v, (v + 1). rewrite read_version_other by done. rewrite Hw by done.
        split; [done|]. split; [lia|]. done. }
    cbn [mbind option_bind]. rewrite Hpage.
    by rewrite (live_later t) by (lia || by eapply Hn).
  - intros u' c l Hu' Hne'. unfold page_entry. rewrite Hr, E.
    rewrite !read_version_other by (done || congruence). rewrite <- E.
    destruct (read_version _ _ (Some u')) as [m|]; [|done]. cbn [mbind option_bind]. apply Hpage.
  - rewrite E. apply no_newer_bump; try done.
    + by apply no_newer_bump.
    + by rewrite read_version_other.
  - intros o c l page Ho. rewrite set_page_up by done.
    destruct (read_version (redis_time w) (w_redis w) o) as [m|] eqn:Em; [|exact Hn].
    by apply no_newer_set.
Qed.

End cache.

(** ** On concrete inputs *)

(** Redis at the time of the clock of the application; every call answers. *)
Definition sample_server : RedisServer :=
  {| redis_time w := w_clock w (w_ticks w); redis_answer _ := RedisOk |}.

Definition still_server : RedisServer := {| redis_time _ := 0; redis_answer _ := RedisOk |}.

Definition two_per_minute : Settings :=
  mkSettings TEST "INFO" "postgresql+asyncpg://db/app" "redis://cache" "amqp://broker" "not-a-secret"
    30 3 3 60 1 50 5 50 30 2 60.

(** Two requests counted so far: a third is refused. *)
Definition counted_world : World :=
  set_redis {[ window_key 1 0 := mkRedisEntry "2" (Some 65000000) ]} sample_world.

Lemma reserve_contract_witness :
  fst (limiter_reserve (RS := sample_server) two_per_minute 1 counted_world)
  = Exc (rate_limit_exceeded 2 60 60) /\
  fst (limiter_release (RS := sample_server)
    (mkCreateJobRateLimitReservationDTO (window_key 1 0) 2 1 1 60 60) counted_world) = Ok tt.
Proof.
  destruct (reserve_contract (RS := sample_server) two_per_minute eq_refl 1 counted_world 2
    (mkCreateJobRateLimitReservationDTO (window_key 1 0) 2 1 1 60 60) counted_world)
    as (_ & H & _ & H2); [done | done | by vm_compute |].
  split; [|apply H2; [reflexivity | split; [reflexivity | discriminate] ] ].
  rewrite (proj1 (H eq_refl)). vm_compute. reflexivity.
Defined.

Lemma rate_limit_exact_witness :
  exists os w', serve (RS := still_server) two_per_minute [1; 2; 1; 1; 2] sample_world = (Ok os, w') /\
  exists retry reset, os !! 3%nat = Some (Exc (rate_limit_exceeded 2 retry reset)) /\ 1 <= retry <= 60.
Proof.
  destruct (rate_limit_exact (RS := still_server) two_per_minute eq_refl [1; 2; 1; 1; 2] 0 0 sample_world)
    as (os & w' & E & H).
  - constructor; [|done|by vm_compute].
    intros i Hi. do 5 (destruct i as [|i]; [reflexivity|]). cbn in Hi. lia.
  - intros u Hu. rewrite !elem_of_cons, elem_of_nil in Hu. unfold uuid_ok. lia.
  - intros u _. apply lookup_empty.
  - by vm_compute.
  - destruct (H 3%nat 1 eq_refl) as (o & Ho & Hr). exists os, w'. split.
    + exact E.
    + change (earlier [1; 2; 1; 1; 2] 3 1 <? create_job_rate_limit two_per_minute) with false in Hr.
      destruct Hr as (retry & reset & -> & Hr). exists retry, reset. split; [exact Ho | exact Hr].
Defined.

Definition sample_page : JobListPageDTO := mkJobListPageDTO
  [mkJobPublicDTO 10 1 SLEEP (JObj [("duration_seconds", JNum 3); ("a", JStr "b")]) RUNNING "key" 1000000
     2500000 (Some 3000000) 1] (Some "cursor").

Lemma sample_page_ok : page_ok sample_page.
Proof.
  apply Forall_singleton. constructor; cbn.
  - done.
  - done.
  - reflexivity.
  - by vm_compute.
  - by vm_compute.
  - intros t [= <-]. by vm_compute.
Qed.

Lemma page_cache_roundtrip_witness :
  fst (cache_get_page (RS := still_server) (Some 1) None 20
    (snd (cache_set_page (RS := still_server) sample_settings (Some 1) None 20 sample_page sample_world)))
  = Ok (Some (as_cached sample_page)).
Proof.
  destruct (page_cache_roundtrip (RS := still_server) sample_settings (Some 1) None 20 sample_page 0
    sample_world
    (snd (cache_set_page (RS := still_server) sample_settings (Some 1) None 20 sample_page sample_world)))
    as [H _].
  - apply sample_page_ok.
  - done.
  - done.
  - reflexivity.
  - done.
  - by vm_compute.
  - vm_compute. reflexivity.
  - by rewrite H.
Defined.

Lemma cache_invalidation_contract_witness :
  fst (cache_get_page (RS := still_server) (Some 1) None 20
    (snd (cache_invalidate_owner (RS := still_server) 1 sample_world))) = Ok None.
Proof.
  destruct (cache_invalidation_contract (RS := still_server) sample_settings 1 0 0 sample_world
    (snd (cache_invalidate_owner (RS := still_server) 1 sample_world))) as [H _].
  - done.
  - done.
  - done.
  - apply no_newer_empty.
  - reflexivity.
  - reflexivity.
  - done.
  - done.
  - done.
  - by vm_compute.
  - by rewrite H by (by right).
Defined.

(** ** Two ways in which the cache serves a page that is no longer true *)

Definition pending_world : World := set_db (set_jobs listed_jobs (w_db sample_world)) sample_world.

Definition sample_cache : JobListCache := RedisJobListCache (RS := sample_server) sample_settings.

Definition at_time (t : datetime) (w : World) : World :=
  mkWorld (w_db w) (w_sessions w) (fun _ => t) (w_ticks w) (w_next_uuid w)
    (w_commit_plan w) (w_publish_plan w) (w_env w) (w_locked w) (w_broker w) (w_redis w) (w_pubsub w).

(** The statuses the user is shown, and the status in the database. *)
Definition shown (w : World) : list (uuid * JobStatus) :=
  match fst (list_jobs (JC := sample_cache) sample_current_user None None w) with
  | Ok page => (fun p => (jp_id p, jp_status p)) <$> pg_items page
  | Exc _ => []
  end.

Definition cancel (k : uuid) (w : World) : World :=
  snd (JobService.cancel_job (JC := sample_cache) sample_current_user k w).

(** A request for the list reads the rows; another request cancels a job and
    drops the cached pages; then the first stores its page.  [set_page] reads
    the version again, so the old page is stored under the new version and
    served from then on. *)
Definition race_world : World :=
  let '(jobs, w1) := with_uow (SqlAlchemyJobRepository.list_for_owner_keyset 1 None 21) pending_world in
  let w2 := cancel 12 w1 in
  match jobs with
  | Ok jobs => snd (set_page (JobListCache := sample_cache) (Some 1) None 20 (_build_job_list_page jobs 20) w2)
  | Exc _ => w2
  end.

Lemma stale_page_race :
  shown race_world = [(12, PENDING); (11, PENDING); (10, PENDING)] /\
  (j_status <$> db_jobs (w_db race_world) !! 12) = Some CANCELLED.
Proof. split; vm_compute; reflexivity. Qed.

(** The version of a list is forgotten seven days after the last invalidation:
    counting starts again, at the version of a page stored half a minute before. *)
Definition expired_version_world : World :=
  let week := 604800 in
  let w1 := snd (cache_invalidate_owner (RS := sample_server) 1 (at_time (seconds 0) pending_world)) in
  let w2 := snd (list_jobs (JC := sample_cache) sample_current_user None None
                   (at_time (seconds (week - 20)) w1)) in
  at_time (seconds (week + 8)) (cancel 12 (at_time (seconds (week + 1)) w2)).

Lemma version_expiry_serves_stale_page :
  shown expired_version_world = [(12, PENDING); (11, PENDING); (10, PENDING)] /\
  (j_status <$> db_jobs (w_db expired_version_world) !! 12) = Some CANCELLED.
Proof. split; vm_compute; reflexivity. Qed.
