(* ===== verification/CreationRate.v ===== *)
(** * CreationRate: the rate limiter and job creation together - how many jobs of
    a user are created within one window. *)
From S2P Require Import Prelude Exceptions Domain Store Effects Tables Text Config JsonText Iso JobRepo Repos.
From S2P Require Import PostCommit Invariants Steps JobService ServiceSpec ListJobs ListSpec.
From S2P Require Import Redis RateLimiter ListCache ListCacheSpec Freshness Staleness Samples RedisContracts.

(** ** One creation, and the entry of one key *)
Section creation.
Context `{DC : DispatchCodec} `{PG : PgDriver} `{RS : RedisServer}.
Context `{JC : JobListCache} `{JCL : !JobListCacheLaws JC}.
Context `{N : WorkerPostCommitNotifier} `{NL : !NotifierLaws N}.
Context (settings : Settings) (key : string).

(** The cache and the notifier leave the key alone. *)
Hypothesis cache_leaves : forall o w, w_redis (snd (invalidate_owner o w)) !! key = w_redis w !! key.
Hypothesis notify_leaves : forall n w, w_redis (snd (notify_job_state_changed n w)) !! key = w_redis w !! key.

#[local] Abbreviation limiter := (RedisCreateJobRateLimiter settings).
#[local] Abbreviation entry w := (w_redis w !! key).

Lemma wp_invalidate_entry o Q w work c :
  (forall w', frame w w' -> entry w' = entry w -> Q (Ok tt) (in_tx w' work c)) ->
  wp (invalidate_owner o) Q (in_tx w work c).
Proof using cache_leaves JCL.
  intros HQ. unfold wp. pose proof (cache_leaves o (in_tx w work c)) as He.
  pose proof (invalidate_framed o (in_tx w work c)) as F.
  pose proof (invalidate_total o (in_tx w work c)) as Ht. destruct (invalidate_owner o _) as [x w1].
  cbn [fst snd] in *. subst x. apply frame_in_tx in F as (w2 & -> & F). by apply HQ.
Qed.

Lemma wp_notify_entry n Q w work c :
  (forall w', frame w w' -> entry w' = entry w -> Q (Ok tt) (in_tx w' work c)) ->
  wp (_notify_post_commit n) Q (in_tx w work c).
Proof using notify_leaves NL.
  intros HQ. unfold wp, _notify_post_commit, mbind, M_bind, attempt.
  pose proof (notify_leaves n (in_tx w work c)) as He. pose proof (notify_framed n (in_tx w work c)) as F.
  destruct (notify_job_state_changed n _) as [x w1]. cbn [fst snd] in *.
  apply frame_in_tx in F as (w2 & -> & F). by apply HQ.
Qed.

(** What a creation does to the entry, from what reserving ([P]) and releasing
    ([F]) do to it: it stays as it was, or as reserving left it - always so when the
    job is reported as created -, or as releasing did. *)
Definition creation_entry (P : outcome (option CreateJobRateLimitReservationDTO) -> option RedisEntry -> Prop)
    (F : option RedisEntry -> Prop) (before : option RedisEntry) (o : outcome JobCreateResultDTO)
    (after : option RedisEntry) : Prop :=
  (exists res, P (Ok res) after /\ exists r, o = Ok r /\ jc_created r = true) \/
  ((forall r, o = Ok r -> jc_created r = false) /\
   (after = before \/ F after \/ exists x, P (Exc x) after)).

Lemma create_job_entry u ikey ty payload P F w :
  (forall w', entry w' = entry w -> w_clock w' = w_clock w -> w_ticks w' = w_ticks w ->
    P (fst (limiter_reserve settings (cu_id u) w')) (entry (snd (limiter_reserve settings (cu_id u) w')))) ->
  (forall r w', P (Ok (Some r)) (entry w') -> F (entry (snd (limiter_release r w')))) ->
  (forall e, P (Ok None) e -> F e) ->
  wp (JobService.create_job (RL := limiter) settings u ikey ty payload)
    (fun o w' => creation_entry P F (entry w) o (entry w')) w.
Proof using All.
  intros HP HF HN. unfold JobService.create_job. autounfold with repo. wp_run.
  assert (Hsame : forall o, (forall r, o = Ok r -> jc_created r = false) -> creation_entry P F (entry w) o (entry w)).
  { intros o Ho. right. split; [done | by left]. }
  destruct (scalar _) as [j|]; cbn [fmap option_fmap option_map]; wp_run.
  { destruct (_validate_existing_job _ _); wp_run; apply Hsame; [by intros r [= <-] | done]. }
  unfold wp at 1. pose proof (HP (in_tx (env_step (env_step w)) None false) eq_refl eq_refl eq_refl) as H1.
  pose proof (reserve_framed (RL := limiter) (cu_id u) (in_tx (env_step (env_step w)) None false)) as F1.
  cbn [reserve RedisCreateJobRateLimiter] in *.
  destruct (limiter_reserve settings (cu_id u) _) as [o w1]. cbn [fst snd] in *.
  apply frame_in_tx in F1 as (w2 & -> & F1). change (entry (in_tx w2 None false)) with (entry w2) in H1.
  destruct o as [reservation|e]; wp_run.
  2: { right. split; [done|]. right. right. by exists e. }
  apply insert_rows_redis. intros o w3 work c HR Ho. wp_run. destruct o as [sj|e]; wp_run.
  - apply wp_invalidate_entry. intros w4 F4 H4. wp_run. apply wp_notify_entry. intros w5 F5 H5. wp_run.
    left. exists reservation. rewrite H5, H4, HR. split; [exact H1|]. by eexists.
  - assert (Hrel : forall Q' k c',
      (forall w4, F (entry w4) -> Q' (Ok tt) (in_tx w4 k c')) ->
      wp (JobService.release_if_reserved (RL := limiter) reservation) Q' (in_tx w3 k c')).
    { intros Q' k c' HQ. destruct reservation as [r|]; cbn [JobService.release_if_reserved].
      - unfold wp. pose proof (HF r (in_tx w3 k c')) as H2.
        pose proof (release_framed (RL := limiter) r (in_tx w3 k c')) as F2.
        pose proof (release_total (RL := limiter) r (in_tx w3 k c')) as Ht.
        cbn [release RedisCreateJobRateLimiter] in *. destruct (limiter_release r _) as [x w4].
        cbn [fst snd] in *. subst x. apply frame_in_tx in F2 as (w5 & -> & F2). apply HQ. apply H2.
        change (entry (in_tx w3 k c')) with (entry w3). by rewrite HR.
      - wp_run. apply HQ, HN. by rewrite HR. }
    assert (Hend : forall o e', (forall r, o = Ok r -> jc_created r = false) -> F e' ->
      creation_entry P F (entry w) o e') by (intros; right; auto).
    destruct (is_duplicate_key_error e); wp_run; apply Hrel; intros w4 H4; wp_run; [|by apply Hend].
    unfold JobService._load_existing_job. autounfold with repo. wp_run.
    destruct (scalar _) as [j|]; cbn [fmap option_fmap option_map]; wp_run; [|by apply Hend].
    destruct (_validate_existing_job _ _); wp_run; apply Hend; try done; by intros r [= <-].
Qed.

End creation.

(** ** Calls that leave a key alone *)
Section apart.
Context `{RS : RedisServer}.

Lemma call_keeps {A} (f : Script A) key w :
  (forall t r, snd (f t r) !! key = r !! key) ->
  w_redis (snd (attempt (redis_call f) w)) !! key = w_redis w !! key.
Proof using.
  intros Hf. specialize (Hf (redis_time w) (w_redis w)). unfold attempt, redis_call.
  destruct (f _ _) as [o r]. by destruct (redis_answer w).
Qed.

Lemma call_apart {A} (f : Script A) key key' w :
  only_key key f -> key' <> key -> w_redis (snd (attempt (redis_call f) w)) !! key' = w_redis w !! key'.
Proof using. intros Hf Hk. apply call_keeps. intros t r. by apply Hf. Qed.

Lemma script_apart {A B} (f : Script A) (g : A -> Script B) key t r :
  (forall t r, snd (f t r) !! key = r !! key) -> (forall a t r, snd (g a t r) !! key = r !! key) ->
  snd ((f ≫= g) t r) !! key = r !! key.
Proof using.
  intros Hf Hg. specialize (Hf t r). unfold mbind, Script_bind. destruct (f t r) as [ [a|e] r1]; [|done].
  by rewrite Hg.
Qed.

End apart.

(** ** The window of a user *)
Section window.
Context `{DC : DispatchCodec} `{PG : PgDriver} `{JR : JsonReader} `{IR : IsoReader} `{RS : RedisServer}.
Context `{RP : RedisPublish} `{EC : JobStatusEventCodec}.
Context (settings : Settings) (u : uuid) (start : Z) (T : datetime).

#[local] Abbreviation cache := (RedisJobListCache settings).
#[local] Abbreviation notifier := (standard_notifier cache).
#[local] Abbreviation key := (window_key u start).
#[local] Abbreviation life := (seconds (create_job_rate_window_seconds settings + KEY_EXPIRY_MARGIN_SECONDS)).

Hypothesis in_range : fields_in_range settings = true.
Hypothesis user_ok : uuid_ok u.
Hypothesis up : forall w, redis_answer w = RedisOk.
Hypothesis timely : forall w, T <= redis_time w < T + life.
Hypothesis publish_keeps : forall c p w, w_redis (snd (redis_publish c p w)) = w_redis w.

(** The entry that counts [c] requests, and lives as long as the window. *)
Definition spent (e : option RedisEntry) (c : Z) : Prop :=
  0 <= c /\
  if c =? 0 then e = None
  else exists x, e = Some (mkRedisEntry (str_of_int c) (Some x)) /\ T + life <= x.

Lemma spent_counter r c t :
  spent (r !! key) c -> T <= t < T + life -> live t r key = r !! key /\ counter t r key c.
Proof using.
  intros [Hc H] Ht. unfold counter, live. destruct (Z.eqb_spec c 0) as [E|E].
  - by rewrite H.
  - destruct H as (x & Hx & Hle). rewrite Hx. cbn [re_expires_at].
    rewrite (proj2 (Z.ltb_lt t x)) by lia. split; [done|]. split; [done | lia].
Qed.

Lemma reserve_spends w c :
  spent (w_redis w !! key) c -> c + 1 < 2 ^ 63 -> window_start settings (w_clock w (w_ticks w)) = start ->
  let run := limiter_reserve settings u w in
  spent (w_redis (snd run) !! key) (c + 1) /\
  forall res, fst run = Ok res ->
    c + 1 <= create_job_rate_limit settings /\ exists r, res = Some r /\ rl_key r = key.
Proof using in_range up timely.
  intros Hs H63 Hw run. destruct (spent_counter (w_redis w) c (redis_time (tick w)) Hs (timely _)) as [Hl Hc].
  destruct (reserve_up settings in_range u w c) as (until & E & Hu);
    [by apply up | apply Hs | done | by rewrite Hw |].
  cbv zeta in E, Hu. rewrite Hw in E, Hu. rewrite Hl in Hu. unfold run. rewrite E.
  cbn [fst snd w_redis set_redis].
  rewrite lookup_insert_eq. split.
  - destruct Hs as [Hc0 Hs]. split; [lia|]. rewrite (proj2 (Z.eqb_neq (c + 1) 0)) by lia.
    destruct (Z.eqb_spec c 0) as [-> | ?].
    + rewrite Hs in Hu. subst until. eexists. split; [done|]. pose proof (timely (tick w)). lia.
    + destruct Hs as (x & Hx & Hle). rewrite Hx in Hu. subst until. by exists x.
  - intros res. unfold answer_to. destruct (Z.ltb_spec c (create_job_rate_limit settings)); [|done].
    intros [= <-]. split; [lia|]. eexists. split; [done|]. unfold reservation_of. cbn. by rewrite Hw.
Qed.

Lemma release_spends r w c :
  rl_key r = key -> spent (w_redis w !! key) (c + 1) -> 0 <= c -> c + 1 < 2 ^ 63 ->
  spent (w_redis (snd (limiter_release r w)) !! key) c.
Proof using up timely.
  intros Hk Hs Hc H63. destruct (spent_counter (w_redis w) (c + 1) (redis_time w) Hs (timely _)) as [Hl Hcu].
  unfold limiter_release, mbind, M_bind. rewrite Hk, attempt_redis_ok by apply up. cbn [fst snd w_redis set_redis].
  destruct Hs as [_ Hs]. rewrite (proj2 (Z.eqb_neq (c + 1) 0)) in Hs by lia. destruct Hs as (x & Hx & Hle).
  rewrite Hx in Hl. unfold RELEASE_CREATE_JOB_RATE_LIMIT_SCRIPT, mbind, Script_bind, GET. rewrite Hl.
  cbn [fmap option_fmap option_map re_value].
  assert (Hin : forall n, 0 <= n -> n < 2 ^ 63 -> in_int64 n = true).
  { intros n H0 H1. unfold in_int64. rewrite andb_true_iff, Z.leb_le, Z.ltb_lt. lia. }
  rewrite redis_int_str by (apply Hin; lia). destruct (Z.leb_spec (c + 1) 1).
  - cbn. rewrite lookup_delete_eq. split; [lia|]. by replace c with 0 by lia.
  - unfold DECR, INCRBY. rewrite Hl. cbn [re_value re_expires_at]. rewrite redis_int_str by (apply Hin; lia).
    rewrite (Hin (c + 1 + -1)) by lia. cbn [snd fst mret M_ret w_redis set_redis].
    rewrite lookup_insert_eq. split; [lia|].
    rewrite (proj2 (Z.eqb_neq c 0)) by lia. exists x. split; [|done]. do 3 f_equal. lia.
Qed.

(** Requests of other users, or in other windows, leave it alone. *)
Lemma window_key_tells v n : uuid_ok v -> window_key u start = window_key v n -> v = u /\ n = start.
Proof using user_ok.
  intros Hv H. destruct (owner_prefix_inj _ _ _ _ _ user_ok Hv H) as [-> E]. split; [done|].
  apply (app_inj_length _ _ _ _ eq_refl) in E as [_ E].
  pose proof (JsonRoundTrip.number_str_of_int start "" I) as H1.
  pose proof (JsonRoundTrip.number_str_of_int n "" I) as H2. rewrite E, H2 in H1. congruence.
Qed.

Lemma reserve_apart v w :
  uuid_ok v -> ~ (v = u /\ window_start settings (w_clock w (w_ticks w)) = start) ->
  w_redis (snd (limiter_reserve settings v w)) !! key = w_redis w !! key.
Proof using user_ok.
  intros Hv Hne. unfold limiter_reserve, mbind at 1, M_bind at 1, now. cbn [_build_window_key].
  set (n := window_start _ _) in *. set (ex := create_job_rate_window_seconds settings + _).
  unfold mbind, M_bind.
  pose proof (call_apart (CREATE_JOB_RATE_LIMIT_SCRIPT (window_key v n) ex) (window_key v n) key (tick w)
    (only_key_create_script _ ex) (fun E => Hne (window_key_tells v n Hv E))) as H.
  destruct (attempt _ (tick w)) as [ [ [ [used ttl]|e]|e] w1]; cbn [snd] in H |- *; [destruct (_ <? _)|..];
    (etrans; [exact H | done]).
Qed.

Lemma release_apart v n r w :
  uuid_ok v -> ~ (v = u /\ n = start) -> rl_key r = window_key v n ->
  w_redis (snd (limiter_release r w)) !! key = w_redis w !! key.
Proof using user_ok.
  intros Hv Hne Hk. unfold limiter_release, mbind, M_bind. rewrite Hk.
  pose proof (call_apart (RELEASE_CREATE_JOB_RATE_LIMIT_SCRIPT (window_key v n)) (window_key v n) key w
    (only_key_release_script _) (fun E => Hne (window_key_tells v n Hv E))) as H.
  destruct (attempt _ w) as [ [o|e] w1]; cbn [snd] in H |- *; (etrans; [exact H | done]).
Qed.

(** The key of a reservation is that of the window it was made in. *)
Lemma reserve_key v w r :
  fst (limiter_reserve settings v w) = Ok (Some r) ->
  rl_key r = window_key v (window_start settings (w_clock w (w_ticks w))).
Proof using.
  unfold limiter_reserve, mbind at 1, M_bind at 1, now. cbn [_build_window_key]. unfold mbind, M_bind.
  destruct (attempt _ (tick w)) as [ [ [ [used ttl]|e]|e] w1]; [|done..].
  destruct (_ <? _); [done|]. by intros [= <-].
Qed.

(** So do the cache and the notifier. *)
Lemma invalidate_apart o w : w_redis (snd (cache_invalidate_owner o w)) !! key = w_redis w !! key.
Proof using.
  unfold cache_invalidate_owner, mbind, M_bind.
  assert (H : forall t r, snd (invalidation o t r) !! key = r !! key).
  { intros t r. unfold invalidation. cbv zeta.
    pose proof (window_key_not_list u start (Some o)) as H1. pose proof (window_key_not_list u start None) as H2.
    cbn [version_key] in H1, H2. unfold INCR.
    repeat (apply script_apart; [intros; first [by apply only_key_incrby | by apply only_key_expire]|intros _ ? ?]).
    done. }
  pose proof (call_keeps (invalidation o) key w (fun t r => H t r)) as Hc.
  by destruct (attempt _ w) as [ [x|e] w1].
Qed.

Lemma notify_apart n w :
  w_redis (snd (notify_job_state_changed (WorkerPostCommitNotifier := notifier) n w)) !! key = w_redis w !! key.
Proof using publish_keeps.
  cbn [notify_job_state_changed standard_notifier CompositeWorkerPostCommitNotifier notify_all
    CacheInvalidatingWorkerPostCommitNotifier RedisPublishingWorkerPostCommitNotifier invalidate_owner
    RedisJobListCache]. unfold mbind, M_bind, attempt, uuid4.
  pose proof (invalidate_apart (pn_owner_id n) w) as H. destruct (cache_invalidate_owner _ w) as [o w1].
  cbn [snd] in H. unfold publish_event.
  match goal with |- context [redis_publish ?ch ?e ?wx] => set (pub := redis_publish ch e wx);
    assert (Hp : w_redis (snd pub) = w_redis w1) by (etrans; [apply publish_keeps | reflexivity]) end.
  destruct pub as [o2 w2]. cbn in *. by rewrite Hp.
Qed.

(** ** Runs *)

#[local] Abbreviation create_job := (JobService.create_job (RL := RedisCreateJobRateLimiter settings) (JC := cache)
  (N := notifier) settings).

(** A request that arrives in the window. *)
Definition arrives (v : CurrentUserDTO) (w : World) : bool :=
  (cu_id v =? u) && (window_start settings (w_clock w (w_ticks w)) =? start).

Definition created (o : outcome JobCreateResultDTO) : bool :=
  match o with Ok r => jc_created r | Exc _ => false end.

(** Requests of any users, one after the other, and anything else that leaves the
    counter alone; the number counts the jobs that requests of [u] arriving in the
    window were told to have created. *)
Inductive rate_step : World * Z -> World * Z -> Prop :=
| rate_create v ikey ty payload o w w' n :
    uuid_ok (cu_id v) -> create_job v ikey ty payload w = (o, w') ->
    rate_step (w, n) (w', if arrives v w && created o then n + 1 else n)
| rate_other w w' n : w_redis w' !! key = w_redis w !! key -> rate_step (w, n) (w', n).

#[local] Abbreviation allowed := (create_job_rate_limit settings).

Lemma own_creation v ikey ty payload o w w' c :
  arrives v w = true -> spent (w_redis w !! key) c -> c + 1 < 2 ^ 63 ->
  create_job v ikey ty payload w = (o, w') ->
  if created o then spent (w_redis w' !! key) (c + 1) /\ c + 1 <= allowed
  else spent (w_redis w' !! key) c \/ spent (w_redis w' !! key) (c + 1).
Proof using in_range up timely publish_keeps.
  unfold arrives. rewrite andb_true_iff, !Z.eqb_eq. intros [Hv Hw] Hs H63 Hrun.
  set (P := fun (o : outcome (option CreateJobRateLimitReservationDTO)) (e : option RedisEntry) =>
    spent e (c + 1) /\ forall res, o = Ok res -> c + 1 <= allowed /\ exists r, res = Some r /\ rl_key r = key).
  pose proof (create_job_entry (JC := cache) (N := notifier) settings key
    (fun o w => invalidate_apart o w) notify_apart v ikey ty payload P (fun e => spent e c) w) as HW.
  destruct (fun H1 H2 H3 => wp_run_elim _ _ _ _ _ (HW H1 H2 H3) Hrun)
    as [(res & [H1 H2] & r & -> & Hr)|[Hno He] ].
  - intros w1 E1 E2 E3. rewrite Hv. apply reserve_spends; [by rewrite E1 | done | by rewrite E2, E3].
  - intros r w1 [H1 H2]. destruct (H2 _ eq_refl) as (_ & r' & [= <-] & Hk).
    apply release_spends; [done | done | apply Hs | done].
  - intros e [_ H2]. by destruct (H2 _ eq_refl) as (_ & r' & ? & _).
  - unfold created. rewrite Hr. split; [exact H1|]. apply (H2 res eq_refl).
  - assert (Hc : created o = false) by (destruct o as [r|]; [by apply Hno | done]). rewrite Hc.
    destruct He as [-> |[H|[x [H _] ] ] ]; auto.
Qed.

Lemma other_creation v ikey ty payload o w w' :
  uuid_ok (cu_id v) -> arrives v w = false -> create_job v ikey ty payload w = (o, w') ->
  w_redis w' !! key = w_redis w !! key.
Proof using user_ok publish_keeps.
  unfold arrives. rewrite andb_false_iff, !Z.eqb_neq. intros Hok Hne Hrun.
  set (s := window_start settings (w_clock w (w_ticks w))) in *.
  assert (Hn : ~ (cu_id v = u /\ s = start)) by tauto.
  set (P := fun (o : outcome (option CreateJobRateLimitReservationDTO)) (e : option RedisEntry) =>
    e = w_redis w !! key /\ forall r, o = Ok (Some r) -> rl_key r = window_key (cu_id v) s).
  pose proof (create_job_entry (JC := cache) (N := notifier) settings key
    (fun o w => invalidate_apart o w) notify_apart v ikey ty payload P (fun e => e = w_redis w !! key) w) as HW.
  destruct (fun H1 H2 H3 => wp_run_elim _ _ _ _ _ (HW H1 H2 H3) Hrun)
    as [(res & [H1 _] & _)|[_ [H|[H|[x [H _] ] ] ] ] ]; try done.
  - intros w1 E1 E2 E3. assert (Es : window_start settings (w_clock w1 (w_ticks w1)) = s) by by rewrite E2, E3.
    split; [|by intros r <-%reserve_key%eq_sym; rewrite Es].
    rewrite <- E1. apply reserve_apart; [done|]. by rewrite Es.
  - intros r w1 [H1 H2]. rewrite <- H1. by apply (release_apart (cu_id v) s); [..|apply H2].
  - by intros e [H _].
Qed.

Lemma rate_run m x y :
  nsteps rate_step m x y -> forall c, spent (w_redis (fst x) !! key) c -> snd x <= c -> snd x <= allowed ->
  c + Z.of_nat m < 2 ^ 63 ->
  exists c', spent (w_redis (fst y) !! key) c' /\ snd y <= c' /\ snd y <= allowed.
Proof using in_range user_ok up timely publish_keeps.
  induction 1 as [x|m x y z Hxy _ IH]; intros c Hs Hc Hl H63; [by exists c|].
  rewrite Nat2Z.inj_succ in H63.
  destruct Hxy as [v ikey ty payload o w w' n Hv Hrun|w w' n Hk]; cbn [fst snd] in *.
  - destruct (arrives v w) eqn:Ha.
    + pose proof (own_creation v ikey ty payload o w w' c Ha Hs ltac:(lia) Hrun) as HO.
      cbn [andb] in IH. revert HO IH. destruct (created o); intros HO IH; [destruct HO; apply (IH (c + 1)); cbn [fst snd]; (done || lia)|].
      destruct HO; [apply (IH c) | apply (IH (c + 1))]; cbn [fst snd]; (done || lia).
    + cbn [andb] in IH. apply (IH c); cbn [fst snd]; [|done || lia..]. by rewrite (other_creation v ikey ty payload o w w' Hv Ha Hrun).
  - apply (IH c); cbn [fst snd]; [|done || lia..]. by rewrite Hk.
Qed.

End window.

Section bound.
Context `{DC : DispatchCodec} `{PG : PgDriver} `{JR : JsonReader} `{IR : IsoReader} `{RS : RedisServer}.
Context `{RP : RedisPublish} `{EC : JobStatusEventCodec} (settings : Settings).

(** The promise behind the rate limit: in any run of creation requests of any
    users, with whatever else leaves the counter of the window alone between them,
    the requests of a user that arrive within one window are told of at most
    CREATE_JOB_RATE_LIMIT created jobs - repeated keys, lost races and failed
    transactions, which give their reservation back, included - as long as Redis
    answers and its clock stays within the life of the counter. *)
Theorem creation_rate_bounded u start T m w0 w n :
  fields_in_range settings = true -> uuid_ok u ->
  (forall w, redis_answer w = RedisOk) ->
  (forall w, T <= redis_time w < T + seconds (create_job_rate_window_seconds settings + KEY_EXPIRY_MARGIN_SECONDS)) ->
  (forall c p w, w_redis (snd (redis_publish c p w)) = w_redis w) ->
  w_redis w0 !! window_key u start = None -> Z.of_nat m < 2 ^ 63 ->
  nsteps (rate_step settings u start) m (w0, 0) (w, n) ->
  n <= create_job_rate_limit settings.
Proof using.
  intros Hr Hu Hup Ht Hp Hnone Hm Hrun.
  destruct (rate_run settings u start T Hr Hu Hup Ht Hp m _ _ Hrun 0) as (c & _ & _ & Hn); [done..| |done|done].
  cbn [snd]. pose proof (window_pos settings Hr). lia.
Qed.

End bound.

(** ** On a concrete run *)

#[local] Existing Instance still_server.

(** A request of user 1 for a new job. *)
Definition submit (ikey : string) (x : World * Z) : World * Z :=
  let run := JobService.create_job (RL := RedisCreateJobRateLimiter two_per_minute)
    (JC := RedisJobListCache two_per_minute) (N := standard_notifier (RedisJobListCache two_per_minute))
    two_per_minute sample_current_user ikey SUCCESS (JObj []) (fst x) in
  (snd run, if arrives two_per_minute 1 0 sample_current_user (fst x) && created (fst run)
            then snd x + 1 else snd x).

Lemma submit_step ikey x : rate_step two_per_minute 1 0 x (submit ikey x).
Proof.
  destruct x as [w n]. apply (rate_create two_per_minute 1 0 sample_current_user ikey SUCCESS (JObj [])
    (fst (JobService.create_job (RL := RedisCreateJobRateLimiter two_per_minute)
    (JC := RedisJobListCache two_per_minute) (N := standard_notifier (RedisJobListCache two_per_minute))
    two_per_minute sample_current_user ikey SUCCESS (JObj []) w))); [|apply surjective_pairing].
  unfold uuid_ok. cbn. lia.
Qed.

Lemma creation_rate_bounded_witness :
  snd (submit "key-3" (submit "key-2" (submit "key-1" (sample_world, 0)))) = 2 /\
  snd (submit "key-3" (submit "key-2" (submit "key-1" (sample_world, 0)))) <= 2.
Proof.
  split; [vm_compute; reflexivity|].
  refine (creation_rate_bounded two_per_minute 1 0 0 3 sample_world
    (fst (submit "key-3" (submit "key-2" (submit "key-1" (sample_world, 0)))))
    (snd (submit "key-3" (submit "key-2" (submit "key-1" (sample_world, 0))))) _ _ _ _ _ _ _ _).
  - vm_compute. reflexivity.
  - unfold uuid_ok. lia.
  - intros w. reflexivity.
  - intros w. vm_compute. split; [discriminate | reflexivity].
  - intros c p w. reflexivity.
  - apply lookup_empty.
  - lia.
  - rewrite <- surjective_pairing. eapply nsteps_l; [apply submit_step|]. eapply nsteps_l; [apply submit_step|].
    apply nsteps_once, submit_step.
Defined.

(** What the bound does not cover: when only the acknowledgement of the COMMIT is
    lost the job is stored, its creator is told of a failure, and the reservation
    is given back. *)
Lemma unacknowledged_creation_uncounted :
  let w := mkWorld sample_db [] (w_clock sample_world) 0 100 [CommitUnacknowledged "lost"] [] [] ∅ [] ∅ [] in
  let w' := fst (submit "key-1" (w, 0)) in
  j_status <$> db_jobs (w_db w') !! 100 = Some PENDING /\ w_redis w' !! window_key 1 0 = None.
Proof. split; vm_compute; reflexivity. Qed.
