(* ===== verification/InterleavedRate.v ===== *)
(** * InterleavedRate: the promise of the rate limit when the creation requests of
    all users interleave at every await. *)
From S2P Require Import Prelude Exceptions Domain Store Effects Tables Text Config JsonText Iso JobRepo Repos.
From S2P Require Import PostCommit Invariants Steps JobService ServiceSpec ListJobs ListSpec.
From S2P Require Import Redis RateLimiter ListCache ListCacheSpec Freshness Staleness Samples RedisContracts.
From S2P Require Import CreationSteps CreationRate.

Section interleaved.
Context `{DC : DispatchCodec} `{PG : PgDriver} `{JR : JsonReader} `{IR : IsoReader} `{RS : RedisServer}.
Context `{RP : RedisPublish} `{EC : JobStatusEventCodec}.
Context (settings : Settings) (u : uuid) (start : Z).

#[local] Abbreviation cache := (RedisJobListCache settings).
#[local] Abbreviation notifier := (standard_notifier cache).
#[local] Abbreviation key := (window_key u start).
#[local] Abbreviation advance :=
  (advance (RL := RedisCreateJobRateLimiter settings) (JC := cache) (N := notifier) settings).
#[local] Abbreviation arrives := (arrives settings u start).

(** The requests in progress and done, each with whether it asked the limiter for
    the user [u] within the window. *)
#[local] Abbreviation Requests := (gmap Z (Creation * bool)).








(** ** One step of one request *)

Context (T : datetime).
#[local] Abbreviation life := (seconds (create_job_rate_window_seconds settings + KEY_EXPIRY_MARGIN_SECONDS)).
#[local] Abbreviation spent := (spent settings T).
#[local] Abbreviation entry w := (w_redis w !! key).
#[local] Abbreviation allowed := (create_job_rate_limit settings).

Hypothesis in_range : fields_in_range settings = true.
Hypothesis user_ok : uuid_ok u.
Hypothesis up : forall w, redis_answer w = RedisOk.
Hypothesis timely : forall w, T <= redis_time w < T + life.
Hypothesis publish_keeps : forall c p w, w_redis (snd (redis_publish c p w)) = w_redis w.












#[local] Abbreviation after_insert :=
  (after_insert (RL := RedisCreateJobRateLimiter settings) (JC := cache) (N := notifier)).





(** ** Runs *)






End interleaved.



Section bound.
Context `{DC : DispatchCodec} `{PG : PgDriver} `{JR : JsonReader} `{IR : IsoReader} `{RS : RedisServer}.
Context `{RP : RedisPublish} `{EC : JobStatusEventCodec} (settings : Settings).


End bound.

(** ** On a concrete run: three requests that all look before any reserves *)

#[local] Existing Instance still_server.







