(* ===== verification/StreamContracts.v ===== *)
(** * StreamContracts: the event stream of a job. *)
From S2P Require Import Prelude Exceptions Domain Store Effects Text PostCommit JobRepo JobService.
From S2P Require Import Worker EventStream StreamSpec Samples.

Section contracts.
Context `{EC : JobStatusEventCodec} `{DT : DatetimeText}.

(** C36. The stream of a job: a job the user may not see gives the error of
    [get_job_detail] and no stream.  Otherwise the first event is the state the
    job was loaded in.  If that is final the stream ends there; if not, it carries
    the events received for the job, in their order and without a gap, up to the
    first final one, which ends it; then comes at most one keep-alive or the
    error event.  Whenever the response ends the subscription is closed. *)
Theorem stream_contract current_user job_id polls gone w :
  match fst (JobService.get_job_detail current_user job_id w) with
  | Exc e => fst (stream_job_events current_user job_id polls gone w) = Exc e
  | Ok job =>
      exists snapshot frames ending s,
      fst (stream_job_events current_user job_id polls gone w)
      = Ok (_format_sse_event snapshot :: frames, ending, s) /\
      se_job_id snapshot = jp_id job /\ se_status snapshot = jp_status job /\
      (ending <> StillOpen -> s = mkSubscription false false) /\
      if terminal snapshot then frames = [] /\ ending = TerminalSent
      else exists events tail, carried polls frames ending events tail
  end.
Proof using.
  unfold stream_job_events, mbind, M_bind.
  destruct (JobService.get_job_detail current_user job_id w) as [ [job|e] w1]; [|done]. cbn [fst uuid4 mret M_ret].
  set (snapshot := _job_snapshot_event (w_next_uuid w1) job). unfold event_stream.
  change (is_terminal_status (se_status snapshot)) with (terminal snapshot). exists snapshot.
  destruct (terminal snapshot); [by eexists _, _, _|]. unfold subscribed_stream.
  destruct (loop_carries (List.length polls + 2) polls gone (mkSubscription true true))
    as (frames & ending & s' & events & tl & -> & Hc); [lia|].
  eexists frames, ending, _. do 3 (split; [done|]). split; [by destruct ending | by exists events, tl].
Qed.


(** A keep-alive is the last thing a client hears: [wait_for] cancels the
    generator, which is over from then on. *)
Lemma keep_alive_is_last snapshot polls gone before after_ :
  terminal snapshot = false ->
  fst (fst (event_stream snapshot polls gone)) = before ++ keep_alive :: after_ -> after_ = [].
Proof using.
  intros Ht. unfold event_stream.
  change (is_terminal_status (se_status snapshot)) with (terminal snapshot). rewrite Ht.
  unfold subscribed_stream.
  destruct (loop_carries (List.length polls + 2) polls gone (mkSubscription true true))
    as (frames & ending & s' & events & tl & -> & Hc); [lia|]. cbn [fst]. intros H.
  assert (Hne : forall e, _format_sse_event e <> keep_alive) by (intros e He; discriminate He).
  rewrite (ca_frames _ _ _ _ _ Hc) in H. change (_format_sse_event snapshot :: _)
    with ((_format_sse_event <$> (snapshot :: events)) ++ tl) in H.
  apply app_eq_inv in H as [(l & H & Hl)|(l & _ & Hl)].
  - destruct l as [|x l].
    + cbn in Hl. pose proof (ca_tail _ _ _ _ _ Hc) as Hta. rewrite <- Hl in Hta.
      destruct ending; cbn in Hta; try congruence; destruct Hta; congruence.
    + injection Hl as <- Hl. exfalso.
      assert (Hin : keep_alive ∈ _format_sse_event <$> (snapshot :: events)).
      { rewrite H. apply elem_of_app. right. left. }
      apply list_elem_of_fmap in Hin as (e & He & _). by apply (Hne e).
  - pose proof (ca_tail _ _ _ _ _ Hc) as Hta. rewrite Hl in Hta.
    destruct ending; cbn in Hta; try (by destruct l); try destruct Hta as [Hta|Hta];
      (destruct l as [|x [|y l] ]; [|discriminate Hta..]); try discriminate Hta; injection Hta as Hta; try done.
Qed.

End contracts.

(** ** On concrete inputs *)

#[export] Instance sample_datetime_text : DatetimeText := {| datetime_text := str_of_int |}.

Definition status_event (id : uuid) (status : JobStatus) : JobStatusEvent :=
  mkJobStatusEvent id 100 status 1 5000000 None.

Definition published (event : JobStatusEvent) : Poll :=
  mkPoll (Message (DataBytes (Some (event_dump_json event)))) 10.
Definition silence : Poll := mkPoll NoMessage 1000.


(** A job that runs for longer than the heartbeat: its end is never sent. *)
Lemma completion_after_keep_alive_is_lost :
  event_stream (status_event 1 RUNNING) (replicate 16 silence ++ [published (status_event 2 COMPLETED)]) []
  = ([_format_sse_event (status_event 1 RUNNING); keep_alive], IteratorOver, mkSubscription false false).
Proof. vm_compute. reflexivity. Qed.

(** A job that ends between the load of its state and the subscription: the worker
    has published the end, the stream shows the old state and is over. *)
Lemma completion_before_subscription_is_lost :
  let load := stream_job_events sample_current_user 100 (replicate 16 silence) [] sample_world3 in
  let later := snd (JobWorker._mark_completed (N := standard_notifier NoOpJobListCache)
    sample_claim (snd load)) in
  fst load = Ok ([_format_sse_event (mkJobStatusEvent 103 100 RUNNING 1 7000000 None); keep_alive],
    IteratorOver, mkSubscription false false) /\
  j_status <$> db_jobs (w_db later) !! 100 = Some COMPLETED /\
  fst <$> w_pubsub later = [channel_name 100].
Proof. split; [|split]; vm_compute; reflexivity. Qed.
