(* ===== verification/AuthContracts.v ===== *)
(** * AuthContracts: registration, login and access tokens. *)
From S2P Require Import Prelude Exceptions Domain Store Effects Tables Text Config JsonText Iso.
From S2P Require Import JobRepo Repos Auth AuthSpec Invariants ListCacheSpec Samples.

Section contracts.
Context `{PH : PasswordHash} `{PJ : PyJWT} `{FT : FloatTime} `{PG : PgDriver} (settings : Settings).

(** ** Registration *)

(** The row [register_user] inserts. *)
Definition registered (email password : string) (w : World) : User :=
  mkUser (w_next_uuid w + 1) (normalize_email email) (pw_hash (w_next_uuid w) password) USER true
    (w_clock w (w_ticks w)) (w_clock w (S (w_ticks w))).

(** What registration answers and leaves behind, when the SELECT runs on [d1]
    and the INSERT on [d2]. *)
Definition registration (d1 d2 : DB) (user : User) (commit : CommitOutcome)
    (o : outcome UserPublicDTO) (d' : DB) : Prop :=
  let added := set_users (<[u_id user := user]> (db_users d2)) d2 in
  if email_taken (u_email user) d1 then o = Exc (app_err DuplicateEmailError) /\ d' = d1
  else if email_taken (u_email user) d2 then o = Exc (app_err DuplicateEmailError) /\ d' = d2
  else match commit with
    | CommitOk => o = Ok (to_user_public_dto user) /\ d' = added
    | CommitLost m => o = Exc (InfraErr m) /\ d' = d2
    | CommitUnacknowledged m => o = Exc (InfraErr m) /\ d' = added
    end.

Lemma register_runs email password w :
  let d2 := w_db (env_step (env_step w)) in
  db_users d2 !! u_id (registered email password w) = None ->
  wp (register_user email password) (fun o w' =>
    registration (w_db (env_step w)) d2 (registered email password w)
      (default CommitOk (head (w_commit_plan w))) o (w_db w')) w.
Proof using.
  intros d2 Hk. set (user := registered email password w) in *. unfold registration.
  rewrite !email_taken_named. change (u_email user) with (normalize_email email).
  unfold register_user, hash_password. autounfold with repo. wp_run.
  change (scalar _) with (user_named (normalize_email email) (w_db (env_step w))).
  destruct (user_named (normalize_email email) (w_db (env_step w))) as [u|]; [by wp_run|].
  rewrite (bool_decide_eq_false_2 (is_Some None)) by (by intros []). wp_run.
  change (w_db (env_step _)) with d2. change (mkUser _ _ _ _ _ _ _) with user.
  unfold insert_user. rewrite Hk, bool_decide_eq_false_2 by (by intros []).
  rewrite email_taken_named. change (u_email user) with (normalize_email email).
  destruct (bool_decide (is_Some (user_named (normalize_email email) d2))).
  - rewrite unique_email_is_duplicate. by wp_run.
  - wp_run. change (w_commit_plan (env_step _)) with (w_commit_plan w).
    by destruct (default CommitOk (head (w_commit_plan w))).
Qed.

(** C34. Registration, whatever other requests commit before or between its two
    statements: when the normalised address is taken - found by the SELECT, or
    reported by the unique constraint - [DuplicateEmailError] and nothing written;
    otherwise one new active row with the role USER, the normalised address and a hash
    of the password, whole or not at all as the COMMIT ends.  Addresses stay
    unique. *)
Theorem register_contract email password w o w' :
  let d1 := w_db (env_step w) in
  let d2 := w_db (env_step (env_step w)) in
  let user := registered email password w in
  register_user email password w = (o, w') -> db_users d2 !! u_id user = None ->
  registration d1 d2 user (default CommitOk (head (w_commit_plan w))) o (w_db w') /\
  (emails_unique d1 -> emails_unique d2 -> emails_unique (w_db w')).
Proof using.
  intros d1 d2 user Hrun Hk.
  assert (HR := wp_run_elim _ _ _ _ _ (register_runs email password w Hk) Hrun).
  fold d1 d2 user in HR. split; [exact HR|]. intros H1 H2. revert HR. unfold registration.
  destruct (email_taken (u_email user) d1); [by intros [_ ->]|].
  destruct (email_taken (u_email user) d2) eqn:Hf; [by intros [_ ->]|].
  destruct (default CommitOk _); intros [_ ->]; [|done|];
    (apply emails_unique_insert; [done|]; intros k u _; by apply email_free).
Qed.

(** ** Administrators *)

(** The administrator an address ends up as. *)
Definition is_admin (email password : string) (u : User) : Prop :=
  u_email u = email /\ u_role u = ADMIN /\ u_is_active u = true /\
  pw_verify password (u_password_hash u) = Ok true.

Lemma admin_runs email password w :
  w_env w = [] -> head (w_commit_plan w) = None -> keyed u_id (db_users (w_db w)) ->
  db_users (w_db w) !! (w_next_uuid w + 1) = None ->
  wp (create_or_update_admin email password) (fun o w' => exists u,
    o = Ok (to_user_public_dto u) /\ is_admin (normalize_email email) password u /\
    db_users (w_db w') = <[u_id u := u]> (db_users (w_db w)) /\
    match user_named (normalize_email email) (w_db w) with
    | Some old => u_id u = u_id old /\ u_created_at u = u_created_at old
    | None => u_id u = w_next_uuid w + 1
    end) w.
Proof using.
  intros He Hc Hkey Hk. unfold create_or_update_admin, hash_password. autounfold with repo. wp_run. no_env.
  change (w_db (bump_uuid w)) with (w_db w). change (w_commit_plan (bump_uuid w)) with (w_commit_plan w).
  change (scalar _) with (user_named (normalize_email email) (w_db w)).
  destruct (user_named (normalize_email email) (w_db w)) as [old|] eqn:Hu.
  - apply user_named_spec in Hu as (Hold & k & Hin). pose proof (Hkey _ _ Hin) as <-.
    unfold SqlAlchemyUserRepository.flush_admin.
    destruct (String.eqb (u_password_hash old) _ && _ && _) eqn:Hsame.
    + rewrite !andb_true_iff, String.eqb_eq, bool_decide_eq_true in Hsame.
      destruct Hsame as [ [Hh Hr] Ha]. wp_run. rewrite Hc. cbn. exists old. split; [done|].
      split; [|split; [by rewrite insert_id | done] ].
      split; [done|]. split; [done|]. split; [done|]. rewrite Hh. apply pw_verify_hash.
    + wp_run. rewrite Hc. eexists. split; [reflexivity|]. cbn. split; [|done].
      split; [done|]. split; [done|]. split; [done|]. apply pw_verify_hash.
  - wp_run. unfold insert_user. cbn [u_id u_email]. rewrite Hk, bool_decide_eq_false_2 by (by intros []).
    rewrite email_taken_named, Hu, bool_decide_eq_false_2 by (by intros []). wp_run.
    rewrite Hc. eexists. split; [reflexivity|]. cbn. split; [|done].
    split; [done|]. split; [done|]. split; [done|]. apply pw_verify_hash.
Qed.

(** The administrator command: afterwards the address belongs to an active
    administrator whose hash the password verifies against - the account it
    already had, with its id and creation time, or a new one - and every other
    row is as before. *)
Theorem admin_contract email password w o w' :
  w_env w = [] -> head (w_commit_plan w) = None -> keyed u_id (db_users (w_db w)) ->
  db_users (w_db w) !! (w_next_uuid w + 1) = None ->
  create_or_update_admin email password w = (o, w') -> exists u,
  o = Ok (to_user_public_dto u) /\ is_admin (normalize_email email) password u /\
  db_users (w_db w') = <[u_id u := u]> (db_users (w_db w)) /\
  match user_named (normalize_email email) (w_db w) with
  | Some old => u_id u = u_id old /\ u_created_at u = u_created_at old
  | None => u_id u = w_next_uuid w + 1
  end.
Proof using.
  intros He Hc Hkey Hk. exact (wp_run_elim _ _ _ _ _ (admin_runs email password w He Hc Hkey Hk)).
Qed.

(** ** Login *)

Definition bad_credentials : exn := app_err_msg AuthenticationError "Invalid email or password".

Definition expiry (t : datetime) : datetime := t + seconds (60 * access_token_ttl_minutes settings).

(** The token of a user issued at [t]. *)
Definition token_of (u : User) (t : datetime) (jti : uuid) : string :=
  jwt_encode (token_payload (u_id u) (u_role u) t (expiry t) jti) (jwt_secret settings) jwt_algorithm.

(** C35. Login changes nothing in the database.  An unknown address and a wrong
    password are answered alike, an inactive account is refused only to who knows
    its password, and everybody else gets a bearer token for his own id and role
    that expires after ACCESS_TOKEN_TTL_MINUTES. *)
Theorem login_contract email password w :
  let run := login_user settings email password w in
  let t := w_clock w (w_ticks w) in
  w_db (snd run) = w_db (env_step w) /\
  fst run =
    match user_named (normalize_email email) (w_db (env_step w)) with
    | None => Exc bad_credentials
    | Some u =>
        match pw_verify password (u_password_hash u) with
        | Exc e => Exc e
        | Ok false => Exc bad_credentials
        | Ok true =>
            if negb (u_is_active u) then Exc (app_err InactiveUserError)
            else if in_calendar (expiry t)
            then Ok (mkLoginResultDTO (token_of u t (w_next_uuid w)) "bearer" (expiry t))
            else Exc (OtherErr "OverflowError" "date value out of range")
        end
    end.
Proof using.
  intros run t. enough (H : wp (login_user settings email password) (fun o w' => w_db w' = w_db (env_step w) /\
    o = match user_named (normalize_email email) (w_db (env_step w)) with _ => _ end) w) by exact H.
  unfold login_user. autounfold with repo. wp_run.
  change (scalar _) with (user_named (normalize_email email) (w_db (env_step w))).
  destruct (user_named _ _) as [u|]; [|by wp_run]. wp_run. unfold verify_password.
  destruct (pw_verify password (u_password_hash u)) as [ [|]|e]; wp_run; [|done..].
  destruct (u_is_active u); wp_run; [|done]. unfold create_access_token. wp_run.
  fold (expiry (w_clock w (w_ticks w))). destruct (in_calendar _); by wp_run.
Qed.

(** ** Sessions *)

Lemma in_calendar_spec t : in_calendar t = true <-> representable t.
Proof using. unfold in_calendar, representable. rewrite andb_true_iff, !Z.leb_le. lia. Qed.

Lemma timestamp_seconds t : in_calendar t = true -> forall w, timestamp (epoch_seconds t) w
  = (Ok (seconds (epoch_seconds t)), w).
Proof using.
  intros Ht w. unfold timestamp.
  assert (Hd : seconds (epoch_seconds t) / day_us = t / day_us).
  { unfold seconds, epoch_seconds, day_us in *. Z.to_euclidean_division_equations. lia. }
  unfold in_calendar in *. rewrite Hd, Ht. unfold epoch_seconds.
  apply in_calendar_spec in Ht. unfold representable, day_us in Ht.
  rewrite (proj2 (Z.leb_le _ _)), (proj2 (Z.ltb_lt _ _)); [done|..];
    Z.to_euclidean_division_equations; lia.
Qed.

Lemma read_token_payload u role t e jti w :
  uuid_ok u -> in_calendar t = true -> in_calendar e = true ->
  read_payload (token_payload u role t e jti) w
  = (Ok (mkAccessTokenPayload u role (seconds (epoch_seconds t)) (seconds (epoch_seconds e))
           (str_of_uuid jti)), w).
Proof using.
  intros Hu Ht He. unfold read_payload, item, token_payload.
  cbn [json_get String.eqb Ascii.eqb Bool.eqb]. unfold mbind, M_bind. cbn [mret M_ret uuid_of_json role_of_json].
  rewrite UuidRoundTrip.parse_str_of_uuid, parse_user_role_value by done. cbn [mret M_ret lift fromtimestamp].
  by rewrite !timestamp_seconds by done.
Qed.

Lemma decode_token u t jti w :
  uuid_ok (u_id u) -> in_calendar t = true -> in_calendar (expiry t) = true ->
  t <= w_clock w (w_ticks w) ->
  decode_access_token settings (token_of u t jti) w =
  (if w_clock w (w_ticks w) <? seconds (epoch_seconds (expiry t))
   then Ok (mkAccessTokenPayload (u_id u) (u_role u) (seconds (epoch_seconds t))
              (seconds (epoch_seconds (expiry t))) (str_of_uuid jti))
   else Exc (app_err_msg AuthenticationError "Access token has expired"), tick w).
Proof using.
  intros Hid Ht He Hle. unfold decode_access_token, token_of, now. unfold mbind at 1, M_bind at 1.
  set (payload := token_payload (u_id u) (u_role u) t (expiry t) jti).
  assert (HI : issued payload (epoch_seconds t) (epoch_seconds (expiry t))).
  { constructor; [by eexists | by eexists | done | done]. }
  assert (HN : NoDup (fst <$> payload)) by (apply (bool_decide_unpack _); vm_compute; reflexivity).
  assert (Hi : seconds (epoch_seconds t) <= w_clock w (w_ticks w)).
  { unfold seconds, epoch_seconds. pose proof (Z.mul_div_le t 1000000). lia. }
  destruct (Z.ltb_spec (w_clock w (w_ticks w)) (seconds (epoch_seconds (expiry t)))).
  - rewrite (jwt_decode_valid _ payload _ _ (epoch_seconds t) (epoch_seconds (expiry t))) by done.
    unfold mbind at 1, M_bind at 1, attempt, payload. by rewrite read_token_payload by done.
  - by rewrite (jwt_decode_expired _ payload _ _ (epoch_seconds t) (epoch_seconds (expiry t))) by done.
Qed.

(** C33. Sessions: the token a login returned identifies its user from then on
    until the expiry second, in whatever state the database is by then: as the
    row now says (role included), refused once the account is deactivated or gone,
    and refused as expired afterwards. *)
Theorem session_contract email password w r w1 w2 :
  login_user settings email password w = (Ok r, w1) ->
  (forall k u, db_users (w_db (env_step w)) !! k = Some u -> u_id u = k /\ uuid_ok k) ->
  in_calendar (w_clock w (w_ticks w)) = true -> w_clock w (w_ticks w) <= w_clock w2 (w_ticks w2) ->
  exists u, user_named (normalize_email email) (w_db (env_step w)) = Some u /\
  fst (get_current_user settings (lr_access_token r) w2) =
    if w_clock w2 (w_ticks w2) <? seconds (epoch_seconds (lr_expires_at r))
    then match db_users (w_db (env_step w2)) !! u_id u with
      | Some u' =>
          if u_is_active u' then Ok (mkCurrentUserDTO (u_id u') (u_email u') (u_role u') true)
          else Exc (app_err InactiveUserError)
      | None => Exc (app_err_msg AuthenticationError "Access token is invalid")
      end
    else Exc (app_err_msg AuthenticationError "Access token has expired").
Proof using.
  intros Hrun Hids Hc Hle. destruct (login_contract email password w) as [_ HL]. rewrite Hrun in HL.
  cbn [fst] in HL. destruct (user_named (normalize_email email) _) as [u|] eqn:Hu; [|done]. exists u.
  split; [done|]. apply user_named_spec in Hu as (_ & k & Hk). apply Hids in Hk as [<- Hid].
  destruct (pw_verify _ _) as [ [|]|]; [|done..]. destruct (u_is_active u); [|done]. cbn [negb] in HL.
  destruct (in_calendar (expiry _)) eqn:He; [|done]. injection HL as ->. cbn [lr_access_token lr_expires_at].
  set (t := w_clock w (w_ticks w)) in *. set (t2 := w_clock w2 (w_ticks w2)) in *.
  unfold get_current_user. unfold mbind at 1, M_bind at 1. rewrite decode_token by done.
  fold t2. destruct (t2 <? _); [|done]. cbn [tp_subject].
  enough (Hw : forall (m : M CurrentUserDTO) o, wp m (fun o' _ => o' = o) (tick w2) -> fst (m (tick w2)) = o).
  { apply Hw. autounfold with repo. wp_run.
    change (w_db (env_step (tick w2))) with (w_db (env_step w2)).
    destruct (db_users (w_db (env_step w2)) !! u_id u) as [u'|]; [|by wp_run].
    destruct (u_is_active u') eqn:Ha; wp_run; done. }
  by intros m o.
Qed.

End contracts.

(** ** On concrete inputs *)

(** JSON values as trees, hence as texts. *)
Fixpoint tree_of (j : json) : gen_tree (Z + string) :=
  match j with
  | JNull => GenNode 0 []
  | JBool b => GenNode (if b then 1 else 2)%nat []
  | JNum n => GenNode 3 [GenLeaf (inl n)]
  | JFloat r => GenNode 4 [GenLeaf (inr r)]
  | JStr s => GenNode 5 [GenLeaf (inr s)]
  | JArr l => GenNode 6 (List.map tree_of l)
  | JObj f => GenNode 7 (List.map (fun kv => GenNode 8 [GenLeaf (inr (fst kv)); tree_of (snd kv)]) f)
  end.

Fixpoint json_of_tree (t : gen_tree (Z + string)) : json :=
  match t with
  | GenNode 1 [] => JBool true
  | GenNode 2 [] => JBool false
  | GenNode 3 [GenLeaf (inl n)] => JNum n
  | GenNode 4 [GenLeaf (inr r)] => JFloat r
  | GenNode 5 [GenLeaf (inr s)] => JStr s
  | GenNode 6 l => JArr (List.map json_of_tree l)
  | GenNode 7 f => JObj (List.map (fun t =>
      match t with GenNode 8 [GenLeaf (inr k); v] => (k, json_of_tree v) | _ => ("", JNull) end) f)
  | _ => JNull
  end.

Lemma json_of_tree_of j : json_of_tree (tree_of j) = j.
Proof.
  induction j as [|b|n|r|s|l IH|f IH] using json_nested_ind; try done; [by destruct b|..];
    cbn [tree_of json_of_tree]; f_equal; rewrite List.map_map.
  - induction IH as [|x l Hx _ IH]; [done|]. cbn. by rewrite Hx, IH.
  - induction IH as [|[k v] f Hx _ IH]; [done|]. cbn in Hx |- *. by rewrite Hx, IH.
Qed.

#[export] Instance json_eq_dec : EqDecision json.
Proof.
  intros x y. destruct (decide (tree_of x = tree_of y)) as [H|H].
  - left. by rewrite <- (json_of_tree_of x), H, json_of_tree_of.
  - right. by intros ->.
Defined.

#[export] Instance json_countable : Countable json := inj_countable' tree_of json_of_tree json_of_tree_of.

Definition expired_at (now : datetime) (payload : list (string * json)) : bool :=
  match json_get "exp" payload with Some (JNum exp) => seconds exp <=? now | _ => false end.

Definition sample_jwt_decode (now : datetime) (token secret : string) (algorithms : list string)
    : outcome (list (string * json)) :=
  match decode (positive_of_bits token) with
  | Some (payload, key, algorithm) =>
      if String.eqb key secret && bool_decide (algorithm ∈ algorithms)
      then if expired_at now payload then Exc ExpiredSignatureErr else Ok payload
      else Exc InvalidTokenErr
  | None => Exc InvalidTokenErr
  end.

Lemma sample_jwt_decode_encoded now payload secret algorithm :
  sample_jwt_decode now (bits_of_positive (encode (payload, secret, algorithm))) secret [algorithm]
  = if expired_at now payload then Exc ExpiredSignatureErr else Ok payload.
Proof.
  unfold sample_jwt_decode. rewrite positive_of_bits_of, decode_encode, String.eqb_refl.
  by rewrite bool_decide_eq_true_2 by (by left).
Qed.

#[export] Instance sample_jwt : PyJWT.
Proof.
  refine {| jwt_encode payload secret algorithm := bits_of_positive (encode (payload, secret, algorithm));
            jwt_decode := sample_jwt_decode |};
    intros now payload secret algorithm iat exp [_ _ _ He] _ _ Ht;
    rewrite sample_jwt_decode_encoded; unfold expired_at; rewrite He.
  - by rewrite (proj2 (Z.leb_gt _ _)).
  - by rewrite (proj2 (Z.leb_le _ _)).
Defined.

#[export] Instance sample_float_time : FloatTime :=
  {| fromtimestamp_float _ := Exc (ValueErr "no floats here") |}.

(** Registration of Grace, who then logs in. *)
Definition registered_world : World := Eval vm_compute in
  snd (register_user " Grace@Example.org " "hopper" sample_world).

Lemma register_contract_witness :
  fst (register_user " Grace@Example.org " "hopper" sample_world)
  = Ok (mkUserPublicDTO 101 "grace@example.org" USER true 0 1000000) /\
  fst (register_user "ADA@example.org" "lovelace" sample_world) = Exc (app_err DuplicateEmailError).
Proof.
  split.
  - destruct (register_contract " Grace@Example.org " "hopper" sample_world _ _
      (surjective_pairing _) eq_refl) as [H _]. exact (proj1 H).
  - destruct (register_contract "ADA@example.org" "lovelace" sample_world _ _
      (surjective_pairing _) eq_refl) as [H _]. exact (proj1 H).
Defined.

(** What a login answers. *)
Definition login_result (o : outcome LoginResultDTO) : LoginResultDTO :=
  match o with Ok r => r | Exc _ => mkLoginResultDTO "" "" 0 end.

Definition grace_login : outcome LoginResultDTO * World :=
  login_user sample_settings "GRACE@example.org" "hopper" registered_world.

Lemma session_contract_witness :
  fst (get_current_user sample_settings (lr_access_token (login_result (fst grace_login))) registered_world)
  = Ok (mkCurrentUserDTO 101 "grace@example.org" USER true).
Proof.
  destruct (session_contract sample_settings "GRACE@example.org" "hopper" registered_world
    (login_result (fst grace_login)) (snd grace_login) registered_world) as (u & Hu & ->).
  - assert (Hok : match fst grace_login with Ok _ => true | Exc _ => false end = true)
      by (vm_compute; reflexivity).
    unfold grace_login in *. by destruct (login_user _ _ _ _) as [ [r|e] w1].
  - assert (Hall : map_Forall (fun k u => u_id u = k /\ 0 <= k < 2 ^ 128)
      (db_users (w_db (env_step registered_world))))
      by (apply (bool_decide_unpack _); vm_compute; reflexivity).
    exact Hall.
  - reflexivity.
  - apply Z.le_refl.
  - assert (Hn : u_id <$> user_named (normalize_email "GRACE@example.org") (w_db (env_step registered_world))
      = Some 101) by (vm_compute; reflexivity).
    rewrite Hu in Hn. injection Hn as ->. vm_compute. reflexivity.
Defined.

Lemma admin_contract_witness :
  exists u, fst (create_or_update_admin "ada@example.org" "lovelace" sample_world)
    = Ok (to_user_public_dto u) /\ u_id u = 1 /\ u_role u = ADMIN.
Proof.
  destruct (admin_contract "ada@example.org" "lovelace" sample_world _ _ eq_refl eq_refl
    (ok_users _ _ _ sample_db_ok) eq_refl (surjective_pairing _)) as (u & -> & Ha & _ & Hid).
  exists u. split; [done|]. split; [exact (proj1 Hid) | apply Ha].
Defined.
