(* ===== verification/HttpContracts.v ===== *)
(** * HttpContracts: what a client of the API observes. *)
From S2P Require Import Prelude Exceptions Domain Store Effects Tables Text TextSpec JsonText Iso Config.
From S2P Require Import JobRepo Repos PostCommit Invariants Steps JobService ServiceSpec Handlers ListJobs.
From S2P Require Import Auth EventStream Http WorkerContracts Samples AuthContracts StreamContracts.

(** ** Errors *)

Definition error_json (code message : string) (details : option json) : json :=
  JObj [("error", JObj [("code", JStr code); ("message", JStr message); ("details", default JNull details)])].

(** Status and body for an exception that leaves a route. *)
Definition reported (e : exn) : Z * json :=
  match e with
  | AppErr a => (status_code (ae_class a), error_json (error_code (ae_class a)) (ae_message a) (ae_details a))
  | HTTPExc status _ => (status, error_json (code_map status) (message_map status) None)
  | RequestValidationErr _ => (422, error_json "INVALID_REQUEST" "Request validation failed" None)
  | _ => (500, error_json "INTERNAL_SERVER_ERROR" "An internal server error occurred" None)
  end.

Lemma header_set name value headers : header name (set_item name value headers) = Some value.
Proof.
  induction headers as [|[k v] headers IH]; cbn; [by rewrite String.eqb_refl|].
  destruct (String.eqb_spec k name) as [->|Hne]; cbn; [by rewrite String.eqb_refl|].
  by rewrite (proj2 (String.eqb_neq k name)).
Qed.

Lemma header_set_ne name name' value headers :
  name <> name' -> header name' (set_item name value headers) = header name' headers.
Proof.
  intros Hne. induction headers as [|[k v] headers IH]; cbn.
  - by rewrite (proj2 (String.eqb_neq name name')).
  - destruct (String.eqb_spec k name) as [->|Hk]; cbn.
    + by rewrite (proj2 (String.eqb_neq name name')).
    + by rewrite IH.
Qed.

Lemma choose_request_id_runs header w :
  exists request_id w1, choose_request_id header w = (Ok request_id, w1) /\
  w_db w1 = w_db w /\ request_id <> "" /\ (forall h, header = Some h -> h <> "" -> request_id = h).
Proof.
  assert (Hu : forall u, str_of_uuid u <> "").
  { intros u Hu. pose proof (ListCacheSpec.slen_uuid u) as Hl. rewrite Hu in Hl. discriminate. }
  unfold choose_request_id. destruct header as [h|].
  - destruct (String.eqb_spec h "") as [->|Hh].
    + eexists _, _. split; [reflexivity|]. split; [done|]. split; [apply Hu|]. by intros h [= <-] H.
    + exists h, w. split; [done|]. split; [done|]. split; [done|]. by intros h' [= <-] _.
  - eexists _, _. split; [reflexivity|]. split; [done|]. split; [apply Hu|]. by intros h H.
Qed.

(** C38. Every request gets a response, whatever its route does: the route's own,
    or for an exception the status and the body of its class - 422 for invalid
    requests, and for everything unexpected one fixed 500 body that says nothing
    about the exception.  The response names the request in X-Request-ID, by the
    identifier the client sent if it sent one; the headers of an application error
    (Retry-After) are kept. *)
Theorem serve_contract request_id_header route w :
  exists request_id w1 r, serve request_id_header route w = (Ok r, snd (route w1)) /\ w_db w1 = w_db w /\
  header REQUEST_ID_HEADER (rs_headers r) = Some request_id /\ request_id <> "" /\
  (forall h, request_id_header = Some h -> h <> "" -> request_id = h) /\
  match fst (route w1) with
  | Ok r0 => rs_status r = rs_status r0 /\ rs_body r = rs_body r0
  | Exc e => (rs_status r, rs_body r) = reported e /\
      match e with
      | AppErr a => forall name, name <> REQUEST_ID_HEADER ->
          header name (rs_headers r) = header name (default [] (ae_headers a))
      | _ => True
      end
  end.
Proof.
  destruct (choose_request_id_runs request_id_header w) as (id & w1 & E & Hdb & Hid & Hh).
  exists id, w1. unfold serve. unfold mbind at 1, M_bind at 1. rewrite E.
  unfold mbind, M_bind, attempt. destruct (route w1) as [ [r0|e] w2]; cbn [fst snd].
  - eexists. split; [reflexivity|]. split; [done|]. split; [apply header_set|]. done.
  - assert (Hres : _resolve_request_id (Some id) None = Some id).
    { cbn. by rewrite (proj2 (String.eqb_neq id "")). }
    assert (Hres' : _resolve_request_id (Some id) (Some id) = Some id).
    { cbn. by destruct (String.eqb id ""). }
    destruct e;
      (eexists; split; [reflexivity|]; split; [done|]); cbn [rs_headers rs_status rs_body];
      unfold handle_unexpected_exception, handle_application_error, handle_http_exception,
        handle_request_validation_error, build_error_response; rewrite ?Hres, ?Hres';
      cbn [rs_headers rs_status rs_body];
      (split; [apply header_set|]); (split; [done|]); (split; [done|]); split; try done.
    intros name Hn. by rewrite !header_set_ne.
Qed.

(** ** Accepted payloads *)

Section payloads.
Context `{LI : LaxInt}.

Lemma sleep_payload_inv j p :
  SleepJobPayload j = Some p -> exists n, 1 <= n <= 30 /\ p = JObj [("duration_seconds", JNum n)].
Proof using.
  unfold SleepJobPayload. destruct j as [| | | | | |f]; try done. destruct (only_keys _ f); [|done].
  destruct (json_get _ f) as [v|]; [|done]. cbn [mbind option_bind]. destruct (lax_int v) as [n|]; [|done].
  cbn. destruct (_ && _) eqn:E; [|done]. intros [= <-]. exists n. bool_simp. done.
Qed.

Lemma failure_payload_inv j p :
  FailureJobPayload j = Some p ->
  p = JObj [("message", JNull)] \/ exists s, slen s <= 500 /\ p = JObj [("message", JStr s)].
Proof using.
  unfold FailureJobPayload. destruct j as [| | | | | |f]; try done. destruct (only_keys _ f); [|done].
  destruct (json_get _ f) as [ [| | | |s| |]|]; try done; try (intros [= <-]; by left).
  destruct (Z.leb_spec (slen s) 500); [|done]. intros [= <-]. right. by exists s.
Qed.

Lemma request_inv body ty p :
  JobCreateRequest body = Some (ty, p) -> exists j,
  match ty with
  | SLEEP => SleepJobPayload j | SUCCESS => EmptyJobPayload j | FAILURE => FailureJobPayload j
  end = Some p.
Proof using.
  unfold JobCreateRequest. destruct body as [| | | | | |f]; try done. destruct (only_keys _ f); [|done].
  destruct (json_get "type" f) as [t|]; [|done]. destruct (json_get "payload" f) as [j|]; [|done].
  cbn [mbind option_bind]. intros H. exists j. destruct t as [| | | |s| |]; try done.
  destruct (String.eqb_spec s "sleep") as [->|H1].
  { destruct (SleepJobPayload j) as [q|] eqn:E; [|done]. by injection H as <- <-. }
  destruct (String.eqb_spec s "success") as [->|H2].
  { destruct (EmptyJobPayload j) as [q|] eqn:E; [|done]. by injection H as <- <-. }
  destruct (String.eqb_spec s "failure") as [->|H3].
  { destruct (FailureJobPayload j) as [q|] eqn:E; [|done]. by injection H as <- <-. }
  exfalso. revert H. repeat (destruct s as [|[ [] [] [] [] [] [] [] [] ] s]; try done).
Qed.

Lemma empty_payload_inv j p : EmptyJobPayload j = Some p -> p = JObj [].
Proof using. destruct j as [| | | | | |[|x f] ]; try done. by intros [= <-]. Qed.

(** Whatever the request schema accepts, the worker can run: the payload it
    stores is one its handler understands.  A sleep job takes between 1 and 30
    seconds and ends normally when nobody cancels it; a success job ends at once;
    a failure job fails, with a message of at most 500 characters that is not
    empty.  No accepted job fails over the shape of its payload. *)
Theorem accepted_payloads_run body ty p :
  JobCreateRequest body = Some (ty, p) ->
  wf_json p = true /\ exists handler, registry_get build_job_handler_registry ty = Ok handler /\
  match ty with
  | SLEEP => exists n, (1 <= n <= 30)%nat /\
      forall (ask : M bool) w,
        (forall i, (i < 4 * n)%nat -> ask (Nat.iter i env_step w) = (Ok false, Nat.iter i env_step w)) ->
        execute handler p (Some ask) w = (Ok tt, Nat.iter (4 * n) env_step w)
  | SUCCESS => forall ask w, execute handler p ask w = (Ok tt, w)
  | FAILURE => exists m, m <> "" /\ slen m <= 500 /\
      forall ask w, execute handler p ask w = (Exc (JobExecutionErr m), w)
  end.
Proof using.
  intros [j H]%request_inv. destruct ty.
  - apply sleep_payload_inv in H as (n & Hn & ->). split; [done|].
    exists SleepJobHandler. split; [by vm_compute|]. exists (Z.to_nat n). split; [lia|].
    intros ask w Ha. cbn [execute SleepJobHandler subscript json_get String.eqb Ascii.eqb Bool.eqb].
    unfold mbind, M_bind, lift. cbn [float_quarters].
    replace (4 * n) with (Z.of_nat (4 * Z.to_nat n)) by lia. by apply sleep_loop_never; [lia|].
  - apply empty_payload_inv in H as ->. split; [done|]. exists SuccessJobHandler.
    split; [by vm_compute|]. done.
  - split; [by apply failure_payload_inv in H as [-> | (s & _ & ->)]|].
    exists FailureJobHandler. split; [by vm_compute|]. cbn [execute FailureJobHandler].
    apply failure_payload_inv in H as [-> | (s & Hs & ->)]; cbn [json_get String.eqb Ascii.eqb Bool.eqb].
    + exists DEFAULT_FAILURE_MESSAGE. split; [done|]. split; [by vm_compute|]. done.
    + destruct (String.eqb_spec s "") as [->|Hne].
      * exists DEFAULT_FAILURE_MESSAGE. split; [done|]. split; [by vm_compute|]. done.
      * exists s. split; [done|]. split; [done|]. done.
Qed.

End payloads.

(** ** Submitting a job *)

Definition printable_ascii (c : ascii) : bool := (32 <=? code_point c) && (code_point c <=? 126).

(** A key the API takes. *)
Definition key_ok (key : string) : Prop :=
  1 <= slen key <= 128 /\ all_chars printable_ascii key = true /\ strip key <> "".

Lemma validate_key_ok key k : validate_idempotency_key key = Ok k -> k = key /\ key_ok key.
Proof.
  unfold validate_idempotency_key. destruct (Z.ltb_spec 128 (slen key)); [done|].
  destruct (all_chars _ key) eqn:Hc; [|done]. cbn [negb].
  destruct (String.eqb_spec (strip key) "") as [|Hs]; [done|]. intros [= <-]. split; [done|].
  split; [|by split]. split; [|done]. destruct key as [|c key]; [done|].
  unfold slen. cbn [String.length]. lia.
Qed.

Section submission.
Context `{LI : LaxInt} `{DT : DatetimeText} `{PH : PasswordHash} `{PJ : PyJWT} `{FT : FloatTime}.
Context `{DC : DispatchCodec} `{PG : PgDriver}.
Context `{RL : CreateJobRateLimiter} `{RLL : !RateLimiterLaws RL}.
Context `{JC : JobListCache} `{JCL : !JobListCacheLaws JC}.
Context `{N : WorkerPostCommitNotifier} `{NL : !NotifierLaws N}.
Context (settings : Settings) (limit : Z).

(** A computation that leaves the world alone. *)
Definition pure {A} (m : M A) : Prop := exists o, forall w, m w = (o, w).

Lemma pure_ret {A} (a : A) : pure (mret a). Proof using. by exists (Ok a). Qed.
Lemma pure_raise {A} e : pure (raise (A := A) e). Proof using. by exists (Exc e). Qed.
Lemma pure_lift {A} (o : outcome A) : pure (lift o). Proof using. by exists o. Qed.

Lemma pure_bind {A B} (m : M A) (k : A -> M B) : pure m -> (forall a, pure (k a)) -> pure (m ≫= k).
Proof using.
  intros [ [a|e] Hm] Hk.
  - destruct (Hk a) as [o Ho]. exists o. intros w. unfold mbind, M_bind. by rewrite Hm.
  - exists (Exc e). intros w. unfold mbind, M_bind. by rewrite Hm.
Qed.

Lemma read_payload_pure payload : pure (read_payload payload).
Proof using.
  assert (Hitem : forall key, pure (item key payload)).
  { intros key. unfold item. destruct (json_get key payload); [apply pure_ret | apply pure_raise]. }
  assert (Htime : forall n, pure (timestamp n)).
  { intros n. unfold timestamp. repeat case_match; (apply pure_ret || apply pure_raise). }
  unfold read_payload. repeat (apply pure_bind; [|intros ?]); try apply Hitem; try apply pure_ret.
  - unfold uuid_of_json. repeat case_match; (apply pure_ret || apply pure_raise).
  - unfold role_of_json. repeat case_match; (apply pure_lift || apply pure_raise).
  - unfold fromtimestamp. repeat case_match; (apply Htime || apply pure_lift || apply pure_raise).
  - unfold fromtimestamp. repeat case_match; (apply Htime || apply pure_lift || apply pure_raise).
Qed.

Lemma decode_token_ticks token w :
  exists o, decode_access_token settings token w = (o, tick w).
Proof using.
  unfold decode_access_token, now. unfold mbind at 1, M_bind at 1.
  destruct (jwt_decode _ _ _ _) as [payload|e].
  - unfold mbind, M_bind, attempt. destruct (read_payload_pure payload) as [o Ho]. rewrite Ho.
    destruct o as [claims|e]; [by eexists|]. destruct e; by eexists.
  - destruct e; by eexists.
Qed.

Lemma current_user_quiet credentials w :
  w_env w = [] -> exists o w', current_user_dep settings credentials w = (o, w') /\
  w_db w' = w_db w /\ w_env w' = [] /\ w_next_uuid w' = w_next_uuid w.
Proof using.
  intros He. destruct credentials as [token|]; [|by eexists _, _].
  cbn [current_user_dep]. unfold Auth.get_current_user. unfold mbind at 1, M_bind at 1.
  destruct (decode_token_ticks token w) as [o ->]. destruct o as [claims|e]; [|by eexists _, _].
  enough (Hw : wp (with_uow (
    user ← SqlAlchemyUserRepository.get_by_id (tp_subject claims);
    match user with
    | None => raise (app_err_msg AuthenticationError "Access token is invalid")
    | Some user =>
        if negb (u_is_active user) then raise (app_err InactiveUserError)
        else mret (mkCurrentUserDTO (u_id user) (u_email user) (u_role user) (u_is_active user))
    end)) (fun _ w' => w' = tick w) (tick w)).
  { unfold wp in Hw. destruct (with_uow _ _) as [o w']. cbn in Hw. subst w'. by eexists _, _. }
  autounfold with repo. wp_run. no_env. destruct (db_users _ !! _) as [u|]; [|by wp_run].
  destruct (u_is_active u); by wp_run.
Qed.

(** C17. Only a proper request submits a job: when [POST /jobs] changes the
    database or succeeds, the bearer token identified an active user, the
    Idempotency-Key has 1 to 128 printable ASCII characters and is not blank, the
    body is one the schema accepts, and what ran is the creation of that job for
    that user under that key. *)
Theorem submission_guard credentials key body w :
  w_env w = [] ->
  let run := post_jobs settings credentials key body w in
  w_db (snd run) <> w_db w \/ (exists r, fst run = Ok r) ->
  exists b u w1 k ty p,
    body = Some b /\ current_user_dep settings credentials w = (Ok u, w1) /\ w_db w1 = w_db w /\
    key = Some k /\ key_ok k /\ JobCreateRequest b = Some (ty, p) /\
    run = create_job_route settings u k ty p w1.
Proof using.
  intros He run. unfold run, post_jobs. destruct body as [b|]; [|by intros [H|[r H] ] ].
  unfold mbind at 1 3 5, M_bind at 1 3 5.
  destruct (current_user_quiet credentials w He) as (o & w1 & -> & Hd & _ & _).
  destruct o as [u|e]; [|by intros [H|[r H] ] ]. unfold mbind, M_bind.
  assert (Hkey : exists o, get_idempotency_key key w1 = (o, w1) /\
    forall k, o = Ok (Some k) -> key = Some k /\ key_ok k).
  { unfold get_idempotency_key. destruct key as [k|]; [|by eexists].
    destruct (String.eqb k ""); [by eexists|]. unfold mbind, M_bind, lift.
    destruct (validate_idempotency_key k) as [k'|e] eqn:E; [|by eexists].
    apply validate_key_ok in E as [-> Hk]. eexists. split; [done|]. by intros ? [= <-]. }
  destruct Hkey as (o & -> & Hk). destruct o as [ [k|]|e].
  - destruct (Hk k eq_refl) as [-> Hok].
    destruct (JobCreateRequest b) as [ [ty p]|] eqn:E; [|by intros [H|[r H] ] ].
    intros _. by exists b, u, w1, k, ty, p.
  - by destruct (JobCreateRequest b) as [ [ty p]|]; intros [H|[r H] ].
  - by intros [H|[r H] ].
Qed.


End submission.

(** ** On concrete requests *)

#[export] Instance sample_lax_int : LaxInt.
Proof.
  refine {| lax_int j := match j with JNum n => Some n | _ => None end |}. reflexivity.
Defined.

#[export] Instance sample_email_validator : EmailValidator :=
  {| validate_email s := if contains "@" s then Some s else None |}.

Definition sleep_request (n : Z) : json :=
  JObj [("type", JStr "sleep"); ("payload", JObj [("duration_seconds", JNum n)])].

Lemma accepted_payloads_run_witness :
  JobCreateRequest (sleep_request 31) = None /\
  exists n, (1 <= n <= 30)%nat /\
  execute SleepJobHandler (JObj [("duration_seconds", JNum 7)]) (Some (mret false)) three_rounds
  = (Ok tt, Nat.iter (4 * n) env_step three_rounds).
Proof.
  split; [reflexivity|].
  destruct (accepted_payloads_run (LI := sample_lax_int) (sleep_request 7) SLEEP
    (JObj [("duration_seconds", JNum 7)]) eq_refl) as (_ & handler & Hh & n & Hn & H).
  exists n. split; [exact Hn|]. revert H. injection Hh as <-. intros H. apply H. reflexivity.
Defined.

Definition grace_token : string :=
  lr_access_token (login_result (fst grace_login)).

Definition submitted : outcome Response * World :=
  post_jobs sample_settings (Some grace_token) (Some "key-1") (Some (sleep_request 1)) registered_world.

Lemma submission_guard_witness :
  match fst submitted with Ok r => rs_status r | Exc _ => 0 end = 201 /\
  exists u w1, current_user_dep sample_settings (Some grace_token) registered_world = (Ok u, w1) /\
  submitted = create_job_route sample_settings u "key-1" SLEEP
    (JObj [("duration_seconds", JNum 1)]) w1.
Proof.
  assert (Hs : match fst submitted with Ok r => rs_status r | Exc _ => 0 end = 201)
    by (vm_compute; reflexivity).
  split; [exact Hs|].
  destruct (submission_guard sample_settings (Some grace_token) (Some "key-1") (Some (sleep_request 1))
    registered_world) as (b & u & w1 & k & ty & p & Hb & Hu & _ & Hk & _ & Hp & Hrun).
  - reflexivity.
  - right. fold submitted. destruct (fst submitted) as [r|e]; [by exists r | discriminate Hs].
  - injection Hb as <-. injection Hk as <-. injection Hp as <- <-. exists u, w1. split; [exact Hu | exact Hrun].
Defined.

