(* ===== verification/LogContracts.v ===== *)
(** * LogContracts: what may appear in a log line. *)
From S2P Require Import Prelude Exceptions Domain Store Effects Text Iso Logging Samples.

(** Two values that differ at most under sensitive keys. *)
Inductive same_public : json -> json -> Prop :=
| public_null : same_public JNull JNull
| public_bool b : same_public (JBool b) (JBool b)
| public_num n : same_public (JNum n) (JNum n)
| public_float r : same_public (JFloat r) (JFloat r)
| public_str s : same_public (JStr s) (JStr s)
| public_arr l1 l2 : same_publics l1 l2 -> same_public (JArr l1) (JArr l2)
| public_obj f1 f2 : same_members f1 f2 -> same_public (JObj f1) (JObj f2)
with same_publics : list json -> list json -> Prop :=
| publics_nil : same_publics [] []
| publics_cons a b l1 l2 : same_public a b -> same_publics l1 l2 -> same_publics (a :: l1) (b :: l2)
with same_members : list (string * json) -> list (string * json) -> Prop :=
| members_nil : same_members [] []
| members_secret k a b l1 l2 :
    _is_sensitive_key k = true -> same_members l1 l2 -> same_members ((k, a) :: l1) ((k, b) :: l2)
| members_public k a b l1 l2 :
    same_public a b -> same_members l1 l2 -> same_members ((k, a) :: l1) ((k, b) :: l2).

Scheme same_public_mut := Induction for same_public Sort Prop
  with same_publics_mut := Induction for same_publics Sort Prop
  with same_members_mut := Induction for same_members Sort Prop.
Combined Scheme same_public_all from same_public_mut, same_publics_mut, same_members_mut.

Lemma sanitize_same :
  (forall a b, same_public a b -> sanitize a = sanitize b) /\
  (forall l1 l2, same_publics l1 l2 -> List.map sanitize l1 = List.map sanitize l2) /\
  (forall f1 f2, same_members f1 f2 -> sanitize (JObj f1) = sanitize (JObj f2)).
Proof.
  apply (same_public_all (fun a b _ => sanitize a = sanitize b)
    (fun l1 l2 _ => List.map sanitize l1 = List.map sanitize l2)
    (fun f1 f2 _ => sanitize (JObj f1) = sanitize (JObj f2))); try done.
  - intros l1 l2 _ H. cbn. by rewrite H.
  - intros a b l1 l2 _ Hab _ H. cbn. by rewrite Hab, H.
  - intros k a b l1 l2 Hk _ H. cbn [sanitize List.map fst snd] in H |- *. injection H as H. by rewrite Hk, H.
  - intros k a b l1 l2 _ Hab _ H. cbn [sanitize List.map fst snd] in H |- *. injection H as H. by rewrite Hab, H.
Qed.

(** No member under a sensitive key shows anything, at any depth. *)
Fixpoint redacted (value : json) : bool :=
  match value with
  | JObj fields =>
      forallb (fun kv => if _is_sensitive_key (fst kv)
        then match snd kv with JStr s => String.eqb s "[REDACTED]" | _ => false end
        else redacted (snd kv)) fields
  | JArr l => forallb redacted l
  | _ => true
  end.

Lemma sanitize_redacted value : redacted (sanitize value) = true.
Proof.
  induction value as [|b|n|r|s|l IH|f IH] using json_nested_ind; try done;
    cbn [sanitize redacted]; rewrite forallb_forall; rewrite Forall_forall in IH.
  - intros x (y & <- & Hy)%in_map_iff. by apply IH, list_elem_of_In.
  - intros x (y & <- & Hy)%in_map_iff. cbn [fst snd]. destruct (_is_sensitive_key (fst y)); [done|].
    by apply IH, list_elem_of_In.
Qed.

(** What has nothing to hide is not touched. *)
Lemma sanitize_public value : redacted value = true -> sanitize value = value.
Proof.
  induction value as [|b|n|r|s|l IH|f IH] using json_nested_ind; try done; cbn; intros H; f_equal.
  - induction IH as [|x l Hx _ IHl]; [done|]. cbn in H |- *. apply andb_true_iff in H as [H1 H2].
    by rewrite Hx, IHl.
  - induction IH as [|[k v] f Hx _ IHf]; [done|]. cbn in H, Hx |- *. apply andb_true_iff in H as [H1 H2].
    rewrite IHf by done. f_equal. destruct (_is_sensitive_key k); [|by rewrite Hx].
    destruct v; try done. unfold REDACTED. by apply String.eqb_eq in H1 as ->.
Qed.

(** The members of a record its log line is made of agree outside of sensitive
    keys. *)
Definition same_line (r1 r2 : LogRecord) : Prop :=
  rec_levelname r1 = rec_levelname r2 /\ rec_name r1 = rec_name r2 /\ rec_message r1 = rec_message r2 /\
  rec_request_id r1 = rec_request_id r2 /\ rec_exception r1 = rec_exception r2 /\
  same_members (rec_dict r1) (rec_dict r2).

Lemma extras_same f1 f2 :
  same_members f1 f2 ->
  same_members (List.filter (fun kv => negb (bool_decide (fst kv ∈ standard_attributes))) f1)
    (List.filter (fun kv => negb (bool_decide (fst kv ∈ standard_attributes))) f2).
Proof.
  induction 1 as [|k a b l1 l2 Hk _ IH|k a b l1 l2 Hab _ IH]; [constructor|..]; cbn [List.filter fst].
  - destruct (negb _); [by apply members_secret | exact IH].
  - destruct (negb _); [by apply members_public | exact IH].
Qed.

(** C39. Log lines do not leak secrets: records that differ only in what their
    extras hold under sensitive keys, at whatever depth, are written as the same
    line; in the sanitised extras every such member reads [REDACTED]; and a value
    with nothing to hide is logged as it is, so that sanitising twice changes
    nothing.  (The message and a traceback are written as they are.) *)
Theorem log_noninterference r1 r2 w :
  same_line r1 r2 ->
  format_record r1 w = format_record r2 w /\
  (forall value, redacted (_sanitize_log_value value None) = true /\
    (redacted value = true -> _sanitize_log_value value None = value) /\
    _sanitize_log_value (_sanitize_log_value value None) None = _sanitize_log_value value None).
Proof.
  intros (Hl & Hn & Hm & Hi & He & Hd). split.
  - unfold format_record, mbind, M_bind, now, mret, M_ret. do 2 f_equal. f_equal. unfold log_payload.
    rewrite Hl, Hn, Hm, Hi, He. do 2 f_equal. f_equal.
    apply extras_same in Hd. fold (extras r1) (extras r2) in Hd.
    pose proof (proj2 (proj2 sanitize_same) _ _ Hd) as Hs. unfold _sanitize_log_value.
    destruct Hd; [done|..]; by rewrite Hs.
  - intros value. cbn [_sanitize_log_value]. split; [apply sanitize_redacted|].
    split; [apply sanitize_public | apply sanitize_public, sanitize_redacted].
Qed.

(** Configuring again only changes the level. *)
Lemma configure_logging_once level1 level2 root :
  let once := configure_logging level1 root in
  root_json_handlers (configure_logging level2 once) = root_json_handlers once /\
  root_other_handlers (configure_logging level2 once) = root_other_handlers once /\
  (root_configured root = false -> root_json_handlers once = 1%nat /\ root_other_handlers once = 0%nat).
Proof. unfold configure_logging. destruct (root_configured root) eqn:E; cbn; rewrite ?E; done. Qed.

Definition login_record (token : string) : LogRecord :=
  mkLogRecord "INFO" "app" "login" (Some "r-1")
    [("msg", JStr "login"); ("user", JObj [("id", JNum 1); ("Access_Token", JStr token)])] None.

Lemma log_noninterference_witness :
  format_record (login_record "abc") sample_world = format_record (login_record "xyz") sample_world /\
  match fst (format_record (login_record "abc") sample_world) with
  | Ok line => contains "abc" line | Exc _ => true end = false.
Proof.
  split; [|vm_compute; reflexivity].
  apply log_noninterference. do 5 (split; [done|]).
  apply members_public; [constructor|]. apply members_public; [|constructor].
  constructor. apply members_public; [constructor|]. apply members_secret; [reflexivity | constructor].
Defined.
