(* ===== verification/ProcessContracts.v ===== *)
(** * ProcessContracts: the worker, publisher, recovery and administrator
    processes - what they set up before they serve, and close at the end. *)
From S2P Require Import Prelude Exceptions Domain Store Effects Config Repos PostCommit Handlers Auth.
From S2P Require Import Rabbit Publisher Worker Recovery Logging Process ProcessSpec Samples AuthContracts.

(** ** Phases *)






Definition publisher_setup (batch : Z) (heartbeat : bool) : list Call :=
  [CChannel (Some true); CSetQos batch] ++ (CDeclare <$> declare_topology) ++
  (if heartbeat then [CCreateTask HeartbeatTask] else []).

Definition publisher_stop (heartbeat : bool) : list Call :=
  if heartbeat then [CCancelTask HeartbeatTask; CGather [HeartbeatTask] ] else [].


Section contracts.
Context `{PG : PgDriver} `{DC : DispatchCodec} `{PH : PasswordHash} `{N : WorkerPostCommitNotifier}.
Context (settings : Settings) (answers : list Call -> Call -> option exn).

Lemma consume_serves worker_id body : only answers serving (consume settings worker_id body).
Proof using.
  unfold consume. apply only_bind; [|auto with app]. apply only_try, only_bind; [auto with app|].
  intros []; auto with app.
Qed.



(** Openings, then [T]; or they broke off. *)
Definition opened_then {A} (T : outcome A -> list Call -> Prop) (result : outcome A) (l : list Call) : Prop :=
  exists opened, Forall opening opened /\
  ((exists e, result = Exc e /\ l = opened) \/ exists l2, l = opened ++ l2 /\ T result l2).

Lemma traces_open {A B} (m : P A) (k : A -> P B) T :
  only answers opening m -> (forall a, traces answers (k a) (opened_then T)) ->
  traces answers (m ≫= k) (opened_then T).
Proof using.
  intros Hm Hk. apply (traces_bind _ _ _ (fun _ l => Forall opening l) (fun _ => opened_then T));
    [exact Hm | exact Hk | |].
  - intros e l Hl. exists l. split; [done|]. left. by exists e.
  - intros a o l1 l2 Hl (opened & Ho & HT). exists (l1 ++ opened). split; [by apply Forall_app|].
    destruct HT as [(e & -> & ->)|(l3 & -> & HT)]; [left; by exists e | right].
    exists l3. by rewrite app_assoc.
Qed.

(** Work, then closing whatever the work ended with. *)
Definition closed (cs : list Call) (T : outcome unit -> list Call -> Prop) (result : outcome unit)
    (l : list Call) : Prop :=
  exists o work (c : outcome unit) closing, l = work ++ closing /\ T o work /\ ran answers cs c closing /\
    result = match c with Ok _ => o | Exc e => Exc e end.

Lemma traces_close (body cleanup : P unit) cs T :
  traces answers body T -> traces answers cleanup (ran answers cs) ->
  traces answers (finally body cleanup) (opened_then (closed cs T)).
Proof using.
  intros Hb Hc. eapply traces_finally; [exact Hb | exact Hc | |].
  - intros o l1 l2 H1 H2. exists []. split; [done|]. right. exists (l1 ++ l2). split; [done|].
    by exists o, l1, (Ok tt), l2.
  - intros o e l1 l2 H1 H2. exists []. split; [done|]. right. exists (l1 ++ l2). split; [done|].
    by exists o, l1, (Exc e), l2.
Qed.

Lemma start_only : only answers opening (start_process settings).
Proof using. unfold start_process. auto with app. Qed.

Lemma publish_traces stop_checks path :
  traces answers (publish_until_stopped settings stop_checks path)
    (after (publisher_setup (outbox_batch_size settings) (has_path path))
      (fun _ l => exists c : outcome unit, ran answers (publisher_stop (has_path path)) c l)).
Proof using.
  unfold publish_until_stopped.
  replace (publisher_setup (outbox_batch_size settings) (has_path path)) with
    ([CChannel (Some true)] ++ [CSetQos (outbox_batch_size settings)] ++ (CDeclare <$> declare_topology) ++
     (if has_path path then [CCreateTask HeartbeatTask] else []) ++ [])
    by (by destruct (has_path path)).
  run_calls. apply traces_now.
  eapply traces_finally; [apply traces_coroutine | | |].
  - replace (publisher_stop (has_path path)) with
      (if has_path path then [CCancelTask HeartbeatTask] ++ [CGather [HeartbeatTask] ] else [])
      by (by destruct (has_path path)).
    run_calls.
  - intros o l1 l2 -> H. by exists (Ok tt).
  - intros o e l1 l2 -> H. by exists (Exc e).
Qed.

End contracts.

Section processes.
Context `{PG : PgDriver} `{DC : DispatchCodec} `{PH : PasswordHash} `{N : WorkerPostCommitNotifier}.
Context (settings : Settings).


(** *** Publisher and recovery *)

Definition started (service : string) : Call := CLog (service +:+ "_started").
Definition stopped (service : string) : Call := CLog (service +:+ "_stopped").

Lemma background_traces answers run service T :
  traces answers run T ->
  traces answers (run_background_loop run service)
    (opened_then (after [started service] (closed answers [stopped service] T))).
Proof using.
  intros Hr. unfold run_background_loop. apply traces_open; [auto with app|]. intros _.
  eapply traces_mono with (T1 := after ([started service] ++ []) (closed answers [stopped service] T)).
  - run_calls. apply traces_now.
    eapply traces_finally; [exact Hr | apply traces_call | |].
    + intros o l1 l2 H1 H2. by exists o, l1, (Ok tt), l2.
    + intros o e l1 l2 H1 H2. by exists o, l1, (Exc e), l2.
  - intros o l H. exists []. split; [done|]. right. by exists l.
Qed.

(** When every call returns. *)
Section calm.
Context (s0 : Proc).
Hypothesis calm : forall before c, pr_answers s0 before c = None.
Hypothesis runtime : validate_runtime settings = Ok tt.

(** [m] returns, and leaves the world alone. *)
Definition passes (m : P unit) : Prop :=
  forall s, pr_answers s = pr_answers s0 -> exists s', m s = (Ok tt, s') /\
    pr_answers s' = pr_answers s0 /\ pr_world s' = pr_world s.

(** [m] ends as the coroutine [f] does, in the world [f] leaves. *)
Definition performs (m : P unit) (f : M unit) : Prop :=
  forall s, pr_answers s = pr_answers s0 -> exists s', m s = (fst (f (pr_world s)), s') /\
    pr_answers s' = pr_answers s0 /\ pr_world s' = snd (f (pr_world s)).

Lemma passes_ret : passes (mret tt).
Proof using. intros s Hs. by exists s. Qed.

Lemma passes_call c : passes (call c).
Proof using calm. intros s Hs. unfold call. rewrite Hs, calm. by eexists. Qed.

Lemma passes_bind m (k : unit -> P unit) : passes m -> passes (k tt) -> passes (m ≫= k).
Proof using.
  intros Hm Hk s Hs. destruct (Hm s Hs) as (s1 & E & H1 & W1). destruct (Hk s1 H1) as (s2 & E2 & H2 & W2).
  exists s2. unfold mbind, P_bind. rewrite E. split; [done|]. split; [done | congruence].
Qed.

Lemma passes_calls cs : passes (calls cs).
Proof using calm. induction cs; cbn; auto using passes_ret, passes_bind, passes_call. Qed.

Lemma passes_when (b : bool) m : passes m -> passes (pwhen b m).
Proof using. intros H. destruct b; [exact H | apply passes_ret]. Qed.

Lemma passes_start : passes (start_process settings).
Proof using runtime.
  intros s Hs. unfold start_process, mbind, P_bind, plift. rewrite runtime. by eexists.
Qed.

Lemma passes_handler sig : passes (install_handler sig).
Proof using calm.
  intros s Hs. destruct (passes_call (CAddSignalHandler sig) s Hs) as (s1 & E & H).
  exists s1. unfold install_handler, mbind, P_bind, ptry. by rewrite E.
Qed.

Lemma passes_connect url : passes (connect_with_retry url).
Proof using calm.
  intros s Hs. destruct (passes_call (CConnectRobust url) s Hs) as (s1 & E & H).
  exists s1. unfold connect_with_retry. cbn [connect_attempts STARTUP_RETRY_ATTEMPTS].
  unfold mbind at 1, P_bind at 1, ptry. by rewrite E.
Qed.

Lemma performs_coroutine f : performs (run_coroutine f) f.
Proof using.
  intros s Hs. unfold run_coroutine. destruct (f (pr_world s)) as [o w]. by eexists.
Qed.

Lemma performs_bind m (k : unit -> P unit) f : passes m -> performs (k tt) f -> performs (m ≫= k) f.
Proof using.
  intros Hm Hk s Hs. destruct (Hm s Hs) as (s1 & E & H1 & W1). destruct (Hk s1 H1) as (s2 & E2 & H2 & W2).
  rewrite W1 in E2, W2. exists s2. unfold mbind, P_bind. by rewrite E.
Qed.

Lemma performs_finally m cleanup f : performs m f -> passes cleanup -> performs (finally m cleanup) f.
Proof using.
  intros Hm Hc s Hs. destruct (Hm s Hs) as (s1 & E & H1 & W1). destruct (Hc s1 H1) as (s2 & E2 & H2 & W2).
  exists s2. unfold finally. rewrite E, E2. split; [done|]. split; [done | congruence].
Qed.

End calm.
End processes.

(** Follow a process whose calls return. *)
Ltac calm_run :=
  repeat first
    [ assumption | eapply performs_coroutine | eapply performs_finally | eapply performs_bind
    | eapply passes_ret | eapply passes_call | eapply passes_calls | eapply passes_when
    | eapply passes_start | eapply passes_handler | eapply passes_connect | eapply passes_bind ].

Section services.
Context `{PG : PgDriver} `{DC : DispatchCodec} `{PH : PasswordHash} `{N : WorkerPostCommitNotifier}.
Context (settings : Settings).

(** What the publisher process does after its start is logged and before its end
    is. *)
Definition publisher_work (answers : list Call -> Call -> option exn) (heartbeat : bool) :=
  opened_then (closed answers [CConnectionClose; CEngineDispose]
    (after (publisher_setup (outbox_batch_size settings) heartbeat)
      (fun (_ : outcome unit) l => exists c : outcome unit, ran answers (publisher_stop heartbeat) c l))).

Lemma calm_main (s : Proc) run service f :
  (forall before c, pr_answers s before c = None) -> performs s run f ->
  fst (run_background_loop run service s) = fst (f (pr_world s)) /\
  pr_world (snd (run_background_loop run service s)) = snd (f (pr_world s)).
Proof using.
  intros Hc Hr.
  assert (HP : performs s (run_background_loop run service) f).
  { unfold run_background_loop, install_shutdown_handlers. calm_run. }
  destruct (HP s eq_refl) as (s' & -> & _ & HW). done.
Qed.

(** The publisher process and the recovery process: the start of the service is
    logged once the signal handlers are in place, and its end is logged however it
    ends.  In between the publisher declares the topology on a channel with
    confirms before it publishes anything, stops its heartbeat when its loop ends or
    raises, and then closes RabbitMQ and the engine; the recovery process closes
    Redis and the engine.  When every call to the outside returns, either process
    ends exactly as its loop does, with the database its loop leaves - an error of
    the loop ends the process. *)
Theorem background_processes stop_checks path s :
  pr_calls s = [] ->
  let publisher := outbox_publisher_main settings stop_checks path s in
  let recovery := stale_running_recovery_main settings stop_checks s in
  opened_then (after [started "outbox_publisher"] (closed (pr_answers s) [stopped "outbox_publisher"]
    (publisher_work (pr_answers s) (has_path path)))) (fst publisher) (pr_calls (snd publisher)) /\
  opened_then (after [started "stale_running_recovery"]
    (closed (pr_answers s) [stopped "stale_running_recovery"]
      (opened_then (closed (pr_answers s) [CRedisClose; CEngineDispose] (fun _ l => l = [])))))
    (fst recovery) (pr_calls (snd recovery)) /\
  ((forall before c, pr_answers s before c = None) -> validate_runtime settings = Ok tt ->
    fst publisher = fst (OutboxPublisher.run_forever settings stop_checks (pr_world s)) /\
    pr_world (snd publisher) = snd (OutboxPublisher.run_forever settings stop_checks (pr_world s)) /\
    fst recovery = fst (StaleRunningRecovery.run_forever settings stop_checks (pr_world s)) /\
    pr_world (snd recovery) = snd (StaleRunningRecovery.run_forever settings stop_checks (pr_world s))).
Proof using.
  intros Hs publisher recovery. set (answers := pr_answers s). split; [|split].
  - assert (HT := background_traces answers (outbox_publisher_run settings stop_checks path)
      "outbox_publisher" (publisher_work answers (has_path path))).
    destruct (HT ltac:(unfold outbox_publisher_run; repeat (apply traces_open; [auto using start_only with app|intros _]);
      apply traces_close; [apply publish_traces|];
      change [CConnectionClose; CEngineDispose] with ([CConnectionClose] ++ [CEngineDispose]); run_calls)
      s eq_refl) as (_ & l & Hl & H).
    rewrite Hs in Hl. unfold publisher, outbox_publisher_main. by rewrite Hl.
  - assert (HT := background_traces answers (stale_running_recovery_run settings stop_checks)
      "stale_running_recovery" (opened_then (closed answers [CRedisClose; CEngineDispose] (fun _ l => l = [])))).
    destruct (HT ltac:(unfold stale_running_recovery_run; repeat (apply traces_open; [auto using start_only with app|intros _]);
      apply traces_close; [apply traces_coroutine|];
      change [CRedisClose; CEngineDispose] with ([CRedisClose] ++ [CEngineDispose]); run_calls)
      s eq_refl) as (_ & l & Hl & H).
    rewrite Hs in Hl. unfold recovery, stale_running_recovery_main. by rewrite Hl.
  - intros Hc Hv. unfold publisher, recovery, outbox_publisher_main, stale_running_recovery_main.
    destruct (calm_main s (outbox_publisher_run settings stop_checks path) "outbox_publisher"
      (OutboxPublisher.run_forever settings stop_checks) Hc) as [-> ->].
    { unfold outbox_publisher_run, publish_until_stopped. calm_run. }
    destruct (calm_main s (stale_running_recovery_run settings stop_checks) "stale_running_recovery"
      (StaleRunningRecovery.run_forever settings stop_checks) Hc) as [-> ->].
    { unfold stale_running_recovery_run. calm_run. }
    done.
Qed.

(** *** The recovery task of a worker *)

Definition not_recovery (a : Activity) : Prop := a <> RecoveryRound.
#[local] Instance not_recovery_dec a : Decision (not_recovery a).
Proof using. unfold not_recovery. destruct a; [left | right | left]; congruence. Defined.

Lemma activities_without_recovery worker_id path l tasks s :
  recovery_alive tasks = false ->
  activities settings worker_id path l tasks s
  = activities settings worker_id path (filter not_recovery l) tasks s.
Proof using.
  intros Ht. revert tasks Ht s; induction l as [|a l IH]; intros tasks Ht s; [done|].
  destruct a as [body| |];
    [rewrite filter_cons_True by done | rewrite filter_cons_False by (by intros []) | rewrite filter_cons_True by done].
  - cbn [activities]. unfold mbind, P_bind. cbn [activity]. unfold mbind, P_bind.
    destruct (consume _ _ _ _) as [ [[]|e] s']; [|done]. by apply IH.
  - cbn [activities]. unfold mbind, P_bind. cbn [activity]. rewrite Ht. by apply IH.
  - cbn [activities]. unfold mbind, P_bind. cbn [activity].
    destruct (heartbeat_alive tasks); [|by apply IH]. unfold mbind, P_bind, ptry.
    destruct (touch_heartbeat path s) as [o s']. by apply IH.
Qed.

(** The recovery task ends with the first round that raises - a lost connection to
    the database is enough - and nothing notices: [main] only collects its exception
    when it stops.  From then on the process delivers messages and beats as before,
    but it never recovers a job again. *)
Lemma recovery_ends_unnoticed worker_id path l tasks e w' s :
  recovery_alive tasks = true ->
  StaleRunningRecovery.recover_due_batch_once settings (pr_world s) = (Exc e, w') ->
  activities settings worker_id path (RecoveryRound :: l) tasks s
  = activities settings worker_id path (filter not_recovery l) (mkTasks (heartbeat_alive tasks) false)
      (mkProc w' (pr_answers s) (pr_calls s) (pr_logger s)).
Proof using.
  intros Ht Hr. cbn [activities]. unfold mbind at 1, P_bind at 1. cbn [activity]. rewrite Ht.
  unfold mbind at 1, P_bind at 1, ptry, run_coroutine. rewrite Hr. cbn [mret P_ret].
  by apply activities_without_recovery.
Qed.

(** *** The administrator command *)

(** [python -m app.cli.create_admin]: when the engine can be made and closed the
    command ends as [create_or_update_admin] does, with the database it leaves; the
    engine is closed in any case, and the calls are these two. *)
Theorem create_admin_process email password s :
  pr_calls s = [] -> let run := create_admin_run settings email password s in
  let admin := create_or_update_admin email password (pr_world s) in
  match pr_answers s [] (CCreateAsyncEngine (database_url settings)) with
  | Some e => fst run = Exc e /\ pr_world (snd run) = pr_world s
  | None =>
      pr_calls (snd run) = [CCreateAsyncEngine (database_url settings); CEngineDispose] /\
      pr_world (snd run) = snd admin /\
      fst run = match pr_answers s [CCreateAsyncEngine (database_url settings)] CEngineDispose with
        | Some e => Exc e
        | None => match fst admin with Ok _ => Ok tt | Exc e => Exc e end
        end
  end.
Proof using.
  intros Hs run admin. unfold run, create_admin_run, set_up_logging, call, finally, run_coroutine.
  unfold mbind, P_bind. cbn [pr_answers pr_calls pr_world]. rewrite Hs. cbn [app].
  destruct (pr_answers s [] _) as [e|]; [done|]. fold admin. destruct admin as [ [u|e] w]; cbn;
    by destruct (pr_answers s _ CEngineDispose).
Qed.

End services.

(** ** Heartbeats *)

(** The healthcheck of docker-compose.yml: younger than 15 seconds. *)
Definition healthy (mtime now : Z) : Prop := now - mtime < seconds 15.

(** While a process lives its heartbeat file is fresh: with the interval of five
    seconds the processes use and rounds that take less than ten seconds to touch it,
    at any time between the first touch and the stop the last touch was less than
    fifteen seconds ago, so the healthcheck passes; a round begun before the stop is
    the last, and the loop ends. *)
Theorem heartbeat_fresh stop takes start x :
  (forall i, 0 <= takes i < seconds 10) -> start + takes 0%nat <= x < stop ->
  let touches fuel := touch_heartbeat_forever fuel 5 stop takes 0 start in
  exists fuel, (forall fuel', (fuel <= fuel')%nat -> touches fuel' = touches fuel) /\
  (forall mtime, mtime ∈ touches fuel -> start <= mtime < stop + seconds 10) /\
  exists mtime, mtime ∈ touches fuel /\ mtime <= x /\ healthy mtime x.
Proof.
  intros Ht Hx touches.
  assert (Hb : forall i, 0 <= takes i <= seconds 10 - 1) by (intros i; specialize (Ht i); lia).
  exists (rounds_to_stop 5 stop start). split; [|split].
  - intros fuel' Hf. by apply (beats_enough 5 stop takes (seconds 10 - 1)).
  - intros b Hin. apply (beats_within 5 stop takes (seconds 10 - 1)) in Hin; [lia | lia | done].
  - destruct (beats_recent 5 stop takes (seconds 10 - 1) ltac:(lia) Hb (rounds_to_stop 5 stop start) 0 start x)
      as (b & Hin & Hr); [lia | done |]. exists b. split; [exact Hin|]. unfold healthy, seconds in *. lia.
Qed.

(** ** On concrete processes *)

Definition process_on (w : World) (answers : list Call -> Call -> option exn) : Proc :=
  mkProc w answers [] (mkRootLogger false 0 1 30).

Definition all_answer : list Call -> Call -> option exn := fun _ _ => None.



Lemma background_processes_witness :
  let run := outbox_publisher_main sample_settings [false; true] None (process_on sample_world1 all_answer) in
  fst run = Ok tt /\
  pr_world (snd run) = snd (OutboxPublisher.run_forever sample_settings [false; true] sample_world1) /\
  w_broker (pr_world (snd run)) <> [].
Proof.
  intros run.
  destruct (background_processes sample_settings [false; true] None (process_on sample_world1 all_answer)
    eq_refl) as (_ & _ & H).
  destruct (H (fun _ _ => eq_refl) eq_refl) as (Ho & Hw & _). split; [|split].
  - exact Ho.
  - exact Hw.
  - assert (Hb : match w_broker (pr_world (snd run)) with [] => false | _ => true end = true)
      by (vm_compute; reflexivity).
    intros E. rewrite E in Hb. discriminate Hb.
Defined.

Lemma create_admin_process_witness :
  let run := create_admin_run sample_settings "ada@example.org" "lovelace"
    (process_on sample_world all_answer) in
  fst run = Ok tt /\
  pr_calls (snd run) = [CCreateAsyncEngine "postgresql+asyncpg://db/app"; CEngineDispose].
Proof.
  intros run. destruct (create_admin_process sample_settings "ada@example.org" "lovelace"
    (process_on sample_world all_answer) eq_refl) as (Hc & _ & Ho). split; [|exact Hc].
  etransitivity; [exact Ho|]. vm_compute. reflexivity.
Defined.

Lemma heartbeat_fresh_witness :
  touch_heartbeat_forever 10 5 (seconds 12) (fun _ => seconds 1) 0 0
  = [seconds 1; seconds 7] /\
  exists mtime, mtime <= seconds 11 /\ healthy mtime (seconds 11).
Proof.
  split; [vm_compute; reflexivity|].
  destruct (heartbeat_fresh (seconds 12) (fun _ => seconds 1) 0 (seconds 11)) as (_ & _ & _ & m & _ & H).
  - intros _. by vm_compute.
  - by vm_compute.
  - by exists m.
Defined.

(** The lease of job 100 has run out; the first recovery round loses its COMMIT.
    The process goes on to its stop and ends well; the job is never recovered. *)
Definition lossy_world : World :=
  mkWorld (w_db sample_world5) (w_sessions sample_world5) (w_clock sample_world5) (w_ticks sample_world5)
    (w_next_uuid sample_world5) [CommitLost "connection lost"] [] [] ∅ [] ∅ [].

Definition is_beat (c : Call) : bool := match c with CTouch _ => true | _ => false end.

Lemma worker_outlives_its_recovery :
  let run := job_worker_main sample_settings "worker-1"
    [RecoveryRound; HeartbeatRound; RecoveryRound; RecoveryRound; HeartbeatRound; RecoveryRound]
    (Some "/tmp/beat") (process_on lossy_world all_answer) in
  fst run = Ok tt /\ j_status (sample_job (pr_world (snd run))) = RUNNING /\
  List.length (List.filter is_beat (pr_calls (snd run))) = 2%nat.
Proof. split; [|split]; vm_compute; reflexivity. Qed.
