(* ===== verification/AppContracts.v ===== *)
(** * AppContracts: the application before its start, while it serves and after
    its end, and the settings it is made from. *)
From S2P Require Import Prelude Exceptions Domain Store Effects Tables Config Text TextSpec Repos PostCommit JobService ListJobs.
From S2P Require Import Redis RateLimiter ListCache Auth Http Logging Process ProcessSpec App Iso JsonText.
From S2P Require Import Samples ProcessContracts RedisContracts.

(** ** Settings *)

Lemma sorted_names_sorted names :
  sorted_names names ≡ₚ names /\ StronglySorted (fun a b => String.leb a b = true) (sorted_names names).
Proof.
  split; [apply order_by_perm|].
  apply (order_by_sorted String.leb); [apply String.leb_total|].
  intros a b c. apply (key_le_trans (a, tt) (b, tt) (c, tt)).
Qed.

(** Settings are read once: the first that could be read are kept, whatever the
    environment says later; an attempt that fails keeps nothing and names, in
    alphabetical order, all the variables that are missing. *)
Lemma get_settings_cases cache result :
  match cache, result with
  | Some s, _ => get_settings cache result = (Ok s, Some s)
  | None, SettingsRead s => get_settings cache result = (Ok s, Some s) /\
      forall later, get_settings (snd (get_settings cache result)) later = (Ok s, Some s)
  | None, SettingsInvalid errors text => exists message,
      get_settings cache result = (Exc (RuntimeErr message), None) /\
      (missing_fields errors <> [] -> exists names, names ≡ₚ missing_fields errors /\
        StronglySorted (fun a b => String.leb a b = true) names /\
        message = "Missing required environment settings: " +:+ join ", " names)
  end.
Proof.
  destruct cache as [s|]; [done|]. destruct result as [s|errors text]; [done|]. cbn.
  destruct (bool_decide (missing_fields errors = [])) eqn:E; cbn [negb].
  - apply bool_decide_eq_true in E. eexists. split; [reflexivity | done].
  - eexists. split; [reflexivity|]. intros _. exists (sorted_names (missing_fields errors)).
    destruct (sorted_names_sorted (missing_fields errors)). done.
Qed.

(** ** The application *)
Section application.
Context `{JR : JsonReader} `{IR : IsoReader} `{RS : RedisServer}.
Context `{RP : RedisPublish} `{EC : JobStatusEventCodec}.
Context (settings : Settings).

#[local] Abbreviation fresh := (create_app settings).
#[local] Abbreviation opened := [CCreateAsyncEngine (database_url settings); CRedisFromUrl (redis_url settings)].

(** What a Starlette state says of an attribute that was not set. *)
Definition no_attribute (name : string) : exn :=
  OtherErr "AttributeError" ("'State' object has no attribute '" +:+ name +:+ "'").

(** The application through its life.  Before its start the services cannot be
    made and the readiness route answers 503.  With settings that are not fit to run
    it does not start, and nothing was opened.  Once it has started, the
    job service has the settings, the limiter, the cache and the notifier of these
    settings, the authentication service the same sessions, and the event stream the
    Redis client of the others; readiness is then that of the database alone - without
    Redis it is 200, degraded.  However its serving ends, it closes first Redis and then the
    engine; and from then on it is not ready. *)
Theorem application_life (dependencies : Dependencies) (serving : State -> P unit) T s w :
  pr_calls s = [] -> (forall st, traces (pr_answers s) (serving st) T) ->
  let start := app_startup fresh s in
  let started := assemble fresh in
  get_auth_service (mkRequest fresh) = Exc (no_attribute "uow_factory") /\
  get_job_service (mkRequest fresh) = Exc (no_attribute "uow_factory") /\
  ready_route dependencies fresh w = (Ok not_ready, w) /\
  (forall e, validate_runtime settings = Exc e -> start = (Exc e, s)) /\
  (forall st, fst start = Ok st -> st = started /\ pr_calls (snd start) = opened) /\
  (exists js, get_job_service (mkRequest started) = Ok js /\
    js = mkJobServiceObject (js_uow_factory js) settings (RedisCreateJobRateLimiter settings)
      (RedisJobListCache settings) (standard_notifier (RedisJobListCache settings)) /\
    get_auth_service (mkRequest started) = Ok (mkAuthServiceObject (js_uow_factory js) settings) /\
    get_job_status_pubsub started = get_redis_client started /\
    get_redis_client started = Ok (mkRedisClient (redis_url settings))) /\
  (exists response, fst (ready_route dependencies started w) = Ok response /\
    rs_status response = match fst (select_one dependencies w) with Ok _ => 200 | Exc _ => 503 end) /\
  opened_then (closed (pr_answers s) [CRedisClose; CEngineDispose] T)
    (fst (lifespan fresh serving s)) (pr_calls (snd (lifespan fresh serving s))) /\
  ready_route dependencies (fst (app_shutdown started)) w = (Ok not_ready, w).
Proof using.
  intros Hs HT start started. split; [done|]. split; [done|]. split; [done|]. split; [|split; [|split; [|split; [|split] ] ] ].
  - intros e He. unfold start, app_startup, start_process, mbind, P_bind, plift.
    change (App.settings fresh) with settings. by rewrite He.
  - unfold start, app_startup, start_process, mbind, P_bind, plift, set_up_logging, call.
    change (App.settings fresh) with settings. destruct (validate_runtime settings) as [ []|e]; [|done].
    cbn. destruct (pr_answers s _ _); [done|]. cbn. destruct (pr_answers s _ _); [done|].
    cbn. intros st [= <-]. by rewrite Hs.
  - eexists. split; [reflexivity|]. done.
  - unfold ready_route. cbn [is_ready started assemble default negb from_option id].
    unfold mbind at 1, M_bind at 1, lift at 1. cbn [get_session_factory attribute].
    unfold mbind at 1, M_bind at 1, lift at 1. unfold ready. cbn [negb].
    unfold mbind at 1, M_bind at 1, attempt at 1. 
    destruct (select_one dependencies w) as [ [ []|e] w1]; cbn; [|by eexists].
    unfold mbind, M_bind, attempt. by destruct (ping dependencies w1) as [o w2]; eexists.
  - assert (HL : traces (pr_answers s) (lifespan fresh serving)
      (opened_then (closed (pr_answers s) [CRedisClose; CEngineDispose] T))).
    { unfold lifespan, app_startup. cbn [app_shutdown snd].
      assert (Hone : forall st, traces (pr_answers s) (finally (serving st) (call CRedisClose;; call CEngineDispose))
        (opened_then (closed (pr_answers s) [CRedisClose; CEngineDispose] T))).
      { intros st. apply traces_close; [apply HT|].
        change [CRedisClose; CEngineDispose] with ([CRedisClose] ++ [CEngineDispose]). run_calls. }
      apply traces_open; [|exact Hone].
      apply only_bind; [apply start_only | intros _]. auto with app. }
    destruct (HL s eq_refl) as (_ & l & Hl & H). rewrite Hs in Hl. by rewrite Hl.
  - done.
Qed.

End application.

(** ** On a concrete application *)

Definition sample_dependencies : Dependencies :=
  mkDependencies (mret tt) (raise (InfraErr "Connection refused")).

Definition serve_nothing (st : State) : P unit := mret tt.

(** Redis cannot be reached: the application starts, is ready (degraded), and ends. *)
Lemma application_life_witness :
  let s := process_on sample_world all_answer in
  fst (ready_route sample_dependencies (assemble (RS := sample_server) (create_app sample_settings)) sample_world)
  = Ok (mkResponse 200 [] (JObj [("status", JStr "ready");
      ("checks", JObj [("database", JStr "ok"); ("redis", JStr "degraded")])])) /\
  pr_calls (snd (lifespan (RS := sample_server) (create_app sample_settings) serve_nothing s))
  = [CCreateAsyncEngine "postgresql+asyncpg://db/app"; CRedisFromUrl "redis://cache"; CRedisClose; CEngineDispose] /\
  exists response, fst (ready_route sample_dependencies
    (assemble (RS := sample_server) (create_app sample_settings)) sample_world) = Ok response /\
    rs_status response = 200.
Proof.
  intros s. split; [vm_compute; reflexivity|]. split; [vm_compute; reflexivity|].
  destruct (application_life (RS := sample_server) sample_settings sample_dependencies serve_nothing
    (fun o l => o = Ok tt /\ l = []) s sample_world eq_refl (fun st => traces_ret _ tt))
    as (_ & _ & _ & _ & _ & _ & (response & Hr & Hst) & _).
  exists response. split; [exact Hr | exact Hst].
Defined.
