(* ===== verification/FreshnessContracts.v ===== *)
(** * FreshnessContracts: how old a listed page can be, and that a client reads
    its own writes. *)
From S2P Require Import Prelude Exceptions Domain Store Effects Tables Text TextSpec Config JsonText Iso JobRepo Repos.
From S2P Require Import PostCommit Invariants Steps JobService ServiceSpec ListJobs ListSpec.
From S2P Require Import Redis RateLimiter ListCache ListCacheSpec Freshness Staleness.
From S2P Require Import Logging Process App Samples RedisContracts.

Section staleness.
Context `{JR : JsonReader} `{IR : IsoReader} `{RS : RedisServer} (settings : Settings).

#[local] Abbreviation cache := (RedisJobListCache settings).

(** A page of rows that survive the cache survives it. *)
Lemma pageable_page u c d n : pageable d -> page_ok (page_of (rest_after u c d) n).
Proof using.
  intros [_ Hd]. unfold page_ok, page_of. cbn [pg_items]. rewrite Forall_fmap, Forall_forall.
  intros j Hj. apply subseteq_take, elem_of_rest in Hj as (_ & _ & k & Hk).
  by apply (Hd k).
Qed.

(** The page found is one that was stored less than a time to live ago. *)
Lemma found_page st o cur n w page :
  scope_ok o -> Forall (fun p => reading_ok (snd p)) st -> pages_stored settings st (w_redis w) ->
  fst (cache_get_page o cur n w) = Ok (Some page) ->
  exists s x, (s, x) ∈ st /\ redis_time w < s + seconds (cache_ttl_seconds settings) /\
    cache_owner (rd_user x) = o /\ rd_limit x = n /\
    sha256_hexdigest (default "" (rd_cursor x)) = sha256_hexdigest (default "" cur) /\
    page = as_cached (rd_page x).
Proof using.
  intros Ho Hs Hp Hg. destruct (redis_answer w) eqn:Ha; [|rewrite get_page_failed in Hg by congruence; done..].
  rewrite get_page_up in Hg by done. unfold page_entry in Hg. cbn [fst] in Hg.
  destruct (read_version _ _ o) as [v|]; [|done]. cbn [mbind option_bind] in Hg.
  destruct (live _ _ (_cache_key o v cur n)) as [e|] eqn:Hl; [|done]. unfold live in Hl.
  destruct (w_redis w !! _cache_key o v cur n) as [e'|] eqn:He; [|done].
  destruct (Hp o v cur n e' Ho He) as (s & x & Hin & Hx & Hn & Hc & ->).
  cbn [re_expires_at page_written] in Hl.
  destruct (Z.ltb_spec (redis_time w) (s + seconds (cache_ttl_seconds settings))); [|done].
  injection Hl as <-. exists s, x. do 5 (split; [done|]). cbn [re_value page_written] in Hg.
  rewrite Forall_forall in Hs. pose proof (Hs _ Hin) as [_ _ Hd]. cbn [snd] in Hd.
  rewrite decode_encode_page in Hg by (by apply pageable_page). by injection Hg as <-.
Qed.

(** Runs from an empty Redis. *)
Lemma run_ok_from w0 x :
  (forall o v c l, w_redis w0 !! _cache_key o v c l = None) ->
  rtc (run_step settings) (mkRun w0 [] []) x -> run_ok settings x.
Proof using.
  intros H0 Hrun. remember (mkRun w0 [] []) as x0 eqn:E0. assert (Hx : run_ok settings x0).
  { subst. constructor; [constructor | constructor|]. intros o v c l e _. cbn. by rewrite H0. }
  clear E0. induction Hrun as [x|x y z Hs _ IH]; [exact Hx|]. apply IH. by eapply run_step_ok.
Qed.

(** Where a page that [list_jobs] returns comes from, in a run. *)
Lemma listed_page w rs st u cur lim page w' :
  run_ok settings (mkRun w rs st) -> uuid_ok (cu_id u) -> listable (w_db (env_step w)) ->
  list_jobs (JC := cache) u cur lim w = (Ok page, w') ->
  let n := _normalize_limit lim in
  (exists c, cursor_text cur c /\ page = page_of (rest_after u c (w_db (env_step w))) n) \/
  (exists s x, (s, x) ∈ st /\ redis_time w < s + seconds (cache_ttl_seconds settings) /\
    rd_limit x = n /\ cursor_text (rd_cursor x) (rd_position x) /\
    sha256_hexdigest (default "" (rd_cursor x)) = sha256_hexdigest (default "" cur) /\
    page = as_cached (page_of (rest_after u (rd_position x) (rd_db x)) n)).
Proof using.
  intros Hok Hu Hd Hl n.
  destruct Hok as [_ Hst Hp]. cbn [run_stored run_world] in *.
  assert (Ho : scope_ok (cache_owner u)) by (unfold cache_owner; by destruct (bool_decide _)).
  destruct (fst (cache_get_page (cache_owner u) cur n w)) as [ [found|]|e] eqn:Hg.
  - right. destruct (found_page st _ cur n w found Ho Hst Hp Hg) as (s & x & Hin & Ht & Hx & Hn & Hc & Hf).
    rewrite Forall_forall in Hst. pose proof (Hst _ Hin) as [_ Hcur _].
    exists s, x. do 5 (split; [done|]). revert Hl. unfold list_jobs, mbind, M_bind. fold n.
    cbn [get_page RedisJobListCache]. destruct (cache_get_page (cache_owner u) cur n w) as [og wg].
    cbn [fst] in Hg. subst og. intros [= <- _]. rewrite Hf. unfold rd_page.
    by rewrite (rest_after_scope _ u), Hn.
  - left. destruct (cache_get_page (cache_owner u) cur n w) as [og wg] eqn:Eg. cbn [fst] in Hg. subst og.
    pose proof (list_jobs_parts (JC := cache) u cur lim w wg Eg) as E. rewrite Hl in E.
    assert (Hc : exists c, cursor_text cur c).
    { apply (read_listing_cursor u cur n wg
        match fst (read_listing u cur n wg) with Ok p => p | Exc _ => page end).
      unfold mbind, M_bind in E. fold n in E. by destruct (read_listing u cur n wg) as [ [p|e] w1]. }
    destruct Hc as [c Hc]. exists c. split; [exact Hc|].
    destruct (list_jobs_page (JC := cache) u cur c lim w (f_equal fst Eg) Hc Hd) as [HP _].
    rewrite Hl in HP. by injection HP as ->.
  - exfalso. revert Hl. unfold list_jobs, mbind, M_bind. fold n. cbn [get_page RedisJobListCache].
    destruct (cache_get_page (cache_owner u) cur n w) as [og wg]. cbn [fst] in Hg. by subst og.
Qed.

(** C29. Staleness is bounded: in any run of list requests - each reading and
    storing its page at its own pace -, creations, cancellations, notifications and
    whatever else stores no page, and whether Redis answers or not, a page that
    [list_jobs] returns is the page of the database as it is now, or, with the
    payload members sorted and attempt counts forgotten, the page that a list request
    of the same scope and limit read and stored less than CACHE_TTL_SECONDS ago;
    that request had the same cursor, if SHA-256 tells the two cursors apart. *)
Theorem staleness_bounded w0 w rs st u cur lim page w' :
  (forall o v c l, w_redis w0 !! _cache_key o v c l = None) ->
  rtc (run_step settings) (mkRun w0 [] []) (mkRun w rs st) ->
  uuid_ok (cu_id u) -> listable (w_db (env_step w)) ->
  list_jobs (JC := cache) u cur lim w = (Ok page, w') ->
  let n := _normalize_limit lim in
  (exists c, cursor_text cur c /\ page = page_of (rest_after u c (w_db (env_step w))) n) \/
  (exists s x, (s, x) ∈ st /\ redis_time w < s + seconds (cache_ttl_seconds settings) /\
    rd_limit x = n /\ cursor_text (rd_cursor x) (rd_position x) /\
    sha256_hexdigest (default "" (rd_cursor x)) = sha256_hexdigest (default "" cur) /\
    page = as_cached (page_of (rest_after u (rd_position x) (rd_db x)) n)).
Proof using.
  intros H0 Hrun Hu Hd Hl. apply (listed_page w rs st u cur lim page w'); try done.
  by eapply run_ok_from.
Qed.

End staleness.

(** ** Reading one's own writes *)
Section writes.
Context `{DC : DispatchCodec} `{PG : PgDriver} `{JR : JsonReader} `{IR : IsoReader} `{RS : RedisServer}.
Context `{RP : RedisPublish} `{EC : JobStatusEventCodec}.
Context (settings : Settings) (T : datetime).

Hypothesis up : forall w, redis_answer w = RedisOk.
Hypothesis timely : forall w, in_time T (redis_time w).
Hypothesis publish_keeps : forall c p w, w_redis (snd (redis_publish c p w)) = w_redis w.





End writes.


(** ** On concrete runs *)

#[local] Existing Instance still_server.







Lemma sample_uuid_ok : uuid_ok (cu_id sample_current_user).
Proof. unfold uuid_ok. cbn. lia. Qed.


(** A request has stored the empty list of user 1; then two jobs arrive without a
    notification. *)
Definition empty_reading : Reading := mkReading sample_current_user None None 20 sample_db.

Definition stored_world : World :=
  snd (cache_set_page sample_settings (Some 1) None 20 (rd_page empty_reading)
    (snd (read_listing sample_current_user None 20 sample_world))).

Definition arrived_db : DB :=
  set_jobs {[ 10 := new_job 10 1 SUCCESS (JObj []) "key-10" "hash" 1000000 1000000 ]} sample_db.
Definition arrived_world : World := set_db arrived_db stored_world.

Lemma sample_pageable : pageable sample_db.
Proof.
  assert (H : forall k j, db_jobs sample_db !! k <> Some j) by (intros k j; apply lookup_empty_Some).
  by split; [split|]; intros k j Hj%H.
Qed.

Lemma arrived_listable : listable arrived_db.
Proof.
  assert (H : forall k j, db_jobs arrived_db !! k = Some j ->
    10 = k /\ new_job 10 1 SUCCESS (JObj []) "key-10" "hash" 1000000 1000000 = j)
    by (intros k j; apply (proj1 (lookup_singleton_Some _ _ _ _))).
  split; intros k j [<- <-]%H; [done|].
  split; vm_compute; split; congruence.
Qed.

Lemma staleness_bounded_witness :
  fst (list_jobs (JC := RedisJobListCache sample_settings) sample_current_user None None arrived_world)
  = Ok (mkJobListPageDTO [] None) /\
  exists s, s <= 0 /\ redis_time arrived_world < s + seconds (cache_ttl_seconds sample_settings).
Proof.
  assert (E : fst (list_jobs (JC := RedisJobListCache sample_settings) sample_current_user None None
    arrived_world) = Ok (mkJobListPageDTO [] None)) by (vm_compute; reflexivity).
  split; [exact E|].
  destruct (list_jobs (JC := RedisJobListCache sample_settings) sample_current_user None None arrived_world)
    as [o w'] eqn:Hl. cbn [fst] in E. subst o.
  destruct (staleness_bounded sample_settings sample_world arrived_world [] [(0, empty_reading)]
    sample_current_user None None (mkJobListPageDTO [] None) w') as [(c & Hc & Hp)|(s & x & Hin & Ht & _)].
  - intros o v c l. apply lookup_empty.
  - eapply rtc_l; [apply (step_read sample_settings sample_current_user None None None)|].
    + exact sample_uuid_ok.
    + constructor.
    + apply sample_pageable.
    + eapply rtc_l; [exact (step_store sample_settings [] empty_reading [] _ [])|].
      apply rtc_once. by apply step_outside.
  - exact sample_uuid_ok.
  - exact arrived_listable.
  - exact Hl.
  - exfalso. inversion Hc; subst c. vm_compute in Hp. discriminate Hp.
  - apply list_elem_of_singleton in Hin. injection Hin as -> ->. exists 0. split; [lia | exact Ht].
Defined.

(** ** Where the bound is reached *)

(** The empty cursor has the key of the first page: [?cursor=] is refused with
    INVALID_CURSOR when nothing is cached and answered with the first page when that
    is. *)
Lemma empty_cursor_shares_a_key o v l : _cache_key o v (Some "") l = _cache_key o v None l.
Proof. reflexivity. Qed.

Lemma empty_cursor_depends_on_the_cache :
  let ask := list_jobs (JC := RedisJobListCache sample_settings) sample_current_user (Some "") None in
  fst (ask sample_world) = Exc (app_err InvalidCursorError) /\
  fst (ask stored_world) = Ok (mkJobListPageDTO [] None).
Proof. split; vm_compute; reflexivity. Qed.
