(* ===== verification/SchemaContracts.v ===== *)
(** * SchemaContracts: the migration makes the tables the models declare and can
    be undone, and the rows the service stores fit their columns. *)
From S2P Require Import Prelude Exceptions Domain Store Effects Tables Text TextSpec Config JsonText Iso.
From S2P Require Import JobRepo Repos PostCommit Invariants JobService ServiceSpec ListCacheSpec Http HttpContracts ServiceContracts.
From S2P Require Import Url Schema Migration MigrationEnv.

(** ** The migration *)

Definition migrated : Catalogue := default empty_catalogue (run upgrade empty_catalogue).

(** [c] has the table of a model, up to the order of columns and constraints, and
    exactly its indexes. *)
Definition describes (c : Catalogue) (m : Model) : Prop :=
  exists t, tables c !! tablename m = Some t /\ t_name t = tablename m /\
    t_columns t ≡ₚ t_columns (table_of m) /\ t_constraints t ≡ₚ t_constraints (table_of m) /\
    filter (fun i => ix_table i = tablename m) (map_to_list (indexes c)).*2 ≡ₚ indexes_of m.

Lemma migrated_describes : Forall (describes migrated) base_metadata.
Proof.
  assert (H : forall m t, tables migrated !! tablename m = Some t ->
    bool_decide (t_name t = tablename m /\ t_columns t ≡ₚ t_columns (table_of m) /\
      t_constraints t ≡ₚ t_constraints (table_of m) /\
      filter (fun i => ix_table i = tablename m) (map_to_list (indexes migrated)).*2 ≡ₚ indexes_of m) = true ->
    describes migrated m).
  { intros m t Ht Hd. apply bool_decide_eq_true in Hd. exists t. split; [exact Ht | exact Hd]. }
  repeat (apply Forall_cons_2; [eapply H; [vm_compute; reflexivity | vm_compute; reflexivity]|]).
  apply Forall_nil_2.
Qed.

(** Every violation an INSERT reports is one of a constraint of its table, of its
    kind. *)
Definition reports (v : violation) (k : Constraint) : bool :=
  match v, con_body k with
  | UniqueViolation name, UniqueConstraint _ => String.eqb (con_name k) name
  | UniqueViolation name, PrimaryKeyConstraint _ => String.eqb (con_name k) name
  | CheckViolation name, CheckConstraint _ => String.eqb (con_name k) name
  | ForeignKeyViolation name, ForeignKeyConstraint _ _ _ _ => String.eqb (con_name k) name
  | _, _ => false
  end.

Definition constraint_of (t : Table) (v : violation) : Prop := existsb (reports v) (t_constraints t) = true.

Lemma job_violations_named j d v :
  insert_job j d = inr v -> exists t, tables migrated !! "jobs" = Some t /\ constraint_of t v.
Proof.
  unfold insert_job. intros H. eexists. split; [vm_compute; reflexivity|].
  repeat (match type of H with (if ?b then _ else _) = _ => destruct b end; [injection H as <-; vm_compute; reflexivity|]).
  discriminate H.
Qed.

Lemma user_violations_named u d v :
  insert_user u d = inr v -> exists t, tables migrated !! "users" = Some t /\ constraint_of t v.
Proof.
  unfold insert_user. intros H. eexists. split; [vm_compute; reflexivity|].
  repeat (match type of H with (if ?b then _ else _) = _ => destruct b end; [injection H as <-; vm_compute; reflexivity|]).
  discriminate H.
Qed.

(** C32. The migration.  On an empty database [upgrade()] creates exactly the tables the
    models declare - their columns with type and nullability, their constraints under
    the names the naming convention gives them, their indexes.  Next to any other
    tables that do not use its names it does the same and leaves them alone;
    [downgrade()] then takes back exactly what it created; and it cannot be applied
    twice.  The constraint names the repositories and the statements report are those
    of constraints of that kind in the migrated tables. *)
Theorem migration_contract c :
  apart migration_relations c ->
  Forall (describes migrated) base_metadata /\
  (forall k t, tables migrated !! k = Some t -> exists m, m ∈ base_metadata /\ k = tablename m) /\
  run upgrade c = Some (joined migrated c) /\
  run downgrade (joined migrated c) = Some c /\
  run upgrade (joined migrated c) = None /\
  (forall j d v, insert_job j d = inr v -> exists t, tables migrated !! "jobs" = Some t /\ constraint_of t v) /\
  (forall u d v, insert_user u d = inr v -> exists t, tables migrated !! "users" = Some t /\ constraint_of t v).
Proof.
  intros Ha.
  assert (He : joined empty_catalogue c = c) by (destruct c; unfold joined; f_equal; apply (left_id_L ∅ (∪))).
  assert (Hu : run upgrade empty_catalogue = Some migrated) by (vm_compute; reflexivity).
  assert (Hd : run downgrade migrated = Some empty_catalogue) by (vm_compute; reflexivity).
  destruct (run_frame migration_relations upgrade empty_catalogue migrated c upgrade_concerns Ha) as [Hup Hw];
    [apply within_empty | done |]. rewrite He in Hup.
  destruct (run_frame migration_relations downgrade migrated empty_catalogue c downgrade_concerns Ha Hw Hd)
    as [Hdown _]. rewrite He in Hdown.
  split; [apply migrated_describes|]. split; [|split; [done|split; [done|split; [|split] ] ] ].
  - intros k t Hk. assert (Hin : k ∈ (map_to_list (tables migrated)).*1).
    { apply list_elem_of_fmap. exists (k, t). split; [done|]. by apply elem_of_map_to_list. }
    assert (Hm : (map_to_list (tables migrated)).*1 ≡ₚ tablename <$> base_metadata)
      by (apply (bool_decide_unpack _); vm_compute; exact I).
    rewrite Hm in Hin. apply list_elem_of_fmap in Hin as (m & -> & Hm'). exists m. split; [exact Hm' | reflexivity].
  - cbn [run upgrade apply]. unfold has_relation. cbn [t_name tables joined].
    assert (Hs : is_Some ((tables migrated ∪ tables c) !! "users")).
    { eexists. apply lookup_union_Some_l. vm_compute. reflexivity. }
    by rewrite bool_decide_eq_true_2.
  - apply job_violations_named.
  - apply user_violations_named.
Qed.

(** ** Running the migrations *)

(** No percent sign. *)
Definition plain (s : string) : Prop := has_char percent s = false.

Lemma plain_cons c s : plain (String c s) -> Ascii.eqb c percent = false /\ plain s.
Proof.
  unfold plain, has_char. rewrite !negb_false_iff. cbn [all_chars]. rewrite andb_true_iff, negb_true_iff.
  rewrite Ascii.eqb_sym. by intros [H1 H2].
Qed.

Lemma remove_doubled_plain s t : plain s -> remove_doubled (s +:+ t) = s +:+ remove_doubled t.
Proof.
  induction s as [|c s IH]; [done|]. intros [Hc Hs]%plain_cons. change (String c s +:+ t) with (String c (s +:+ t)).
  change (String c s +:+ remove_doubled t) with (String c (s +:+ remove_doubled t)). rewrite <- (IH Hs).
  cbn [remove_doubled]. rewrite Hc. cbn [andb]. by destruct (s +:+ t).
Qed.

Lemma remove_keys_plain fuel s t :
  plain s -> remove_keys (String.length s + fuel) (s +:+ t) = s +:+ remove_keys fuel t.
Proof.
  induction s as [|c s IH]; [done|]. intros [Hc Hs]%plain_cons. change (String c s +:+ t) with (String c (s +:+ t)).
  change (String c s +:+ remove_keys fuel t) with (String c (s +:+ remove_keys fuel t)). rewrite <- (IH Hs).
  cbn [String.length Nat.add remove_keys]. rewrite Hc. cbn [andb].
  destruct (s +:+ t) eqn:E; [|done]. by destruct (String.length s + fuel)%nat.
Qed.

Lemma string_length_app s t : String.length (s +:+ t) = (String.length s + String.length t)%nat.
Proof. induction s as [|c s IH]; [done|]. cbn. by rewrite <- IH. Qed.

Lemma app_empty_r' s : s +:+ "" = s.
Proof. apply JsonRoundTrip.app_empty_r. Qed.

Lemma before_set_plain s : plain s -> before_set s = Ok s.
Proof.
  intros Hs. unfold before_set. pose proof (remove_doubled_plain s "" Hs) as H.
  rewrite app_empty_r' in H. rewrite H. cbn [remove_doubled]. rewrite app_empty_r'.
  pose proof (remove_keys_plain 0 s "" Hs) as H2. rewrite app_empty_r', Nat.add_0_r in H2. rewrite H2.
  cbn [remove_keys]. by rewrite app_empty_r', Hs.
Qed.

Lemma scan_plain resolve s : plain s -> scan resolve InText s = Ok s.
Proof.
  induction s as [|c s IH]; [done|]. intros [Hc Hs]%plain_cons. cbn [scan]. by rewrite Hc, (IH Hs).
Qed.

Lemma interpolate_plain options s : plain s -> interpolate MAX_INTERPOLATION_DEPTH options s = Ok s.
Proof. intros Hs. by apply scan_plain. Qed.

Lemma get_section_plain s :
  map_Forall (fun _ v => plain v) (en_options s) -> get_section s = (Ok (en_options s), s).
Proof.
  intros H. unfold get_section. f_equal.
  assert (Hl : forall l, Forall (fun kv => plain kv.2) l -> interpolate_items (en_options s) l = Ok l).
  { induction 1 as [|[k v] l Hv _ IH]; [done|]. cbn [interpolate_items]. by rewrite (interpolate_plain _ v Hv), IH. }
  rewrite Hl; [by rewrite list_to_map_to_list|].
  rewrite Forall_forall. intros [k v] Hkv%elem_of_map_to_list. by apply (H k v).
Qed.

Definition on_connection (url : string) : Configuration :=
  mkConfiguration None (Some url) base_metadata false None true.

(** The script up to its first call, online. *)
Definition with_url (url : string) (s : Env) : Env :=
  mkEnv (<["sqlalchemy.url" := url]> (en_options s)) (en_catalogues s) (en_working s) (en_answers s) (en_calls s).

Lemma env_py_online script url s :
  plain url -> map_Forall (fun _ v => plain v) (en_options s) ->
  env_py script None (Ok url) false s =
  (vcall (EngineFromConfig url NullPool) no_effect;; run_async_migrations script url) (with_url url s).
Proof.
  intros Hu Ho. unfold env_py, vlift, set_main_option, mret, V_ret. unfold mbind at 1 2 3, V_bind at 1 2 3.
  rewrite (before_set_plain url Hu). fold (with_url url s). unfold run_migrations_online.
  unfold mbind at 1, V_bind at 1. rewrite get_section_plain.
  - cbn [en_options with_url]. by rewrite lookup_insert_eq.
  - cbn [en_options with_url]. by apply map_Forall_insert_2.
Qed.

(** [alembic upgrade] with a URL that has no percent sign, whatever call fails: the
    database of the settings - and no other - is migrated as a whole or not at all,
    and the connection, once made, is closed; when nothing fails it is migrated, in
    one transaction on one connection. *)
Theorem alembic_runs script url s o s' :
  plain url -> map_Forall (fun _ v => plain v) (en_options s) ->
  env_py script None (Ok url) false s = (o, s') ->
  (en_catalogues s' = en_catalogues s \/
   exists c, run script (catalogue_of url s) = Some c /\ en_catalogues s' = <[url := c]> (en_catalogues s)) /\
  (forall c, (forall before x, en_answers s before x = None) -> run script (catalogue_of url s) = Some c ->
   o = Ok tt /\ en_catalogues s' = <[url := c]> (en_catalogues s) /\
   en_calls s' = en_calls s ++ [EngineFromConfig url NullPool; Connect url; Configure (on_connection url);
     BeginTransaction; RunMigrations; CommitTransaction; Disconnect; Dispose]).
Proof.
  intros Hu Ho Hrun. rewrite env_py_online in Hrun by done.
  remember (with_url url s) as s1 eqn:Hs1.
  assert (Hcat : en_catalogues s1 = en_catalogues s) by by subst.
  assert (Hans : en_answers s1 = en_answers s) by by subst.
  assert (Hcalls : en_calls s1 = en_calls s) by by subst.
  assert (Hcu : catalogue_of url s1 = catalogue_of url s) by (unfold catalogue_of; by rewrite Hcat).
  rewrite <- Hcat, <- Hcu, <- Hans, <- Hcalls. clear Hcat Hans Hcalls Hcu Hs1 Ho Hu s.
  unfold run_async_migrations, connected, do_run_migrations, in_transaction, run_script, mbind, V_bind, no_effect in Hrun.
  split.
  - revert Hrun. unfold vcall, catalogue_of.
    repeat (cbn; match goal with
      | |- context [en_answers s1 ?b ?c] => destruct (en_answers s1 b c)
      | |- context [run script ?c] => destruct (run script c) eqn:?
      end); cbn; intros [= <- <-]; first [by left | right; eexists; split; [reflexivity | done] ].
  - intros c Hcalm Hc. revert Hrun. unfold vcall, catalogue_of in *.
    repeat (cbn; first [rewrite !Hcalm | rewrite !Hc]); cbn. intros [= <- <-].
    split; [done|]. split; [done|]. by rewrite <- !app_assoc.
Qed.

(** The first [alembic upgrade head] on the database of the settings, next to any
    other tables: the migration of [migration_contract]. *)
Theorem alembic_upgrade_head url s :
  plain url -> map_Forall (fun _ v => plain v) (en_options s) -> (forall before x, en_answers s before x = None) ->
  apart migration_relations (catalogue_of url s) ->
  let run := env_py upgrade None (Ok url) false s in
  fst run = Ok tt /\ en_catalogues (snd run) = <[url := joined migrated (catalogue_of url s)]> (en_catalogues s).
Proof.
  intros Hu Ho Hcalm Ha. cbv zeta. destruct (env_py upgrade None (Ok url) false s) as [o s'] eqn:E.
  destruct (alembic_runs upgrade url s o s' Hu Ho E) as [_ H].
  assert (Hup : Migration.run upgrade (catalogue_of url s) = Some (joined migrated (catalogue_of url s))).
  { destruct (run_frame migration_relations upgrade empty_catalogue migrated (catalogue_of url s)
      upgrade_concerns Ha) as [Hup _]; [apply within_empty | by vm_compute |].
    rewrite <- Hup. f_equal. destruct (catalogue_of url s). unfold joined. f_equal; symmetry; apply (left_id_L ∅ (∪)). }
  destruct (H _ Hcalm Hup) as (-> & Hc & _). by split.
Qed.

(** A URL with a percent sign - a password with an encoded character - is taken by
    the application and refused here: [set_main_option] goes through the
    interpolation of [configparser], and nothing is migrated. *)
Lemma percent_url_refused script before c after offline s :
  plain before -> plain after -> c <> percent -> c <> "("%char ->
  env_py script None (Ok (before +:+ String percent (String c after))) offline s = (Exc ValueError_percent, s).
Proof.
  intros Hb Ha Hc Hp. unfold env_py, vlift, set_main_option, mret, V_ret. unfold mbind at 1 2 3, V_bind at 1 2 3.
  assert (E : before_set (before +:+ String percent (String c after)) = Exc ValueError_percent).
  { assert (Hs : plain (String c after)).
    { unfold plain, has_char in *. cbn [all_chars]. rewrite negb_false_iff in *. rewrite Ha, andb_true_r.
      rewrite negb_true_iff, Ascii.eqb_neq. congruence. }
    assert (Hd : remove_doubled (String percent (String c after)) = String percent (String c after)).
    { pose proof (remove_doubled_plain (String c after) "" Hs) as Hr. rewrite app_empty_r' in Hr.
      transitivity (String percent (remove_doubled (String c after))); [|by rewrite Hr, app_empty_r'].
      cbn [remove_doubled]. by rewrite (proj2 (Ascii.eqb_neq c percent) Hc), andb_false_r. }
    unfold before_set. rewrite (remove_doubled_plain before _ Hb), Hd.
    assert (El : String.length (before +:+ String percent (String c after))
      = (String.length before + S (S (String.length after)))%nat) by apply string_length_app.
    rewrite El, (remove_keys_plain _ before _ Hb). cbn [remove_keys].
    rewrite (proj2 (Ascii.eqb_neq c "(") Hp), andb_false_r.
    match goal with |- (if ?b then _ else _) = _ => assert (Hb' : b = true) end; [|by rewrite Hb'].
    unfold has_char. rewrite all_chars_app. cbn [all_chars]. by rewrite andb_false_r. }
  by rewrite E.
Qed.

(** ** Values of a column *)





















(** ** The rows of accepted requests *)





(** ** On concrete inputs *)

Definition version_table : Table :=
  mkTable "alembic_version" [mkColumn "version_num" (SqlString (Some 32)) false]
    [mkConstraint "alembic_version_pkc" (PrimaryKeyConstraint ["version_num"])].
Definition other_tables : Catalogue := mkCatalogue {[ "alembic_version" := version_table ]} ∅.

Lemma other_tables_apart : apart migration_relations other_tables.
Proof.
  assert (H : forall k t, tables other_tables !! k = Some t ->
    k = "alembic_version" /\ forall n, existsb (refers_to n) (t_constraints t) = false)
    by (intros k t Hk; apply (proj1 (lookup_singleton_Some _ k version_table t)) in Hk as [<- <-]; done).
  constructor.
  - intros n Hn. destruct (tables other_tables !! n) as [t|] eqn:E; [|reflexivity].
    apply H in E as [-> _]. exfalso. revert Hn. apply (bool_decide_unpack _). vm_compute. exact I.
  - intros n _. apply lookup_empty.
  - intros k t n Hk _. by apply H in Hk as [_ Hk].
  - intros k i Hi. by apply (lookup_empty_Some k i) in Hi.
Qed.

Lemma migration_contract_witness :
  run downgrade (joined migrated other_tables) = Some other_tables /\
  run upgrade (joined migrated other_tables) = None.
Proof.
  destruct (migration_contract other_tables other_tables_apart) as (_ & _ & _ & Hd & Hu & _).
  split; [exact Hd | exact Hu].
Defined.




