(* ===== verification/RequestContracts.v ===== *)
(** * RequestContracts: the HTTP API as part of the system, and what one user can
    see and change of the jobs of another. *)
From S2P Require Import Prelude Exceptions Domain Store Effects Tables Text TextSpec Config JsonText Iso JobRepo Repos.
From S2P Require Import RedisContracts PostCommit Invariants Steps JobService ListJobs ListSpec Rabbit Publisher Worker Recovery.
From S2P Require Import WorkerSpec RecoverySpec PublisherSpec ServiceSpec EventStream Auth AuthSpec Http System.
From S2P Require Import Redis RateLimiter ListCache ListCacheSpec Freshness Staleness.
From S2P Require Import Requests Liveness Samples ServiceContracts AuthContracts HttpContracts StreamContracts.
From S2P Require Import FreshnessContracts.

(** ** Requests are steps of the system *)
Section requests.
Context `{LI : LaxInt} `{EV : EmailValidator} `{DT : DatetimeText} `{EC : JobStatusEventCodec}.
Context `{PH : PasswordHash} `{PJ : PyJWT} `{FT : FloatTime} `{PG : PgDriver} `{DC : DispatchCodec}.
Context `{RL : CreateJobRateLimiter} `{RLL : !RateLimiterLaws RL}.
Context `{JC : JobListCache} `{JCL : !JobListCacheLaws JC}.
Context `{N : WorkerPostCommitNotifier} `{NL : !NotifierLaws N}.
Context `{JR : JsonReader} `{IR : IsoReader} (settings : Settings).

(** What the API runs: the endpoints of [app/api/routes/jobs.py] and
    [app/api/routes/auth.py], each also under the middleware and the error handlers of
    the application. *)
Inductive endpoint : forall A, M A -> Prop :=
| at_post_jobs credentials key body : endpoint Response (post_jobs settings credentials key body)
| at_get_job credentials k : endpoint Response (get_job settings credentials k)
| at_get_jobs credentials cursor limit : endpoint Response (get_jobs settings credentials cursor limit)
| at_get_job_logs credentials k : endpoint Response (get_job_logs settings credentials k)
| at_post_cancel credentials k : endpoint Response (post_cancel settings credentials k)
| at_stream credentials k polls gone : endpoint _ (
    u ← current_user_dep settings credentials; stream_job_events u k polls gone)
| at_post_register body : endpoint Response (post_register body)
| at_post_login body : endpoint Response (post_login settings body)
| at_serve header route : endpoint Response route -> endpoint Response (serve header route).

(** C13. Every request of the HTTP API, from the middleware to the last statement and
    however it ends - answered, refused, or broken off by a lost COMMIT -, is a run of
    the operations of the system: it leads from reachable states to reachable states,
    so what holds in every reachable state holds under any HTTP traffic. *)
Theorem requests_are_steps A (m : M A) w cs :
  endpoint A m -> reachable settings (mkSys w cs) ->
  steps settings (mkSys w cs) (mkSys (snd (m w)) cs) /\ reachable settings (mkSys (snd (m w)) cs).
Proof using All.
  intros Hm HR. enough (Ha : acts settings m).
  { pose proof (Ha w cs (reachable_inv _ _ HR)) as HS. split; [done|].
    destruct HR as (s0 & H0 & HS0). exists s0. split; [done | by etrans]. }
  clear HR w cs. induction Hm; auto using acts_post_jobs, acts_get_job, acts_get_jobs, acts_get_job_logs,
    acts_post_cancel, acts_post_register, acts_post_login, acts_serve.
  apply acts_bind; [apply acts_aside, aside_current_user|]. intros u. apply acts_aside, aside_stream.
Qed.


End requests.

(** ** Tenants *)

(** The rows that changed are the user's own, before and after. *)
Definition only_own (u : CurrentUserDTO) (d d' : DB) : Prop := forall k,
  db_jobs d' !! k = db_jobs d !! k \/
  ((forall j, db_jobs d !! k = Some j -> j_owner_id j = cu_id u) /\
   exists j', db_jobs d' !! k = Some j' /\ j_owner_id j' = cu_id u).

Lemma visible_own u j : cu_role u = USER -> visible u j = true -> j_owner_id j = cu_id u.
Proof. unfold visible. intros ->. cbn [orb bool_decide]. by intros H%Z.eqb_eq. Qed.

Lemma only_own_update u d d' k j j' :
  db_jobs d' = <[k := j']> (db_jobs d) -> db_jobs d !! k = Some j -> j_owner_id j = cu_id u ->
  j_owner_id j' = cu_id u -> only_own u d d'.
Proof.
  intros Hd Hj Ho Ho' k'. rewrite Hd, lookup_insert. case_decide; [|by left]. subst. right.
  split; [intros ? [= <-]%(eq_trans (eq_sym Hj)); done | by exists j'].
Qed.

Lemma cancel_tx_own u k t d d' o :
  cu_role u = USER -> cancel_tx u k t d d' o ->
  only_own u d d' /\ forall p, o = Ok p -> jp_owner_id p = cu_id u.
Proof.
  intros Hr. induction 1 as [Hh|j Hj Hv Hs|j Hj Hv Hs|j at_ Hj Hv Hs|j at_ Hj Hv Hs Hc|m|d' r m HT IH];
    try (split; [by intros k'; left | done]);
    try (pose proof (visible_own u j Hr Hv) as Ho).
  - split; [by intros k'; left|]. by intros p [= <-].
  - split; [by eapply (only_own_update u d _ k j)|]. by intros p [= <-].
  - split; [by eapply (only_own_update u d _ k j)|]. by intros p [= <-].
  - split; [apply IH | done].
Qed.

Lemma create_tx_own `{DC : DispatchCodec} settings limit u key ty payload hash lo d n d' o :
  db_ok limit lo d -> create_tx settings (cu_id u) key ty payload hash lo d n d' o ->
  only_own u d d' /\ forall r, o = Ok r -> jp_owner_id (jc_job r) = cu_id u.
Proof.
  intros Hd HT.
  assert (HI : forall x j, inserted (cu_id u) key ty payload hash lo n d x j ->
    only_own u d x /\ j_owner_id j = cu_id u).
  { intros x j [k i t1 t2 t3 t4 t5 Hk Hi Hn Ht Hu ->]. split; [|done]. intros k'. cbn.
    rewrite lookup_insert. case_decide; [|by left]. subst. right. split; [|by eexists].
    intros j' Hj. assert (k' < lo) by (apply (ok_job_ids _ _ _ Hd); by eexists). lia. }
  destruct HT as [k j Hk Ho Hkey Hh|k j Hk Ho Hkey Hh|j x Hm Hin|e|j x e Hm Hin];
    try (split; [by intros k'; left | done]).
  - split; [by intros k'; left|]. by intros r [= <-].
  - destruct (HI _ _ Hin) as [H1 H2]. split; [done|]. by intros r [= <-].
  - destruct (HI _ _ Hin) as [H1 H2]. by split.
Qed.

(** The pages of a USER, read now or stored before. *)
Lemma page_own u c d n :
  cu_role u = USER -> Forall (fun p => jp_owner_id p = cu_id u) (pg_items (page_of (rest_after u c d) n)).
Proof.
  intros Hr. unfold page_of. cbn [pg_items]. rewrite Forall_fmap, Forall_forall.
  intros j Hj. apply subseteq_take, elem_of_rest in Hj as (_ & Hv & _). exact (visible_own u j Hr Hv).
Qed.

Section tenants.
Context `{DT : DatetimeText} `{EC : JobStatusEventCodec} `{PH : PasswordHash} `{PG : PgDriver} `{DC : DispatchCodec}.
Context `{RL : CreateJobRateLimiter} `{RLL : !RateLimiterLaws RL}.
Context `{JC : JobListCache} `{JCL : !JobListCacheLaws JC}.
Context `{N : WorkerPostCommitNotifier} `{NL : !NotifierLaws N}.
Context `{JR : JsonReader} `{IR : IsoReader} `{RS : RedisServer} (settings : Settings).

(** C14. Tenants are apart: a user with the role USER is shown only jobs of his own -
    by detail, log, event stream, creation and cancellation, and by the lists whether
    their pages come from the table or, in whatever run of requests, from Redis -, and
    what he does, whether it succeeds or not, changes no row of a job of anybody
    else. *)
Theorem tenant_isolation u w cs :
  cu_role u = USER -> reachable settings (mkSys w cs) ->
  let own p := jp_owner_id p = cu_id u in
  let own_id k := exists j, db_jobs (w_db w) !! k = Some j /\ j_owner_id j = cu_id u in
  (forall k p, fst (JobService.get_job_detail u k w) = Ok p -> own p) /\
  (forall k l, fst (JobService.list_job_logs u k w) = Ok l -> Forall (fun e => own_id (le_job_id e)) l) /\
  (forall k polls gone x, fst (stream_job_events u k polls gone w) = Ok x -> own_id k) /\
  (forall k o w', JobService.cancel_job u k w = (o, w') ->
    only_own u (w_db w) (w_db w') /\ forall p, o = Ok p -> own p) /\
  (forall key ty payload o w', JobService.create_job settings u key ty payload w = (o, w') ->
    only_own u (w_db w) (w_db w') /\ forall r, o = Ok r -> own (jc_job r)) /\
  (forall w0 rs st cur lim page, (forall o v c l, w_redis w0 !! _cache_key o v c l = None) ->
    rtc (run_step settings) (mkRun w0 [] []) (mkRun w rs st) -> uuid_ok (cu_id u) -> listable (w_db w) ->
    fst (list_jobs (JC := RedisJobListCache settings) u cur lim w) = Ok page ->
    Forall own (pg_items page)).
Proof using All.
  intros Hr HR own own_id. pose proof (reachable_inv _ _ HR) as I.
  pose proof (inv_db _ _ I) as H. pose proof (inv_env _ _ I) as He. cbn [sys_world] in H, He.
  assert (Hown : forall k j, db_jobs (w_db w) !! k = Some j -> visible u j = true -> own_id k).
  { intros k j Hj Hv. exists j. split; [done|]. by apply visible_own. }
  split; [|split; [|split; [|split; [|split] ] ] ].
  - intros k p. rewrite (job_detail_access _ u k _ w H He). cbn [fst].
    destruct (db_jobs (w_db w) !! k) as [j|]; [|done]. destruct (visible u j) eqn:Hv; [|done].
    intros [= <-]. exact (visible_own u j Hr Hv).
  - intros k l. destruct (job_logs_access _ u k _ w H He) as (o & -> & Ho). cbn [fst]. intros ->.
    destruct (db_jobs (w_db w) !! k) as [j|] eqn:Hj; [|done]. destruct (visible u j) eqn:Hv; [|done].
    destruct Ho as (x & [= ->] & _ & _ & Hx & _). rewrite Forall_fmap, Forall_forall. intros e Hin.
    destruct (Hx e Hin) as [He' _]. cbn. rewrite He'. by apply (Hown k j).
  - intros k polls gone x. unfold stream_job_events, mbind, M_bind.
    rewrite (job_detail_access _ u k _ w H He).
    destruct (db_jobs (w_db w) !! k) as [j|] eqn:Hj; [|done]. destruct (visible u j) eqn:Hv; [|done].
    intros _. by apply (Hown k j).
  - intros k o w' Hrun.
    destruct (wp_run_elim _ _ _ _ _ (cancel_job_refines _ u k _ w H He) Hrun) as (_ & HT).
    by eapply cancel_tx_own.
  - intros key ty payload o w' Hrun.
    destruct (wp_run_elim _ _ _ _ _ (create_job_refines settings _ u key ty payload w H
      (env_ok_nil _ w He)) Hrun) as (_ & d & lo & [_ Hd] & _ & _ & Hok & HT).
    rewrite (Hd He) in *. by eapply create_tx_own.
  - intros w0 rs st cur lim page H0 Hrun Hu Hl Hp.
    destruct (list_jobs (JC := RedisJobListCache settings) u cur lim w) as [o w'] eqn:E. cbn [fst] in Hp. subst o.
    assert (Hl' : listable (w_db (env_step w))) by by rewrite (env_step_nil w He).
    destruct (listed_page settings w rs st u cur lim page w' (run_ok_from settings w0 _ H0 Hrun) Hu Hl' E)
      as [(c & _ & ->)|(s & x & _ & _ & _ & _ & _ & ->)]; [by apply page_own|].
    unfold as_cached. cbn [pg_items]. rewrite Forall_fmap. by apply page_own.
Qed.

End tenants.

(** ** On concrete requests *)

#[local] Existing Instance still_server.

Definition register_body : json :=
  JObj [("email", JStr "Grace@Example.org"); ("password", JStr "hopper")].

Definition register_request : M Response := serve (Some "request-1") (post_register (Some register_body)).

Lemma requests_are_steps_witness :
  match fst (register_request sample_world) with Ok r => rs_status r | Exc _ => 0 end = 201 /\
  reachable sample_settings (mkSys (snd (register_request sample_world)) []).
Proof.
  split; [vm_compute; reflexivity|].
  refine (proj2 (requests_are_steps sample_settings Response register_request sample_world [] _ _)).
  - exact (at_serve _ _ _ (at_post_register _ _)).
  - exists (mkSys sample_world []). split; [exact sample_initial | reflexivity].
Defined.



Definition eve : CurrentUserDTO := mkCurrentUserDTO 2 "eve@example.org" USER true.

(** Job 100 is of user 1. *)
Lemma tenant_isolation_witness :
  fst (JobService.get_job_detail eve 100 sample_world1) = Exc not_found /\
  only_own eve (w_db sample_world1) (w_db (snd (JobService.cancel_job eve 100 sample_world1))) /\
  (forall p, fst (JobService.get_job_detail sample_current_user 100 sample_world1) = Ok p ->
    jp_owner_id p = 1).
Proof.
  split; [vm_compute; reflexivity|]. split.
  - destruct (tenant_isolation sample_settings eve sample_world1 [] eq_refl sample_reachable1)
      as (_ & _ & _ & Hc & _).
    exact (proj1 (Hc 100 _ _ (surjective_pairing _))).
  - destruct (tenant_isolation sample_settings sample_current_user sample_world1 [] eq_refl sample_reachable1)
      as (Hd & _). exact (Hd 100).
Defined.
